(* ===== verification/_CoqProject ===== *)
-Q . S2P
Prelude.v
CString.v
Pmm.v
Frames.v
Vmm.v
VmmSpec.v
VmmProps.v
VfsNode.v
Tmpfs.v
TmpfsSpec.v
VfsPath.v
Vfs.v
VfsSpec.v
ProcessData.v
Process.v
Lifecycle.v
Scheduler.v
ProcessInv.v
ProcessOps.v
LifecycleOps.v
ProcessProps.v
SchedulerProps.v
ExitProps.v
PreemptProps.v
Input.v
Tty.v
Fd.v
FdInv.v
FdTables.v
FdKernel.v
FdSyscalls.v
FdCalls.v
PipeSpec.v
FdProps.v
Cpu.v
Memory.v
MemorySpec.v
MemoryLoops.v
MemoryProps.v
MemoryHeap.v
Initrd.v
Blkdev.v
BlkdevSpec.v
Fips180.v
Credentials.v
Sha256Props.v
