(* ===== verification/Prelude.v ===== *)
(** * AOS: a verification development of the kernel

    AOS is a 64-bit x86 operating system written in C.  Its own code is the kernel
    ([src/kernel], [src/drivers], [src/arch], [src/include]) and a set of user programs
    ([src/userspace]); the rest of the repository is vendored software.  This library
    models the core of the kernel as executable Rocq definitions that follow the C
    functions line by line, and proves what makes each part correct.

    ** Parts of the program and the files that model them

    - Physical memory, [kernel/pmm.c]: [Pmm].  State: bitmap, reference counts, counters.
      [Frames] is the interface (a type class with laws) through which the virtual memory
      manager uses it; [Pmm] is an instance.
    - Virtual memory, [kernel/vmm.c]: [Vmm] has the operations on four-level page tables
      over an array of words; [VmmSpec] defines what the processor translates;
      [VmmProps] says what mapping, unmapping, protecting, copying and copy-on-write
      faults do to every translation.
    - Temporary file system, [kernel/tmpfs.c]: [VfsNode], [Tmpfs], and in [TmpfsSpec] an
      abstract tree of files with the refinement theorem.
    - Virtual file system, [kernel/vfs.c]: [VfsPath] (paths), [Vfs] (mount table, lookup,
      symbolic links, dispatch to back ends), [VfsSpec] (meaning of mounts and lookups).
      The temporary file system is the one of [Tmpfs]; other back ends are a class.
    - Processes, [kernel/process.c], [kernel/syscall/process_lifecycle.c] and [execve] in
      [kernel/syscall.c]: [ProcessData] (process control blocks, the class [Machine] of what
      the processes call elsewhere), [Process] (scheduler, preemption, [fork], [clone]),
      [Lifecycle] ([wait4], [exit], kill, pause, resume, [exec_initrd_program]).
      [Scheduler] has the order of selection, [ProcessInv], [ProcessOps] and
      [LifecycleOps] the ledger of address spaces, the invariant and its preservation,
      [ProcessProps], [SchedulerProps], [ExitProps] and [PreemptProps] the properties of
      runs.
    - Descriptors and inter-process communication, [kernel/syscall.c],
      [kernel/syscall/ipc.c] and parts of [network.c], [fs.c], [terminal_io.c]: [Fd]
      (objects, reference counts, operations on a table), [FdInv] and [FdTables] (counts
      are exact), [FdKernel] (the instance of [Machine] that joins descriptors and
      processes), [FdSyscalls] (calls of the running process, blocking reads and writes),
      [FdCalls], [PipeSpec] and [FdProps] (runs, pipes as queues).
    - [Cpu] joins the processes with the memory manager of [Vmm]: an instance of the
      class [Hardware] of [FdKernel] with real page tables, on which a run of [fork],
      [execve], [exit] and [wait4] is evaluated.
    - Memory system calls, [kernel/syscall/memory.c]: [Memory] ([brk], [mmap], [munmap],
      [mprotect] over [Vmm]), [MemorySpec] (what a user page holds), [MemoryLoops] (the page
      loops), [MemoryProps] and [MemoryHeap].
    - Input and terminal, [kernel/input.c] and [kernel/tty.c]: [Input], [Tty].
    - Boot archive, [kernel/initrd.c]: [Initrd].
    - Block devices, [kernel/blkdev.c]: [Blkdev], [BlkdevSpec].
    - Passwords, [kernel/credentials.c]: [Credentials]; [Fips180] is SHA-256 as FIPS 180-4
      defines it, [Sha256Props] shows that the code computes it.
    - [CString] has the C string helpers that each kernel file carries; this file has the
      machine integers, arrays, search functions and list lemmas they all use.

    ** How the code is represented

    An unsigned integer of width w is a [Z] and each wrap-around is written where the C
    code performs it ([u8], [u16], [u32], [u64]).  A pointer into a static table is an
    index, [NULL] is [None] or 0.  Handlers take and return the state; a handler that
    enters another process, stops the machine or returns has one of the [outcome]s of
    [ProcessData].  Arrays of large size are a default value with the cells written
    since ([arr]).  Messages on the serial port, TLB flushes and wiping of buffers have
    no effect on these states and are left out.

    What is not under [src], or belongs to a part that is not modelled, is an argument or a
    class: the network state of sockets ([Network], [NetworkSpec]), disk drivers
    ([driver_ok], [writer_ok]), the other file systems ([Backends]), the reading of a mapped
    file, the loader of programs ([exec_snapshot], [exec_open], [exec_load] of [Machine]).
    Each theorem with such a hypothesis has a witness at a concrete instance.  The machine of
    the processes ([Machine], and [Hardware] without the descriptors) is a class because the
    theorems hold for any: [MachineSpec] and [HardwareSpec] only say that the calls for
    address spaces are recorded, and [recorded] does so for every machine.  Stores through
    the pointers of [clone], which the code does not check, change the machine only.

    ** What the theorems show

    - Invariants of all runs: [process_table_invariant], [address_spaces_alive] (no use
      after free of page tables and no double free), [descriptor_counts_exact] (reference
      counts), [pmm_reserved_forever], [blkdev_table_invariant], [mmap_ranges_disjoint].
    - Refinements of abstract specifications: [tmpfs_refines], [vmm_cow_fault_spec],
      [vfs_mount_refines], [blkdev_refines_flat], [pipe_is_queue], [input_refines],
      [sha256_streaming].
    - Behaviour of operations on every branch: page tables, [fork], [exit] and [wait4],
      [mmap], [munmap], [mprotect], [brk], mounts, lookups through symbolic links
      ([vfs_lookup_resolves]), path normalisation, directory listings, terminal lines.
    - Round trips: archives, files, password hashes, and the registers of preempted
      processes ([preempt_resume_exact], whatever happens in between).
    - Liveness and termination: [scheduler_bounded_wait], [pmm_init_establishes],
      [vmm_prepare_user_write_spec].
    - Defects: theorems of kind error or bounds exhibit states where the code does not do
      what it means to (gaps in files, orphans, clobbered parents, restarted writes, a
      break that wraps).

    Runs are bounded by 2^32 - 3 operations where identifiers of processes matter: then the
    32-bit counter [next_pid] has not wrapped.

    ** Fuel

    Loops that are not structural have fuel that is shown to be enough: the walks over
    boot tags and archives ([pmm_init_establishes], [initrd_walks_terminate]), the
    symbolic links of a lookup (the code's own bound), sector loops (one round per byte
    left), and the mutual recursion that releases sockets queued in sockets, one level
    for each socket ([release_refs_ok]).

    ** Not modelled

    - The on-disk file systems ([aosfs.c], [fat32.c], [ext4.c]), [partition.c],
      [elf64_loader.c] with the stack of a new program, [session.c] and the remaining
      system calls.
    - Network protocols, wireless, Bluetooth and the drivers: they talk to hardware by
      ports and memory-mapped registers.
    - Interrupt and segment tables, assembly entry points, the panic screen.
    - User programs, and the vendored GNU tools, BusyBox and xz. *)

From Stdlib Require Export ZArith Lia Ascii.
From stdpp Require Export base list list_numbers gmap strings.

#[global] Open Scope Z_scope.

(** ** Machine integers

    A C unsigned integer of width [w] is a [Z] in [0 .. 2^w - 1]; the
    wrap-around of an operation is written where the source performs it. *)

Definition u8 (z : Z) : Z := z mod 2 ^ 8.
Definition u16 (z : Z) : Z := z mod 2 ^ 16.
Definition u32 (z : Z) : Z := z mod 2 ^ 32.
Definition u64 (z : Z) : Z := z mod 2 ^ 64.

Declare Scope aos_scope.
Delimit Scope aos_scope with aos.
Notation "a .& b" := (Z.land a b) (at level 38, left associativity) : aos_scope.
Notation "a .| b" := (Z.lor a b) (at level 39, left associativity) : aos_scope.
Notation "a .^ b" := (Z.lxor a b) (at level 39, left associativity) : aos_scope.
Notation "a .<< n" := (Z.shiftl a n) (at level 37, left associativity) : aos_scope.
Notation "a .>> n" := (Z.shiftr a n) (at level 37, left associativity) : aos_scope.
#[global] Open Scope aos_scope.

(** A C condition [(a & b) != 0]. *)
Definition flag (a b : Z) : bool := negb (a .& b =? 0).

(** An output pointer argument: the C code tests it against [NULL] and, when
    it is valid, the value stored through it is part of the model's result. *)
Inductive outptr := PtrNull | PtrValid.

Definition is_null (p : outptr) : bool :=
  match p with PtrNull => true | PtrValid => false end.

(** ** Big static arrays

    A C array of fixed, large length: a default cell value (what the last
    whole-array initialisation stored) and the cells written since. *)

Record arr := Arr { arr_dflt : Z; arr_cells : gmap Z Z }.

Definition arr_fill (v : Z) : arr := Arr v ∅.
Definition arr_get (a : arr) (i : Z) : Z := default (arr_dflt a) (arr_cells a !! i).
Definition arr_set (a : arr) (i v : Z) : arr := Arr (arr_dflt a) (<[i := v]> (arr_cells a)).

(** ** Counted loops

    [for_range lo hi step body s] is
    [for (i = lo; i < hi; i += step) s = body(i, s);] with a positive step and
    no overflow of the loop variable. *)

Definition range_iters (lo hi step : Z) : Z := Z.max 0 ((hi - lo + step - 1) / step).

Definition range_list (lo hi step : Z) : list Z :=
  (λ k, lo + k * step) <$> seqZ 0 (range_iters lo hi step).

Definition for_range {S} (lo hi step : Z) (body : Z → S → S) (s : S) : S :=
  foldl (λ s i, body i s) s (range_list lo hi step).

(** A loop over the same values that a [goto] or [return] can leave: the body says
    whether to go on. *)
Fixpoint for_break {S} (l : list Z) (body : Z → S → bool * S) (s : S) : bool * S :=
  match l with
  | [] => (true, s)
  | i :: l' =>
      match body i s with
      | (true, s') => for_break l' body s'
      | (false, s') => (false, s')
      end
  end.

(** [scan n i p]: the first index from [i] on, among [n] consecutive ones,
    that satisfies [p]: a loop with an early [return]. *)
Fixpoint scan (n : nat) (i : Z) (p : Z → bool) : option Z :=
  match n with
  | O => None
  | S n' => if p i then Some i else scan n' (i + 1) p
  end.

(** The index of the first cell of an array that satisfies [f]: the search loop
    [for (i = 0; i < N; i++) if (f(a[i])) return &a[i];]. *)
Fixpoint find_idx {A} (f : A → bool) (l : list A) : option nat :=
  match l with
  | [] => None
  | x :: l' => if f x then Some O else S <$> find_idx f l'
  end.

(** A C operation that either completes or reads or writes outside an object. *)
Inductive ub (A : Type) := Ok (a : A) | UB.
Arguments Ok {A} a.
Arguments UB {A}.

(** How many elements of a list satisfy a boolean predicate. *)
Fixpoint countb {A} (f : A → bool) (l : list A) : Z :=
  match l with
  | [] => 0
  | x :: l' => Z.b2z (f x) + countb f l'
  end.

(** ** Tactics *)

(** Splits every [if] on a boolean in the goal. *)
Ltac case_ifs :=
  repeat match goal with
  | |- context [if ?b then _ else _] =>
      lazymatch type of b with bool => destruct b eqn:? end
  end.

(** Turns boolean comparisons of hypotheses into propositions. *)
Ltac bool_to_prop :=
  repeat match goal with
  | H : andb _ _ = true |- _ => apply andb_true_iff in H as [??]
  | H : orb _ _ = false |- _ => apply orb_false_iff in H as [??]
  | H : negb _ = true |- _ => apply negb_true_iff in H
  | H : negb _ = false |- _ => apply negb_false_iff in H
  | H : (_ =? _) = true |- _ => apply Z.eqb_eq in H
  | H : (_ =? _) = false |- _ => apply Z.eqb_neq in H
  | H : (_ <? _) = true |- _ => apply Z.ltb_lt in H
  | H : (_ <? _) = false |- _ => apply Z.ltb_ge in H
  | H : (_ <=? _) = true |- _ => apply Z.leb_le in H
  | H : (_ <=? _) = false |- _ => apply Z.leb_gt in H
  end.

(** ** Lemmas on integers and bits *)

Lemma u8_small z : 0 ≤ z < 2 ^ 8 → u8 z = z.
Proof. apply Z.mod_small. Qed.
Lemma u16_small z : 0 ≤ z < 2 ^ 16 → u16 z = z.
Proof. apply Z.mod_small. Qed.
Lemma u32_small z : 0 ≤ z < 2 ^ 32 → u32 z = z.
Proof. apply Z.mod_small. Qed.
Lemma u64_small z : 0 ≤ z < 2 ^ 64 → u64 z = z.
Proof. apply Z.mod_small. Qed.
Lemma u64_range z : 0 ≤ u64 z < 2 ^ 64.
Proof. apply Z.mod_pos_bound; lia. Qed.
Lemma u32_range z : 0 ≤ u32 z < 2 ^ 32.
Proof. apply Z.mod_pos_bound; lia. Qed.

Create HintDb aos.
#[export] Hint Resolve u64_range u32_range : aos.

(** Testing the mask [1 << k] is testing bit [k]. *)
Lemma flag_bit a k : 0 ≤ k → flag a (1 .<< k) = Z.testbit a k.
Proof.
  intros Hk. unfold flag.
  replace (a .& 1 .<< k) with (if Z.testbit a k then 1 .<< k else 0).
  - destruct (Z.testbit a k); [|done].
    rewrite Z.shiftl_1_l. pose proof (Z.pow_pos_nonneg 2 k). 
    destruct (2 ^ k =? 0) eqn:E; [bool_to_prop; lia|done].
  - apply Z.bits_inj'. intros n Hn.
    rewrite Z.land_spec, Z.shiftl_1_l, Z.pow2_bits_eqb by lia.
    destruct (Z.eqb_spec k n) as [->|Hne].
    + destruct (Z.testbit a n); [|by rewrite Z.bits_0].
      by rewrite Z.pow2_bits_true.
    + destruct (Z.testbit a k); [|by rewrite Z.bits_0, andb_false_r].
      by rewrite Z.pow2_bits_false, andb_false_r.
Qed.

(** Clearing the low [k] bits of a 64-bit word. *)
Lemma land_high_mask k a :
  0 ≤ k ≤ 64 → 0 ≤ a < 2 ^ 64 → a .& (Z.ones (64 - k) .<< k) = a / 2 ^ k * 2 ^ k.
Proof.
  intros Hk Ha. rewrite <- Z.shiftr_div_pow2, <- Z.shiftl_mul_pow2 by lia.
  apply Z.bits_inj'. intros n Hn. rewrite Z.land_spec. destruct (decide (n < k)).
  - rewrite !Z.shiftl_spec_low by lia. by rewrite andb_false_r.
  - rewrite !Z.shiftl_spec, Z.shiftr_spec by lia. replace (n - k + k) with n by lia.
    destruct (decide (n < 64)).
    + rewrite Z.ones_spec_low by lia. by rewrite andb_true_r.
    + replace (Z.testbit a n) with false; [done|]. symmetry.
      destruct (decide (a = 0)) as [->|]; [apply Z.bits_0|].
      apply Z.bits_above_log2; [lia|]. apply Z.lt_le_trans with 64; [|lia].
      apply Z.log2_lt_pow2; lia.
Qed.

(** ** Lemmas on arrays *)

Lemma arr_get_fill v i : arr_get (arr_fill v) i = v.
Proof. unfold arr_get. simpl. by rewrite lookup_empty. Qed.

Lemma arr_get_set a i j v : arr_get (arr_set a i v) j = if decide (i = j) then v else arr_get a j.
Proof. unfold arr_get, arr_set. simpl. rewrite lookup_insert. by case_decide. Qed.

Lemma arr_get_set_eq a i v : arr_get (arr_set a i v) i = v.
Proof. rewrite arr_get_set. by rewrite decide_True. Qed.

Lemma arr_get_set_ne a i j v : i ≠ j → arr_get (arr_set a i v) j = arr_get a j.
Proof. intros. rewrite arr_get_set. by rewrite decide_False. Qed.

(** ** Lemmas on loops *)

Lemma elem_of_range_list i lo hi step :
  0 < step →
  i ∈ range_list lo hi step ↔ lo ≤ i < hi ∧ (step | i - lo).
Proof.
  intros Hstep. unfold range_list, range_iters. rewrite list_elem_of_fmap. split.
  - intros (k & -> & Hk%elem_of_seqZ).
    split; [|exists k; lia].
    assert (k < (hi - lo + step - 1) / step) by lia.
    pose proof (Z.mul_div_le (hi - lo + step - 1) step Hstep). nia.
  - intros [Hr [k Hk]]. exists k. split; [lia|].
    apply elem_of_seqZ.
    assert (k < (hi - lo + step - 1) / step); [|nia].
    apply Z.lt_le_trans with (k + 1); [lia|].
    apply Z.div_le_lower_bound; nia.
Qed.

(** Invariant rule for a counted loop. *)
Lemma for_range_ind {S} (P : S → Prop) lo hi step (body : Z → S → S) s :
  0 < step → P s →
  (∀ i s, lo ≤ i < hi → P s → P (body i s)) →
  P (for_range lo hi step body s).
Proof.
  intros Hstep Hs Hbody. unfold for_range.
  assert (Hin : ∀ i, i ∈ range_list lo hi step → lo ≤ i < hi).
  { intros i Hi. by apply elem_of_range_list in Hi as [??]. }
  revert s Hs Hin. generalize (range_list lo hi step) as l. clear -Hbody.
  induction l as [|i l IH]; intros s Hs Hin; simpl; [done|].
  apply IH; [|set_solver]. apply Hbody; [|done]. apply Hin. set_solver.
Qed.

(** Invariant rule for a loop from 0 by steps of 1, indexed by the loop variable. *)
Lemma for_range_index {S} (P : Z → S → Prop) n (body : Z → S → S) s :
  0 ≤ n → P 0 s →
  (∀ i s, 0 ≤ i < n → P i s → P (i + 1) (body i s)) →
  P n (for_range 0 n 1 body s).
Proof.
  intros Hn H0 Hbody. unfold for_range.
  assert (Hl : range_list 0 n 1 = seqZ 0 n).
  { unfold range_list, range_iters. rewrite Z.div_1_r, Z.max_r by lia.
    replace (n - 0 + 1 - 1) with n by lia.
    transitivity (id <$> seqZ 0 n); [|by rewrite list_fmap_id].
    apply list_fmap_ext. intros ? k _. unfold id. lia. }
  rewrite Hl. clear Hl.
  assert (Hgen : ∀ k, (0 ≤ k)%nat → Z.of_nat k ≤ n →
    P (Z.of_nat k) (foldl (λ s i, body i s) s (seqZ 0 (Z.of_nat k)))).
  { intros k _. induction k as [|k IH]; intros Hk; [done|].
    rewrite seqZ_S, foldl_app. simpl. rewrite Z.add_0_l.
    rewrite (Nat2Z.inj_succ k). unfold Z.succ.
    apply Hbody; [lia|]. apply IH. lia. }
  specialize (Hgen (Z.to_nat n)). rewrite Z2Nat.id in Hgen by lia. apply Hgen; lia.
Qed.

Lemma scan_Some n i p k :
  scan n i p = Some k ↔
  i ≤ k < i + Z.of_nat n ∧ p k = true ∧ ∀ j, i ≤ j < k → p j = false.
Proof.
  revert i. induction n as [|n IH]; intros i; simpl.
  { split; [done|lia]. }
  destruct (p i) eqn:Hp.
  - split.
    + intros [= <-]. split_and!; [lia..|done|lia].
    + intros (Hr & Hk & Hj). f_equal.
      destruct (decide (i = k)) as [|Hne]; [done|].
      rewrite (Hj i) in Hp by lia. done.
  - rewrite IH. split.
    + intros (Hr & Hk & Hj). split_and!; [lia..|done|].
      intros j Hij. destruct (decide (j = i)) as [->|]; [done|]. apply Hj. lia.
    + intros (Hr & Hk & Hj).
      assert (i ≠ k) by congruence.
      split_and!; [lia..|done|]. intros j Hij. apply Hj. lia.
Qed.

Lemma scan_None n i p :
  scan n i p = None ↔ ∀ j, i ≤ j < i + Z.of_nat n → p j = false.
Proof.
  revert i. induction n as [|n IH]; intros i; simpl.
  { split; [lia|done]. }
  destruct (p i) eqn:Hp.
  - split; [done|]. intros Hj. rewrite (Hj i) in Hp by lia. done.
  - rewrite IH. split.
    + intros Hj j Hr. destruct (decide (j = i)) as [->|]; [done|]. apply Hj. lia.
    + intros Hj j Hr. apply Hj. lia.
Qed.

(** ** Lemmas on counting *)

Lemma countb_ext {A} (f g : A → bool) l : (∀ x, x ∈ l → f x = g x) → countb f l = countb g l.
Proof.
  induction l as [|x l IH]; intros Hfg; simpl; [done|].
  rewrite (Hfg x), IH; [done|..]; set_solver.
Qed.

Lemma countb_bounds {A} (f : A → bool) l : 0 ≤ countb f l ≤ Z.of_nat (length l).
Proof. induction l as [|x l IH]; simpl; [lia|]. destruct (f x); simpl; lia. Qed.

Lemma countb_app {A} (f : A → bool) l k : countb f (l ++ k) = countb f l + countb f k.
Proof. induction l as [|x l IH]; simpl; lia. Qed.

Lemma countb_zero {A} (f : A → bool) l : countb f l = 0 ↔ ∀ x, x ∈ l → f x = false.
Proof.
  induction l as [|x l IH]; simpl; [set_solver|].
  pose proof (countb_bounds f l). split.
  - intros Heq y [Hyx|Hy]%elem_of_cons.
    + subst y. destruct (f x); simpl in *; [lia|done].
    + apply IH; [|done]. destruct (f x); simpl in *; lia.
  - intros Hf. rewrite (Hf x) by set_solver. simpl. apply IH. set_solver.
Qed.

(** Changing the predicate at one element of a duplicate-free list. *)
Lemma countb_upd {A} (f g : A → bool) l x :
  NoDup l → x ∈ l → (∀ y, y ∈ l → y ≠ x → g y = f y) →
  countb g l = countb f l + Z.b2z (g x) - Z.b2z (f x).
Proof.
  induction l as [|y l IH]; [set_solver|].
  intros [Hy Hnd]%NoDup_cons Hx Hfg. simpl.
  apply elem_of_cons in Hx as [->|Hx].
  - rewrite (countb_ext g f l); [lia|]. intros z Hz. apply Hfg; set_solver.
  - rewrite IH by set_solver. rewrite (Hfg y) by set_solver. lia.
Qed.

(** ** Lemmas on array searches *)

Lemma find_idx_Some {A} (f : A → bool) l i :
  find_idx f l = Some i ↔
  ∃ x, l !! i = Some x ∧ f x = true ∧ ∀ j y, (j < i)%nat → l !! j = Some y → f y = false.
Proof.
  revert i. induction l as [|x l IH]; intros i; simpl.
  { split; [done|]. by intros (? & ? & _). }
  destruct (f x) eqn:Hx.
  - split.
    + intros [= <-]. exists x. split_and!; [done..|lia].
    + intros (y & Hl & Hy & Hlow). destruct i; [done|].
      rewrite (Hlow 0%nat x) in Hx; [done|lia|done].
  - rewrite fmap_Some. setoid_rewrite IH. split.
    + intros (k & (y & Hl & Hy & Hlow) & ->). exists y. split_and!; [done..|].
      intros [|j] z Hj Hz; simpl in Hz; [congruence|]. apply (Hlow j); [lia|done].
    + intros (y & Hl & Hy & Hlow). destruct i as [|i]; [simpl in Hl; congruence|].
      exists i. split; [|done]. exists y. split_and!; [done..|].
      intros j z Hj Hz. apply (Hlow (S j)); [lia|done].
Qed.

Lemma find_idx_None {A} (f : A → bool) l :
  find_idx f l = None ↔ ∀ i x, l !! i = Some x → f x = false.
Proof.
  induction l as [|x l IH]; simpl.
  { split; [|done]. by intros _ i x. }
  destruct (f x) eqn:Hx.
  - split; [done|]. intros H. rewrite (H 0%nat x) in Hx; done.
  - rewrite fmap_None, IH. split.
    + intros H [|i] y Hy; simpl in Hy; [congruence|]. by eapply H.
    + intros H i y Hy. by apply (H (S i) y).
Qed.

Lemma existsb_false {A} (f : A → bool) l : existsb f l = false ↔ ∀ i x, l !! i = Some x → f x = false.
Proof.
  rewrite <- not_true_iff_false, existsb_exists. setoid_rewrite <- list_elem_of_In. split.
  - intros H i x Hx%list_elem_of_lookup_2. apply not_true_iff_false. intros Hf. by apply H; exists x.
  - intros H (x & [i Hx]%list_elem_of_lookup & Hf). by rewrite (H i x Hx) in Hf.
Qed.

Lemma find_idx_lt {A} (f : A → bool) l i : find_idx f l = Some i → (i < length l)%nat.
Proof. intros (x & Hl & _)%find_idx_Some. by eapply lookup_lt_Some. Qed.

(** ** Lemmas on [omap] *)

(** A partial image has no duplicates when no two positions agree on it. *)
Lemma NoDup_omap_lookup {A B} (g : A → option B) l :
  (∀ i j x y b, l !! i = Some x → l !! j = Some y → g x = Some b → g y = Some b → i = j) →
  NoDup (omap g l).
Proof.
  induction l as [|x l IH]; intros Hinj; csimpl; [constructor|].
  assert (NoDup (omap g l)).
  { apply IH. intros i j y z b Hi Hj Hy Hz.
    pose proof (Hinj (S i) (S j) y z b Hi Hj Hy Hz). lia. }
  destruct (g x) as [b|] eqn:Hx; [|done]. apply NoDup_cons. split; [|done].
  intros (y & Hy & Hgy)%list_elem_of_omap. apply list_elem_of_lookup in Hy as [j Hj].
  by pose proof (Hinj 0%nat (S j) x y b eq_refl Hj Hx Hgy).
Qed.

Lemma length_omap_full {A B} (g : A → option B) l :
  (∀ x, x ∈ l → is_Some (g x)) → length (omap g l) = length l.
Proof.
  induction l as [|x l IH]; intros Hg; csimpl; [done|].
  destruct (Hg x) as [b ->]; [set_solver|]. csimpl. rewrite IH; [done|set_solver].
Qed.

Lemma length_omap_partial {A B} (g : A → option B) l x :
  x ∈ l → g x = None → (length (omap g l) < length l)%nat.
Proof.
  induction l as [|y l IH]; csimpl; [set_solver|].
  assert (length (omap g l) ≤ length l)%nat.
  { clear. induction l as [|z l IH]; csimpl; [lia|]. destruct (g z); csimpl; lia. }
  intros [->|Hx]%elem_of_cons Hg.
  - rewrite Hg. lia.
  - specialize (IH Hx Hg). destruct (g y); csimpl; lia.
Qed.

Lemma find_idx_insert {A} (f : A → bool) l i x y :
  l !! i = Some x → f y = f x → find_idx f (<[i := y]> l) = find_idx f l.
Proof.
  revert i. induction l as [|z l IH]; intros [|i] Hl Hf; simplify_eq/=; [by rewrite Hf|].
  by rewrite IH.
Qed.
