(* ===== verification/CString.v ===== *)
(** * NUL-terminated strings

    A [const char*] is modelled by the characters before its terminating NUL; a
    pointer that the code compares with [NULL] is an [option].  Each kernel file
    carries its own static copies of these helpers ([local_strlen],
    [copy_string], [path_equals], ...); they are the same code and are modelled
    once. *)

From S2P Require Import Prelude.

Notation cstr := (list ascii).

Definition lit (s : string) : cstr := String.list_ascii_of_string s.
#[global] Arguments lit _ : simpl never.
Definition NUL : ascii := "000"%char.
Definition SLASH : ascii := "/"%char.

(** [s[i]] for an index up to and including the terminator. *)
Definition char_at (s : cstr) (i : nat) : ascii := default NUL (s !! i).

Definition local_strlen (s : cstr) : nat := length s.

(** [copy_string(dst, cap, src)]: copies at most [cap - 1] characters and
    terminates; with [cap = 0] nothing is stored. *)
Fixpoint copy_string (cap : nat) (src : cstr) : cstr :=
  match cap, src with
  | S (S _ as cap'), c :: src' => c :: copy_string cap' src'
  | _, _ => []
  end.

Fixpoint path_equals (a b : cstr) : bool :=
  match a, b with
  | [], [] => true
  | x :: a', y :: b' => if negb (bool_decide (x = y)) then false else path_equals a' b'
  | _, _ => false
  end.

(** [while ( *path == '/') path++] *)
Fixpoint skip_slashes (s : cstr) : cstr :=
  match s with
  | c :: s' => if bool_decide (c = SLASH) then skip_slashes s' else s
  | [] => []
  end.

(** [while (slash > 0 && path[slash - 1] != '/') slash--] from [slash = n]. *)
Fixpoint last_slash (s : cstr) (n : nat) : nat :=
  match n with
  | O => O
  | S m => if bool_decide (char_at s m = SLASH) then n else last_slash s m
  end.

(** The characters before the first slash, and what follows them. *)
Fixpoint component_len (s : cstr) : nat :=
  match s with
  | c :: s' => if bool_decide (c = SLASH) then O else S (component_len s')
  | [] => O
  end.

(** The string that starts a buffer: the characters before the first terminator. *)
Fixpoint c_string (s : cstr) : cstr :=
  match s with
  | c :: s' => if bool_decide (c = NUL) then [] else c :: c_string s'
  | [] => []
  end.

(** A string has no embedded terminator. *)
Definition nonul (s : cstr) : Prop := NUL ∉ s.

(** ** Lemmas *)

Lemma nonul_cons c s : nonul (c :: s) ↔ c ≠ NUL ∧ nonul s.
Proof. unfold nonul. rewrite not_elem_of_cons. naive_solver. Qed.

Lemma c_string_nonul s : NUL ∉ c_string s.
Proof.
  induction s as [|c s IH]; simpl; [apply not_elem_of_nil|]. case_bool_decide; [apply not_elem_of_nil|].
  by apply not_elem_of_cons.
Qed.

Lemma copy_string_take cap s : copy_string cap s = take (pred cap) s.
Proof.
  revert s. induction cap as [|cap IH]; intros s; [done|].
  destruct cap as [|cap]; [by destruct s|]. destruct s as [|c s]; [done|].
  change (c :: copy_string (S cap) s = c :: take cap s). f_equal. apply IH.
Qed.

Lemma copy_string_id cap s : (length s < cap)%nat → copy_string cap s = s.
Proof. intros H. rewrite copy_string_take. apply take_ge. lia. Qed.

Lemma path_equals_spec a b : path_equals a b = true ↔ a = b.
Proof.
  revert b. induction a as [|x a IH]; intros [|y b]; simpl; try done.
  case_bool_decide as Hxy; simpl.
  - rewrite IH. naive_solver.
  - naive_solver.
Qed.

Lemma path_equals_decide a b : path_equals a b = bool_decide (a = b).
Proof.
  pose proof (path_equals_spec a b) as [H1 H2]. case_bool_decide; [auto|].
  destruct (path_equals a b); [by destruct H; apply H1|done].
Qed.

Lemma path_equals_refl a : path_equals a a = true.
Proof. by apply path_equals_spec. Qed.

Lemma last_slash_le s n : (last_slash s n ≤ n)%nat.
Proof. induction n as [|n IH]; simpl; [lia|]. case_bool_decide; lia. Qed.

(** [last_slash] stops just after a slash, or at the start. *)
Lemma last_slash_spec s n :
  (last_slash s n = 0%nat ∨
   ∃ m, last_slash s n = S m ∧ char_at s m = SLASH) ∧
  ∀ k, (last_slash s n ≤ k < n)%nat → char_at s k ≠ SLASH.
Proof.
  induction n as [|n [IH1 IH2]]; simpl; [split; [by left|lia]|].
  case_bool_decide as Hc.
  - split; [|lia]. right. by exists n.
  - split; [done|]. intros k Hk. destruct (decide (k = n)) as [->|]; [done|].
    apply IH2. lia.
Qed.

Lemma char_at_lookup s i : (i < length s)%nat → s !! i = Some (char_at s i).
Proof.
  intros H. unfold char_at. destruct (lookup_lt_is_Some_2 s i H) as [c ->]. done.
Qed.

Lemma component_len_le s : (component_len s ≤ length s)%nat.
Proof. induction s as [|c s IH]; simpl; [lia|]. case_bool_decide; lia. Qed.

#[export] Hint Rewrite copy_string_take : aos.
