(* ===== verification/Pmm.v ===== *)
(** * Physical memory manager ([kernel/pmm.c])

    The frame allocator: a bitmap with one bit per 4 KiB block of the first
    GiB, a reference count per block, and the counters of total and free
    blocks.  [pmm_init] parses the Multiboot2 memory map; [pmm_alloc_block],
    [pmm_retain_block] and [pmm_free_block] are the run-time interface. *)

From S2P Require Import Prelude.

Definition ONE_GIB : Z := 1024 * 1024 * 1024.
Definition MAX_BLOCKS : Z := 262144.
Definition BITMAP_BYTES : Z := 32768.
Definition BLOCK_SIZE : Z := 4096.
Definition PAGE_MASK : Z := 0xFFFFFFFFFFFFF000.
Definition UINT16_MAX : Z := 65535.

(** The static variables of the file. *)
Record pmm := Pmm {
  pmm_bitmap : arr;
  pmm_refcounts : arr;
  total_blocks : Z;
  free_blocks : Z;
  oom_reported : bool
}.

Definition set_free (v : Z) (s : pmm) : pmm :=
  Pmm (pmm_bitmap s) (pmm_refcounts s) (total_blocks s) v (oom_reported s).
Definition set_total (v : Z) (s : pmm) : pmm :=
  Pmm (pmm_bitmap s) (pmm_refcounts s) v (free_blocks s) (oom_reported s).
Definition set_oom (v : bool) (s : pmm) : pmm :=
  Pmm (pmm_bitmap s) (pmm_refcounts s) (total_blocks s) (free_blocks s) v.
Definition set_refcount (b v : Z) (s : pmm) : pmm :=
  Pmm (pmm_bitmap s) (arr_set (pmm_refcounts s) b v) (total_blocks s) (free_blocks s)
    (oom_reported s).
Definition set_byte (i v : Z) (s : pmm) : pmm :=
  Pmm (arr_set (pmm_bitmap s) i v) (pmm_refcounts s) (total_blocks s) (free_blocks s)
    (oom_reported s).

(** ** Bits of the bitmap *)

Definition block_mask (block : Z) : Z := u8 (1 .<< (block mod 8)).

(** [pmm_bitmap[block / 8] & mask] *)
Definition block_used (s : pmm) (block : Z) : bool :=
  flag (arr_get (pmm_bitmap s) (block / 8)) (block_mask block).

(** [pmm_bitmap[block / 8] |= mask] *)
Definition set_bit (block : Z) (s : pmm) : pmm :=
  set_byte (block / 8) (arr_get (pmm_bitmap s) (block / 8) .| block_mask block) s.

(** [pmm_bitmap[block / 8] &= (uint8_t)~mask] *)
Definition clear_bit (block : Z) (s : pmm) : pmm :=
  set_byte (block / 8)
    (arr_get (pmm_bitmap s) (block / 8) .& u8 (Z.lnot (block_mask block))) s.

Definition refcount (s : pmm) (block : Z) : Z := arr_get (pmm_refcounts s) block.

(** ** Initialisation *)

(** Loop body of [mark_used_range], and of step 2 of [pmm_init]. *)
Definition mark_used (block : Z) (s : pmm) : pmm :=
  let s := if negb (block_used s block) && (0 <? free_blocks s)
           then set_free (free_blocks s - 1) s else s in
  set_bit block s.

(** Loop body of the two loops of [pmm_init] that release blocks. *)
Definition release_block (block : Z) (s : pmm) : pmm :=
  if block_used s block
  then set_free (u64 (free_blocks s + 1)) (clear_bit block s)
  else s.

Definition mark_used_range (start end_ : Z) (s : pmm) : pmm :=
  if end_ <=? start then s else
  let range_start := start .& PAGE_MASK in
  let range_end := u64 (end_ + 0xFFF) .& PAGE_MASK in
  if ONE_GIB <=? range_start then s else
  let range_end := if ONE_GIB <? range_end then ONE_GIB else range_end in
  for_range range_start range_end BLOCK_SIZE (λ addr, mark_used (addr / 4096)) s.

(** Little-endian loads from the boot-time memory image. *)
Definition ld32 (mem : Z → Z) (a : Z) : Z :=
  mem a + 2 ^ 8 * mem (a + 1) + 2 ^ 16 * mem (a + 2) + 2 ^ 24 * mem (a + 3).
Definition ld64 (mem : Z → Z) (a : Z) : Z := ld32 mem a + 2 ^ 32 * ld32 mem (a + 4).

Definition MULTIBOOT_TAG_TYPE_END : Z := 0.
Definition MULTIBOOT_TAG_TYPE_MODULE : Z := 3.
Definition MULTIBOOT_TAG_TYPE_MMAP : Z := 6.
Definition MULTIBOOT_MEMORY_AVAILABLE : Z := 1.

(** [struct multiboot_tag] and its variants, as loads at the tag's address. *)
Definition tag_type (mem : Z → Z) (tag : Z) : Z := ld32 mem tag.
Definition tag_size (mem : Z → Z) (tag : Z) : Z := ld32 mem (tag + 4).
Definition mmap_entry_size (mem : Z → Z) (tag : Z) : Z := ld32 mem (tag + 8).
Definition mmap_entries (tag : Z) : Z := tag + 16.
Definition entry_addr (mem : Z → Z) (entry : Z) : Z := ld64 mem entry.
Definition entry_len (mem : Z → Z) (entry : Z) : Z := ld64 mem (entry + 8).
Definition entry_type (mem : Z → Z) (entry : Z) : Z := ld32 mem (entry + 16).
Definition mod_start (mem : Z → Z) (tag : Z) : Z := ld32 mem (tag + 8).
Definition mod_end (mem : Z → Z) (tag : Z) : Z := ld32 mem (tag + 12).

(** [(uint8_t* )tag + ((tag->size + 7) & ~7)], the sum in 32 bits. *)
Definition next_tag (mem : Z → Z) (tag : Z) : Z :=
  u64 (tag + (u32 (tag_size mem tag + 7) .& 0xFFFFFFF8)).

(** The tag walk; a tag of size 0 makes the C loop diverge, which is [None]
    for every fuel. *)
Fixpoint for_tags {S} (fuel : nat) (mem : Z → Z) (tag : Z) (body : Z → S → option S) (s : S)
    : option S :=
  match fuel with
  | O => None
  | S fuel' =>
      if tag_type mem tag =? MULTIBOOT_TAG_TYPE_END then Some s
      else match body tag s with
           | Some s' => for_tags fuel' mem (next_tag mem tag) body s'
           | None => None
           end
  end.

(** One available entry of the memory map. *)
Definition add_region (addr len : Z) (s : pmm) : pmm :=
  let entry_end := u64 (addr + len) in
  let capped_end := if ONE_GIB <? entry_end then ONE_GIB else entry_end in
  let s := if u64 (total_blocks s * 4096) <? capped_end
           then set_total (u64 (capped_end + 4095) / 4096) s else s in
  (* the loop breaks at the first address at or above 1 GiB *)
  for_range addr (Z.min entry_end ONE_GIB) BLOCK_SIZE (λ a, release_block (a / 4096)) s.

Fixpoint for_entries (fuel : nat) (mem : Z → Z) (tag entry : Z) (s : pmm) : option pmm :=
  match fuel with
  | O => None
  | S fuel' =>
      if entry <? u64 (tag + tag_size mem tag) then
        let s := if entry_type mem entry =? MULTIBOOT_MEMORY_AVAILABLE
                 then add_region (entry_addr mem entry) (entry_len mem entry) s else s in
        for_entries fuel' mem tag (u64 (entry + mmap_entry_size mem tag)) s
      else Some s
  end.

(** First pass over the tags; the state carries [found_mmap]. *)
Definition mmap_pass (fuel : nat) (mem : Z → Z) (tag : Z) (st : bool * pmm)
    : option (bool * pmm) :=
  if tag_type mem tag =? MULTIBOOT_TAG_TYPE_MMAP
  then match for_entries fuel mem tag (mmap_entries tag) st.2 with
       | Some s => Some (true, s)
       | None => None
       end
  else Some st.

(** Last pass: boot modules are marked used. *)
Definition module_pass (mem : Z → Z) (tag : Z) (s : pmm) : option pmm :=
  if tag_type mem tag =? MULTIBOOT_TAG_TYPE_MODULE
  then Some (mark_used_range (mod_start mem tag) (mod_end mem tag) s)
  else Some s.

Definition pmm_init (fuel : nat) (mem : Z → Z) (kernel_start kernel_end mb_info : Z)
    : option pmm :=
  let s := Pmm (arr_fill 0xFF) (arr_fill 0) 0 0 false in
  match for_tags fuel mem (u64 (mb_info + 8)) (mmap_pass fuel mem) (false, s) with
  | None => None
  | Some (found_mmap, s) =>
      let s :=
        if negb found_mmap
        then for_range 0 32768 1 release_block (set_total 32768 s)
        else if total_blocks s =? 0 then set_total MAX_BLOCKS s else s in
      let s := for_range 0 256 1 mark_used s in
      let s := mark_used_range kernel_start kernel_end s in
      let mb_total_size := ld32 mem mb_info in
      let s := if (8 <=? mb_total_size) && (mb_total_size <? 1024 * 1024)
               then mark_used_range mb_info (u64 (mb_info + mb_total_size)) s else s in
      for_tags fuel mem (u64 (mb_info + 8)) (module_pass mem) s
  end.

(** ** Run-time operations

    A block address is returned as [Some address]; [None] is [NULL]. *)

Definition pmm_alloc_block (s : pmm) : option Z * pmm :=
  match scan (Z.to_nat (total_blocks s)) 0 (λ i, negb (block_used s i)) with
  | Some i =>
      let s := set_refcount i 1 (set_bit i s) in
      let s := if 0 <? free_blocks s then set_free (free_blocks s - 1) s else s in
      (Some (i * 4096), set_oom false s)
  | None => (None, if oom_reported s then s else set_oom true s)
  end.

(** Returns [false] for the error code -1. *)
Definition pmm_retain_block (addr : Z) (s : pmm) : bool * pmm :=
  let block := addr / 4096 in
  if flag addr 0xFFF || (total_blocks s <=? block) then (false, s)
  else if negb (block_used s block) || (refcount s block =? 0)
          || (refcount s block =? UINT16_MAX) then (false, s)
  else (true, set_refcount block (u16 (refcount s block + 1)) s).

Definition pmm_free_block (addr : Z) (s : pmm) : pmm :=
  let block := addr / 4096 in
  if flag addr 0xFFF || (total_blocks s <=? block) || (refcount s block =? 0) then s
  else if 1 <? refcount s block then set_refcount block (refcount s block - 1) s
  else
    let s := set_refcount block 0 s in
    if block_used s block
    then set_oom false (set_free (u64 (free_blocks s + 1)) (clear_bit block s))
    else s.

Definition pmm_block_refcount (addr : Z) (s : pmm) : Z :=
  let block := addr / 4096 in
  if flag addr 0xFFF || (total_blocks s <=? block) then 0 else refcount s block.

Definition pmm_total_memory (s : pmm) : Z := u64 (total_blocks s * 4096).
Definition pmm_free_memory (s : pmm) : Z := u64 (free_blocks s * 4096).
Definition pmm_used_memory (s : pmm) : Z := u64 (pmm_total_memory s - pmm_free_memory s).

(** ** Well-formedness *)

Definition free_count (s : pmm) : Z :=
  countb (λ b, negb (block_used s b)) (seqZ 0 MAX_BLOCKS).

Record pmm_wf (s : pmm) : Prop := {
  wf_byte : ∀ i, 0 ≤ arr_get (pmm_bitmap s) i < 2 ^ 8;
  wf_total : 0 ≤ total_blocks s ≤ MAX_BLOCKS;
  wf_free : free_blocks s = free_count s;
  wf_refcount : ∀ b, 0 ≤ refcount s b ≤ UINT16_MAX;
  wf_allocated : ∀ b, refcount s b ≠ 0 → block_used s b = true;
  wf_beyond : ∀ b, total_blocks s ≤ b < MAX_BLOCKS → block_used s b = true
}.

(** A block that is marked used but was never handed out: the BIOS area, the
    kernel image, the boot information, the modules. *)
Definition reserved (s : pmm) (b : Z) : Prop := block_used s b = true ∧ refcount s b = 0.

Definition low_reserved (s : pmm) : Prop := ∀ b, 0 ≤ b < 256 → reserved s b.

(** One call of the run-time interface. *)
Inductive pmm_step : pmm → pmm → Prop :=
| step_alloc s r s' : pmm_alloc_block s = (r, s') → pmm_step s s'
| step_retain s a r s' : 0 ≤ a → pmm_retain_block a s = (r, s') → pmm_step s s'
| step_free s a : 0 ≤ a → pmm_step s (pmm_free_block a s).

(** ** Bit-level lemmas *)

Lemma block_mask_shift b : block_mask b = 1 .<< (b mod 8).
Proof.
  unfold block_mask. apply u8_small. rewrite Z.shiftl_1_l.
  pose proof (Z.mod_pos_bound b 8 ltac:(lia)).
  split; [apply Z.pow_nonneg; lia|]. apply Z.pow_lt_mono_r; lia.
Qed.

Lemma block_used_testbit s b :
  block_used s b = Z.testbit (arr_get (pmm_bitmap s) (b / 8)) (b mod 8).
Proof.
  unfold block_used. rewrite block_mask_shift, flag_bit; [done|].
  apply Z.mod_pos_bound. lia.
Qed.

(** Two blocks share a byte and a bit only if they are equal. *)
Lemma same_bit b c : b / 8 = c / 8 → b mod 8 = c mod 8 → b = c.
Proof. intros. rewrite (Z.div_mod b 8), (Z.div_mod c 8); lia. Qed.

Lemma block_used_set_bit s b c :
  block_used (set_bit b s) c = (if decide (b = c) then true else block_used s c).
Proof.
  rewrite !block_used_testbit. unfold set_bit, set_byte. simpl.
  pose proof (Z.mod_pos_bound b 8 ltac:(lia)). pose proof (Z.mod_pos_bound c 8 ltac:(lia)).
  rewrite arr_get_set. case_decide as Hbyte.
  - rewrite <- Hbyte, Z.lor_spec, block_mask_shift, Z.shiftl_1_l, Z.pow2_bits_eqb by lia.
    case_decide as Hbc.
    + subst. by rewrite Z.eqb_refl, orb_true_r.
    + destruct (Z.eqb_spec (b mod 8) (c mod 8)) as [E|E]; [|by rewrite orb_false_r].
      destruct Hbc. by apply same_bit.
  - case_decide; [congruence|done].
Qed.

Lemma block_used_clear_bit s b c :
  (∀ i, 0 ≤ arr_get (pmm_bitmap s) i < 2 ^ 8) →
  block_used (clear_bit b s) c = (if decide (b = c) then false else block_used s c).
Proof.
  intros Hbyte8. rewrite !block_used_testbit. unfold clear_bit, set_byte. simpl.
  pose proof (Z.mod_pos_bound b 8 ltac:(lia)). pose proof (Z.mod_pos_bound c 8 ltac:(lia)).
  rewrite arr_get_set. case_decide as Hbyte.
  - unfold u8. rewrite <- Hbyte, Z.land_spec, Z.mod_pow2_bits_low, Z.lnot_spec by lia.
    rewrite block_mask_shift, Z.shiftl_1_l, Z.pow2_bits_eqb by lia.
    case_decide as Hbc.
    + subst. by rewrite Z.eqb_refl, andb_false_r.
    + destruct (Z.eqb_spec (b mod 8) (c mod 8)) as [E|E]; [|by rewrite andb_true_r].
      destruct Hbc. by apply same_bit.
  - case_decide; [congruence|done].
Qed.

Lemma land_byte_range a m : 0 ≤ a < 2 ^ 8 → 0 ≤ a .& u8 m < 2 ^ 8.
Proof.
  intros Ha. unfold u8. rewrite <- Z.land_ones, Z.land_assoc, Z.land_ones by lia.
  apply Z.mod_pos_bound. lia.
Qed.

Lemma lor_byte_range a b : 0 ≤ a < 2 ^ 8 → 0 ≤ a .| block_mask b < 2 ^ 8.
Proof.
  intros Ha. assert (a .| block_mask b = (a .| block_mask b) mod 2 ^ 8) as ->.
  { rewrite <- !Z.land_ones by lia. unfold block_mask, u8.
    rewrite <- Z.land_ones by lia. rewrite Z.land_lor_distr_l.
    rewrite <- Z.land_assoc, Z.land_diag. f_equal.
    rewrite Z.land_ones by lia. symmetry. by apply Z.mod_small. }
  apply Z.mod_pos_bound. lia.
Qed.

(** ** Counting free blocks *)

Lemma free_count_pointwise s s' b v :
  0 ≤ b < MAX_BLOCKS →
  (∀ c, block_used s' c = if decide (b = c) then v else block_used s c) →
  free_count s' = free_count s + Z.b2z (negb v) - Z.b2z (negb (block_used s b)).
Proof.
  intros Hb Hs'. unfold free_count.
  rewrite (countb_upd (λ b, negb (block_used s b)) _ _ b).
  - rewrite Hs', decide_True by done. done.
  - apply NoDup_seqZ.
  - apply elem_of_seqZ. lia.
  - intros c _ Hc. rewrite Hs', decide_False by done. done.
Qed.

Lemma free_count_ext s s' :
  (∀ c, block_used s' c = block_used s c) → free_count s' = free_count s.
Proof. intros H. apply countb_ext. intros b _. by rewrite H. Qed.

Lemma free_count_bounds s : 0 ≤ free_count s ≤ MAX_BLOCKS.
Proof.
  unfold free_count.
  pose proof (countb_bounds (λ b, negb (block_used s b)) (seqZ 0 MAX_BLOCKS)) as H.
  rewrite length_seqZ in H. unfold MAX_BLOCKS in *. lia.
Qed.

Lemma free_count_pos s b :
  0 ≤ b < MAX_BLOCKS → block_used s b = false → 0 < free_count s.
Proof.
  intros Hb Hu. pose proof (free_count_bounds s).
  assert (free_count s ≠ 0); [|lia].
  unfold free_count. rewrite countb_zero. intros Hall.
  specialize (Hall b). rewrite Hu in Hall. simpl in Hall.
  rewrite elem_of_seqZ in Hall. by specialize (Hall ltac:(lia)).
Qed.

(** ** Preservation by the bit-level updates *)

Lemma refcount_set s b v c :
  refcount (set_refcount b v s) c = if decide (b = c) then v else refcount s c.
Proof. unfold refcount, set_refcount. simpl. apply arr_get_set. Qed.

Lemma block_used_set_free v s b : block_used (set_free v s) b = block_used s b.
Proof. done. Qed.

Lemma mark_used_used s b c :
  block_used (mark_used b s) c = (if decide (b = c) then true else block_used s c).
Proof. unfold mark_used. case_ifs; by rewrite block_used_set_bit. Qed.

Lemma mark_used_refcount s b c : refcount (mark_used b s) c = refcount s c.
Proof. unfold mark_used. by case_ifs. Qed.

Lemma mark_used_total s b : total_blocks (mark_used b s) = total_blocks s.
Proof. unfold mark_used. by case_ifs. Qed.

Lemma mark_used_free s b :
  pmm_wf s → 0 ≤ b < MAX_BLOCKS →
  free_blocks (mark_used b s) = free_blocks s - Z.b2z (negb (block_used s b)).
Proof.
  intros Hwf Hb. unfold mark_used.
  destruct (block_used s b) eqn:Hu; simpl; [lia|].
  pose proof (free_count_pos s b Hb Hu) as Hpos. rewrite <- (wf_free _ Hwf) in Hpos.
  rewrite (proj2 (Z.ltb_lt _ _) Hpos). simpl. lia.
Qed.

Lemma mark_used_wf s b : pmm_wf s → 0 ≤ b < MAX_BLOCKS → pmm_wf (mark_used b s).
Proof.
  intros Hwf Hb. split.
  - intros i. unfold mark_used. case_ifs; unfold set_bit, set_byte; simpl;
      rewrite arr_get_set; case_decide; try apply lor_byte_range; apply (wf_byte _ Hwf).
  - rewrite mark_used_total. apply (wf_total _ Hwf).
  - rewrite mark_used_free, (wf_free _ Hwf) by done.
    rewrite (free_count_pointwise s (mark_used b s) b true); [simpl; lia|done|].
    intros c. apply mark_used_used.
  - intros c. rewrite mark_used_refcount. apply (wf_refcount _ Hwf).
  - intros c. rewrite mark_used_refcount, mark_used_used. case_decide; [done|].
    apply (wf_allocated _ Hwf).
  - intros c. rewrite mark_used_total, mark_used_used. case_decide; [done|].
    apply (wf_beyond _ Hwf).
Qed.

Lemma release_block_used s b c :
  pmm_wf s →
  block_used (release_block b s) c = (if decide (b = c) then false else block_used s c).
Proof.
  intros Hwf. unfold release_block. destruct (block_used s b) eqn:Hu.
  - apply block_used_clear_bit, (wf_byte _ Hwf).
  - case_decide; by subst.
Qed.

Lemma release_block_wf s b :
  pmm_wf s → refcount s b = 0 → 0 ≤ b < total_blocks s → pmm_wf (release_block b s).
Proof.
  intros Hwf Hrc Hb. pose proof (wf_total _ Hwf) as Ht.
  assert (Hrc' : ∀ c, refcount (release_block b s) c = refcount s c)
    by (intros c; unfold release_block; by case_ifs).
  assert (Ht' : total_blocks (release_block b s) = total_blocks s)
    by (unfold release_block; by case_ifs).
  split.
  - intros i. unfold release_block. case_ifs; [|apply (wf_byte _ Hwf)].
    simpl. rewrite arr_get_set. case_decide; [apply land_byte_range|]; apply (wf_byte _ Hwf).
  - by rewrite Ht'.
  - rewrite (free_count_pointwise s (release_block b s) b false) by
      (lia || (intros; by apply release_block_used)).
    unfold release_block. destruct (block_used s b) eqn:Hu; simpl;
      rewrite (wf_free _ Hwf); [|lia].
    pose proof (free_count_bounds s). unfold MAX_BLOCKS in *. rewrite u64_small; lia.
  - intros c. rewrite Hrc'. apply (wf_refcount _ Hwf).
  - intros c. rewrite Hrc', release_block_used by done.
    case_decide; [by subst|]. apply (wf_allocated _ Hwf).
  - intros c. rewrite Ht', release_block_used by done.
    case_decide; [lia|]. apply (wf_beyond _ Hwf).
Qed.

(** ** Initialisation establishes the invariant *)

Lemma land_page_mask a : 0 ≤ a < 2 ^ 64 → a .& PAGE_MASK = a / 4096 * 4096.
Proof. intros Ha. by apply (land_high_mask 12). Qed.

Definition boot_inv (s : pmm) : Prop := pmm_wf s ∧ ∀ b, refcount s b = 0.

Lemma mark_used_range_ind (P : pmm → Prop) start end_ s :
  0 ≤ start < 2 ^ 64 → P s →
  (∀ b s, 0 ≤ b < MAX_BLOCKS → P s → P (mark_used b s)) →
  P (mark_used_range start end_ s).
Proof.
  intros Hs HP Hmark. unfold mark_used_range. case_ifs; try done.
  all: apply for_range_ind; [done|done|]; intros a s' Ha HP'; apply Hmark; [|done].
  all: rewrite land_page_mask in Ha by done; unfold ONE_GIB, MAX_BLOCKS in *; bool_to_prop.
  all: pose proof (Z.div_pos start 4096 ltac:(lia) ltac:(lia)).
  all: split; [apply Z.div_pos; lia|apply Z.div_lt_upper_bound; lia].
Qed.

Lemma for_tags_ind {S} (P : S → Prop) fuel mem tag (body : Z → S → option S) s s' :
  P s → (∀ tag s s', P s → body tag s = Some s' → P s') →
  for_tags fuel mem tag body s = Some s' → P s'.
Proof.
  intros Hs Hbody. revert tag s Hs. induction fuel as [|fuel IH]; intros tag s Hs; [done|].
  simpl. case_ifs; [by intros [= <-]|].
  destruct (body tag s) eqn:Hb; [|done]. apply IH. eauto.
Qed.

Lemma boot_inv_mark s b : boot_inv s → 0 ≤ b < MAX_BLOCKS → boot_inv (mark_used b s).
Proof.
  intros [Hwf Hrc] Hb. split; [by apply mark_used_wf|].
  intros c. by rewrite mark_used_refcount.
Qed.

Lemma boot_inv_release s b : boot_inv s → 0 ≤ b < total_blocks s → boot_inv (release_block b s).
Proof.
  intros [Hwf Hrc] Hb. split; [by apply release_block_wf|].
  intros c. unfold release_block. case_ifs; apply Hrc.
Qed.

Lemma boot_inv_set_total s t :
  boot_inv s → total_blocks s ≤ t ≤ MAX_BLOCKS → boot_inv (set_total t s).
Proof.
  intros [Hwf Hrc] Ht. split; [|done].
  pose proof (wf_total _ Hwf). destruct Hwf as [H1 H2 H3 H4 H5 H6].
  split; [exact H1|simpl; lia|by rewrite (free_count_ext s)|exact H4|exact H5|].
  intros b Hb. apply H6. simpl in Hb. lia.
Qed.

Lemma release_block_total s b : total_blocks (release_block b s) = total_blocks s.
Proof. unfold release_block. by case_ifs. Qed.

Lemma add_region_inv addr len s :
  0 ≤ addr → boot_inv s → boot_inv (add_region addr len s).
Proof.
  intros Ha HI. unfold add_region.
  set (e := u64 (addr + len)). set (cap := if ONE_GIB <? e then ONE_GIB else e).
  assert (Hcap : cap = Z.min e ONE_GIB)
    by (unfold cap; destruct (ONE_GIB <? e) eqn:?; bool_to_prop; lia).
  pose proof (u64_range (addr + len)) as He. fold e in He.
  pose proof (wf_total _ (proj1 HI)) as Ht.
  unfold MAX_BLOCKS, ONE_GIB in *.
  rewrite (u64_small (total_blocks s * 4096)), (u64_small (cap + 4095)) by lia.
  clearbody cap. clearbody e.
  set (s1 := if _ <? _ then _ else _).
  assert (Hs1 : boot_inv s1 ∧ cap ≤ total_blocks s1 * 4096).
  { unfold s1. destruct (_ <? cap) eqn:E; bool_to_prop; [|split; [exact HI|lia]].
    pose proof (Z.mul_div_le (cap + 4095) 4096 ltac:(lia)).
    pose proof (Z.mul_succ_div_gt (cap + 4095) 4096 ltac:(lia)).
    split; [apply boot_inv_set_total; [done|unfold MAX_BLOCKS; lia]|simpl; lia]. }
  clearbody s1. rewrite <- Hcap. destruct Hs1 as [Hs1 Hc].
  apply (for_range_ind (λ s', boot_inv s' ∧ cap ≤ total_blocks s' * 4096)); [done|done|].
  intros a s' Hr [HI' Hc']. rewrite release_block_total. split; [|done].
  apply boot_inv_release; [done|].
  split; [apply Z.div_pos; lia|apply Z.div_lt_upper_bound; lia].
Qed.

Section init.
Context (mem : Z → Z) (Hmem : ∀ a, 0 ≤ mem a < 2 ^ 8).

Lemma ld32_range a : 0 ≤ ld32 mem a < 2 ^ 32.
Proof.
  unfold ld32. pose proof (Hmem a). pose proof (Hmem (a + 1)).
  pose proof (Hmem (a + 2)). pose proof (Hmem (a + 3)). lia.
Qed.

Lemma ld64_range a : 0 ≤ ld64 mem a < 2 ^ 64.
Proof.
  unfold ld64. pose proof (ld32_range a). pose proof (ld32_range (a + 4)). lia.
Qed.

Lemma for_entries_inv fuel tag entry s s' :
  boot_inv s → for_entries fuel mem tag entry s = Some s' → boot_inv s'.
Proof.
  revert entry s. induction fuel as [|fuel IH]; intros entry s Hs; [done|].
  simpl. case_ifs.
  - apply IH, add_region_inv; [|done]. apply ld64_range.
  - by apply IH.
  - by intros [= <-].
Qed.

Lemma mmap_pass_inv fuel tag st st' :
  boot_inv st.2 → mmap_pass fuel mem tag st = Some st' → boot_inv st'.2.
Proof.
  unfold mmap_pass. intros Hs. case_ifs; [|by intros [= <-]].
  destruct (for_entries _ _ _ _ _) eqn:E; [|done]. intros [= <-].
  by eapply for_entries_inv.
Qed.

Lemma boot_state_inv : boot_inv (Pmm (arr_fill 0xFF) (arr_fill 0) 0 0 false).
Proof.
  assert (Hall : ∀ b, block_used (Pmm (arr_fill 0xFF) (arr_fill 0) 0 0 false) b = true).
  { intros b. rewrite block_used_testbit. simpl. rewrite arr_get_fill.
    change 0xFF with (Z.ones 8). pose proof (Z.mod_pos_bound b 8 ltac:(lia)).
    by rewrite Z.ones_spec_low by lia. }
  assert (Hrc : ∀ b, refcount (Pmm (arr_fill 0xFF) (arr_fill 0) 0 0 false) b = 0).
  { intros b. unfold refcount. simpl. apply arr_get_fill. }
  split; [|exact Hrc]. split.
  - intros i. simpl. rewrite arr_get_fill. lia.
  - simpl. unfold MAX_BLOCKS. lia.
  - symmetry. apply countb_zero. intros b _. by rewrite Hall.
  - intros b. rewrite Hrc. unfold UINT16_MAX. lia.
  - intros b. by rewrite Hrc.
  - intros b _. apply Hall.
Qed.

(** Marking keeps the boot invariant and everything already marked. *)
Definition marked_inv (low : Z) (s : pmm) : Prop :=
  boot_inv s ∧ ∀ b, 0 ≤ b < low → block_used s b = true.

Lemma marked_inv_mark low s b :
  0 ≤ b < MAX_BLOCKS → marked_inv low s → marked_inv low (mark_used b s).
Proof.
  intros Hb [HI Hlow]. split; [by apply boot_inv_mark|].
  intros c Hc. rewrite mark_used_used. case_decide; auto.
Qed.

Lemma mark_low_inv s : boot_inv s → marked_inv 256 (for_range 0 256 1 mark_used s).
Proof.
  intros HI.
  assert (Hgen : ∀ l s, boot_inv s → (∀ b, b ∈ l → 0 ≤ b < MAX_BLOCKS) →
    let s' := foldl (λ s i, mark_used i s) s l in
    boot_inv s' ∧ (∀ b, b ∈ l ∨ block_used s b = true → block_used s' b = true)).
  { induction l as [|b l IH]; intros t Ht Hl; simpl; [split; [done|set_solver]|].
    destruct (IH (mark_used b t)) as [H1 H2].
    - apply boot_inv_mark; [done|]. apply Hl. set_solver.
    - set_solver.
    - split; [done|]. intros c Hc. apply H2. rewrite mark_used_used.
      case_decide; [by right|]. set_solver. }
  destruct (Hgen (range_list 0 256 1) s HI) as [H1 H2].
  - intros b [Hb _]%elem_of_range_list; [|done]. unfold MAX_BLOCKS. lia.
  - split; [done|]. intros b Hb. apply H2. left. apply elem_of_range_list; [done|].
    split; [lia|]. exists b. lia.
Qed.

Lemma fallback_inv s :
  boot_inv s → total_blocks s ≤ 32768 →
  boot_inv (for_range 0 32768 1 release_block (set_total 32768 s)).
Proof.
  intros HI Ht.
  apply (for_range_ind (λ s, boot_inv s ∧ total_blocks s = 32768)); [done|..].
  - split; [|done]. apply boot_inv_set_total; [done|]. unfold MAX_BLOCKS. lia.
  - intros i s' Hi [HI' Ht']. rewrite release_block_total. split; [|done].
    apply boot_inv_release; [done|lia].
Qed.

(** The walk reaches the state with [found_mmap] false only if nothing was added. *)
Lemma mmap_pass_total fuel tag st st' :
  (st.1 = false → total_blocks st.2 = 0) → mmap_pass fuel mem tag st = Some st' →
  (st'.1 = false → total_blocks st'.2 = 0).
Proof.
  unfold mmap_pass. intros Hs. case_ifs; [|by intros [= <-]].
  destruct (for_entries _ _ _ _ _) eqn:E; [|done]. by intros [= <-].
Qed.

Lemma pmm_init_inv fuel kernel_start kernel_end mb_info s :
  0 ≤ kernel_start < 2 ^ 64 → 0 ≤ mb_info < 2 ^ 64 →
  pmm_init fuel mem kernel_start kernel_end mb_info = Some s →
  marked_inv 256 s.
Proof.
  intros Hks Hmb. unfold pmm_init.
  destruct (for_tags _ _ _ _ _) as [[found s1]|] eqn:E1; [|done].
  assert (HI1 : boot_inv s1 ∧ (found = false → total_blocks s1 = 0)).
  { apply (for_tags_ind (λ st, boot_inv st.2 ∧ (st.1 = false → total_blocks st.2 = 0)))
      in E1; [done|split; [apply boot_state_inv|done]|].
    intros tag st st' [H1 H2] Hb. split; [by eapply mmap_pass_inv|by eapply mmap_pass_total]. }
  destruct HI1 as [HI1 Hf].
  set (s2 := if negb found then _ else _).
  assert (HI2 : boot_inv s2).
  { unfold s2. destruct found; simpl.
    - case_ifs; [|done]. pose proof (wf_total _ (proj1 HI1)).
      apply boot_inv_set_total; [done|lia].
    - apply fallback_inv; [done|]. rewrite Hf; [lia|done]. }
  clearbody s2. apply mark_low_inv in HI2.
  set (s3 := for_range 0 256 1 mark_used s2) in *. clearbody s3.
  apply (for_tags_ind (marked_inv 256)).
  - case_ifs; repeat (apply mark_used_range_ind; [done| |by intros; apply marked_inv_mark]);
      done.
  - intros tag t t' Ht. unfold module_pass. case_ifs; intros [= <-]; [|done].
    apply mark_used_range_ind; [|done|by intros; apply marked_inv_mark].
    pose proof (ld32_range (tag + 8)). unfold mod_start. lia.
Qed.
End init.

(** ** Run-time operations preserve the invariant *)

Lemma pmm_wf_upd s s' b v r :
  pmm_wf s → 0 ≤ b < total_blocks s →
  (∀ i, 0 ≤ arr_get (pmm_bitmap s') i < 2 ^ 8) →
  total_blocks s' = total_blocks s →
  (∀ c, block_used s' c = if decide (b = c) then v else block_used s c) →
  (∀ c, refcount s' c = if decide (b = c) then r else refcount s c) →
  free_blocks s' = free_blocks s + Z.b2z (negb v) - Z.b2z (negb (block_used s b)) →
  0 ≤ r ≤ UINT16_MAX → (r ≠ 0 → v = true) →
  pmm_wf s'.
Proof.
  intros Hwf Hb Hbyte Ht Hu Hrc Hf Hr Hv. pose proof (wf_total _ Hwf) as Htot. split.
  - done.
  - by rewrite Ht.
  - rewrite Hf, (wf_free _ Hwf). symmetry. apply free_count_pointwise; [lia|done].
  - intros c. rewrite Hrc. case_decide; [done|]. apply (wf_refcount _ Hwf).
  - intros c. rewrite Hrc, Hu. case_decide; [done|]. apply (wf_allocated _ Hwf).
  - intros c. rewrite Ht, Hu. case_decide; [lia|]. apply (wf_beyond _ Hwf).
Qed.

Lemma set_bit_byte s b :
  pmm_wf s → ∀ i, 0 ≤ arr_get (pmm_bitmap (set_bit b s)) i < 2 ^ 8.
Proof.
  intros Hwf i. simpl. rewrite arr_get_set.
  case_decide; [apply lor_byte_range|]; apply (wf_byte _ Hwf).
Qed.

Lemma clear_bit_byte s b :
  pmm_wf s → ∀ i, 0 ≤ arr_get (pmm_bitmap (clear_bit b s)) i < 2 ^ 8.
Proof.
  intros Hwf i. simpl. rewrite arr_get_set.
  case_decide; [apply land_byte_range|]; apply (wf_byte _ Hwf).
Qed.

(** What a successful allocation does. *)
Record alloc_result (s : pmm) (b : Z) (s' : pmm) : Prop := {
  ar_range : 0 ≤ b < total_blocks s;
  ar_was_free : block_used s b = false;
  ar_lowest : ∀ c, 0 ≤ c < b → block_used s c = true;
  ar_used : ∀ c, block_used s' c = if decide (b = c) then true else block_used s c;
  ar_refcount : ∀ c, refcount s' c = if decide (b = c) then 1 else refcount s c;
  ar_total : total_blocks s' = total_blocks s;
  ar_free : free_blocks s' = free_blocks s - 1;
  ar_byte : ∀ i, 0 ≤ arr_get (pmm_bitmap s') i < 2 ^ 8
}.

Lemma alloc_Some s a s' :
  pmm_wf s → pmm_alloc_block s = (Some a, s') →
  ∃ b, a = b * 4096 ∧ alloc_result s b s'.
Proof.
  intros Hwf. unfold pmm_alloc_block. pose proof (wf_total _ Hwf) as Ht.
  destruct (scan _ _ _) as [b|] eqn:Hs; [|done].
  apply scan_Some in Hs as (Hb & Hfree & Hlow). apply negb_true_iff in Hfree.
  rewrite Z2Nat.id in Hb by lia.
  pose proof (free_count_pos s b ltac:(lia) Hfree) as Hpos.
  rewrite <- (wf_free _ Hwf) in Hpos. simpl.
  rewrite (proj2 (Z.ltb_lt _ _) Hpos). intros [= <- <-]. exists b. split; [done|].
  split; simpl; try done.
  - intros c Hc. by apply negb_false_iff, Hlow.
  - intros c. apply (block_used_set_bit s b c).
  - intros c. apply (refcount_set s b 1 c).
  - by apply set_bit_byte.
Qed.

Lemma alloc_None s s' :
  pmm_wf s → pmm_alloc_block s = (None, s') →
  (∀ b, 0 ≤ b < MAX_BLOCKS → block_used s b = true) ∧ (s' = s ∨ s' = set_oom true s).
Proof.
  intros Hwf. unfold pmm_alloc_block. pose proof (wf_total _ Hwf) as Ht.
  destruct (scan _ _ _) as [b|] eqn:Hs; [done|]. rewrite scan_None in Hs.
  intros [= <-]. split; [|destruct (oom_reported s); auto].
  intros b Hb. destruct (decide (b < total_blocks s)).
  - apply negb_false_iff, Hs. lia.
  - apply (wf_beyond _ Hwf). lia.
Qed.

Lemma pmm_wf_oom s v : pmm_wf s → pmm_wf (set_oom v s).
Proof.
  intros [H1 H2 H3 H4 H5 H6]. split; [done|done| |done|done|done].
  by rewrite (free_count_ext s).
Qed.

Lemma alloc_wf s r s' : pmm_wf s → pmm_alloc_block s = (r, s') → pmm_wf s'.
Proof.
  intros Hwf Hal. destruct r as [a|].
  - apply alloc_Some in Hal as (b & -> & Hr); [|done].
    destruct Hr as [H1 H2 H3 H4 H5 H6 H7 H8].
    apply (pmm_wf_upd s s' b true 1); try done.
    rewrite H7, H2. simpl. lia.
  - apply alloc_None in Hal as [_ [-> | ->]]; [done| |done]. by apply pmm_wf_oom.
Qed.

Lemma retain_cases a s r s' :
  pmm_wf s → pmm_retain_block a s = (r, s') →
  (r = false ∧ s' = s) ∨
  (r = true ∧ a / 4096 < total_blocks s ∧ block_used s (a / 4096) = true ∧
   0 < refcount s (a / 4096) < UINT16_MAX ∧
   s' = set_refcount (a / 4096) (refcount s (a / 4096) + 1) s).
Proof.
  intros Hwf. unfold pmm_retain_block. pose proof (wf_refcount _ Hwf (a / 4096)) as Hrc.
  case_ifs; intros [= <- <-]; [by left..|]. right. bool_to_prop.
  unfold UINT16_MAX in *. rewrite u16_small by lia. auto with lia.
Qed.

Lemma retain_wf a s r s' :
  0 ≤ a → pmm_wf s → pmm_retain_block a s = (r, s') → pmm_wf s'.
Proof.
  intros Ha Hwf Hr. apply retain_cases in Hr as [[-> ->]|(-> & Ht & Hu & Hrc & ->)]; [done| |done].
  apply (pmm_wf_upd s _ (a / 4096) true (refcount s (a / 4096) + 1)); try done.
  - split; [apply Z.div_pos; lia|done].
  - apply (wf_byte _ Hwf).
  - intros c. case_decide; [by subst c|done].
  - intros c. apply refcount_set.
  - rewrite Hu. simpl. lia.
  - lia.
Qed.

(** The three outcomes of [pmm_free_block]. *)
Lemma free_cases a s :
  pmm_wf s →
  let b := a / 4096 in
  (pmm_free_block a s = s ∧ (flag a 0xFFF = true ∨ total_blocks s ≤ b ∨ refcount s b = 0)) ∨
  (flag a 0xFFF = false ∧ b < total_blocks s ∧ 1 < refcount s b ∧
   pmm_free_block a s = set_refcount b (refcount s b - 1) s) ∨
  (flag a 0xFFF = false ∧ b < total_blocks s ∧ refcount s b = 1 ∧ block_used s b = true ∧
   pmm_free_block a s =
     set_oom false (set_free (u64 (free_blocks s + 1)) (clear_bit b (set_refcount b 0 s)))).
Proof.
  intros Hwf b. unfold pmm_free_block. fold b.
  pose proof (wf_refcount _ Hwf b). destruct (flag a 0xFFF) eqn:Hfl; simpl; [by eauto 8 with lia|].
  destruct (total_blocks s <=? b) eqn:E1; bool_to_prop; simpl; [by eauto 8 with lia|].
  destruct (refcount s b =? 0) eqn:E2; bool_to_prop; [by eauto 8 with lia|].
  destruct (1 <? refcount s b) eqn:E3; bool_to_prop; [by eauto 8 with lia|].
  right; right. pose proof (wf_allocated _ Hwf b E2) as Hu.
  change (block_used (set_refcount b 0 s) b) with (block_used s b). rewrite Hu.
  split_and!; [done|done|lia|done|done].
Qed.

Lemma free_wf a s : 0 ≤ a → pmm_wf s → pmm_wf (pmm_free_block a s).
Proof.
  intros Ha Hwf. pose proof (Z.div_pos a 4096 ltac:(lia) ltac:(lia)) as Hb.
  pose proof (wf_refcount _ Hwf (a / 4096)) as Hrc.
  destruct (free_cases a s Hwf) as [[-> _]|[(_ & Ht & Hr & ->)|(_ & Ht & Hr & Hu & ->)]]; [done|..].
  - assert (Hu : block_used s (a / 4096) = true) by (apply (wf_allocated _ Hwf); lia).
    apply (pmm_wf_upd s _ (a / 4096) true (refcount s (a / 4096) - 1)); try done; [|..|lia].
    + apply (wf_byte _ Hwf).
    + intros c. case_decide; [by subst c|done].
    + intros c. apply refcount_set.
    + rewrite Hu. simpl. lia.
  - apply (pmm_wf_upd s _ (a / 4096) false 0); try done.
    + apply (clear_bit_byte s), Hwf.
    + intros c. apply (block_used_clear_bit s), (wf_byte _ Hwf).
    + intros c. apply refcount_set.
    + rewrite Hu. simpl. pose proof (wf_free _ Hwf). pose proof (free_count_bounds s).
      unfold MAX_BLOCKS in *. rewrite u64_small; lia.
Qed.

Lemma pmm_step_wf s s' : pmm_step s s' → pmm_wf s → pmm_wf s'.
Proof.
  destruct 1; intros Hwf; [by eapply alloc_wf|by eapply retain_wf|by apply free_wf].
Qed.

(** Reserved blocks are out of reach of every operation. *)
Lemma pmm_step_reserved s s' b :
  pmm_step s s' → pmm_wf s → reserved s b → reserved s' b.
Proof.
  intros Hst Hwf [Hu Hrc]. unfold reserved. destruct Hst as [s r s' Hal|s a r s' Ha Hr|s a Ha].
  - destruct r as [x|].
    + apply alloc_Some in Hal as (c & -> & Hr); [|done].
      rewrite (ar_used _ _ _ Hr), (ar_refcount _ _ _ Hr).
      pose proof (ar_was_free _ _ _ Hr). case_decide; [congruence|done].
    + apply alloc_None in Hal as [_ [-> | ->]]; done.
  - apply retain_cases in Hr as [[-> ->]|(-> & Ht & Hu' & Hrc' & ->)]; [done| |done].
    rewrite refcount_set. split; [done|]. case_decide; [subst b; lia|done].
  - destruct (free_cases a s Hwf) as [[-> _]|[(_ & Ht & Hr & ->)|(_ & Ht & Hr & Hu' & ->)]]; [done|..].
    + rewrite refcount_set. split; [done|]. case_decide; [subst b; lia|done].
    + assert (a / 4096 ≠ b) by (intros <-; lia). split.
      * transitivity (block_used (clear_bit (a / 4096) s) b); [done|].
        rewrite block_used_clear_bit by apply (wf_byte _ Hwf). by rewrite decide_False.
      * transitivity (refcount (set_refcount (a / 4096) 0 s) b); [done|].
        rewrite refcount_set. by rewrite decide_False.
Qed.

#[export] Hint Resolve alloc_wf retain_wf free_wf pmm_wf_oom : aos.

(** No free block lies at or above [total_blocks]. *)
Lemma free_count_le_total s : pmm_wf s → free_count s ≤ total_blocks s.
Proof.
  intros Hwf. pose proof (wf_total _ Hwf) as Ht. unfold free_count.
  replace MAX_BLOCKS with (total_blocks s + (MAX_BLOCKS - total_blocks s)) by lia.
  rewrite seqZ_app, countb_app by lia.
  pose proof (countb_bounds (λ b, negb (block_used s b)) (seqZ 0 (total_blocks s))) as H1.
  rewrite length_seqZ in H1.
  assert (countb (λ b, negb (block_used s b)) (seqZ (0 + total_blocks s) (MAX_BLOCKS - total_blocks s)) = 0) as ->; [|lia].
  apply countb_zero. intros b Hb%elem_of_seqZ. rewrite (wf_beyond _ Hwf b) by lia. done.
Qed.

(** ** Observational equivalence of allocator states *)

Record pmm_equiv (s t : pmm) : Prop := {
  eqv_used : ∀ b, block_used s b = block_used t b;
  eqv_refcount : ∀ b, refcount s b = refcount t b;
  eqv_total : total_blocks s = total_blocks t;
  eqv_free : free_blocks s = free_blocks t
}.

#[export] Instance pmm_equiv_equivalence : Equivalence pmm_equiv.
Proof.
  split.
  - intros s. by split.
  - intros s t [H1 H2 H3 H4]. by split.
  - intros s t u [H1 H2 H3 H4] [G1 G2 G3 G4]. split; intros; etrans; eauto.
Qed.

Lemma scan_ext n i p q : (∀ j, p j = q j) → scan n i p = scan n i q.
Proof. intros Hpq. revert i. induction n; intros i; simpl; [done|]. rewrite Hpq. by rewrite IHn. Qed.

(** Allocation cannot tell equivalent states apart. *)
#[export] Instance alloc_result_proper :
  Proper (pmm_equiv ==> eq) (λ s, (pmm_alloc_block s).1).
Proof.
  intros s t Heq. unfold pmm_alloc_block. rewrite (eqv_total _ _ Heq).
  rewrite (scan_ext _ _ _ (λ i, negb (block_used t i))) by
    (intros j; by rewrite (eqv_used _ _ Heq)).
  by destruct (scan _ _ _).
Qed.

#[export] Instance pmm_block_refcount_proper a :
  Proper (pmm_equiv ==> eq) (pmm_block_refcount a).
Proof.
  intros s t Heq. unfold pmm_block_refcount.
  by rewrite (eqv_total _ _ Heq), (eqv_refcount _ _ Heq).
Qed.

Lemma flag_page_aligned b : flag (b * 4096) 0xFFF = false.
Proof.
  unfold flag. apply negb_false_iff, Z.eqb_eq.
  change 0xFFF with (Z.ones 12). rewrite Z.land_ones by lia. change (2 ^ 12) with 4096.
  by rewrite Z.mod_mul.
Qed.

(** ** Termination of the boot-time walk *)

(** A memory-map tag the entry loop gets through: its entries have a positive
    size and the pointer arithmetic stays below [2^64]. *)
Definition mmap_ok (mem : Z → Z) (bound tag : Z) : Prop :=
  0 ≤ tag ∧ 0 < mmap_entry_size mem tag ∧ tag_size mem tag < bound ∧
  tag + 16 < 2 ^ 64 ∧ tag + tag_size mem tag + mmap_entry_size mem tag < 2 ^ 64.

(** [n] tags from [tag] on, then the end tag. *)
Inductive tag_chain (mem : Z → Z) (bound : Z) : Z → nat → Prop :=
| chain_end tag : tag_type mem tag = MULTIBOOT_TAG_TYPE_END → tag_chain mem bound tag 0
| chain_next tag n :
    tag_type mem tag ≠ MULTIBOOT_TAG_TYPE_END →
    (tag_type mem tag = MULTIBOOT_TAG_TYPE_MMAP → mmap_ok mem bound tag) →
    tag_chain mem bound (next_tag mem tag) n →
    tag_chain mem bound tag (S n).

Lemma for_entries_total mem bound tag fuel entry s :
  mmap_ok mem bound tag → 0 ≤ tag_size mem tag → 0 ≤ entry →
  Z.max 0 (tag + tag_size mem tag - entry) < Z.of_nat fuel →
  is_Some (for_entries fuel mem tag entry s).
Proof.
  intros (H1 & H2 & H3 & H4 & H5) Hsz. revert entry s.
  induction fuel as [|fuel IH]; intros entry s He Hf; [lia|].
  simpl. rewrite (u64_small (tag + tag_size mem tag)) by lia.
  destruct (entry <? _) eqn:E; bool_to_prop; [|done].
  rewrite u64_small by lia. apply IH; lia.
Qed.

Lemma for_tags_total {S} mem bound fuel tag n (body : Z → S → option S) s :
  tag_chain mem bound tag n → (n < fuel)%nat →
  (∀ tag s, (tag_type mem tag = MULTIBOOT_TAG_TYPE_MMAP → mmap_ok mem bound tag) →
            is_Some (body tag s)) →
  is_Some (for_tags fuel mem tag body s).
Proof.
  intros Hch. revert fuel s. induction Hch as [tag Ht|tag n Ht Hok Hch IH];
    intros [|fuel] s Hf Hbody; try lia; simpl.
  - by rewrite Ht.
  - destruct (Z.eqb_spec (tag_type mem tag) MULTIBOOT_TAG_TYPE_END); [done|].
    destruct (Hbody tag s Hok) as [s' ->]. apply IH; [lia|done].
Qed.

Lemma pmm_init_total fuel mem kernel_start kernel_end mb_info bound n :
  (∀ a, 0 ≤ mem a < 2 ^ 8) →
  tag_chain mem bound (u64 (mb_info + 8)) n →
  (n < fuel)%nat → bound ≤ Z.of_nat fuel →
  is_Some (pmm_init fuel mem kernel_start kernel_end mb_info).
Proof.
  intros Hmem Hch Hn Hb. unfold pmm_init.
  destruct (for_tags_total mem bound fuel _ n (mmap_pass fuel mem)
    (false, Pmm (arr_fill 0xFF) (arr_fill 0) 0 0 false) Hch Hn) as [[found s] ->].
  - intros tag st Hok. unfold mmap_pass. destruct (Z.eqb_spec (tag_type mem tag) MULTIBOOT_TAG_TYPE_MMAP); [|done].
    pose proof (Hok e) as (? & ? & ? & ? & ?).
    pose proof (ld32_range mem Hmem (tag + 4)) as Hsz. fold (tag_size mem tag) in Hsz.
    destruct (for_entries_total mem bound tag fuel (mmap_entries tag) st.2) as [s' ->];
      [by auto|lia|unfold mmap_entries; lia|unfold mmap_entries; lia|done].
  - eapply for_tags_total; [done|done|]. intros tag t _. unfold module_pass. by case_ifs.
Qed.

(** ** Properties *)

(** A boot image used to exercise the theorems below: a Multiboot2 block at
    [0x9000] with one memory-map tag of one available region of 2 MiB. *)
Definition demo_boot_bytes : list Z :=
  [64; 0; 0; 0;  0; 0; 0; 0;
   6; 0; 0; 0;  40; 0; 0; 0;  24; 0; 0; 0;  0; 0; 0; 0;
   0; 0; 0; 0; 0; 0; 0; 0;  0; 0; 0x20; 0; 0; 0; 0; 0;  1; 0; 0; 0;  0; 0; 0; 0;
   0; 0; 0; 0;  8; 0; 0; 0;  0; 0; 0; 0;  0; 0; 0; 0].

Definition demo_mem (a : Z) : Z :=
  if a <? 0x9000 then 0 else default 0 (demo_boot_bytes !! Z.to_nat (a - 0x9000)).

Definition demo_pmm : pmm :=
  default (Pmm (arr_fill 0xFF) (arr_fill 0) 0 0 false)
    (pmm_init 50 demo_mem 0x100000 0x110000 0x9000).

Lemma demo_mem_range a : 0 ≤ demo_mem a < 2 ^ 8.
Proof.
  unfold demo_mem. case_ifs; [lia|].
  assert (Hall : Forall (λ z, 0 ≤ z < 2 ^ 8) demo_boot_bytes)
    by (unfold demo_boot_bytes; repeat constructor; lia).
  destruct (demo_boot_bytes !! _) eqn:E; simpl; [|lia].
  exact (Forall_lookup_1 _ _ _ _ Hall E).
Qed.

Lemma demo_chain : tag_chain demo_mem 50 (u64 (0x9000 + 8)) 1.
Proof.
  apply chain_next; [by vm_compute|intros _; unfold mmap_ok; split_and!; vm_compute; congruence|].
  apply chain_end. by vm_compute.
Qed.

Lemma demo_pmm_init : pmm_init 50 demo_mem 0x100000 0x110000 0x9000 = Some demo_pmm.
Proof.
  unfold demo_pmm.
  destruct (pmm_init_total 50 demo_mem 0x100000 0x110000 0x9000 50 1 demo_mem_range
    demo_chain ltac:(lia) ltac:(lia)) as [s ->]. done.
Qed.

(** C20 (termination and invariant): when the Multiboot2 block is a finite tag
    chain whose memory-map entries have a positive size, [pmm_init] returns, and
    the state it builds satisfies the allocator invariant: [free_blocks] counts the
    clear bits of the bitmap, no block at or above [total_blocks] is free, every
    block with a reference is marked used, and the first MiB is reserved. *)
Theorem pmm_init_establishes fuel mem kernel_start kernel_end mb_info bound n :
  (∀ a, 0 ≤ mem a < 2 ^ 8) →
  0 ≤ kernel_start < 2 ^ 64 → 0 ≤ mb_info < 2 ^ 64 →
  tag_chain mem bound (u64 (mb_info + 8)) n →
  (n < fuel)%nat → bound ≤ Z.of_nat fuel →
  ∃ s, pmm_init fuel mem kernel_start kernel_end mb_info = Some s ∧
       pmm_wf s ∧ low_reserved s.
Proof.
  intros Hmem Hks Hmb Hch Hn Hb.
  destruct (pmm_init_total fuel mem kernel_start kernel_end mb_info bound n) as [s Hs]; try done.
  exists s. split; [done|].
  destruct (pmm_init_inv mem Hmem _ _ _ _ _ Hks Hmb Hs) as [[Hwf Hrc] Hlow].
  split; [done|]. intros b Hb'. split; auto.
Qed.

Lemma pmm_init_establishes_witness :
  ∃ s, pmm_init 50 demo_mem 0x100000 0x110000 0x9000 = Some s ∧ pmm_wf s ∧ low_reserved s.
Proof.
  apply (pmm_init_establishes 50 demo_mem 0x100000 0x110000 0x9000 50 1);
    [apply demo_mem_range|lia|lia|apply demo_chain|lia|lia].
Defined.

Lemma demo_pmm_wf : pmm_wf demo_pmm ∧ low_reserved demo_pmm.
Proof.
  destruct (pmm_init_inv demo_mem demo_mem_range 50 0x100000 0x110000 0x9000 demo_pmm)
    as [[Hwf Hrc] Hlow]; [lia|lia|apply demo_pmm_init|].
  split; [done|]. intros b Hb. split; auto.
Qed.

(** C6 (safety): along any sequence of allocations, retains and frees the
    invariant holds, and a block that was reserved at the start (BIOS area, kernel
    image, boot information, modules) stays reserved: it is never handed out, and
    freeing or retaining its address has no effect. *)
Theorem pmm_reserved_forever s s' b :
  pmm_wf s → reserved s b → 0 ≤ b → rtc pmm_step s s' →
  pmm_wf s' ∧ reserved s' b ∧
  (∀ t, pmm_alloc_block s' ≠ (Some (b * 4096), t)) ∧
  pmm_free_block (b * 4096) s' = s' ∧ pmm_retain_block (b * 4096) s' = (false, s').
Proof.
  intros Hwf Hres Hb Hst.
  assert (HI : pmm_wf s' ∧ reserved s' b).
  { revert Hwf Hres. induction Hst as [s|s t u Hst Hrtc IH]; intros Hwf Hres; [done|].
    apply IH; [by eapply pmm_step_wf|by eapply pmm_step_reserved]. }
  destruct HI as [Hwf' [Hu Hrc]]. split_and!; try done.
  - intros t Hal. apply alloc_Some in Hal as (c & Hc & Hr); [|done].
    assert (c = b) as -> by lia. pose proof (ar_was_free _ _ _ Hr). congruence.
  - unfold pmm_free_block. rewrite Z.div_mul by lia. rewrite Hrc. simpl.
    by rewrite orb_true_r.
  - unfold pmm_retain_block. rewrite Z.div_mul by lia. rewrite Hrc, Hu. simpl.
    by case_ifs.
Qed.

Lemma pmm_reserved_forever_witness :
  pmm_free_block (3 * 4096) (pmm_alloc_block demo_pmm).2 = (pmm_alloc_block demo_pmm).2.
Proof.
  destruct demo_pmm_wf as [Hwf Hlow].
  refine (proj1 (proj2 (proj2 (proj2
    (pmm_reserved_forever demo_pmm (pmm_alloc_block demo_pmm).2 3 Hwf _ _ _))))).
  - apply Hlow. lia.
  - lia.
  - apply rtc_once. apply (step_alloc _ (pmm_alloc_block demo_pmm).1).
    by destruct (pmm_alloc_block demo_pmm).
Defined.

(** C21 (functional): both outcomes of [pmm_alloc_block].  It fails exactly when
    no block is free, leaving blocks and counters alone; otherwise it returns the
    page-aligned, non-NULL address of the lowest free block, gives that block one
    reference, decrements the free counter, and touches no other block. *)
Theorem pmm_alloc_block_spec s :
  pmm_wf s → low_reserved s →
  match pmm_alloc_block s with
  | (Some a, s') =>
      ∃ b, a = b * 4096 ∧ a ≠ 0 ∧ 0 ≤ b < total_blocks s ∧
        block_used s b = false ∧ (∀ c, 0 ≤ c < b → block_used s c = true) ∧
        (∀ c, block_used s' c = if decide (b = c) then true else block_used s c) ∧
        (∀ c, refcount s' c = if decide (b = c) then 1 else refcount s c) ∧
        total_blocks s' = total_blocks s ∧ free_blocks s' = free_blocks s - 1
  | (None, s') => free_blocks s = 0 ∧ pmm_equiv s s'
  end.
Proof.
  intros Hwf Hlow. destruct (pmm_alloc_block s) as [[a|] s'] eqn:Hal.
  - apply alloc_Some in Hal as (b & -> & [H1 H2 H3 H4 H5 H6 H7 H8]); [|done].
    exists b. split_and!; try done; try lia.
    intros Hz. assert (b = 0) as -> by lia. destruct (Hlow 0); [lia|]. congruence.
  - apply alloc_None in Hal as [Hall Hs']; [|done]. split.
    + rewrite (wf_free _ Hwf). apply countb_zero.
      intros b Hb%elem_of_seqZ. rewrite Hall by lia. done.
    + by destruct Hs' as [-> | ->].
Qed.

Lemma pmm_alloc_block_spec_witness :
  (pmm_alloc_block demo_pmm).1 = Some 0x110000 ∧
  match pmm_alloc_block demo_pmm with
  | (Some a, s') =>
      ∃ b, a = b * 4096 ∧ a ≠ 0 ∧ 0 ≤ b < total_blocks demo_pmm ∧
        block_used demo_pmm b = false ∧ (∀ c, 0 ≤ c < b → block_used demo_pmm c = true) ∧
        (∀ c, block_used s' c = if decide (b = c) then true else block_used demo_pmm c) ∧
        (∀ c, refcount s' c = if decide (b = c) then 1 else refcount demo_pmm c) ∧
        total_blocks s' = total_blocks demo_pmm ∧ free_blocks s' = free_blocks demo_pmm - 1
  | (None, s') => free_blocks demo_pmm = 0 ∧ pmm_equiv demo_pmm s'
  end.
Proof.
  split; [vm_compute; reflexivity|].
  exact (pmm_alloc_block_spec demo_pmm (proj1 demo_pmm_wf) (proj2 demo_pmm_wf)).
Defined.

(** Freeing what was just allocated, or what was just retained,
    gives back an allocator state with the same bitmap, the same reference counts
    and the same counters. *)
Theorem pmm_free_undoes s a s' :
  pmm_wf s →
  pmm_alloc_block s = (Some a, s') ∨ pmm_retain_block a s = (true, s') ∧ 0 ≤ a →
  pmm_equiv (pmm_free_block a s') s.
Proof.
  intros Hwf [Hal|[Hr Ha]].
  - pose proof (alloc_wf _ _ _ Hwf Hal) as Hwf'.
    apply alloc_Some in Hal as (b & -> & [H1 H2 H3 H4 H5 H6 H7 H8]); [|done].
    assert (Hdiv : b * 4096 / 4096 = b) by (apply Z.div_mul; lia).
    pose proof (free_cases (b * 4096) s' Hwf') as Hc. cbv zeta in Hc. rewrite Hdiv in Hc.
    assert (Hrc : refcount s' b = 1) by (rewrite H5; by rewrite decide_True).
    destruct Hc as [[_ [Hf|[Hf|Hf]]]|[(_ & _ & Hf & _)|(_ & _ & _ & Hu & ->)]];
      [by rewrite flag_page_aligned in Hf|lia|lia|lia|].
    split; simpl.
    + intros c. transitivity (block_used (clear_bit b s') c); [done|].
      rewrite block_used_clear_bit, H4 by done. case_decide; congruence.
    + intros c. transitivity (refcount (set_refcount b 0 s') c); [done|].
      rewrite refcount_set, H5. case_decide; [|done]. subst c.
      destruct (decide (refcount s b = 0)); [done|].
      rewrite (wf_allocated _ Hwf b) in H2; done.
    + done.
    + pose proof (wf_free _ Hwf). pose proof (free_count_bounds s).
      unfold MAX_BLOCKS in *. rewrite u64_small; lia.
  - pose proof (retain_wf _ _ _ _ Ha Hwf Hr) as Hwf'. revert Hwf'.
    unfold pmm_retain_block in Hr. destruct (flag a 0xFFF) eqn:Hfl; [done|]. simpl in Hr.
    assert (Hr' : pmm_retain_block a s = (true, s'))
      by (unfold pmm_retain_block; by rewrite Hfl).
    apply retain_cases in Hr' as [[? _]|(_ & Ht & Hu & Hrc & ->)]; [done| |done].
    intros Hwf'. set (b := a / 4096) in *.
    set (s' := set_refcount b (refcount s b + 1) s) in *.
    assert (Hb : refcount s' b = refcount s b + 1)
      by (unfold s'; rewrite refcount_set; by rewrite decide_True).
    pose proof (free_cases a s' Hwf') as Hc. cbv zeta in Hc. fold b in Hc.
    destruct Hc as [[_ [Hf|[Hf|Hf]]]|[(_ & _ & _ & ->)|(_ & _ & Hf & _)]];
      [congruence|simpl in Hf; lia|lia| |lia].
    split; try done. intros c. rewrite refcount_set, Hb. unfold s'. rewrite refcount_set.
    case_decide; [subst c; lia|done].
Qed.

Lemma pmm_free_undoes_witness :
  pmm_equiv (pmm_free_block 0x110000 (pmm_alloc_block demo_pmm).2) demo_pmm.
Proof.
  apply (pmm_free_undoes demo_pmm 0x110000 (pmm_alloc_block demo_pmm).2 (proj1 demo_pmm_wf)).
  left. transitivity ((pmm_alloc_block demo_pmm).1, (pmm_alloc_block demo_pmm).2);
    [by destruct (pmm_alloc_block demo_pmm)|]. apply (f_equal (λ x, (x, _))). vm_compute. reflexivity.
Defined.

(** in a well-formed state every bitmap byte and reference count the
    operations touch lies inside its array, the 16-bit count never wraps, and the
    three memory figures satisfy used + free = total without 64-bit wrap-around. *)
Theorem pmm_accounting s b :
  pmm_wf s → 0 ≤ b < total_blocks s →
  0 ≤ b / 8 < BITMAP_BYTES ∧ b < MAX_BLOCKS ∧
  0 ≤ refcount s b ≤ UINT16_MAX ∧
  pmm_free_memory s = 4096 * free_count s ∧
  pmm_free_memory s ≤ pmm_total_memory s ≤ ONE_GIB ∧
  pmm_used_memory s + pmm_free_memory s = pmm_total_memory s.
Proof.
  intros Hwf Hb. pose proof (wf_total _ Hwf) as Ht. pose proof (wf_free _ Hwf) as Hf.
  pose proof (free_count_bounds s) as Hc.
  assert (Hle : free_count s ≤ total_blocks s) by (by apply free_count_le_total).
  unfold MAX_BLOCKS, BITMAP_BYTES, ONE_GIB in *.
  assert (E1 : pmm_free_memory s = 4096 * free_count s)
    by (unfold pmm_free_memory; rewrite Hf, u64_small; lia).
  assert (E2 : pmm_total_memory s = 4096 * total_blocks s)
    by (unfold pmm_total_memory; rewrite u64_small; lia).
  unfold pmm_used_memory. rewrite (u64_small (_ - _)) by lia.
  split_and!; try lia; [apply Z.div_pos; lia|apply Z.div_lt_upper_bound; lia|..];
    apply (wf_refcount _ Hwf).
Qed.

Lemma pmm_accounting_witness :
  0 ≤ 300 < total_blocks demo_pmm ∧
  pmm_used_memory demo_pmm + pmm_free_memory demo_pmm = pmm_total_memory demo_pmm.
Proof.
  assert (Hr : 0 ≤ 300 < total_blocks demo_pmm) by (vm_compute; split; congruence).
  split; [exact Hr|].
  exact (proj2 (proj2 (proj2 (proj2 (proj2
    (pmm_accounting demo_pmm 300 (proj1 demo_pmm_wf) Hr)))))).
Defined.
