(* ===== verification/Frames.v ===== *)
(** * The frame-allocator interface

    What [kernel/vmm.c] relies on from [kernel/pmm.c]: the four functions of
    [include/pmm.h] it calls, and their contract.  The virtual-memory theorems
    are proved against the class; the physical memory manager is an instance. *)

From S2P Require Import Prelude Pmm.

Class FrameAllocator (A : Type) := {
  alloc_block : A → option Z * A;
  retain_block : Z → A → bool * A;
  free_block : Z → A → A;
  block_refcount : Z → A → Z
}.

(** The address of a frame the allocator can hand out: not [NULL], page aligned,
    inside the identity-mapped first GiB. *)
Definition frame (a : Z) : Prop := 0 < a < 2 ^ 30 ∧ (4096 | a).

(** [fa_used s a]: the frame at the page-aligned address [a] is not free. *)
Class FrameAllocatorSpec (A : Type) `{!FrameAllocator A} := {
  fa_wf : A → Prop;
  fa_used : A → Z → Prop;
  fa_count_used s a : fa_wf s → 0 ≤ a → 0 < block_refcount a s → fa_used s a;
  fa_count_range s a : fa_wf s → 0 ≤ block_refcount a s;
  fa_alloc_some s a s' :
    fa_wf s → alloc_block s = (Some a, s') →
    fa_wf s' ∧ frame a ∧ ¬ fa_used s a ∧
    (∀ b, (4096 | b) → fa_used s' b ↔ b = a ∨ fa_used s b) ∧
    (∀ b, (4096 | b) → block_refcount b s' = if decide (b = a) then 1 else block_refcount b s);
  fa_alloc_none s s' :
    fa_wf s → alloc_block s = (None, s') →
    fa_wf s' ∧ (∀ b, fa_used s' b ↔ fa_used s b) ∧
    (∀ b, block_refcount b s' = block_refcount b s);
  fa_retain_true s a s' :
    fa_wf s → 0 ≤ a → (4096 | a) → retain_block a s = (true, s') →
    fa_wf s' ∧ 0 < block_refcount a s ∧ (∀ b, fa_used s' b ↔ fa_used s b) ∧
    (∀ b, (4096 | b) →
      block_refcount b s' = block_refcount b s + (if decide (b = a) then 1 else 0));
  fa_retain_false s a s' : retain_block a s = (false, s') → s' = s;
  fa_free s a :
    fa_wf s → 0 ≤ a → (4096 | a) →
    fa_wf (free_block a s) ∧
    (∀ b, (4096 | b) → fa_used (free_block a s) b ↔
       fa_used s b ∧ ¬ (b = a ∧ block_refcount a s = 1)) ∧
    (∀ b, (4096 | b) → block_refcount b (free_block a s) =
       if decide (b = a) then Z.max 0 (block_refcount a s - 1) else block_refcount b s);
  (** an allocator that has run out stays so until a frame is freed *)
  fa_none_again s s' : alloc_block s = (None, s') → (alloc_block s').1 = None
}.

(** ** The physical memory manager implements it *)

#[export] Instance pmm_frames : FrameAllocator pmm := {
  alloc_block := pmm_alloc_block;
  retain_block := pmm_retain_block;
  free_block := pmm_free_block;
  block_refcount := pmm_block_refcount
}.

Lemma page_eq a b : (4096 | a) → (4096 | b) → a / 4096 = b / 4096 → a = b.
Proof. intros [x ->] [y ->]. rewrite !Z.div_mul by lia. lia. Qed.

Lemma aligned_flag a : (4096 | a) → flag a 0xFFF = false.
Proof. intros [x ->]. apply flag_page_aligned. Qed.

Lemma refcount_aligned s a :
  (4096 | a) →
  pmm_block_refcount a s = if total_blocks s <=? a / 4096 then 0 else refcount s (a / 4096).
Proof. intros Ha. unfold pmm_block_refcount. by rewrite aligned_flag. Qed.

Lemma alloc_fresh s a s' :
  pmm_wf s ∧ low_reserved s → pmm_alloc_block s = (Some a, s') →
  (pmm_wf s' ∧ low_reserved s') ∧ frame a ∧ block_used s (a / 4096) ≠ true ∧
  (∀ b, (4096 | b) →
     block_used s' (b / 4096) = true ↔ b = a ∨ block_used s (b / 4096) = true) ∧
  (∀ b, (4096 | b) →
     pmm_block_refcount b s' = if decide (b = a) then 1 else pmm_block_refcount b s).
Proof.
  intros [Hwf Hlow] Hal. pose proof (wf_total _ Hwf) as Ht.
  pose proof (alloc_wf _ _ _ Hwf Hal) as Hwf'.
  assert (Hlow' : low_reserved s').
  { intros b Hb. eapply pmm_step_reserved; [by eapply step_alloc|done|by apply Hlow]. }
  apply alloc_Some in Hal as (c & -> & [R1 R2 R3 R4 R5 R6 R7 R8]); [|done].
  unfold MAX_BLOCKS in *. rewrite Z.div_mul by lia.
  assert (256 ≤ c).
  { destruct (decide (256 ≤ c)); [done|]. destruct (Hlow c) as [Hu _]; [lia|congruence]. }
  split_and!; [done|done|..].
  - split; [lia|by exists c].
  - congruence.
  - intros b [x ->]. rewrite Z.div_mul, R4 by lia. case_decide.
    + subst x. naive_solver.
    + split; [by right|]. intros [?|?]; [lia|done].
  - intros b Hb. rewrite !refcount_aligned, R6, R5 by done. destruct Hb as [x ->].
    rewrite Z.div_mul by lia. case_decide as Hx; case_decide; [|lia|lia|done].
    subst x. by rewrite (proj2 (Z.leb_gt _ _)) by lia.
Qed.

Lemma alloc_exhausted s s' :
  pmm_wf s ∧ low_reserved s → pmm_alloc_block s = (None, s') →
  (pmm_wf s' ∧ low_reserved s') ∧
  (∀ b, block_used s' (b / 4096) = true ↔ block_used s (b / 4096) = true) ∧
  (∀ b, pmm_block_refcount b s' = pmm_block_refcount b s).
Proof.
  intros [Hwf Hlow] Hal. pose proof (alloc_wf _ _ _ Hwf Hal) as Hwf'.
  by apply alloc_None in Hal as [_ [-> | ->]].
Qed.

Lemma retain_contract s a s' :
  pmm_wf s ∧ low_reserved s → 0 ≤ a → (4096 | a) → pmm_retain_block a s = (true, s') →
  (pmm_wf s' ∧ low_reserved s') ∧ 0 < pmm_block_refcount a s ∧
  (∀ b, block_used s' (b / 4096) = true ↔ block_used s (b / 4096) = true) ∧
  (∀ b, (4096 | b) →
     pmm_block_refcount b s' = pmm_block_refcount b s + (if decide (b = a) then 1 else 0)).
Proof.
  intros [Hwf Hlow] Ha Hal Hr. pose proof (retain_wf _ _ _ _ Ha Hwf Hr) as Hwf'.
  assert (Hlow' : low_reserved s').
  { intros b Hb. eapply pmm_step_reserved; [by eapply step_retain|done|by apply Hlow]. }
  apply retain_cases in Hr as [[? _]|(_ & Ht & Hu & Hrc & ->)]; [done| |done].
  rewrite refcount_aligned, (proj2 (Z.leb_gt _ _)) by done.
  split_and!; [done|done|lia|done|].
  intros b Hb. rewrite !refcount_aligned by done. simpl. rewrite refcount_set.
  case_decide as Hx; case_decide as Hy.
  - rewrite Hx in *. rewrite (proj2 (Z.leb_gt _ _)) by lia. done.
  - by destruct Hy; apply page_eq.
  - by subst b.
  - lia.
Qed.

Lemma free_contract s a :
  pmm_wf s ∧ low_reserved s → 0 ≤ a → (4096 | a) →
  let s' := pmm_free_block a s in
  (pmm_wf s' ∧ low_reserved s') ∧
  (∀ b, (4096 | b) → block_used s' (b / 4096) = true ↔
     block_used s (b / 4096) = true ∧ ¬ (b = a ∧ pmm_block_refcount a s = 1)) ∧
  (∀ b, (4096 | b) → pmm_block_refcount b s' =
     if decide (b = a) then Z.max 0 (pmm_block_refcount a s - 1) else pmm_block_refcount b s).
Proof.
  intros [Hwf Hlow] Ha Hal s'. split.
  { split; [by apply free_wf|]. intros b Hb.
    eapply pmm_step_reserved; [by eapply step_free|done|by apply Hlow]. }
  pose proof (refcount_aligned s a Hal) as Hrc. pose proof (wf_refcount _ Hwf (a / 4096)).
  assert (Hcount : ∀ v t, total_blocks t = total_blocks s →
    (∀ c, refcount t c = if decide (a / 4096 = c) then v else refcount s c) →
    a / 4096 < total_blocks s → v = Z.max 0 (pmm_block_refcount a s - 1) →
    ∀ b, (4096 | b) → pmm_block_refcount b t =
      if decide (b = a) then Z.max 0 (pmm_block_refcount a s - 1) else pmm_block_refcount b s).
  { intros v t Ht Hc Hlt -> b Hb. rewrite (refcount_aligned t b), Ht, Hc by done.
    case_decide as Hx; case_decide as Hy.
    - subst b. by rewrite (proj2 (Z.leb_gt _ _)) by lia.
    - by destruct Hy; apply page_eq.
    - by subst b.
    - by rewrite refcount_aligned. }
  unfold s'. destruct (free_cases a s Hwf)
    as [[-> Hz]|[(_ & Ht & Hr & ->)|(_ & Ht & Hr & Hu & ->)]].
  - rewrite aligned_flag in Hz by done.
    assert (Hzero : pmm_block_refcount a s = 0).
    { rewrite Hrc. case_ifs; [done|]. bool_to_prop. destruct Hz as [?|[?|?]]; [done|lia|done]. }
    rewrite Hzero. split; intros b Hb; [naive_solver lia|]. case_decide; [by subst b|done].
  - rewrite (proj2 (Z.leb_gt _ _)) in Hrc by lia. split.
    + intros b Hb. rewrite Hrc. simpl. naive_solver lia.
    + apply (Hcount (refcount s (a / 4096) - 1)); [done|apply refcount_set|done|lia].
  - rewrite (proj2 (Z.leb_gt _ _)) in Hrc by lia. split.
    + intros b Hb. rewrite Hrc, Hr.
      transitivity (block_used (clear_bit (a / 4096) s) (b / 4096) = true); [done|].
      rewrite block_used_clear_bit by apply (wf_byte _ Hwf). case_decide as Hx.
      * apply page_eq in Hx as <-; [naive_solver|done..].
      * split; [|naive_solver]. intros ?. split; [done|]. by intros [-> _].
    + apply (Hcount 0); [done|apply (refcount_set s (a / 4096) 0)|done|lia].
Qed.

#[export] Program Instance pmm_frames_spec : FrameAllocatorSpec pmm := {
  fa_wf s := pmm_wf s ∧ low_reserved s;
  fa_used s a := block_used s (a / 4096) = true
}.
Next Obligation.
  intros s a [Hwf _] Ha. simpl. unfold pmm_block_refcount. case_ifs; [lia|]. intros Hc.
  apply (wf_allocated _ Hwf). lia.
Qed.
Next Obligation.
  intros s a [Hwf _]. simpl. unfold pmm_block_refcount. case_ifs; [lia|]. apply (wf_refcount _ Hwf).
Qed.
Next Obligation. intros s a s'. apply alloc_fresh. Qed.
Next Obligation. intros s s'. apply alloc_exhausted. Qed.
Next Obligation. intros s a s'. apply retain_contract. Qed.
Next Obligation.
  intros s a s'. simpl. unfold pmm_retain_block. case_ifs; by intros [= <-].
Qed.
Next Obligation. intros s a. apply free_contract. Qed.
Next Obligation.
  intros s s'. simpl. unfold pmm_alloc_block at 1. destruct (scan _ _ _) eqn:Hs; [done|].
  intros [= <-]. unfold pmm_alloc_block. destruct (oom_reported s); [by rewrite Hs|].
  change (total_blocks (set_oom true s)) with (total_blocks s).
  change (block_used (set_oom true s)) with (block_used s). by rewrite Hs.
Qed.
