(* ===== verification/Vmm.v ===== *)
(** * Virtual memory manager ([kernel/vmm.c])

    Four-level x86-64 page tables over physical memory.  Physical memory is an
    array of 64-bit words, indexed by the byte address of the word; the frame
    allocator is any instance of the interface of [Frames.v].  [PAGE_COW] is not
    in the checked-in [include/vmm.h]: it is a parameter, one of the bits 9 to 11
    the processor leaves to software.  TLB flushes ([invlpg], reloading [cr3])
    have no effect on this state and are left out. *)

From S2P Require Import Prelude Pmm Frames.

Definition PAGE_PRESENT : Z := 1.
Definition PAGE_WRITABLE : Z := 2.
Definition PAGE_USER : Z := 4.
Definition PAGE_HUGE : Z := 1 .<< 7.
Definition AOS_USER_SPACE_START : Z := 0x10000000000.
Definition USER_SPACE_END : Z := 0x800000000000.
Definition PTE_PHYS_MASK : Z := 0x000FFFFFFFFFF000.
Definition TABLE_FLAGS : Z := PAGE_PRESENT .| PAGE_WRITABLE .| PAGE_USER.

(** [~x] on 64 bits *)
Definition not64 (x : Z) : Z := 0xFFFFFFFFFFFFFFFF .^ x.

Definition pml4_index (virt : Z) : Z := (virt .>> 39) .& 0x1FF.
Definition pdpt_index (virt : Z) : Z := (virt .>> 30) .& 0x1FF.
Definition pd_index (virt : Z) : Z := (virt .>> 21) .& 0x1FF.
Definition pt_index (virt : Z) : Z := (virt .>> 12) .& 0x1FF.

(** [&table[i]] and [table[i]] for a table of 64-bit entries. *)
Definition slot (table i : Z) : Z := table + 8 * i.
Definition entry (m : arr) (table i : Z) : Z := arr_get m (slot table i).

(** [memset(frame, 0, 4096)] *)
Definition zero_frame (t : Z) (m : arr) : arr :=
  for_range 0 512 1 (λ i m, arr_set m (slot t i) 0) m.

(** [local_memcpy(dst, src, 4096)] *)
Definition copy_frame (dst src : Z) (m : arr) : arr :=
  for_range 0 512 1 (λ i m, arr_set m (slot dst i) (entry m src i)) m.

(** [pml4[i]] covers the user half. *)
Definition user_slot (i : Z) : bool :=
  negb ((i .<< 39 <? AOS_USER_SPACE_START) || (256 <=? i)).

(** The loop of [vmm_create_user_space] that shares the kernel's entries. *)
Definition share_kernel_slots (dst_p4 kernel_source : Z) (m : arr) : arr :=
  for_range 0 512 1 (λ i m,
    if negb (user_slot i) then arr_set m (slot dst_p4 i) (entry m kernel_source i) else m) m.

Section vmm.
  Context {A : Type} `{!FrameAllocator A}.
  Variable PAGE_COW : Z.

(** Physical memory and the allocator. *)
Record vm := Vm { vm_mem : arr; vm_frames : A }.

Definition store (a v : Z) (s : vm) : vm := Vm (arr_set (vm_mem s) a v) (vm_frames s).
Definition upd_mem (f : arr → arr) (s : vm) : vm := Vm (f (vm_mem s)) (vm_frames s).
Definition free_frame (a : Z) (s : vm) : vm := Vm (vm_mem s) (free_block a (vm_frames s)).

(** The address of the page-table entry of [virt]; [None] is [NULL]. *)
Definition find_page_entry (pml4 virt : Z) (s : vm) : option Z :=
  let m := vm_mem s in
  if (pml4 =? 0) || negb (flag (entry m pml4 (pml4_index virt)) PAGE_PRESENT) then None else
  let pdpt := entry m pml4 (pml4_index virt) .& PTE_PHYS_MASK in
  if negb (flag (entry m pdpt (pdpt_index virt)) PAGE_PRESENT) then None else
  let pd := entry m pdpt (pdpt_index virt) .& PTE_PHYS_MASK in
  if negb (flag (entry m pd (pd_index virt)) PAGE_PRESENT)
     || flag (entry m pd (pd_index virt)) PAGE_HUGE then None else
  let pt := entry m pd (pd_index virt) .& PTE_PHYS_MASK in
  Some (slot pt (pt_index virt)).

(** Splits the 2 MiB page in [*(pd + pd_idx)] into 512 small ones; [false] is -1. *)
Definition split_huge_pd_entry (pd pd_idx : Z) (s : vm) : bool * vm :=
  let old_entry := entry (vm_mem s) pd pd_idx in
  let base_phys := old_entry .& not64 0x1FFFFF in
  let table_flags := old_entry .& TABLE_FLAGS in
  let pte_flags := old_entry .& 0xFFF in
  match alloc_block (vm_frames s) with
  | (None, fr) => (false, Vm (vm_mem s) fr)
  | (Some new_pt, fr) =>
      let pte_flags := pte_flags .& not64 PAGE_HUGE in
      let m := zero_frame new_pt (vm_mem s) in
      let m := for_range 0 512 1
                 (λ i m, arr_set m (slot new_pt i) (u64 (base_phys + i * 4096) .| pte_flags)) m in
      (true, store (slot pd pd_idx) (new_pt .| table_flags) (Vm m fr))
  end.

(** One of the three blocks of [vmm_map_page] that create a missing table; [false] is
    its early return. *)
Definition ensure_table (table i : Z) (s : vm) : bool * vm :=
  if negb (flag (entry (vm_mem s) table i) PAGE_PRESENT)
  then match alloc_block (vm_frames s) with
       | (None, fr) => (false, Vm (vm_mem s) fr)
       | (Some new_table, fr) =>
           (true, store (slot table i) (new_table .| TABLE_FLAGS)
                    (Vm (zero_frame new_table (vm_mem s)) fr))
       end
  else (true, s).

Definition vmm_map_page (pml4 virt phys flags : Z) (s : vm) : vm :=
  let (ok, s) := ensure_table pml4 (pml4_index virt) s in
  if negb ok then s else
  let pdpt := entry (vm_mem s) pml4 (pml4_index virt) .& PAGE_MASK in
  let (ok, s) := ensure_table pdpt (pdpt_index virt) s in
  if negb ok then s else
  let pd := entry (vm_mem s) pdpt (pdpt_index virt) .& PAGE_MASK in
  let e := entry (vm_mem s) pd (pd_index virt) in
  let (ok, s) := if flag e PAGE_PRESENT && flag e PAGE_HUGE
                 then split_huge_pd_entry pd (pd_index virt) s else (true, s) in
  if negb ok then s else
  let (ok, s) := ensure_table pd (pd_index virt) s in
  if negb ok then s else
  let pt := entry (vm_mem s) pd (pd_index virt) .& PAGE_MASK in
  store (slot pt (pt_index virt)) (phys .| flags) s.

(** Returns the physical address that was mapped, 0 when none was. *)
Definition vmm_unmap_page (pml4 virt : Z) (s : vm) : Z * vm :=
  let m := vm_mem s in
  if (pml4 =? 0) || (virt <? AOS_USER_SPACE_START)
     || negb (flag (entry m pml4 (pml4_index virt)) PAGE_PRESENT) then (0, s) else
  let pdpt := entry m pml4 (pml4_index virt) .& PAGE_MASK in
  if negb (flag (entry m pdpt (pdpt_index virt)) PAGE_PRESENT) then (0, s) else
  let pd := entry m pdpt (pdpt_index virt) .& PAGE_MASK in
  if negb (flag (entry m pd (pd_index virt)) PAGE_PRESENT) then (0, s) else
  if flag (entry m pd (pd_index virt)) PAGE_HUGE then (0, s) else
  let pt := entry m pd (pd_index virt) .& PAGE_MASK in
  if negb (flag (entry m pt (pt_index virt)) PAGE_PRESENT) then (0, s) else
  (entry m pt (pt_index virt) .& PAGE_MASK, store (slot pt (pt_index virt)) 0 s).

Definition vmm_page_present (pml4 virt : Z) (s : vm) : bool :=
  match find_page_entry pml4 virt s with
  | None => false
  | Some a => flag (arr_get (vm_mem s) a) PAGE_PRESENT
  end.

(** [true] is the return value 0, [false] is -1. *)
Definition vmm_handle_cow_fault (pml4 virt : Z) (s : vm) : bool * vm :=
  match find_page_entry pml4 virt s with
  | None => (false, s)
  | Some a =>
      let e := arr_get (vm_mem s) a in
      if negb (flag e PAGE_PRESENT) || negb (flag e PAGE_COW) then (false, s) else
      let old_phys := e .& PTE_PHYS_MASK in
      let finish new_phys s :=
        let e := arr_get (vm_mem s) a in
        (true, store a (new_phys .| ((e .& 0xFFF) .& not64 PAGE_COW)
                          .| PAGE_PRESENT .| PAGE_WRITABLE) s) in
      if 1 <? block_refcount old_phys (vm_frames s)
      then match alloc_block (vm_frames s) with
           | (None, fr) => (false, Vm (vm_mem s) fr)
           | (Some new_phys, fr) =>
               finish new_phys (free_frame old_phys
                                  (Vm (copy_frame new_phys old_phys (vm_mem s)) fr))
           end
      else finish old_phys s
  end.

(** The page loop of [vmm_prepare_user_write], from [page] to [last]. *)
Fixpoint prepare_pages (fuel : nat) (pml4 page last : Z) (s : vm) : option (bool * vm) :=
  match fuel with
  | O => None
  | S fuel' =>
      match find_page_entry pml4 page s with
      | None => Some (false, s)
      | Some a =>
          let e := arr_get (vm_mem s) a in
          if negb (e .& (PAGE_PRESENT .| PAGE_USER) =? (PAGE_PRESENT .| PAGE_USER))
          then Some (false, s) else
          let (ok, s) := if negb (flag e PAGE_WRITABLE)
                         then vmm_handle_cow_fault pml4 page s else (true, s) in
          if negb ok then Some (false, s)
          else if page =? last then Some (true, s)
          else prepare_pages fuel' pml4 (u64 (page + 4096)) last s
      end
  end.

Definition vmm_prepare_user_write (fuel : nat) (pml4 virt length : Z) (s : vm)
    : option (bool * vm) :=
  if length =? 0 then Some (true, s) else
  let end_ := u64 (virt + length - 1) in
  if (pml4 =? 0) || (end_ <? virt) || (virt <? AOS_USER_SPACE_START)
     || (USER_SPACE_END <=? end_) then Some (false, s) else
  prepare_pages fuel pml4 (virt .& PAGE_MASK) (end_ .& PAGE_MASK) s.

Definition vmm_protect_page (pml4 virt flags : Z) (s : vm) : bool * vm :=
  match find_page_entry pml4 virt s with
  | None => (false, s)
  | Some a =>
      let e := arr_get (vm_mem s) a in
      if negb (flag e PAGE_PRESENT) then (false, s) else
      let phys := e .& PTE_PHYS_MASK in
      if flag flags PAGE_WRITABLE
      then if flag e PAGE_COW || (1 <? block_refcount phys (vm_frames s))
           then match alloc_block (vm_frames s) with
                | (None, fr) => (false, Vm (vm_mem s) fr)
                | (Some new_phys, fr) =>
                    let s := free_frame phys (Vm (copy_frame new_phys phys (vm_mem s)) fr) in
                    (true, store a (new_phys .| flags .| 0) s)
                end
           else (true, store a (phys .| flags .| 0) s)
      else
        let retained_cow := if flag e PAGE_COW then PAGE_COW else 0 in
        (true, store a (phys .| flags .| retained_cow) s)
  end.

Definition table_has_present_entries (table : Z) (s : vm) : bool :=
  existsb (λ i, flag (entry (vm_mem s) table i) PAGE_PRESENT) (seqZ 0 512).

Definition present_user (e : Z) : bool := flag e PAGE_PRESENT && flag e PAGE_USER.

(** [if (!table_has_present_entries(t)) { pmm_free_block(t); parent[i] = 0; }] *)
Definition release_if_empty (t parent i : Z) (s : vm) : vm :=
  if table_has_present_entries t s then s else store (slot parent i) 0 (free_frame t s).

(** The loop over one page table. *)
Definition free_pt (pt : Z) (s : vm) : vm :=
  for_range 0 512 1 (λ l s,
    let e := entry (vm_mem s) pt l in
    if present_user e then store (slot pt l) 0 (free_frame (e .& PAGE_MASK) s) else s) s.

Definition free_pd (pd : Z) (s : vm) : vm :=
  for_range 0 512 1 (λ k s,
    let e := entry (vm_mem s) pd k in
    if negb (present_user e) then s
    else if flag e PAGE_HUGE
    then store (slot pd k) 0 (free_frame (e .& not64 0x1FFFFF) s)
    else let pt := e .& PAGE_MASK in
         release_if_empty pt pd k (free_pt pt s)) s.

Definition free_pdpt (pdpt : Z) (s : vm) : vm :=
  for_range 0 512 1 (λ j s,
    let e := entry (vm_mem s) pdpt j in
    if negb (present_user e) then s
    else let pd := e .& PAGE_MASK in
         release_if_empty pd pdpt j (free_pd pd s)) s.

Definition vmm_free_user_space (pml4 : Z) (s : vm) : vm :=
  if pml4 =? 0 then s else
  for_range 0 512 1 (λ i s,
    if negb (user_slot i) then s else
    let e := entry (vm_mem s) pml4 i in
    if negb (present_user e) then s
    else let pdpt := e .& PAGE_MASK in
         release_if_empty pdpt pml4 i (free_pdpt pdpt s)) s.

(** [p4_table]: the address of the boot page table, from the assembly. *)
Variable p4_table : Z.

Definition vmm_create_user_space (kernel_source : Z) (s : vm) : option Z * vm :=
  let kernel_source := if kernel_source =? 0 then p4_table else kernel_source in
  match alloc_block (vm_frames s) with
  | (None, fr) => (None, Vm (vm_mem s) fr)
  | (Some dst_p4, fr) =>
      (Some dst_p4,
       Vm (share_kernel_slots dst_p4 kernel_source (zero_frame dst_p4 (vm_mem s))) fr)
  end.

Definition vmm_destroy_user_space (pml4 : Z) (s : vm) : vm :=
  if pml4 =? 0 then s else
  let s := vmm_free_user_space pml4 s in
  if negb (pml4 =? p4_table) then free_frame pml4 s else s.

(** The copy loop over one page table; [false] is [goto copy_failed]. *)
Definition copy_pt (src_pt dst_pt : Z) (s : vm) : bool * vm :=
  for_break (seqZ 0 512) (λ l s,
    let e := entry (vm_mem s) src_pt l in
    if negb (flag e PAGE_PRESENT) then (true, s)
    else if flag e PAGE_USER then
      let (ok, fr) := retain_block (e .& PTE_PHYS_MASK) (vm_frames s) in
      let s := Vm (vm_mem s) fr in
      if negb ok then (false, s)
      else if flag e (PAGE_WRITABLE .| PAGE_COW)
      then let e := (e .& not64 PAGE_WRITABLE) .| PAGE_COW in
           (true, store (slot dst_pt l) e (store (slot src_pt l) e s))
      else (true, store (slot dst_pt l) e s)
    else (true, store (slot dst_pt l) e s)) s.

(** Allocates a table for [src[i]] and links it into [dst[i]]; then [body] copies. *)
Definition copy_table (body : Z → Z → vm → bool * vm) (src dst i : Z) (s : vm) : bool * vm :=
  let e := entry (vm_mem s) src i in
  match alloc_block (vm_frames s) with
  | (None, fr) => (false, Vm (vm_mem s) fr)
  | (Some t, fr) =>
      body (e .& PAGE_MASK) t
        (store (slot dst i) (t .| (e .& 0xFFF)) (Vm (zero_frame t (vm_mem s)) fr))
  end.

Definition copy_pd (src_pd dst_pd : Z) (s : vm) : bool * vm :=
  for_break (seqZ 0 512) (λ k s,
    let e := entry (vm_mem s) src_pd k in
    if negb (flag e PAGE_PRESENT) then (true, s)
    else if flag e PAGE_HUGE then (false, s)
    else copy_table copy_pt src_pd dst_pd k s) s.

Definition copy_pdpt (src_pdpt dst_pdpt : Z) (s : vm) : bool * vm :=
  for_break (seqZ 0 512) (λ j s,
    let e := entry (vm_mem s) src_pdpt j in
    if negb (flag e PAGE_PRESENT) then (true, s)
    else copy_table copy_pd src_pdpt dst_pdpt j s) s.

Definition vmm_copy_p4 (src_p4 : Z) (s : vm) : option Z * vm :=
  match alloc_block (vm_frames s) with
  | (None, fr) => (None, Vm (vm_mem s) fr)
  | (Some dst_p4, fr) =>
      let (ok, s) :=
        for_break (seqZ 0 512) (λ i s,
          let e := entry (vm_mem s) src_p4 i in
          if negb (flag e PAGE_PRESENT) then (true, s)
          else if negb (user_slot i) then (true, store (slot dst_p4 i) e s)
          else copy_table copy_pdpt src_p4 dst_p4 i s)
          (Vm (zero_frame dst_p4 (vm_mem s)) fr) in
      if ok then (Some dst_p4, s) else (None, vmm_destroy_user_space dst_p4 s)
  end.

End vmm.
