(* ===== verification/VmmSpec.v ===== *)
(** * Address translation: the contract of [kernel/vmm.c]

    [translate] is what the processor computes from the page tables: the leaf
    entry of a virtual address and the write and user rights granted by all
    levels together.  A well-formed address space has no table shared between
    two positions of the tree; the theorems say what each operation does to the
    translation of every virtual address. *)

From S2P Require Import Prelude Pmm Frames Vmm.

(** ** Bits of entries *)

Lemma testbit_page x n : (4096 | x) → n < 12 → Z.testbit x n = false.
Proof. intros [k ->] Hn. change 4096 with (2 ^ 12). by apply Z.mul_pow2_bits_low. Qed.

Lemma testbit_small x k n : 0 ≤ x < 2 ^ k → 0 ≤ k ≤ n → Z.testbit x n = false.
Proof.
  intros Hx Hn. destruct (decide (x = 0)) as [->|]; [apply Z.bits_0|].
  apply Z.bits_above_log2; [lia|]. assert (Z.log2 x < k); [|lia].
  apply Z.log2_lt_pow2; lia.
Qed.

Lemma land_low x f b : (4096 | x) → 0 ≤ b < 4096 → (x .| f) .& b = f .& b.
Proof.
  intros Hx Hb. apply Z.bits_inj'. intros n Hn.
  rewrite !Z.land_spec, Z.lor_spec. destruct (decide (n < 12)).
  - by rewrite testbit_page.
  - rewrite (testbit_small b 12) by lia. by rewrite !andb_false_r.
Qed.

Lemma flag_low x f b : (4096 | x) → 0 ≤ b < 4096 → flag (x .| f) b = flag f b.
Proof. intros. unfold flag. by rewrite land_low. Qed.

Lemma phys_mask_bits n : 0 ≤ n →
  Z.testbit PTE_PHYS_MASK n = bool_decide (12 ≤ n < 52).
Proof.
  intros Hn. change PTE_PHYS_MASK with (Z.ones 40 .<< 12).
  rewrite Z.shiftl_spec by done. destruct (decide (n < 12)).
  - rewrite Z.testbit_neg_r by lia. symmetry. apply bool_decide_eq_false. lia.
  - rewrite Z.testbit_ones_nonneg by lia. destruct (Z.ltb_spec (n - 12) 40); symmetry.
    + apply bool_decide_eq_true. lia.
    + apply bool_decide_eq_false. lia.
Qed.

Lemma phys_of t f : 0 ≤ t < 2 ^ 52 → (4096 | t) → 0 ≤ f < 4096 → (t .| f) .& PTE_PHYS_MASK = t.
Proof.
  intros Ht Hal Hf. apply Z.bits_inj'. intros n Hn.
  rewrite Z.land_spec, Z.lor_spec, phys_mask_bits by done. case_bool_decide as Hb.
  - rewrite (testbit_small f 12) by lia. by rewrite orb_false_r, andb_true_r.
  - rewrite andb_false_r. destruct (decide (n < 12)).
    + by rewrite testbit_page.
    + rewrite (testbit_small t 52) by lia. done.
Qed.

Lemma phys_aligned e : (4096 | e .& PTE_PHYS_MASK).
Proof.
  apply Z.mod_divide; [lia|]. change 4096 with (2 ^ 12). rewrite <- Z.land_ones by lia.
  rewrite <- Z.land_assoc. by rewrite Z.land_0_r.
Qed.

Lemma page_mask_bits n : 0 ≤ n → Z.testbit PAGE_MASK n = bool_decide (12 ≤ n < 64).
Proof.
  intros Hn. change PAGE_MASK with (Z.ones 52 .<< 12).
  rewrite Z.shiftl_spec by done. destruct (decide (n < 12)).
  - rewrite Z.testbit_neg_r by lia. symmetry. apply bool_decide_eq_false. lia.
  - rewrite Z.testbit_ones_nonneg by lia. destruct (Z.ltb_spec (n - 12) 52); symmetry.
    + apply bool_decide_eq_true. lia.
    + apply bool_decide_eq_false. lia.
Qed.

(** The two masks the source uses agree on entries without high bits. *)
Lemma masks_agree e : 0 ≤ e < 2 ^ 52 → e .& PAGE_MASK = e .& PTE_PHYS_MASK.
Proof.
  intros He. apply Z.bits_inj'. intros n Hn.
  rewrite !Z.land_spec, page_mask_bits, phys_mask_bits by done.
  destruct (decide (n < 52)).
  - f_equal. apply bool_decide_ext. lia.
  - by rewrite (testbit_small e 52) by lia.
Qed.

Lemma lor_small a b k : 0 ≤ k → 0 ≤ a < 2 ^ k → 0 ≤ b < 2 ^ k → 0 ≤ a .| b < 2 ^ k.
Proof.
  intros Hk Ha Hb. assert (0 ≤ a .| b) by (apply Z.lor_nonneg; lia). split; [done|].
  destruct (decide (a .| b = 0)) as [->|]; [lia|].
  apply Z.log2_lt_pow2; [lia|]. rewrite Z.log2_lor by lia.
  destruct (decide (a = 0)) as [->|]; destruct (decide (b = 0)) as [->|].
  - by rewrite Z.lor_0_r in *.
  - simpl. rewrite Z.max_r by apply Z.log2_nonneg. apply Z.log2_lt_pow2; lia.
  - simpl. rewrite Z.max_l by apply Z.log2_nonneg. apply Z.log2_lt_pow2; lia.
  - apply Z.max_lub_lt; apply Z.log2_lt_pow2; lia.
Qed.

(** ** Memory *)

Lemma slot_inj t t' i i' :
  (4096 | t) → (4096 | t') → 0 ≤ i < 512 → 0 ≤ i' < 512 →
  slot t i = slot t' i' → t = t' ∧ i = i'.
Proof. unfold slot. intros [x ->] [y ->]. lia. Qed.

(** A loop that stores [v i] in entry [i] of one table. *)
Lemma fill_table t (v : Z → Z) (body : Z → arr → arr) m :
  (∀ i m', 0 ≤ i < 512 →
     (∀ a, (∀ j, 0 ≤ j < 512 → a ≠ slot t j) → arr_get m' a = arr_get m a) →
     body i m' = arr_set m' (slot t i) (v i)) →
  let m' := for_range 0 512 1 body m in
  (∀ i, 0 ≤ i < 512 → entry m' t i = v i) ∧
  (∀ a, (∀ j, 0 ≤ j < 512 → a ≠ slot t j) → arr_get m' a = arr_get m a).
Proof.
  intros Hbody. apply (for_range_index (λ k m',
    (∀ i, 0 ≤ i < k → entry m' t i = v i) ∧
    (∀ a, (∀ j, 0 ≤ j < 512 → a ≠ slot t j) → arr_get m' a = arr_get m a))).
  - lia.
  - split; [lia|done].
  - intros k m' Hk [H1 H2]. rewrite (Hbody k m' Hk H2). split.
    + intros i Hi. unfold entry. rewrite arr_get_set. case_decide as Hs.
      * f_equal. unfold slot in Hs. lia.
      * apply H1. assert (i ≠ k) by congruence. lia.
    + intros a Ha. rewrite arr_get_set. case_decide as Hs; [|by apply H2].
      by destruct (Ha k Hk).
Qed.

Lemma zero_frame_spec t m :
  (∀ i, 0 ≤ i < 512 → entry (zero_frame t m) t i = 0) ∧
  (∀ a, (∀ j, 0 ≤ j < 512 → a ≠ slot t j) → arr_get (zero_frame t m) a = arr_get m a).
Proof. by apply (fill_table t (λ _, 0)). Qed.

Lemma copy_frame_spec dst src m :
  (4096 | dst) → (4096 | src) → dst ≠ src →
  (∀ i, 0 ≤ i < 512 → entry (copy_frame dst src m) dst i = entry m src i) ∧
  (∀ a, (∀ j, 0 ≤ j < 512 → a ≠ slot dst j) → arr_get (copy_frame dst src m) a = arr_get m a).
Proof.
  intros Hd Hs Hne. apply (fill_table dst (λ i, entry m src i)). intros i m' Hi Hsame.
  f_equal. apply Hsame. intros j Hj Heq. apply slot_inj in Heq as [? _]; [congruence|done..].
Qed.

Lemma create_loop dst src m :
  (4096 | dst) → (4096 | src) → dst ≠ src →
  let m' := share_kernel_slots dst src (zero_frame dst m) in
  (∀ i, 0 ≤ i < 512 → entry m' dst i = if user_slot i then 0 else entry m src i) ∧
  (∀ a, (∀ j, 0 ≤ j < 512 → a ≠ slot dst j) → arr_get m' a = arr_get m a).
Proof.
  intros Hd Hs Hne. destruct (zero_frame_spec dst m) as [Hz Ha].
  set (m1 := zero_frame dst m) in *. clearbody m1. unfold share_kernel_slots. cbv zeta.
  assert (Hsrc : ∀ m2 i, 0 ≤ i < 512 →
    (∀ a, (∀ j, 0 ≤ j < 512 → a ≠ slot dst j) → arr_get m2 a = arr_get m a) →
    entry m2 src i = entry m src i).
  { intros m2 i Hi H2. apply H2. intros j Hj Heq. apply slot_inj in Heq as [? _]; [congruence|done..]. }
  assert (Hloop : ∀ k m2, 0 ≤ k < 512 →
    (∀ i, 0 ≤ i < 512 → entry m2 dst i =
       if bool_decide (i < k) then (if user_slot i then 0 else entry m src i) else 0) ∧
    (∀ a, (∀ j, 0 ≤ j < 512 → a ≠ slot dst j) → arr_get m2 a = arr_get m a) →
    let m3 := if negb (user_slot k) then arr_set m2 (slot dst k) (entry m2 src k) else m2 in
    (∀ i, 0 ≤ i < 512 → entry m3 dst i =
       if bool_decide (i < k + 1) then (if user_slot i then 0 else entry m src i) else 0) ∧
    (∀ a, (∀ j, 0 ≤ j < 512 → a ≠ slot dst j) → arr_get m3 a = arr_get m a)).
  { intros k m2 Hk [H1 H2] m3. unfold m3. destruct (user_slot k) eqn:Hu; cbn [negb].
    - split; [|done]. intros i Hi. rewrite H1 by done.
      do 2 case_bool_decide; try done; try lia. replace i with k by lia. by rewrite Hu.
    - split.
      + intros i Hi. unfold entry. rewrite arr_get_set. case_decide as Hsl.
        * assert (i = k) as -> by (unfold slot in Hsl; lia).
          rewrite bool_decide_eq_true_2, Hu by lia. by apply (Hsrc m2).
        * fold (entry m2 dst i). rewrite H1 by done. assert (i ≠ k) by congruence.
          do 2 case_bool_decide; try done; lia.
      + intros a Hna. rewrite arr_get_set_ne; [by apply H2|]. intros <-. by apply (Hna k). }
  destruct (for_range_index (λ k m2,
    (∀ i, 0 ≤ i < 512 → entry m2 dst i =
       if bool_decide (i < k) then (if user_slot i then 0 else entry m src i) else 0) ∧
    (∀ a, (∀ j, 0 ≤ j < 512 → a ≠ slot dst j) → arr_get m2 a = arr_get m a)) 512
    (λ i m, if negb (user_slot i) then arr_set m (slot dst i) (entry m src i) else m) m1)
    as [R1 R2]; [lia| |done|].
  { split; [|done]. intros i Hi. rewrite Hz by done. by case_bool_decide; [lia|]. }
  split; [|done]. intros i Hi. rewrite R1 by done. by rewrite bool_decide_eq_true_2 by lia.
Qed.

(** ** The page walk of the processor *)

(** The table at the end of a path of indices, and the rights granted on the way. *)
Fixpoint walk (m : arr) (t r : Z) (p : list Z) : option (Z * Z) :=
  match p with
  | [] => Some (t, r)
  | i :: p' =>
      let e := entry m t i in
      if flag e PAGE_PRESENT && negb (flag e PAGE_HUGE)
      then walk m (e .& PTE_PHYS_MASK) (r .& e) p' else None
  end.

Definition RIGHTS : Z := PAGE_WRITABLE .| PAGE_USER.

(** The entry that maps page [i1] inside a 2 MiB page. *)
Definition huge_leaf (e i1 : Z) : Z :=
  u64 ((e .& not64 0x1FFFFF) + i1 * 4096) .| ((e .& 0xFFF) .& not64 PAGE_HUGE).

(** What entry [i2] of a page directory reached with rights [r] maps at [i1]. *)
Definition leaf_of (m : arr) (pd r i2 i1 : Z) : option (Z * Z) :=
  let e := entry m pd i2 in
  if negb (flag e PAGE_PRESENT) then None
  else if flag e PAGE_HUGE then Some (huge_leaf e i1, r .& e)
  else let l := entry m (e .& PTE_PHYS_MASK) i1 in
       if flag l PAGE_PRESENT then Some (l, r .& e .& l) else None.

Definition translate (m : arr) (pml4 virt : Z) : option (Z * Z) :=
  match walk m pml4 RIGHTS [pml4_index virt; pdpt_index virt] with
  | None => None
  | Some (pd, r) => leaf_of m pd r (pd_index virt) (pt_index virt)
  end.

(** Two addresses on the same page use the same four indices. *)
Definition page_of (virt : Z) : list Z :=
  [pml4_index virt; pdpt_index virt; pd_index virt; pt_index virt].

Definition path_ok (p : list Z) : Prop := (length p ≤ 3)%nat ∧ Forall (λ i, 0 ≤ i < 512) p.

Lemma index_range a : 0 ≤ a .& 0x1FF < 512.
Proof.
  change 0x1FF with (Z.ones 9). rewrite Z.land_ones by lia.
  apply Z.mod_pos_bound. lia.
Qed.

Lemma walk_app m t r p q :
  walk m t r (p ++ q) = '(t', r') ← walk m t r p; walk m t' r' q.
Proof.
  revert t r. induction p as [|i p IH]; intros t r; simpl; [done|].
  case_ifs; [apply IH|done].
Qed.

Lemma walk_rights m t r p t' r' :
  walk m t r p = Some (t', r') → r .& RIGHTS = r → r' .& RIGHTS = r'.
Proof.
  revert t r. induction p as [|i p IH]; intros t r; simpl; [by intros [= -> ->]|].
  case_ifs; [|done]. intros Hw Hr. eapply IH; [done|].
  by rewrite <- Z.land_assoc, (Z.land_comm _ RIGHTS), Z.land_assoc, Hr.
Qed.

(** Only the entries on the path matter. *)
Lemma walk_agree m m' t r p :
  (∀ q i q' t' r', p = q ++ i :: q' → walk m t r q = Some (t', r') →
     entry m' t' i = entry m t' i) →
  walk m' t r p = walk m t r p.
Proof.
  revert t r. induction p as [|i p IH]; intros t r Hag; simpl; [done|].
  rewrite (Hag [] i p t r) by done. case_ifs; [|done]. apply IH.
  intros q j q' t' r' -> Hw. apply (Hag (i :: q) j q' t' r'); [done|]. simpl.
  match goal with H : _ = true |- _ => by rewrite H end.
Qed.

(** ** Well-formed address spaces *)

Section spec.
  Context {A : Type} `{!FrameAllocator A, !FrameAllocatorSpec A}.
  Implicit Types (m : arr) (fr : A) (s : vm (A := A)) (p q : list Z).

(** The tables are distinct frames the allocator knows as used; 1 GiB pages do not
    occur; entries that point to tables have no high bits. *)
Record space_wf (s : vm (A := A)) (pml4 : Z) : Prop := {
  sw_alloc : fa_wf (vm_frames s);
  sw_table : ∀ p t r, path_ok p → walk (vm_mem s) pml4 RIGHTS p = Some (t, r) →
    frame t ∧ fa_used (vm_frames s) t;
  sw_inj : ∀ p q t r r', path_ok p → path_ok q →
    walk (vm_mem s) pml4 RIGHTS p = Some (t, r) →
    walk (vm_mem s) pml4 RIGHTS q = Some (t, r') → p = q;
  sw_upper : ∀ p t r i, path_ok p → (length p ≤ 1)%nat → 0 ≤ i < 512 →
    walk (vm_mem s) pml4 RIGHTS p = Some (t, r) →
    flag (entry (vm_mem s) t i) PAGE_PRESENT = true →
    flag (entry (vm_mem s) t i) PAGE_HUGE = false;
  sw_low : ∀ p t r i, path_ok p → (length p ≤ 2)%nat → 0 ≤ i < 512 →
    walk (vm_mem s) pml4 RIGHTS p = Some (t, r) →
    flag (entry (vm_mem s) t i) PAGE_PRESENT = true →
    flag (entry (vm_mem s) t i) PAGE_HUGE = false →
    0 ≤ entry (vm_mem s) t i < 2 ^ 52
}.

Lemma path_ok_nil : path_ok [].
Proof. split; [simpl; lia|constructor]. Qed.

Lemma path_ok_app p q : path_ok (p ++ q) → path_ok p.
Proof. intros [H1 [H2 _]%Forall_app]. rewrite length_app in H1. split; [lia|done]. Qed.

Lemma path_ok_snoc p i : path_ok p → (length p ≤ 2)%nat → 0 ≤ i < 512 → path_ok (p ++ [i]).
Proof.
  intros [H1 H2] Hl Hi. split; [rewrite length_app; simpl; lia|].
  apply Forall_app. split; [done|by apply Forall_singleton].
Qed.

Lemma path_ok_elem p i q : path_ok (p ++ i :: q) → 0 ≤ i < 512.
Proof. intros [_ [_ H]%Forall_app]. by apply Forall_cons in H as [? _]. Qed.

Lemma walk_snoc m t r p i t' r' :
  walk m t r p = Some (t', r') →
  walk m t r (p ++ [i]) =
    if flag (entry m t' i) PAGE_PRESENT && negb (flag (entry m t' i) PAGE_HUGE)
    then Some (entry m t' i .& PTE_PHYS_MASK, r' .& entry m t' i) else None.
Proof. intros Hw. rewrite walk_app, Hw. done. Qed.

(** A change of one entry of table [p] and of frames that are not tables leaves every
    path that does not go through the entry as it was. *)
Lemma walk_frame s m' pml4 p t r i q :
  space_wf s pml4 → path_ok p → 0 ≤ i < 512 →
  walk (vm_mem s) pml4 RIGHTS p = Some (t, r) →
  (∀ t' j, frame t' → fa_used (vm_frames s) t' → 0 ≤ j < 512 → slot t' j ≠ slot t i →
     entry m' t' j = entry (vm_mem s) t' j) →
  path_ok q → ¬ (p ++ [i]) `prefix_of` q →
  walk m' pml4 RIGHTS q = walk (vm_mem s) pml4 RIGHTS q.
Proof.
  intros Hwf Hp Hi Hw Hag Hq Hpre. apply walk_agree. intros q1 j q2 t' r' -> Hw'.
  pose proof (path_ok_app _ _ Hq) as Hq1. pose proof (path_ok_elem _ _ _ Hq) as Hj.
  destruct (sw_table _ _ Hwf _ _ _ Hq1 Hw') as [Hf Hu]. apply Hag; [done..|].
  destruct (sw_table _ _ Hwf _ _ _ Hp Hw) as [[_ Hft] _]. destruct Hf as [_ Hf'].
  intros [-> ->]%slot_inj; [|done..].
  pose proof (sw_inj _ _ Hwf _ _ _ _ _ Hp Hq1 Hw Hw') as ->.
  apply Hpre. exists q2. by rewrite <- app_assoc.
Qed.

(** [translate] in terms of the four indices *)
Definition trans m pml4 (i4 i3 i2 i1 : Z) : option (Z * Z) :=
  match walk m pml4 RIGHTS [i4; i3] with
  | None => None
  | Some (pd, r) => leaf_of m pd r i2 i1
  end.

Definition same_translation m m' pml4 : Prop :=
  ∀ virt, translate m' pml4 virt = translate m pml4 virt.

Lemma leaf_of_agree m m' pd r i2 i1 :
  entry m' pd i2 = entry m pd i2 →
  (flag (entry m pd i2) PAGE_PRESENT = true → flag (entry m pd i2) PAGE_HUGE = false →
   entry m' (entry m pd i2 .& PTE_PHYS_MASK) i1 = entry m (entry m pd i2 .& PTE_PHYS_MASK) i1) →
  leaf_of m' pd r i2 i1 = leaf_of m pd r i2 i1.
Proof.
  intros He Hl. unfold leaf_of. rewrite He.
  destruct (flag _ PAGE_PRESENT); simpl; [|done]. destruct (flag _ PAGE_HUGE); [done|].
  by rewrite Hl.
Qed.

Lemma leaf_pt m t r p i2 pd rd :
  walk m t r p = Some (pd, rd) →
  flag (entry m pd i2) PAGE_PRESENT = true → flag (entry m pd i2) PAGE_HUGE = false →
  walk m t r (p ++ [i2]) = Some (entry m pd i2 .& PTE_PHYS_MASK, rd .& entry m pd i2).
Proof. intros Hw Hp Hh. by rewrite (walk_snoc _ _ _ _ _ _ _ Hw), Hp, Hh. Qed.

(** Outside the subtree of the entry, translation is unchanged. *)
Lemma trans_frame s m' pml4 p t r i i4 i3 i2 i1 :
  space_wf s pml4 → path_ok p → 0 ≤ i < 512 →
  walk (vm_mem s) pml4 RIGHTS p = Some (t, r) →
  (∀ t' j, frame t' → fa_used (vm_frames s) t' → 0 ≤ j < 512 → slot t' j ≠ slot t i →
     entry m' t' j = entry (vm_mem s) t' j) →
  Forall (λ i, 0 ≤ i < 512) [i4; i3; i2; i1] → ¬ (p ++ [i]) `prefix_of` [i4; i3; i2; i1] →
  trans m' pml4 i4 i3 i2 i1 = trans (vm_mem s) pml4 i4 i3 i2 i1.
Proof.
  intros Hwf Hp Hi Hw Hag Hr Hpre. unfold trans.
  rewrite !Forall_cons in Hr. destruct Hr as (Hr4 & Hr3 & Hr2 & Hr1 & _).
  assert (Hq2 : path_ok [i4; i3]) by (split; [simpl; lia|]; rewrite !Forall_cons; auto).
  assert (Hq3 : path_ok [i4; i3; i2]) by (split; [simpl; lia|]; rewrite !Forall_cons; auto).
  rewrite (walk_frame s m' pml4 p t r i [i4; i3]); try done.
  2: { intros Hx. apply Hpre. etrans; [exact Hx|]. by exists [i2; i1]. }
  destruct (walk (vm_mem s) pml4 RIGHTS [i4; i3]) as [[pd rd]|] eqn:Hw2; [|done].
  assert (Hsame : ∀ q j t' r', path_ok q → 0 ≤ j < 512 →
    walk (vm_mem s) pml4 RIGHTS q = Some (t', r') →
    (q ++ [j]) `prefix_of` [i4; i3; i2; i1] → entry m' t' j = entry (vm_mem s) t' j).
  { intros q j t' r' Hq Hj Hwq Hqp. destruct (sw_table _ _ Hwf _ _ _ Hq Hwq) as [[Hf1 Hf2] Hu].
    destruct (sw_table _ _ Hwf _ _ _ Hp Hw) as [[_ Hft] _].
    apply Hag; [done..|]. intros [-> ->]%slot_inj; [|done..].
    by pose proof (sw_inj _ _ Hwf _ _ _ _ _ Hp Hq Hw Hwq) as ->. }
  apply leaf_of_agree.
  - apply (Hsame [i4; i3] i2 pd rd); [done..|]. by exists [i1].
  - intros HP HH. eapply (Hsame [i4; i3; i2] i1); [done|done| |done].
    by apply (leaf_pt _ _ _ [i4; i3]).
Qed.

(** Memory that agrees on all tables translates alike. *)
Lemma trans_agree s m' pml4 i4 i3 i2 i1 :
  space_wf s pml4 → Forall (λ i, 0 ≤ i < 512) [i4; i3; i2; i1] →
  (∀ t' j, frame t' → fa_used (vm_frames s) t' → 0 ≤ j < 512 →
     entry m' t' j = entry (vm_mem s) t' j) →
  trans m' pml4 i4 i3 i2 i1 = trans (vm_mem s) pml4 i4 i3 i2 i1.
Proof.
  intros Hwf Hr Hag. unfold trans.
  rewrite !Forall_cons in Hr. destruct Hr as (Hr4 & Hr3 & Hr2 & Hr1 & _).
  assert (Hq3 : path_ok [i4; i3; i2]) by (split; [simpl; lia|]; rewrite !Forall_cons; auto).
  pose proof (path_ok_app [i4; i3] [i2] Hq3) as Hq2.
  assert (Hent : ∀ q t r j, path_ok q → walk (vm_mem s) pml4 RIGHTS q = Some (t, r) → 0 ≤ j < 512 →
    entry m' t j = entry (vm_mem s) t j).
  { intros q t r j Hq Hw Hj. destruct (sw_table _ _ Hwf _ _ _ Hq Hw). by apply Hag. }
  rewrite (walk_agree (vm_mem s) m').
  2: { intros q i q' t r Heq Hw. rewrite Heq in Hq2. eapply Hent; [by eapply path_ok_app|done|].
       by eapply path_ok_elem. }
  destruct (walk (vm_mem s) pml4 RIGHTS [i4; i3]) as [[pd rd]|] eqn:Hw2; [|done].
  apply leaf_of_agree; [by eapply (Hent [i4; i3])|]. intros HP HH.
  eapply (Hent [i4; i3; i2]); [done| |done]. by apply (leaf_pt _ _ _ [i4; i3]).
Qed.

Lemma translate_trans m pml4 virt :
  translate m pml4 virt =
  trans m pml4 (pml4_index virt) (pdpt_index virt) (pd_index virt) (pt_index virt).
Proof. done. Qed.

Lemma page_of_range virt : Forall (λ i, 0 ≤ i < 512) (page_of virt).
Proof. unfold page_of. rewrite !Forall_cons. split_and!; try apply index_range. done. Qed.

(** ** What creating tables leaves alone *)

(** The page tables of an address space. *)
Definition is_table s pml4 (t : Z) : Prop :=
  ∃ q r, path_ok q ∧ walk (vm_mem s) pml4 RIGHTS q = Some (t, r).

(** New tables are frames that were free; frames in use stay in use, and those that are not
    tables keep their contents; 2 MiB pages are only split. *)
Record grows s (s' : vm (A := A)) pml4 : Prop := {
  gr_used b : (4096 | b) → fa_used (vm_frames s) b → fa_used (vm_frames s') b;
  gr_table t : is_table s' pml4 t → is_table s pml4 t ∨ ¬ fa_used (vm_frames s) t;
  gr_data t j : frame t → fa_used (vm_frames s) t → ¬ is_table s pml4 t → 0 ≤ j < 512 →
    entry (vm_mem s') t j = entry (vm_mem s) t j;
  gr_huge q t r i : path_ok q → length q = 2%nat → 0 ≤ i < 512 →
    walk (vm_mem s') pml4 RIGHTS q = Some (t, r) →
    flag (entry (vm_mem s') t i) PAGE_PRESENT = true → flag (entry (vm_mem s') t i) PAGE_HUGE = true →
    ∃ r', walk (vm_mem s) pml4 RIGHTS q = Some (t, r') ∧ entry (vm_mem s) t i = entry (vm_mem s') t i
}.

Lemma grows_refl s pml4 : grows s s pml4.
Proof. split; try done; [by left|eauto]. Qed.

Lemma table_frame s pml4 t : space_wf s pml4 → is_table s pml4 t → frame t ∧ fa_used (vm_frames s) t.
Proof. intros Hwf (q & r & Hq & Hw). by apply (sw_table _ _ Hwf q t r). Qed.

Lemma grows_trans s1 s2 s3 pml4 :
  space_wf s3 pml4 → grows s1 s2 pml4 → grows s2 s3 pml4 → grows s1 s3 pml4.
Proof.
  intros Hwf [A1 A2 A3 A4] [B1 B2 B3 B4]. split.
  - auto.
  - intros t Ht. destruct (B2 t Ht) as [H|H]; [by apply A2|]. right. intros Hu. apply H, A1; [|done].
    apply (table_frame _ _ _ Hwf Ht).
  - intros t j Hf Hu Hn Hj. rewrite B3; [by apply A3|done| | |done].
    + apply A1; [apply Hf|done].
    + intros [?|?]%A2; done.
  - intros q t r i Hq Hl Hi Hw HP HH. destruct (B4 q t r i Hq Hl Hi Hw HP HH) as (r2 & Hw2 & E2).
    rewrite <- E2 in HP, HH. destruct (A4 q t r2 i Hq Hl Hi Hw2 HP HH) as (r1 & Hw1 & E1).
    exists r1. split; [done|congruence].
Qed.

(** ** Linking a new table

    A fresh frame [n] is linked into entry [i] of the table at [p], where no table was. *)
Record links (s : vm (A := A)) (m' : arr) (fr' : A) (p : list Z) (t r i n f : Z) : Prop := {
  lk_frame : frame n;
  lk_fresh : ¬ fa_used (vm_frames s) n;
  lk_alloc : fa_wf fr';
  lk_used : ∀ b, (4096 | b) → fa_used fr' b ↔ b = n ∨ fa_used (vm_frames s) b;
  lk_flags : 0 ≤ f < 4096 ∧ flag f PAGE_PRESENT = true ∧ flag f PAGE_HUGE = false;
  lk_entry : entry m' t i = n .| f;
  lk_absent : flag (entry (vm_mem s) t i) PAGE_PRESENT &&
              negb (flag (entry (vm_mem s) t i) PAGE_HUGE) = false;
  lk_agree : ∀ t' j, frame t' → fa_used (vm_frames s) t' → 0 ≤ j < 512 →
    slot t' j ≠ slot t i → entry m' t' j = entry (vm_mem s) t' j;
  lk_zero : (length p ≤ 1)%nat → ∀ j, 0 ≤ j < 512 → entry m' n j = 0;
  lk_leaf : (length p = 2)%nat → ∀ j, 0 ≤ j < 512 →
    leaf_of m' t r i j = leaf_of (vm_mem s) t r i j
}.

Section link.
  Variables (s : vm (A := A)) (m' : arr) (fr' : A) (pml4 : Z) (p : list Z) (t r i n f : Z).
  Hypotheses (Hwf : space_wf s pml4) (Hp : path_ok p) (Hlen : (length p ≤ 2)%nat)
    (Hi : 0 ≤ i < 512) (Hw : walk (vm_mem s) pml4 RIGHTS p = Some (t, r))
    (Hl : links s m' fr' p t r i n f).

Lemma linked_flags : flag (n .| f) PAGE_PRESENT = true ∧ flag (n .| f) PAGE_HUGE = false.
Proof.
  destruct (lk_frame _ _ _ _ _ _ _ _ _ Hl) as [_ Hn]. destruct (lk_flags _ _ _ _ _ _ _ _ _ Hl) as (_ & H1 & H2).
  rewrite !flag_low by (done || (vm_compute; split; congruence)). done.
Qed.

Lemma linked_phys : (n .| f) .& PTE_PHYS_MASK = n.
Proof.
  destruct (lk_frame _ _ _ _ _ _ _ _ _ Hl) as [Hn Hn']. destruct (lk_flags _ _ _ _ _ _ _ _ _ Hl) as (Hf & _).
  apply phys_of; [lia|done|done].
Qed.

Lemma link_walk_p : walk m' pml4 RIGHTS p = Some (t, r).
Proof.
  rewrite (walk_frame s m' pml4 p t r i p); try done; [by apply Hl|].
  intros [k Hk]. apply (f_equal length) in Hk. rewrite !length_app in Hk. simpl in Hk. lia.
Qed.

Lemma link_walk_new : walk m' pml4 RIGHTS (p ++ [i]) = Some (n, r .& (n .| f)).
Proof.
  rewrite (walk_snoc _ _ _ _ _ _ _ link_walk_p), (lk_entry _ _ _ _ _ _ _ _ _ Hl).
  destruct linked_flags as [-> ->]. simpl. by rewrite linked_phys.
Qed.

(** The tables of the new tree are the old ones and the new one. *)
Lemma link_walk_inv q t' r' :
  path_ok q → walk m' pml4 RIGHTS q = Some (t', r') →
  walk (vm_mem s) pml4 RIGHTS q = Some (t', r') ∨ (q = p ++ [i] ∧ t' = n).
Proof.
  intros Hq Hwq. destruct (decide ((p ++ [i]) `prefix_of` q)) as [[k ->]|Hpre].
  - right. destruct k as [|j k].
    + rewrite app_nil_r in *. rewrite link_walk_new in Hwq. by simplify_eq.
    + rewrite walk_app, link_walk_new in Hwq. simpl in Hwq.
      assert (Hl1 : (length p ≤ 1)%nat).
      { destruct Hq as [Hq _]. rewrite !length_app in Hq. simpl in Hq. lia. }
      by rewrite (lk_zero _ _ _ _ _ _ _ _ _ Hl Hl1 j (path_ok_elem _ _ _ Hq)) in Hwq.
  - left. rewrite <- Hwq. symmetry. apply (walk_frame s m' pml4 p t r i); try done. by apply Hl.
Qed.

Lemma link_not_table q t' r' : path_ok q → walk (vm_mem s) pml4 RIGHTS q = Some (t', r') → t' ≠ n.
Proof.
  intros Hq Hwq ->. apply (lk_fresh _ _ _ _ _ _ _ _ _ Hl).
  by destruct (sw_table _ _ Hwf _ _ _ Hq Hwq).
Qed.

(** An entry of an old table is either the linked one or unchanged. *)
Lemma link_entry q t' r' j :
  path_ok q → walk (vm_mem s) pml4 RIGHTS q = Some (t', r') → 0 ≤ j < 512 →
  entry m' t' j = n .| f ∨ entry m' t' j = entry (vm_mem s) t' j.
Proof.
  intros Hq Hwq Hj. destruct (sw_table _ _ Hwf _ _ _ Hq Hwq) as [Hf Hu].
  destruct (decide (slot t' j = slot t i)) as [Hs|Hs].
  - left. unfold entry in *. rewrite Hs. apply Hl.
  - right. by apply Hl.
Qed.

Lemma link_wf : space_wf (Vm m' fr') pml4.
Proof.
  pose proof (lk_frame _ _ _ _ _ _ _ _ _ Hl) as Hn. destruct linked_flags as [_ Hnh].
  split; simpl.
  - apply Hl.
  - intros q t' r' Hq [Hwq|[-> ->]]%link_walk_inv; [| |done].
    + destruct (sw_table _ _ Hwf _ _ _ Hq Hwq) as [Hf Hu]. split; [done|].
      apply (lk_used _ _ _ _ _ _ _ _ _ Hl); [apply Hf|by right].
    + split; [done|]. apply (lk_used _ _ _ _ _ _ _ _ _ Hl); [apply Hn|by left].
  - intros q q' t' r1 r2 Hq Hq' [Hwq|[-> ->]]%link_walk_inv [Hwq'|[-> Ht]]%link_walk_inv; try done.
    + by eapply (sw_inj _ _ Hwf).
    + subst t'. by apply link_not_table in Hwq.
    + by apply link_not_table in Hwq'.
  - intros q t' r' j Hq Hql Hj [Hwq|[-> ->]]%link_walk_inv HP; [| |done].
    + destruct (link_entry q t' r' j) as [He|He]; try done; rewrite He in *; [done|].
      by eapply (sw_upper _ _ Hwf).
    + rewrite length_app in Hql. simpl in Hql.
      by rewrite (lk_zero _ _ _ _ _ _ _ _ _ Hl ltac:(lia) j Hj).
  - intros q t' r' j Hq Hql Hj [Hwq|[-> ->]]%link_walk_inv HP HH; [| |done].
    + destruct (link_entry q t' r' j) as [He|He]; try done; rewrite He in *.
      * destruct Hn as [Hn _]. destruct (lk_flags _ _ _ _ _ _ _ _ _ Hl) as (Hf & _).
        apply (lor_small n f 52); lia.
      * by eapply (sw_low _ _ Hwf).
    + rewrite length_app in Hql. simpl in Hql.
      rewrite (lk_zero _ _ _ _ _ _ _ _ _ Hl ltac:(lia) j Hj) in *. lia.
Qed.

Lemma link_translate : same_translation (vm_mem s) m' pml4.
Proof.
  intros virt. rewrite !translate_trans. pose proof (page_of_range virt) as Hr.
  unfold page_of in Hr. revert Hr.
  generalize (pml4_index virt) (pdpt_index virt) (pd_index virt) (pt_index virt).
  intros i4 i3 i2 i1 Hr.
  destruct (decide ((p ++ [i]) `prefix_of` [i4; i3; i2; i1])) as [[k Hk]|Hpre];
    [|apply (trans_frame s m' pml4 p t r i); try done; by apply Hl].
  assert (Hx : 0 ≤ i3 < 512 ∧ 0 ≤ i2 < 512 ∧ 0 ≤ i1 < 512)
    by (rewrite !Forall_cons in Hr; split_and!; apply Hr).
  destruct Hx as (Hx3 & Hx2 & Hx1).
  pose proof link_walk_new as Hnew. pose proof link_walk_p as Hp'.
  assert (Habs : walk (vm_mem s) pml4 RIGHTS (p ++ [i]) = None)
    by (by rewrite (walk_snoc _ _ _ _ _ _ _ Hw), (lk_absent _ _ _ _ _ _ _ _ _ Hl)).
  unfold trans. destruct p as [|j4 [|j3 [|]]]; [..|simpl in Hlen; lia];
    cbn [app] in Hk, Hnew, Habs; simplify_eq.
  - change [i; i3] with ([i] ++ [i3]). rewrite !walk_app, Habs, Hnew. cbn [mbind option_bind walk].
    by rewrite (lk_zero _ _ _ _ _ _ _ _ _ Hl ltac:(simpl; lia) i3).
  - rewrite Habs, Hnew. unfold leaf_of.
    by rewrite (lk_zero _ _ _ _ _ _ _ _ _ Hl ltac:(simpl; lia) i2).
  - rewrite Hw, Hp'. by apply Hl.
Qed.

Lemma link_grows : grows s (Vm m' fr') pml4.
Proof.
  split; simpl.
  - intros b Hb Hu. apply (lk_used _ _ _ _ _ _ _ _ _ Hl); [done|by right].
  - intros t' (q & r' & Hq & [Hwq|[-> ->]]%link_walk_inv); [left; by exists q, r'| |done].
    right. apply (lk_fresh _ _ _ _ _ _ _ _ _ Hl).
  - intros t' j Hf Hu Hn Hj. apply (lk_agree _ _ _ _ _ _ _ _ _ Hl); [done..|].
    intros [-> _]%slot_inj; [|apply Hf|by eapply (sw_table _ _ Hwf)|done|done].
    apply Hn. by exists p, r.
  - intros q t' r' j Hq Hql Hj Hwq HP HH. apply link_walk_inv in Hwq as [Hwq|[-> ->]]; [|exfalso|done].
    + exists r'. split; [done|]. destruct (link_entry q t' r' j) as [He|He]; try done.
      rewrite He in HH. by rewrite (proj2 linked_flags) in HH.
    + rewrite length_app in Hql. simpl in Hql.
      by rewrite (lk_zero _ _ _ _ _ _ _ _ _ Hl ltac:(lia) j Hj) in HP.
Qed.
End link.

(** Stores in a fresh frame [n] followed by one store at [slot t i]. *)
Lemma fresh_then_set s m1 n t i v :
  frame n → ¬ fa_used (vm_frames s) n →
  (∀ a, (∀ j, 0 ≤ j < 512 → a ≠ slot n j) → arr_get m1 a = arr_get (vm_mem s) a) →
  frame t → fa_used (vm_frames s) t → 0 ≤ i < 512 →
  let m' := arr_set m1 (slot t i) v in
  entry m' t i = v ∧
  (∀ j, 0 ≤ j < 512 → entry m' n j = entry m1 n j) ∧
  (∀ t' j, frame t' → fa_used (vm_frames s) t' → 0 ≤ j < 512 → slot t' j ≠ slot t i →
     entry m' t' j = entry (vm_mem s) t' j).
Proof.
  intros Hn Hfresh Hm1 Ht Hu Hi m'.
  assert (Hdis : ∀ t' j k, frame t' → fa_used (vm_frames s) t' → 0 ≤ j < 512 → 0 ≤ k < 512 →
    slot t' j ≠ slot n k).
  { intros t' j k [_ Ht'] Hu' Hj Hk [-> _]%slot_inj; [done|done|apply Hn|done|done]. }
  unfold m', entry. split_and!.
  - apply arr_get_set_eq.
  - intros j Hj. apply arr_get_set_ne. by apply Hdis.
  - intros t' j Ht' Hu' Hj Hs. rewrite arr_get_set_ne by done. apply Hm1. intros k Hk.
    by apply Hdis.
Qed.

Lemma masks_table s pml4 p t r i :
  space_wf s pml4 → path_ok p → (length p ≤ 2)%nat → 0 ≤ i < 512 →
  walk (vm_mem s) pml4 RIGHTS p = Some (t, r) →
  flag (entry (vm_mem s) t i) PAGE_PRESENT = true →
  flag (entry (vm_mem s) t i) PAGE_HUGE = false →
  walk (vm_mem s) pml4 RIGHTS (p ++ [i]) =
    Some (entry (vm_mem s) t i .& PAGE_MASK, r .& entry (vm_mem s) t i).
Proof.
  intros Hwf Hp Hlen Hi Hw HP HH. rewrite (walk_snoc _ _ _ _ _ _ _ Hw), HP, HH. simpl.
  by rewrite masks_agree by (by eapply (sw_low _ _ Hwf)).
Qed.

(** What a step of [vmm_map_page] at table [p], entry [i], guarantees. *)
Record table_step (s : vm (A := A)) (pml4 : Z) (p : list Z) (t r i : Z) (ok : bool)
    (s' : vm (A := A)) : Prop := {
  ts_wf : space_wf s' pml4;
  ts_same : same_translation (vm_mem s) (vm_mem s') pml4;
  ts_walk : walk (vm_mem s') pml4 RIGHTS p = Some (t, r);
  ts_ok : ok = true → ∃ r',
    walk (vm_mem s') pml4 RIGHTS (p ++ [i]) = Some (entry (vm_mem s') t i .& PAGE_MASK, r');
  ts_flags : ok = true → flag (entry (vm_mem s') t i) PAGE_PRESENT = true ∧
    flag (entry (vm_mem s') t i) PAGE_HUGE = false;
  ts_grows : grows s s' pml4
}.

Lemma table_step_linked s m' fr' pml4 p t r i n f :
  space_wf s pml4 → path_ok p → (length p ≤ 2)%nat → 0 ≤ i < 512 →
  walk (vm_mem s) pml4 RIGHTS p = Some (t, r) → links s m' fr' p t r i n f →
  table_step s pml4 p t r i true (Vm m' fr').
Proof.
  intros Hwf Hp Hlen Hi Hw Hl.
  pose proof (link_wf s m' fr' pml4 p t r i n f Hwf Hp Hlen Hi Hw Hl) as Hwf'.
  pose proof (link_walk_p s m' fr' pml4 p t r i n f Hwf Hp Hlen Hi Hw Hl) as Hwp.
  pose proof (linked_flags s m' fr' p t r i n f Hl) as [H1 H2].
  split; [done| |done| | |].
  - by eapply link_translate.
  - intros _. eexists. apply (masks_table (Vm m' fr')); try done;
      simpl; by rewrite (lk_entry _ _ _ _ _ _ _ _ _ Hl).
  - intros _. simpl. by rewrite (lk_entry _ _ _ _ _ _ _ _ _ Hl).
  - by eapply link_grows.
Qed.

(** A failed allocation changes nothing but the allocator's message flag. *)
Lemma table_step_oom s fr' pml4 p t r i :
  space_wf s pml4 → walk (vm_mem s) pml4 RIGHTS p = Some (t, r) →
  alloc_block (vm_frames s) = (None, fr') →
  table_step s pml4 p t r i false (Vm (vm_mem s) fr').
Proof.
  intros [H1 H2 H3 H4 H5] Hw Hal. destruct (fa_alloc_none _ _ H1 Hal) as (Hwf' & Hu & _).
  split; [|done|done|done|done|].
  - split; simpl; [done| |done|done|done]. intros q t' r' Hq Hwq. rewrite Hu. by eapply H2.
  - split; simpl; [by intros; apply Hu|by left|done|eauto].
Qed.

Lemma ensure_table_step s pml4 p t r i ok s' :
  space_wf s pml4 → path_ok p → (length p ≤ 2)%nat → 0 ≤ i < 512 →
  walk (vm_mem s) pml4 RIGHTS p = Some (t, r) →
  (flag (entry (vm_mem s) t i) PAGE_PRESENT = true →
   flag (entry (vm_mem s) t i) PAGE_HUGE = false) →
  ensure_table t i s = (ok, s') → table_step s pml4 p t r i ok s'.
Proof.
  intros Hwf Hp Hlen Hi Hw Hnh. unfold ensure_table.
  destruct (flag (entry (vm_mem s) t i) PAGE_PRESENT) eqn:HP; simpl.
  { intros [= <- <-]. split; [done|done|done| |by eauto|apply grows_refl]. intros _. eexists.
    apply (masks_table s pml4 p t r i); try done. by apply Hnh. }
  destruct (alloc_block _) as [[n|] fr'] eqn:Hal; intros [= <- <-]; [|by apply table_step_oom].
  destruct (fa_alloc_some _ _ _ (sw_alloc _ _ Hwf) Hal) as (Hwf' & Hn & Hfresh & Hu & _).
  destruct (sw_table _ _ Hwf _ _ _ Hp Hw) as [Hft Hut].
  destruct (zero_frame_spec n (vm_mem s)) as [Hz Ha].
  destruct (fresh_then_set s _ n t i (n .| TABLE_FLAGS) Hn Hfresh Ha Hft Hut Hi) as (E1 & E2 & E3).
  unfold store. cbn [vm_mem vm_frames] in *.
  set (m' := arr_set _ _ _) in *. clearbody m'.
  apply (table_step_linked _ _ _ _ _ _ _ _ n TABLE_FLAGS); try done. split; try done.
  - by rewrite HP.
  - intros _ j Hj. by rewrite E2, Hz.
  - intros _ j Hj. unfold leaf_of. rewrite HP, E1. destruct Hn as [Hn1 Hn2].
    rewrite !flag_low, phys_of, E2, Hz by (done || lia || (vm_compute; split; congruence)). done.
Qed.

Lemma same_translation_trans m1 m2 m3 pml4 :
  same_translation m1 m2 pml4 → same_translation m2 m3 pml4 → same_translation m1 m3 pml4.
Proof. intros H1 H2 v. by rewrite H2, H1. Qed.

(** ** Splitting a huge page *)

Lemma rights_bits r x y :
  r .& RIGHTS = r → Z.testbit x 1 = Z.testbit y 1 → Z.testbit x 2 = Z.testbit y 2 →
  r .& x = r .& y.
Proof.
  intros Hr H1 H2. rewrite <- Hr, <- !Z.land_assoc. f_equal. apply Z.bits_inj'. intros k Hk.
  rewrite !Z.land_spec. unfold RIGHTS, PAGE_WRITABLE, PAGE_USER.
  destruct (decide (k = 1)) as [->|]; [by rewrite H1|].
  destruct (decide (k = 2)) as [->|]; [by rewrite H2|].
  destruct (decide (k = 0)) as [->|]; [done|].
  change (2 .| 4) with 6. by rewrite (testbit_small 6 3) by lia.
Qed.

Lemma huge_leaf_base e j : (4096 | u64 ((e .& not64 0x1FFFFF) + j * 4096)).
Proof.
  unfold u64. apply Z.mod_divide; [lia|].
  rewrite Z.mod_mod_divide by (by exists (2 ^ 52)).
  rewrite Z.add_mod, Z.mod_mul, Z.add_0_r, Z.mod_mod by lia.
  change 4096 with (2 ^ 12). rewrite <- Z.land_ones, <- Z.land_assoc by lia.
  by rewrite Z.land_0_r.
Qed.

Lemma huge_leaf_low e j k : 0 ≤ k < 12 → k ≠ 7 →
  Z.testbit (huge_leaf e j) k = Z.testbit e k.
Proof.
  intros Hk Hk7. unfold huge_leaf.
  rewrite Z.lor_spec, (testbit_page _ _ (huge_leaf_base e j)) by lia. simpl.
  rewrite !Z.land_spec. rewrite <- andb_assoc.
  replace (Z.testbit 0xFFF k && Z.testbit (not64 PAGE_HUGE) k) with true; [apply andb_true_r|].
  assert (k = 0 ∨ k = 1 ∨ k = 2 ∨ k = 3 ∨ k = 4 ∨ k = 5 ∨ k = 6 ∨ k = 8 ∨ k = 9 ∨ k = 10 ∨ k = 11)
    as Hc by lia.
  by destruct_or! Hc; subst k.
Qed.

Lemma flag_testbit e b k : 0 ≤ k → b = 2 ^ k → flag e b = Z.testbit e k.
Proof. intros Hk ->. rewrite <- Z.shiftl_1_l. by apply flag_bit. Qed.

Lemma split_step s pml4 p t r i ok s' :
  space_wf s pml4 → path_ok p → length p = 2%nat → 0 ≤ i < 512 →
  walk (vm_mem s) pml4 RIGHTS p = Some (t, r) →
  flag (entry (vm_mem s) t i) PAGE_PRESENT = true →
  flag (entry (vm_mem s) t i) PAGE_HUGE = true →
  split_huge_pd_entry t i s = (ok, s') → table_step s pml4 p t r i ok s'.
Proof.
  intros Hwf Hp Hlen Hi Hw HP HH. unfold split_huge_pd_entry.
  destruct (alloc_block _) as [[n|] fr'] eqn:Hal; intros [= <- <-]; [|by apply table_step_oom].
  destruct (fa_alloc_some _ _ _ (sw_alloc _ _ Hwf) Hal) as (Hwf' & Hn & Hfresh & Hu & _).
  destruct (sw_table _ _ Hwf _ _ _ Hp Hw) as [Hft Hut].
  set (e := entry (vm_mem s) t i) in *.
  destruct (zero_frame_spec n (vm_mem s)) as [_ Ha].
  destruct (fill_table n (λ j, huge_leaf e j)
    (λ j m, arr_set m (slot n j)
       (u64 ((e .& not64 0x1FFFFF) + j * 4096) .| ((e .& 0xFFF) .& not64 PAGE_HUGE)))
    (zero_frame n (vm_mem s))) as [Hv Hb]; [done|].
  unfold store. cbn [vm_mem vm_frames] in *. set (m1 := for_range _ _ _ _ _) in *.
  clearbody m1.
  destruct (fresh_then_set s m1 n t i (n .| (e .& TABLE_FLAGS)) Hn Hfresh) as (E1 & E2 & E3);
    [intros a Hx; by rewrite Hb, Ha|done..|].
  set (m' := arr_set _ _ _) in *. clearbody m'. destruct Hn as [Hn1 Hn2].
  assert (Hf : 0 ≤ e .& TABLE_FLAGS < 4096).
  { change TABLE_FLAGS with (Z.ones 3). rewrite Z.land_ones by lia.
    pose proof (Z.mod_pos_bound e (2 ^ 3)). lia. }
  assert (HfP : flag (e .& TABLE_FLAGS) PAGE_PRESENT = true).
  { unfold flag. rewrite <- Z.land_assoc. exact HP. }
  assert (HfH : flag (e .& TABLE_FLAGS) PAGE_HUGE = false).
  { unfold flag. rewrite <- Z.land_assoc. change (TABLE_FLAGS .& PAGE_HUGE) with 0.
    by rewrite Z.land_0_r. }
  apply (table_step_linked _ _ _ _ _ _ _ _ n (e .& TABLE_FLAGS)); [done|done|lia|done|done|].
  split; try done.
  - fold e. by rewrite HH, andb_false_r.
  - lia.
  - intros _ j Hj. unfold leaf_of. rewrite E1. fold e. rewrite HP, HH.
    rewrite !flag_low, HfP, HfH, phys_of, E2, Hv by (done || lia || (vm_compute; split; congruence)).
    cbn [negb]. rewrite (flag_testbit (huge_leaf e j) PAGE_PRESENT 0), huge_leaf_low by (done || lia).
    rewrite <- (flag_testbit e PAGE_PRESENT 0), HP by done. do 2 f_equal.
    rewrite <- Z.land_assoc. apply rights_bits.
    + by apply (walk_rights _ _ _ _ _ _ Hw).
    + rewrite Z.land_spec, Z.lor_spec, Z.land_spec, huge_leaf_low, (testbit_page n 1) by (done || lia).
      change (Z.testbit TABLE_FLAGS 1) with true. by destruct (Z.testbit e 1).
    + rewrite Z.land_spec, Z.lor_spec, Z.land_spec, huge_leaf_low, (testbit_page n 2) by (done || lia).
      change (Z.testbit TABLE_FLAGS 2) with true. by destruct (Z.testbit e 2).
Qed.

(** ** Changing one leaf entry *)

(** Entry [i1] of the page table of path [p3] becomes [v]; apart from it only frames
    that are not tables change, and the tables stay allocated. *)
Record leaf_change (s : vm (A := A)) (m' : arr) (fr' : A) (pml4 : Z) (p3 : list Z)
    (pt r i1 v : Z) : Prop := {
  lc_walk : walk (vm_mem s) pml4 RIGHTS p3 = Some (pt, r);
  lc_entry : entry m' pt i1 = v;
  lc_agree : ∀ t' j, frame t' → fa_used (vm_frames s) t' → 0 ≤ j < 512 →
    slot t' j ≠ slot pt i1 → entry m' t' j = entry (vm_mem s) t' j;
  lc_alloc : fa_wf fr';
  lc_used : ∀ q t r, path_ok q → walk (vm_mem s) pml4 RIGHTS q = Some (t, r) → fa_used fr' t
}.

Section leaf.
  Variables (s : vm (A := A)) (m' : arr) (fr' : A) (pml4 i4 i3 i2 i1 pt r v : Z).
  Hypotheses (Hwf : space_wf s pml4) (Hr : Forall (λ i, 0 ≤ i < 512) [i4; i3; i2; i1])
    (Hc : leaf_change s m' fr' pml4 [i4; i3; i2] pt r i1 v).

Lemma leaf_path : path_ok [i4; i3; i2] ∧ 0 ≤ i1 < 512.
Proof.
  rewrite !Forall_cons in Hr. destruct Hr as (H4 & H3 & H2 & H1 & _).
  split; [|done]. split; [simpl; lia|]. by rewrite !Forall_cons.
Qed.

Lemma leaf_walk q : path_ok q → walk m' pml4 RIGHTS q = walk (vm_mem s) pml4 RIGHTS q.
Proof.
  intros Hq. destruct leaf_path as [Hp H1].
  apply (walk_frame s m' pml4 [i4; i3; i2] pt r i1); try done; try apply Hc.
  intros [k ->]. destruct Hq as [Hq _]. simpl in Hq. lia.
Qed.

Lemma leaf_entry q t j r' :
  path_ok q → (length q ≤ 2)%nat → 0 ≤ j < 512 →
  walk (vm_mem s) pml4 RIGHTS q = Some (t, r') → entry m' t j = entry (vm_mem s) t j.
Proof.
  intros Hq Hlen Hj Hw. destruct (sw_table _ _ Hwf _ _ _ Hq Hw) as [[Hf1 Hf2] Hu].
  destruct leaf_path as [Hp H1]. pose proof (lc_walk _ _ _ _ _ _ _ _ _ Hc) as Hw3.
  destruct (sw_table _ _ Hwf _ _ _ Hp Hw3) as [[_ Hf3] _].
  apply (lc_agree _ _ _ _ _ _ _ _ _ Hc); [done..|].
  intros [-> _]%slot_inj; [|done..].
  pose proof (sw_inj _ _ Hwf _ _ _ _ _ Hq Hp Hw Hw3) as ->. simpl in Hlen. lia.
Qed.

Lemma leaf_wf : space_wf (Vm m' fr') pml4.
Proof.
  split; simpl.
  - apply Hc.
  - intros q t r' Hq. rewrite leaf_walk by done. intros Hw. split.
    + by eapply (sw_table _ _ Hwf).
    + by eapply (lc_used _ _ _ _ _ _ _ _ _ Hc).
  - intros q q' t r1 r2 Hq Hq'. rewrite !leaf_walk by done. by apply (sw_inj _ _ Hwf).
  - intros q t r' i Hq Hlen Hi. rewrite leaf_walk by done. intros Hw.
    rewrite (leaf_entry q t i r') by (done || lia). by eapply (sw_upper _ _ Hwf).
  - intros q t r' i Hq Hlen Hi. rewrite leaf_walk by done. intros Hw.
    rewrite (leaf_entry q t i r') by (done || lia). by eapply (sw_low _ _ Hwf).
Qed.

Lemma leaf_others virt :
  page_of virt ≠ [i4; i3; i2; i1] → translate m' pml4 virt = translate (vm_mem s) pml4 virt.
Proof.
  intros Hne. destruct leaf_path as [Hp H1]. rewrite !translate_trans.
  apply (trans_frame s m' pml4 [i4; i3; i2] pt r i1); try done; try apply Hc; try apply page_of_range.
  intros [k Hk]. apply Hne. unfold page_of. destruct k; [|done].
  by injection Hk as <- <- <- <-.
Qed.

Lemma leaf_translate : trans m' pml4 i4 i3 i2 i1 = if flag v PAGE_PRESENT then Some (v, r .& v) else None.
Proof.
  destruct leaf_path as [Hp H1]. pose proof (path_ok_app [i4; i3] [i2] Hp) as Hp2.
  pose proof (path_ok_elem [i4; i3] i2 [] Hp) as H2.
  pose proof (lc_walk _ _ _ _ _ _ _ _ _ Hc) as Hw3.
  unfold trans. rewrite leaf_walk by done.
  change [i4; i3; i2] with ([i4; i3] ++ [i2]) in Hw3. rewrite walk_app in Hw3.
  destruct (walk (vm_mem s) pml4 RIGHTS [i4; i3]) as [[pd rd]|] eqn:Hw2; [|done].
  cbn [mbind option_bind walk] in Hw3. unfold leaf_of.
  rewrite (leaf_entry [i4; i3] pd i2 rd) by (done || (simpl; lia)).
  destruct (flag (entry (vm_mem s) pd i2) PAGE_PRESENT); [|done].
  destruct (flag (entry (vm_mem s) pd i2) PAGE_HUGE); [done|]. cbn [negb andb] in *.
  injection Hw3 as Hpt Hrd. rewrite Hpt, (lc_entry _ _ _ _ _ _ _ _ _ Hc).
  by destruct (flag v PAGE_PRESENT); [rewrite <- Hrd|].
Qed.
End leaf.

(** A plain store into the leaf. *)
Lemma leaf_change_store s pml4 p3 pt r i1 v :
  space_wf s pml4 → path_ok p3 → walk (vm_mem s) pml4 RIGHTS p3 = Some (pt, r) →
  leaf_change s (arr_set (vm_mem s) (slot pt i1) v) (vm_frames s) pml4 p3 pt r i1 v.
Proof.
  intros Hwf Hp Hw. split; [done| | |apply Hwf|].
  - unfold entry. apply arr_get_set_eq.
  - intros t' j _ _ _ Hne. unfold entry. by apply arr_get_set_ne.
  - intros q t r' Hq Hwq. by destruct (sw_table _ _ Hwf _ _ _ Hq Hwq).
Qed.

(** ** The software walk *)

(** [find_page_entry] finds the leaf slot exactly when the three tables exist. *)
Lemma find_page_entry_walk s pml4 virt :
  pml4 ≠ 0 → space_wf s pml4 →
  find_page_entry pml4 virt s =
    match walk (vm_mem s) pml4 RIGHTS [pml4_index virt; pdpt_index virt; pd_index virt] with
    | Some (pt, _) => Some (slot pt (pt_index virt))
    | None => None
    end.
Proof.
  intros Hne Hwf. unfold find_page_entry. rewrite (proj2 (Z.eqb_neq _ _) Hne). cbn [orb walk].
  assert (H4 : flag (entry (vm_mem s) pml4 (pml4_index virt)) PAGE_PRESENT = true →
    flag (entry (vm_mem s) pml4 (pml4_index virt)) PAGE_HUGE = false).
  { by apply (sw_upper _ _ Hwf [] pml4 RIGHTS _ path_ok_nil); [simpl; lia|apply index_range|]. }
  destruct (flag (entry (vm_mem s) pml4 (pml4_index virt)) PAGE_PRESENT) eqn:P4; [|done].
  rewrite H4 by done. cbn [negb andb].
  set (pdpt := entry _ pml4 _ .& _).
  assert (H3 : flag (entry (vm_mem s) pdpt (pdpt_index virt)) PAGE_PRESENT = true →
    flag (entry (vm_mem s) pdpt (pdpt_index virt)) PAGE_HUGE = false).
  { eapply (sw_upper _ _ Hwf [pml4_index virt]); [|simpl; lia|apply index_range|].
    - split; [simpl; lia|]. apply Forall_singleton, index_range.
    - cbn [walk]. by rewrite P4, H4. }
  destruct (flag (entry (vm_mem s) pdpt (pdpt_index virt)) PAGE_PRESENT) eqn:P3; [|done].
  rewrite H3 by done. cbn [negb andb].
  set (e := entry (vm_mem s) (entry _ pdpt _ .& _) _).
  by destruct (flag e PAGE_PRESENT), (flag e PAGE_HUGE).
Qed.

(** An address space with an empty root table is well formed. *)
Lemma empty_space_wf m fr pml4 :
  fa_wf fr → frame pml4 → fa_used fr pml4 → (∀ i, 0 ≤ i < 512 → entry m pml4 i = 0) →
  space_wf (Vm m fr) pml4.
Proof.
  intros Hfa Hf Hu Hz.
  assert (Hw : ∀ q t r, path_ok q → walk m pml4 RIGHTS q = Some (t, r) → q = [] ∧ t = pml4).
  { intros [|i q] t r Hq; simpl; [by intros [= <- <-]|].
    rewrite Hz by (by apply (path_ok_elem [] i q)). done. }
  split; cbn [vm_mem vm_frames]; [done|..].
  - by intros q t r Hq [-> ->]%Hw.
  - by intros q q' t r r' Hq Hq' [-> _]%Hw [-> _]%Hw.
  - intros q t r i Hq _ Hi [_ ->]%Hw; [|done]. by rewrite Hz.
  - intros q t r i Hq _ Hi [_ ->]%Hw; [|done]. by rewrite Hz.
Qed.

Lemma page_path virt :
  path_ok [pml4_index virt; pdpt_index virt; pd_index virt] ∧ 0 ≤ pt_index virt < 512.
Proof. split; [split; [simpl; lia|]; rewrite !Forall_cons; split_and!; try apply index_range; done|apply index_range]. Qed.
End spec.
