(* ===== verification/VmmProps.v ===== *)
(** * Theorems on the virtual memory manager

    What mapping, unmapping, protecting and the copy-on-write fault do to the
    translation of every virtual address, for any frame allocator that meets the
    contract of [Frames.v]. *)

From S2P Require Import Prelude Pmm Frames Vmm VmmSpec.

#[local] Opaque zero_frame copy_frame share_kernel_slots.

Section props.
  Context {A : Type} `{!FrameAllocator A, !FrameAllocatorSpec A}.
  Implicit Types (s : vm (A := A)).

Lemma root_nonzero s pml4 : space_wf s pml4 → pml4 ≠ 0.
Proof.
  intros Hwf. destruct (sw_table _ _ Hwf [] pml4 RIGHTS path_ok_nil) as [[Hf _] _]; [done|lia].
Qed.

(** The state after a call that could not get a frame: the allocator has just failed. *)
Definition exhausted s : Prop := ∃ fr, alloc_block fr = (None, vm_frames s).

Lemma ensure_false t i s s' : ensure_table t i s = (false, s') → exhausted s'.
Proof.
  unfold ensure_table. case_ifs; [|done]. destruct (alloc_block _) as [[n|] fr] eqn:Hal; [done|].
  intros [= <-]. by exists (vm_frames s).
Qed.

Lemma split_false t i s s' : split_huge_pd_entry t i s = (false, s') → exhausted s'.
Proof.
  unfold split_huge_pd_entry. destruct (alloc_block _) as [[n|] fr] eqn:Hal; [done|].
  intros [= <-]. by exists (vm_frames s).
Qed.

(** What [vmm_map_page] does: the page is mapped, or no frame was left; no other page
    changes in either case. *)
Record mapped s (s' : vm (A := A)) (pml4 virt v : Z) : Prop := {
  mp_wf : space_wf s' pml4;
  mp_others : ∀ w, page_of w ≠ page_of virt →
    translate (vm_mem s') pml4 w = translate (vm_mem s) pml4 w;
  mp_page : (∃ r, translate (vm_mem s') pml4 virt =
               if flag v PAGE_PRESENT then Some (v, r .& v) else None) ∨
            (exhausted s' ∧ translate (vm_mem s') pml4 virt = translate (vm_mem s) pml4 virt);
  mp_grows : grows s s' pml4
}.

Lemma mapped_failed s s' pml4 virt v :
  space_wf s' pml4 → same_translation (vm_mem s) (vm_mem s') pml4 → grows s s' pml4 → exhausted s' →
  mapped s s' pml4 virt v.
Proof. intros Hwf Hsame Hg Hex. split; [done|by intros|right; by split|done]. Qed.

(** A leaf entry is neither a table entry nor data. *)
Lemma leaf_grows s pml4 p3 pt r i v :
  space_wf s pml4 → path_ok p3 → length p3 = 3%nat → 0 ≤ i < 512 →
  walk (vm_mem s) pml4 RIGHTS p3 = Some (pt, r) →
  (∀ q, path_ok q → walk (arr_set (vm_mem s) (slot pt i) v) pml4 RIGHTS q = walk (vm_mem s) pml4 RIGHTS q) →
  grows s (store (slot pt i) v s) pml4.
Proof.
  intros Hwf Hp Hl3 Hi Hw Hwalk. destruct (sw_table _ _ Hwf _ _ _ Hp Hw) as [[_ Hpa] _].
  split; simpl; try done.
  - intros t (q & r' & Hq & Hwq). left. exists q, r'. split; [done|]. simpl in Hwq. by rewrite Hwalk in Hwq.
  - intros t j Hf Hu Hn Hj. unfold entry. apply arr_get_set_ne.
    intros [-> _]%slot_inj; [apply Hn; by exists p3, r|done|apply Hf|done|done].
  - intros q t r' j Hq Hl Hj Hwq _ _. exists r'. rewrite Hwalk in Hwq by done. split; [done|].
    destruct (sw_table _ _ Hwf _ _ _ Hq Hwq) as [[_ Hta] _].
    unfold entry. symmetry. apply arr_get_set_ne. intros [-> _]%slot_inj; [|done..].
    pose proof (sw_inj _ _ Hwf _ _ _ _ _ Hp Hq Hw Hwq) as ->. lia.
Qed.

Lemma mapped_leaf s s1 pml4 virt pt r v :
  same_translation (vm_mem s) (vm_mem s1) pml4 → space_wf s1 pml4 → grows s s1 pml4 →
  walk (vm_mem s1) pml4 RIGHTS [pml4_index virt; pdpt_index virt; pd_index virt] = Some (pt, r) →
  mapped s (store (slot pt (pt_index virt)) v s1) pml4 virt v.
Proof.
  intros Hsame Hwf Hg Hw. destruct (page_path virt) as [Hp Hi].
  pose proof (leaf_change_store s1 pml4 _ pt r (pt_index virt) v Hwf Hp Hw) as Hc.
  assert (Hwf' : space_wf (store (slot pt (pt_index virt)) v s1) pml4)
    by (eapply leaf_wf; [done|apply page_of_range|done]).
  split.
  - done.
  - intros w Hne. rewrite <- Hsame.
    eapply (leaf_others s1); [done|apply page_of_range|done|done].
  - left. exists r. rewrite translate_trans.
    eapply (leaf_translate s1); [done|apply page_of_range|done].
  - eapply grows_trans; [done|exact Hg|]. eapply leaf_grows; [done|done|done|done|done|].
    intros q Hq. eapply (leaf_walk s1); [done|apply page_of_range|done|done].
Qed.

(** The block of [vmm_map_page] that splits a huge page, if there is one. *)
Lemma split_if_huge s pml4 p t r i ok s' :
  space_wf s pml4 → path_ok p → length p = 2%nat → 0 ≤ i < 512 →
  walk (vm_mem s) pml4 RIGHTS p = Some (t, r) →
  (if flag (entry (vm_mem s) t i) PAGE_PRESENT && flag (entry (vm_mem s) t i) PAGE_HUGE
   then split_huge_pd_entry t i s else (true, s)) = (ok, s') →
  space_wf s' pml4 ∧ same_translation (vm_mem s) (vm_mem s') pml4 ∧
  walk (vm_mem s') pml4 RIGHTS p = Some (t, r) ∧
  (ok = true → flag (entry (vm_mem s') t i) PAGE_PRESENT = true →
     flag (entry (vm_mem s') t i) PAGE_HUGE = false) ∧
  (ok = false → exhausted s') ∧ grows s s' pml4.
Proof.
  intros Hwf Hp Hlen Hi Hw. destruct (flag _ PAGE_PRESENT && flag _ PAGE_HUGE) eqn:Hh.
  - apply andb_true_iff in Hh as [HP HH]. intros Hs.
    destruct (split_step s pml4 _ t r i ok s' Hwf Hp Hlen Hi Hw HP HH Hs) as [Q1 Q2 Q3 _ Q5 Q6].
    split_and!; try done; [by intros -> _; apply Q5|]. intros ->. by eapply split_false.
  - intros [= <- <-]. split_and!; try done; [|apply grows_refl]. intros _ HP. by rewrite HP in Hh.
Qed.

Lemma vmm_map_page_mapped s pml4 virt phys flags :
  space_wf s pml4 → mapped s (vmm_map_page pml4 virt phys flags s) pml4 virt (phys .| flags).
Proof.
  intros Hwf. destruct (page_path virt) as [Hp3 Hi1]. unfold vmm_map_page.
  assert (Hp2 : path_ok [pml4_index virt; pdpt_index virt]) by (by apply (path_ok_app _ [pd_index virt])).
  assert (Hp1 : path_ok [pml4_index virt]) by (by apply (path_ok_app _ [pdpt_index virt])).
  pose proof path_ok_nil as Hp0.
  destruct (ensure_table pml4 _ s) as [ok1 s1] eqn:E1.
  assert (T1 : table_step s pml4 [] pml4 RIGHTS (pml4_index virt) ok1 s1).
  { eapply ensure_table_step; try done; [simpl; lia|apply index_range|].
    apply (sw_upper _ _ Hwf [] pml4 RIGHTS); [done|simpl; lia|apply index_range|done]. }
  destruct T1 as [W1 S1 _ K1 _ G1]. destruct ok1; cbn [negb]; [|by apply mapped_failed; [..|eapply ensure_false, E1]].
  destruct (K1 eq_refl) as [r1 Hw1]. cbn [app] in Hw1.
  set (pdpt := entry (vm_mem s1) pml4 (pml4_index virt) .& PAGE_MASK) in *.
  destruct (ensure_table pdpt _ s1) as [ok2 s2] eqn:E2.
  assert (T2 : table_step s1 pml4 [pml4_index virt] pdpt r1 (pdpt_index virt) ok2 s2).
  { eapply ensure_table_step; try done; [simpl; lia|apply index_range|].
    apply (sw_upper _ _ W1 [pml4_index virt] pdpt r1); [done|simpl; lia|apply index_range|done]. }
  destruct T2 as [W2 S2 _ K2 _ G2]. pose proof (same_translation_trans _ _ _ _ S1 S2) as S02.
  pose proof (grows_trans _ _ _ _ W2 G1 G2) as G02.
  destruct ok2; cbn [negb]; [|by apply mapped_failed; [..|eapply ensure_false, E2]].
  destruct (K2 eq_refl) as [r2 Hw2]. cbn [app] in Hw2.
  set (pd := entry (vm_mem s2) pdpt (pdpt_index virt) .& PAGE_MASK) in *.
  set (e := entry (vm_mem s2) pd (pd_index virt)) in *.
  destruct (if flag e PAGE_PRESENT && flag e PAGE_HUGE then _ else _) as [ok3 s3] eqn:E3.
  pose proof (split_if_huge s2 pml4 _ pd r2 (pd_index virt) ok3 s3 W2 Hp2 eq_refl
    (index_range _) Hw2 E3) as T3.
  destruct T3 as (W3 & S3 & Hw3 & Hh3 & X3 & G3).
  pose proof (same_translation_trans _ _ _ _ S02 S3) as S03. pose proof (grows_trans _ _ _ _ W3 G02 G3) as G03.
  destruct ok3; cbn [negb]; [|by apply mapped_failed; [..|apply X3]].
  destruct (ensure_table pd _ s3) as [ok4 s4] eqn:E4.
  assert (T4 : table_step s3 pml4 [pml4_index virt; pdpt_index virt] pd r2 (pd_index virt) ok4 s4).
  { eapply ensure_table_step; try done; try apply index_range; by apply Hh3. }
  destruct T4 as [W4 S4 _ K4 _ G4]. pose proof (same_translation_trans _ _ _ _ S03 S4) as S04.
  pose proof (grows_trans _ _ _ _ W4 G03 G4) as G04.
  destruct ok4; cbn [negb]; [|by apply mapped_failed; [..|eapply ensure_false, E4]].
  destruct (K4 eq_refl) as [r4 Hw4]. by eapply mapped_leaf.
Qed.

(** ** Unmapping *)

(** The leaf entry of a page with small tables, [None] where a table is missing. *)
Definition leaf_entry_of s (pml4 virt : Z) : option Z :=
  match walk (vm_mem s) pml4 RIGHTS [pml4_index virt; pdpt_index virt; pd_index virt] with
  | Some (pt, _) => Some (entry (vm_mem s) pt (pt_index virt))
  | None => None
  end.

(** The software walk of [vmm_unmap_page], written with the processor's. *)
Lemma unmap_walk s pml4 virt :
  space_wf s pml4 → AOS_USER_SPACE_START ≤ virt →
  vmm_unmap_page pml4 virt s =
    match walk (vm_mem s) pml4 RIGHTS [pml4_index virt; pdpt_index virt; pd_index virt] with
    | Some (pt, _) =>
        if flag (entry (vm_mem s) pt (pt_index virt)) PAGE_PRESENT
        then (entry (vm_mem s) pt (pt_index virt) .& PAGE_MASK,
              store (slot pt (pt_index virt)) 0 s)
        else (0, s)
    | None => (0, s)
    end.
Proof.
  intros Hwf Hv. destruct (page_path virt) as [Hp3 _].
  assert (Hp2 : path_ok [pml4_index virt; pdpt_index virt]) by (by apply (path_ok_app _ [pd_index virt])).
  assert (Hp1 : path_ok [pml4_index virt]) by (by apply (path_ok_app _ [pdpt_index virt])).
  unfold vmm_unmap_page. rewrite (proj2 (Z.eqb_neq _ _) (root_nonzero _ _ Hwf)).
  rewrite (proj2 (Z.ltb_ge _ _) Hv). cbn [orb walk].
  assert (Hstep : ∀ p t r i, path_ok p → (length p ≤ 2)%nat → 0 ≤ i < 512 →
    walk (vm_mem s) pml4 RIGHTS p = Some (t, r) →
    flag (entry (vm_mem s) t i) PAGE_PRESENT = true →
    flag (entry (vm_mem s) t i) PAGE_HUGE = false →
    entry (vm_mem s) t i .& PAGE_MASK = entry (vm_mem s) t i .& PTE_PHYS_MASK).
  { intros p t r i Hp Hl Hi Hw HP HH. by apply masks_agree, (sw_low _ _ Hwf p t r i). }
  set (e4 := entry _ pml4 _) in *.
  destruct (flag e4 PAGE_PRESENT) eqn:P4; [|done].
  assert (H4 : flag e4 PAGE_HUGE = false)
    by (apply (sw_upper _ _ Hwf [] pml4 RIGHTS _ path_ok_nil); [simpl; lia|apply index_range|done|done]).
  assert (W4 : walk (vm_mem s) pml4 RIGHTS [pml4_index virt] = Some (e4 .& PTE_PHYS_MASK, RIGHTS .& e4))
    by (cbn [walk]; fold e4; by rewrite P4, H4).
  assert (M4 : e4 .& PAGE_MASK = e4 .& PTE_PHYS_MASK)
    by (apply (Hstep [] pml4 RIGHTS _ path_ok_nil); try done; [simpl; lia|apply index_range]).
  rewrite H4, M4. cbn [negb andb].
  set (e3 := entry _ (e4 .& _) _) in *.
  destruct (flag e3 PAGE_PRESENT) eqn:P3; [|done].
  assert (H3 : flag e3 PAGE_HUGE = false)
    by (eapply (sw_upper _ _ Hwf [_] _ _ _ Hp1); [simpl; lia|apply index_range|done|done]).
  assert (W3 : walk (vm_mem s) pml4 RIGHTS [pml4_index virt; pdpt_index virt] =
    Some (e3 .& PTE_PHYS_MASK, RIGHTS .& e4 .& e3))
    by (cbn [walk]; fold e4; rewrite P4, H4; cbn [negb andb]; fold e3; by rewrite P3, H3).
  assert (M3 : e3 .& PAGE_MASK = e3 .& PTE_PHYS_MASK)
    by (eapply (Hstep _ _ _ _ Hp1); try done; [simpl; lia|apply index_range]).
  rewrite H3, M3. cbn [negb andb].
  set (e2 := entry _ (e3 .& _) _) in *.
  destruct (flag e2 PAGE_PRESENT) eqn:P2, (flag e2 PAGE_HUGE) eqn:H2; try done. cbn [negb andb].
  assert (M2 : e2 .& PAGE_MASK = e2 .& PTE_PHYS_MASK)
    by (eapply (Hstep _ _ _ _ Hp2); try done; apply index_range).
  rewrite M2. set (e1 := entry _ (e2 .& _) _). by destruct (flag e1 PAGE_PRESENT).
Qed.

(** ** Copy-on-write *)

  Variables (PAGE_COW : Z) (cow : Z).
  Hypothesis (Hcow : PAGE_COW = 2 ^ cow ∧ 9 ≤ cow ≤ 11).

(** The flags a fault leaves: as before, writable and no longer copy-on-write. *)
Definition cow_flags (e : Z) : Z :=
  ((e .& 0xFFF) .& not64 PAGE_COW) .| PAGE_PRESENT .| PAGE_WRITABLE.

Lemma cow_flags_bit e k : 0 ≤ k →
  Z.testbit (cow_flags e) k =
  (Z.testbit e k && bool_decide (k < 12) && negb (bool_decide (k = cow))) ||
  bool_decide (k = 0) || bool_decide (k = 1).
Proof.
  intros Hk. destruct Hcow as [HC Hc]. unfold cow_flags, not64, PAGE_PRESENT, PAGE_WRITABLE.
  rewrite !Z.lor_spec, !Z.land_spec, Z.lxor_spec, HC, Z.pow2_bits_eqb by lia.
  change 0xFFF with (Z.ones 12). change 0xFFFFFFFFFFFFFFFF with (Z.ones 64).
  rewrite !Z.testbit_ones_nonneg by lia.
  replace (Z.testbit 1 k) with (0 =? k) by (by rewrite <- (Z.pow2_bits_eqb 0 k)).
  replace (Z.testbit 2 k) with (1 =? k) by (by rewrite <- (Z.pow2_bits_eqb 1 k)).
  destruct (Z.testbit e k), (Z.ltb_spec k 12), (Z.ltb_spec k 64), (Z.eqb_spec cow k),
    (Z.eqb_spec 0 k), (Z.eqb_spec 1 k); repeat case_bool_decide; try done; lia.
Qed.

Lemma cow_flags_range e : 0 ≤ cow_flags e < 4096.
Proof.
  pose proof (Z.lor_nonneg (((e .& 0xFFF) .& not64 PAGE_COW) .| PAGE_PRESENT) PAGE_WRITABLE) as Hn.
  assert (He : 0 ≤ e .& 0xFFF < 2 ^ 12).
  { change 0xFFF with (Z.ones 12). rewrite Z.land_ones by lia. apply Z.mod_pos_bound. lia. }
  assert (Hx : 0 ≤ (e .& 0xFFF) .& not64 PAGE_COW) by (apply Z.land_nonneg; lia).
  assert (Hle : (e .& 0xFFF) .& not64 PAGE_COW < 2 ^ 12).
  { destruct (decide ((e .& 0xFFF) .& not64 PAGE_COW = 0)) as [->|]; [lia|].
    apply Z.log2_lt_pow2; [lia|].
    destruct (decide (not64 PAGE_COW < 0)).
    { destruct Hcow as [-> Hc]. exfalso. revert l.
      assert (cow = 9 ∨ cow = 10 ∨ cow = 11) as [->|[->| ->]] by lia; vm_compute; done. }
    pose proof (Z.log2_land (e .& 0xFFF) (not64 PAGE_COW) ltac:(lia) ltac:(lia)).
    assert (0 < e .& 0xFFF).
    { destruct (decide (e .& 0xFFF = 0)) as [E|]; [rewrite E in *; done|lia]. }
    assert (Z.log2 (e .& 0xFFF) < 12) by (apply Z.log2_lt_pow2; lia). lia. }
  unfold cow_flags, PAGE_PRESENT, PAGE_WRITABLE.
  apply (lor_small _ _ 12); [lia| |lia]. apply (lor_small _ _ 12); lia.
Qed.

Lemma cow_flags_tests e :
  flag (cow_flags e) PAGE_PRESENT = true ∧ flag (cow_flags e) PAGE_WRITABLE = true ∧
  flag (cow_flags e) PAGE_COW = false ∧ flag (cow_flags e) PAGE_USER = flag e PAGE_USER.
Proof.
  destruct Hcow as [HC Hc].
  rewrite (flag_testbit _ PAGE_PRESENT 0), (flag_testbit _ PAGE_WRITABLE 1),
    (flag_testbit _ PAGE_COW cow), !(flag_testbit _ PAGE_USER 2) by (done || lia).
  rewrite !cow_flags_bit by lia. split_and!.
  - by rewrite orb_true_r.
  - by rewrite !orb_true_r.
  - rewrite (bool_decide_eq_true_2 (cow = cow)), andb_false_r by done.
    rewrite (bool_decide_eq_false_2 (cow = 0)), (bool_decide_eq_false_2 (cow = 1)) by lia. done.
  - rewrite (bool_decide_eq_false_2 (2 = cow)) by lia. by rewrite !andb_true_r, !orb_false_r.
Qed.

Lemma phys_range e : 0 ≤ e .& PTE_PHYS_MASK < 2 ^ 52.
Proof.
  replace (e .& PTE_PHYS_MASK) with ((e .& PTE_PHYS_MASK) .& Z.ones 52).
  - rewrite Z.land_ones by lia. apply Z.mod_pos_bound. lia.
  - by rewrite <- Z.land_assoc.
Qed.

(** The slot a copy-on-write fault works on, and the new entry it stores there. *)
Record cow_done s s' (pml4 virt pt r e n : Z) : Prop := {
  cd_walk : walk (vm_mem s) pml4 RIGHTS [pml4_index virt; pdpt_index virt; pd_index virt] = Some (pt, r);
  cd_entry : entry (vm_mem s) pt (pt_index virt) = e;
  cd_flags : flag e PAGE_PRESENT = true ∧ flag e PAGE_COW = true;
  cd_frame : 0 ≤ n < 2 ^ 52 ∧ (4096 | n);
  cd_change : leaf_change s (vm_mem s') (vm_frames s') pml4
    [pml4_index virt; pdpt_index virt; pd_index virt] pt r (pt_index virt) (n .| cow_flags e);
  cd_how :
    (block_refcount (e .& PTE_PHYS_MASK) (vm_frames s) ≤ 1 ∧ n = e .& PTE_PHYS_MASK ∧
     s' = store (slot pt (pt_index virt)) (n .| cow_flags e) s) ∨
    (1 < block_refcount (e .& PTE_PHYS_MASK) (vm_frames s) ∧ ∃ fr,
     alloc_block (vm_frames s) = (Some n, fr) ∧
     s' = store (slot pt (pt_index virt)) (n .| cow_flags e)
            (free_frame (e .& PTE_PHYS_MASK)
               (Vm (copy_frame n (e .& PTE_PHYS_MASK) (vm_mem s)) fr)))
}.

(** The shared case: a private copy of the page is linked in place of the old one. *)
Lemma cow_copy_change s pml4 virt pt r e n fr :
  space_wf s pml4 →
  walk (vm_mem s) pml4 RIGHTS [pml4_index virt; pdpt_index virt; pd_index virt] = Some (pt, r) →
  0 < block_refcount (e .& PTE_PHYS_MASK) (vm_frames s) →
  (∀ q r', path_ok q → walk (vm_mem s) pml4 RIGHTS q = Some (e .& PTE_PHYS_MASK, r') →
     1 < block_refcount (e .& PTE_PHYS_MASK) (vm_frames s)) →
  alloc_block (vm_frames s) = (Some n, fr) →
  let phys := e .& PTE_PHYS_MASK in
  let m1 := copy_frame n phys (vm_mem s) in
  frame n ∧ n ≠ phys ∧ entry m1 pt (pt_index virt) = entry (vm_mem s) pt (pt_index virt) ∧
  ∀ v, leaf_change s (arr_set m1 (slot pt (pt_index virt)) v) (free_block phys fr) pml4
    [pml4_index virt; pdpt_index virt; pd_index virt] pt r (pt_index virt) v.
Proof.
  intros Hwf Hw Hrc Htab Hal phys m1. destruct (page_path virt) as [Hp Hi].
  pose proof (phys_range e) as Hph. pose proof (phys_aligned e) as Hpa. fold phys in Hph, Hpa, Hrc, Htab.
  destruct (sw_table _ _ Hwf _ _ _ Hp Hw) as [Hft Hut].
  destruct (fa_alloc_some _ _ _ (sw_alloc _ _ Hwf) Hal) as (Hwf1 & Hn & Hfresh & Hu & Hcnt).
  assert (Hne : n ≠ phys).
  { intros ->. apply Hfresh, fa_count_used; [apply Hwf|lia|lia]. }
  destruct (copy_frame_spec n phys (vm_mem s)) as [_ Hsame]; [apply Hn|done|done|]. fold m1 in Hsame.
  destruct (fa_free fr phys Hwf1 ltac:(lia) Hpa) as (Hwf2 & Hu2 & _).
  split_and!; [done|done| |].
  - apply Hsame. intros j Hj [-> _]%slot_inj; [done|apply Hft|apply Hn|done|done].
  - intros v. destruct (fresh_then_set s m1 n pt (pt_index virt) v Hn Hfresh Hsame Hft Hut Hi)
      as (E1 & _ & E3). split; try done.
    intros q t r' Hq Hwq. destruct (sw_table _ _ Hwf _ _ _ Hq Hwq) as [Hf Hut'].
    apply Hu2; [apply Hf|]. split; [apply Hu; [apply Hf|by right]|].
    intros [-> Hc]. rewrite Hcnt in Hc by done. rewrite decide_False in Hc by done.
    specialize (Htab q r' Hq Hwq). lia.
Qed.

Lemma cow_fault_cases s pml4 virt ok s' :
  space_wf s pml4 → vmm_handle_cow_fault PAGE_COW pml4 virt s = (ok, s') →
  (ok = false ∧ space_wf s' pml4 ∧ vm_mem s' = vm_mem s ∧
   ∀ e, leaf_entry_of s pml4 virt = Some e → flag e PAGE_PRESENT = true →
     flag e PAGE_COW = true → exhausted s') ∨
  (ok = true ∧ ∃ pt r e n, cow_done s s' pml4 virt pt r e n).
Proof.
  intros Hwf. destruct (page_path virt) as [Hp Hi].
  unfold vmm_handle_cow_fault. rewrite find_page_entry_walk by (by eauto using root_nonzero).
  unfold leaf_entry_of.
  destruct (walk _ _ _ _) as [[pt r]|] eqn:Hw; [|intros [= <- <-]; by left].
  change (arr_get (vm_mem s) (slot pt (pt_index virt))) with (entry (vm_mem s) pt (pt_index virt)).
  set (e := entry _ pt _). destruct (flag e PAGE_PRESENT) eqn:HP;
    [|intros [= <- <-]; left; split_and!; try done; intros ? [= <-]; congruence].
  destruct (flag e PAGE_COW) eqn:HC;
    [|intros [= <- <-]; left; split_and!; try done; intros ? [= <-]; congruence]. cbn [negb orb].
  destruct (1 <? _) eqn:Hrc; bool_to_prop.
  - destruct (alloc_block _) as [[n|] fr] eqn:Hal.
    + destruct (cow_copy_change s pml4 virt pt r e n fr Hwf Hw ltac:(lia) ltac:(by intros) Hal)
        as (Hn & Hne & He & Hch).
      unfold free_frame, store. cbn [vm_mem vm_frames].
      fold e in He. unfold entry in He at 1. rewrite He. rewrite <- !Z.lor_assoc, (Z.lor_assoc _ PAGE_PRESENT).
      fold (cow_flags e). intros [= <- <-]. right. split; [done|].
      exists pt, r, e, n. destruct Hn as [Hn Hal'].
      split; [exact Hw|reflexivity|by split|split; [lia|exact Hal']|apply Hch|].
      right. split; [exact Hrc|]. exists fr. split; [exact Hal|reflexivity].
    + intros [= <- <-]. left. split_and!; [done| |done|by exists (vm_frames s)].
      exact (ts_wf _ _ _ _ _ 0 _ _ (table_step_oom s fr pml4 _ pt r 0 Hwf Hw Hal)).
  - rewrite <- !Z.lor_assoc, (Z.lor_assoc _ PAGE_PRESENT). fold (cow_flags e).
    intros [= <- <-]. right. split; [done|]. exists pt, r, e, (e .& PTE_PHYS_MASK).
    split; try done; [split; [apply phys_range|apply phys_aligned]| |by left].
    by apply (leaf_change_store s).
Qed.

(** A leaf change rewrites the leaf entry of its own page only. *)
Lemma leaf_entry_change s s' pml4 virt pt r v w :
  space_wf s pml4 →
  leaf_change s (vm_mem s') (vm_frames s') pml4
    [pml4_index virt; pdpt_index virt; pd_index virt] pt r (pt_index virt) v →
  leaf_entry_of s' pml4 w =
    if decide (page_of w = page_of virt) then Some v else leaf_entry_of s pml4 w.
Proof.
  intros Hwf Hc. destruct (page_path w) as [Hp Hi]. destruct (page_path virt) as [Hp' Hi'].
  unfold leaf_entry_of.
  rewrite (leaf_walk s (vm_mem s') (vm_frames s') pml4 _ _ _ _ pt r v Hwf (page_of_range virt) Hc) by done.
  case_decide as Hd.
  - unfold page_of in Hd. injection Hd as -> -> -> ->. rewrite (lc_walk _ _ _ _ _ _ _ _ _ Hc).
    f_equal. apply Hc.
  - destruct (walk _ _ _ _) as [[pt' r']|] eqn:Hw; [|done]. f_equal.
    destruct (sw_table _ _ Hwf _ _ _ Hp Hw) as [Hf Hu].
    pose proof (lc_walk _ _ _ _ _ _ _ _ _ Hc) as Hw'.
    destruct (sw_table _ _ Hwf _ _ _ Hp' Hw') as [Hf' _].
    apply (lc_agree _ _ _ _ _ _ _ _ _ Hc); [done..|].
    intros [-> He]%slot_inj; [|apply Hf|apply Hf'|done|done].
    pose proof (sw_inj _ _ Hwf _ _ _ _ _ Hp Hp' Hw Hw') as Heq.
    injection Heq as E4 E3 E2. apply Hd. unfold page_of. congruence.
Qed.

(** The leaf entry grants a user-mode write. *)
Definition user_writable s (pml4 virt : Z) : Prop :=
  ∃ e, leaf_entry_of s pml4 virt = Some e ∧ flag e PAGE_PRESENT = true ∧
    flag e PAGE_USER = true ∧ flag e PAGE_WRITABLE = true.

Lemma low_flag_range : PAGE_COW < 4096 ∧ 0 ≤ PAGE_COW.
Proof.
  destruct Hcow as [-> Hc].
  assert (cow = 9 ∨ cow = 10 ∨ cow = 11) as [->|[->| ->]] by lia; vm_compute; split; congruence.
Qed.

Lemma cow_done_entry s s' pml4 virt pt r e n :
  space_wf s pml4 → cow_done s s' pml4 virt pt r e n →
  space_wf s' pml4 ∧
  (∀ w, leaf_entry_of s' pml4 w =
     if decide (page_of w = page_of virt) then Some (n .| cow_flags e)
     else leaf_entry_of s pml4 w) ∧
  (n .| cow_flags e) .& PTE_PHYS_MASK = n ∧
  flag (n .| cow_flags e) PAGE_PRESENT = true ∧ flag (n .| cow_flags e) PAGE_WRITABLE = true ∧
  flag (n .| cow_flags e) PAGE_COW = false ∧
  flag (n .| cow_flags e) PAGE_USER = flag e PAGE_USER.
Proof.
  intros Hwf [D1 D2 D3 [D4 D4'] D5 D6]. destruct (cow_flags_tests e) as (F1 & F2 & F3 & F4).
  pose proof low_flag_range. split_and!.
  - destruct s' as [m' fr']. eapply leaf_wf; [done|apply page_of_range|exact D5].
  - intros w. by eapply leaf_entry_change.
  - apply phys_of; [done|done|apply cow_flags_range].
  - by rewrite flag_low.
  - by rewrite flag_low.
  - by rewrite flag_low by (done || lia).
  - by rewrite flag_low.
Qed.

Lemma cow_fault_writable s pml4 virt ok s' w :
  space_wf s pml4 → vmm_handle_cow_fault PAGE_COW pml4 virt s = (ok, s') →
  space_wf s' pml4 ∧ (user_writable s pml4 w → user_writable s' pml4 w) ∧
  (ok = true → ∀ e, leaf_entry_of s pml4 virt = Some e → flag e PAGE_USER = true →
     user_writable s' pml4 virt).
Proof.
  intros Hwf Hf. apply cow_fault_cases in Hf as [(-> & Hwf' & Hm & _)|(-> & pt & r & e & n & Hd)]; [| |done].
  { split_and!; [done| |done]. unfold user_writable, leaf_entry_of. by rewrite Hm. }
  destruct (cow_done_entry _ _ _ _ _ _ _ _ Hwf Hd) as (Hwf' & Hle & _ & H1 & H2 & _ & H4).
  assert (Hold : leaf_entry_of s pml4 virt = Some e).
  { unfold leaf_entry_of. rewrite (cd_walk _ _ _ _ _ _ _ _ Hd). f_equal. apply Hd. }
  split_and!; [done| |].
  - intros (e1 & E1 & E2 & E3 & E4). unfold user_writable. rewrite Hle. case_decide as Hpg; [|by eauto].
    assert (Hsame : leaf_entry_of s pml4 w = leaf_entry_of s pml4 virt).
    { unfold page_of in Hpg. injection Hpg as P1 P2 P3 P4. unfold leaf_entry_of.
      by rewrite P1, P2, P3, P4. }
    rewrite Hsame, Hold in E1. injection E1 as <-. exists (n .| cow_flags e).
    split_and!; [done|done|by rewrite H4|done].
  - intros _ e1 E1 E2. rewrite Hold in E1. injection E1 as <-. exists (n .| cow_flags e).
    rewrite Hle, decide_True by done. split_and!; [done|done|by rewrite H4|done].
Qed.

Lemma present_user_bits e :
  (e .& (PAGE_PRESENT .| PAGE_USER) =? (PAGE_PRESENT .| PAGE_USER)) = true →
  flag e PAGE_PRESENT = true ∧ flag e PAGE_USER = true.
Proof.
  intros H%Z.eqb_eq.
  rewrite (flag_testbit _ PAGE_PRESENT 0), (flag_testbit _ PAGE_USER 2) by done.
  pose proof (f_equal (λ x, Z.testbit x 0) H) as H0. pose proof (f_equal (λ x, Z.testbit x 2) H) as H2.
  cbn beta in H0, H2. rewrite Z.land_spec in H0, H2.
  change (Z.testbit (PAGE_PRESENT .| PAGE_USER) 0) with true in H0.
  change (Z.testbit (PAGE_PRESENT .| PAGE_USER) 2) with true in H2.
  by rewrite andb_true_r in H0, H2.
Qed.

Lemma prepare_pages_ok fuel pml4 page last s :
  space_wf s pml4 → (4096 | page) → (4096 | last) → 0 ≤ page ≤ last → last < 2 ^ 48 →
  last - page < 4096 * Z.of_nat fuel →
  ∃ ok s', prepare_pages PAGE_COW fuel pml4 page last s = Some (ok, s') ∧ space_wf s' pml4 ∧
    (∀ w, user_writable s pml4 w → user_writable s' pml4 w) ∧
    (ok = true → ∀ pg, (4096 | pg) → page ≤ pg ≤ last → user_writable s' pml4 pg).
Proof.
  revert page s. induction fuel as [|fuel IH]; intros page s Hwf Hpg Hla Hle Hb Hfuel; [lia|].
  cbn [prepare_pages]. rewrite find_page_entry_walk by (by eauto using root_nonzero).
  destruct (walk _ _ _ _) as [[pt r]|] eqn:Hw; [|by exists false, s].
  change (arr_get (vm_mem s) (slot pt (pt_index page))) with (entry (vm_mem s) pt (pt_index page)).
  set (e := entry _ pt _).
  assert (Hold : leaf_entry_of s pml4 page = Some e) by (unfold leaf_entry_of; by rewrite Hw).
  destruct (_ =? _) eqn:Hpu; cbn [negb]; [|by exists false, s].
  apply present_user_bits in Hpu as [HP HU].
  destruct (if negb (flag e PAGE_WRITABLE) then _ else _) as [ok s1] eqn:Hs1.
  assert (Hstep : space_wf s1 pml4 ∧ (∀ w, user_writable s pml4 w → user_writable s1 pml4 w) ∧
    (ok = true → user_writable s1 pml4 page)).
  { destruct (flag e PAGE_WRITABLE) eqn:HW; cbn [negb] in Hs1.
    - injection Hs1 as <- <-. split_and!; [done|done|]. intros _. by exists e.
    - split_and!.
      + by eapply (cow_fault_writable s _ _ _ _ page Hwf).
      + intros w. by eapply (cow_fault_writable s).
      + intros ->. by eapply (cow_fault_writable s pml4 page true s1 page Hwf Hs1). }
  destruct Hstep as (Hwf1 & Hmono & Hpage).
  destruct ok; cbn [negb]; [|by exists false, s1].
  destruct (Z.eqb_spec page last) as [->|Hne].
  { exists true, s1. split_and!; try done. intros _ pg Hpga Hr.
    replace pg with last by lia. by apply Hpage. }
  rewrite u64_small by lia. destruct Hpg as [x ->]. destruct Hla as [y ->].
  destruct (IH (x * 4096 + 4096) s1) as (ok' & s' & -> & Hwf' & Hmono' & Hall); try done; try lia.
  { exists (x + 1). lia. }
  { by exists y. }
  exists ok', s'. split_and!; [done|done|by eauto|]. intros -> pg [z ->] Hr.
  destruct (decide (z = x)) as [->|]; [by apply Hmono', Hpage|]. apply Hall; [done|by exists z|lia].
Qed.

(** An address and its page have the same indices. *)
Lemma page_of_mask a : 0 ≤ a < 2 ^ 64 → page_of (a .& PAGE_MASK) = page_of a.
Proof.
  intros Ha.
  assert (Hidx : ∀ k, 12 ≤ k ≤ 55 → ((a .& PAGE_MASK) .>> k) .& 0x1FF = (a .>> k) .& 0x1FF).
  { intros k Hk. apply Z.bits_inj'. intros n Hn. rewrite !Z.land_spec, !Z.shiftr_spec by done.
    rewrite Z.land_spec, page_mask_bits by lia. destruct (decide (n < 9)).
    - rewrite bool_decide_eq_true_2 by lia. by rewrite andb_true_r.
    - rewrite (testbit_small 0x1FF 9) by lia. by rewrite !andb_false_r. }
  unfold page_of, pml4_index, pdpt_index, pd_index, pt_index. by rewrite !Hidx by lia.
Qed.

Lemma user_writable_page s pml4 a b :
  page_of a = page_of b → user_writable s pml4 a → user_writable s pml4 b.
Proof.
  intros Hp. unfold page_of in Hp. injection Hp as P1 P2 P3 P4.
  unfold user_writable, leaf_entry_of. by rewrite P1, P2, P3, P4.
Qed.

(** The page-aligned bounds of a byte range. *)
Lemma page_floor a : 0 ≤ a < 2 ^ 64 → a .& PAGE_MASK = a - a mod 4096.
Proof. intros Ha. rewrite land_page_mask by done. pose proof (Z.div_mod a 4096). lia. Qed.

(** C7 (functional): [vmm_map_page] on a well-formed address space.  The page of [virt]
    gets the entry [phys | flags], or the frame allocator is exhausted and nothing is
    mapped; the translation of every other page, rights included, is unchanged, also
    when a 2 MiB page had to be split; the address space stays well formed. *)
Theorem vmm_map_page_spec s pml4 virt phys flags :
  space_wf s pml4 →
  let s' := vmm_map_page pml4 virt phys flags s in
  let v := phys .| flags in
  space_wf s' pml4 ∧
  (∀ w, page_of w ≠ page_of virt →
     translate (vm_mem s') pml4 w = translate (vm_mem s) pml4 w) ∧
  ((∃ r, translate (vm_mem s') pml4 virt =
     if flag v PAGE_PRESENT then Some (v, r .& v) else None) ∨
   (exhausted s' ∧ same_translation (vm_mem s) (vm_mem s') pml4)).
Proof.
  intros Hwf s' v. destruct (vmm_map_page_mapped s pml4 virt phys flags Hwf) as [H1 H2 [H3|[H3 H4]] _].
  - split_and!; [done|done|by left].
  - split_and!; [done|done|right]. split; [done|]. intros w.
    destruct (decide (page_of w = page_of virt)) as [He|]; [|by apply H2].
    unfold page_of in He. injection He as E1 E2 E3 E4.
    rewrite !translate_trans, E1, E2, E3, E4, <- !translate_trans. done.
Qed.

(** C30 (functional): [vmm_unmap_page] on a user address.  A page with a present leaf
    entry is unmapped and its physical address returned; otherwise 0 is returned and
    nothing changes.  No other page is affected. *)
Theorem vmm_unmap_page_spec s pml4 virt :
  space_wf s pml4 → AOS_USER_SPACE_START ≤ virt →
  let phys := (vmm_unmap_page pml4 virt s).1 in
  let s' := (vmm_unmap_page pml4 virt s).2 in
  space_wf s' pml4 ∧
  (∀ w, page_of w ≠ page_of virt →
     translate (vm_mem s') pml4 w = translate (vm_mem s) pml4 w) ∧
  match leaf_entry_of s pml4 virt with
  | Some e =>
      if flag e PAGE_PRESENT
      then phys = e .& PAGE_MASK ∧ translate (vm_mem s') pml4 virt = None
      else phys = 0 ∧ s' = s
  | None => phys = 0 ∧ s' = s
  end.
Proof.
  intros Hwf Hv. rewrite unmap_walk by done. unfold leaf_entry_of.
  destruct (walk _ _ _ _) as [[pt r]|] eqn:Hw; [|done].
  destruct (flag _ PAGE_PRESENT) eqn:HP; [|done]. cbn [fst snd].
  destruct (mapped_leaf s s pml4 virt pt r 0 ltac:(by intros ?) Hwf (grows_refl _ _) Hw) as [H1 H2 H3 _].
  split_and!; [done|done|done|]. rewrite translate_trans.
  apply (leaf_translate s (arr_set (vm_mem s) (slot pt (pt_index virt)) 0) (vm_frames s) pml4 _ _ _ _ pt r 0);
    [done|apply page_of_range|]. apply leaf_change_store; [done|apply page_path|done].
Qed.

(** C5 (functional): the copy-on-write fault.  On success the page is writable, no longer
    copy-on-write, and reads as before; when the frame was shared the page now has a
    private frame with reference count 1, the old frame keeps its contents and loses
    one reference; otherwise the frame stays.  No other page changes.  The fault fails
    only when no frame is left. *)
Theorem vmm_cow_fault_spec s pml4 virt e ok s' :
  space_wf s pml4 → leaf_entry_of s pml4 virt = Some e →
  flag e PAGE_PRESENT = true → flag e PAGE_COW = true →
  let phys := e .& PTE_PHYS_MASK in
  (∀ q r, path_ok q → walk (vm_mem s) pml4 RIGHTS q ≠ Some (phys, r)) →
  vmm_handle_cow_fault PAGE_COW pml4 virt s = (ok, s') →
  if ok then
    ∃ e', let new := e' .& PTE_PHYS_MASK in
    space_wf s' pml4 ∧
    (∀ w, leaf_entry_of s' pml4 w =
       if decide (page_of w = page_of virt) then Some e' else leaf_entry_of s pml4 w) ∧
    flag e' PAGE_WRITABLE = true ∧ flag e' PAGE_COW = false ∧
    flag e' PAGE_USER = flag e PAGE_USER ∧
    (∀ i, 0 ≤ i < 512 → entry (vm_mem s') new i = entry (vm_mem s) phys i) ∧
    (∀ i, 0 ≤ i < 512 → entry (vm_mem s') phys i = entry (vm_mem s) phys i) ∧
    (if 1 <? block_refcount phys (vm_frames s)
     then new ≠ phys ∧ block_refcount new (vm_frames s') = 1 ∧
          block_refcount phys (vm_frames s') = block_refcount phys (vm_frames s) - 1
     else new = phys ∧ vm_frames s' = vm_frames s)
  else exhausted s' ∧ vm_mem s' = vm_mem s.
Proof.
  intros Hwf Hle HP HC phys Hdata Hf.
  apply cow_fault_cases in Hf as [(-> & Hwf' & Hm & Hex)|(-> & pt & r & e1 & n & Hd)]; [by eauto| |done].
  destruct (cow_done_entry _ _ _ _ _ _ _ _ Hwf Hd) as (Hwf' & Hle' & Hph & H1 & H2 & H3 & H4).
  pose proof (cd_walk _ _ _ _ _ _ _ _ Hd) as Hw. destruct (page_path virt) as [Hp Hi].
  assert (e1 = e) as -> by (unfold leaf_entry_of in Hle; rewrite Hw in Hle;
    rewrite <- (cd_entry _ _ _ _ _ _ _ _ Hd); congruence).
  exists (n .| cow_flags e). cbv zeta. rewrite Hph. split_and!; try done.
  1-3: destruct (sw_table _ _ Hwf _ _ _ Hp Hw) as [[Hf Hfa] Hu].
  all: pose proof (phys_aligned e) as Hpa; pose proof (phys_range e) as Hpr; fold phys in Hpa, Hpr.
  all: destruct (cd_how _ _ _ _ _ _ _ _ Hd) as [(Hrc & Hn & ->)|(Hrc & fr & Hal & ->)]; fold phys in Hrc |- *; try fold phys in Hn.
  all: assert (Hpt : pt ≠ phys) by (intros ->; by eapply Hdata).
  all: cbn [store free_frame vm_mem vm_frames] in *.
  - intros i Hi'. subst n. unfold entry. rewrite arr_get_set_ne; [done|].
    intros [? _]%slot_inj; done.
  - destruct (fa_alloc_some _ _ _ (sw_alloc _ _ Hwf) Hal) as (_ & Hn & Hfresh & _ & _).
    assert (n ≠ phys) by (intros ->; apply Hfresh, fa_count_used; [apply Hwf|lia|lia]).
    intros i Hi'. unfold entry at 1. rewrite arr_get_set_ne.
    + apply copy_frame_spec; [apply Hn|done|done|done].
    + intros [-> _]%slot_inj; [done|done|apply Hn|done|done].
  - intros i Hi'. unfold entry. rewrite arr_get_set_ne; [done|].
    intros [? _]%slot_inj; done.
  - destruct (fa_alloc_some _ _ _ (sw_alloc _ _ Hwf) Hal) as (_ & Hn & Hfresh & _ & _).
    assert (n ≠ phys) by (intros ->; apply Hfresh, fa_count_used; [apply Hwf|lia|lia]).
    intros i Hi'. unfold entry. rewrite arr_get_set_ne by (intros [? _]%slot_inj; done).
    apply copy_frame_spec; [apply Hn|done|done|].
    intros j Hj [? _]%slot_inj; [congruence|done|apply Hn|done|done].
  - rewrite (proj2 (Z.ltb_ge _ _)) by done. by subst n.
  - rewrite (proj2 (Z.ltb_lt _ _)) by done.
    destruct (fa_alloc_some _ _ _ (sw_alloc _ _ Hwf) Hal) as (Hwf1 & Hn & Hfresh & Hu1 & Hcnt).
    assert (n ≠ phys) by (intros ->; apply Hfresh, fa_count_used; [apply Hwf|lia|lia]).
    destruct (fa_free fr phys Hwf1 ltac:(lia) Hpa) as (_ & _ & Hc2).
    rewrite !Hc2, !Hcnt by (done || apply Hn).
    rewrite (decide_True (P := phys = phys)), decide_False, decide_True, decide_False by done.
    split_and!; [done|done|lia].
Qed.

(** C25 (liveness): [vmm_prepare_user_write] returns once the loop has visited every page
    of the range, and when it succeeds every byte of the range is on a page that is
    present, user and writable; pages that were writable stay so. *)
Theorem vmm_prepare_user_write_spec fuel s pml4 virt length :
  space_wf s pml4 → 0 ≤ virt < 2 ^ 64 → 0 ≤ length < 2 ^ 64 →
  length + 8192 ≤ 4096 * Z.of_nat fuel →
  ∃ ok s', vmm_prepare_user_write PAGE_COW fuel pml4 virt length s = Some (ok, s') ∧
    space_wf s' pml4 ∧
    (∀ w, user_writable s pml4 w → user_writable s' pml4 w) ∧
    (ok = true → 0 < length →
       AOS_USER_SPACE_START ≤ virt ∧ virt + length ≤ USER_SPACE_END ∧
       ∀ a, virt ≤ a < virt + length → user_writable s' pml4 a).
Proof.
  intros Hwf Hv Hl Hfuel. unfold vmm_prepare_user_write.
  destruct (Z.eqb_spec length 0) as [->|Hne]; [exists true, s; split_and!; try done; lia|].
  destruct (Z.eqb_spec pml4 0) as [->|_]; [by apply root_nonzero in Hwf|]. cbn [orb].
  destruct (u64 (virt + length - 1) <? virt) eqn:E1; [by exists false, s|].
  destruct (virt <? _) eqn:E2; [by exists false, s|].
  destruct (USER_SPACE_END <=? _) eqn:E3; [by exists false, s|]. cbn [orb]. bool_to_prop.
  assert (Hend : u64 (virt + length - 1) = virt + length - 1).
  { apply u64_small. split; [lia|]. destruct (decide (virt + length - 1 < 2 ^ 64)); [done|].
    assert (u64 (virt + length - 1) = virt + length - 1 - 2 ^ 64); [|lia].
    unfold u64. symmetry. apply (Z.mod_unique _ _ 1); lia. }
  rewrite Hend in *. set (end_ := virt + length - 1) in *.
  unfold USER_SPACE_END, AOS_USER_SPACE_START in *.
  pose proof (Z.mod_pos_bound virt 4096 ltac:(lia)). pose proof (Z.mod_pos_bound end_ 4096 ltac:(lia)).
  assert (Hal : ∀ a, 0 ≤ a < 2 ^ 64 → (4096 | a .& PAGE_MASK)).
  { intros a Ha. rewrite land_page_mask by done. by exists (a / 4096). }
  destruct (prepare_pages_ok fuel pml4 (virt .& PAGE_MASK) (end_ .& PAGE_MASK) s)
    as (ok & s' & -> & Hwf' & Hmono & Hall); try done.
  1,2: apply Hal; lia.
  1-3: rewrite !page_floor by lia; try lia.
  { pose proof (Z.div_le_mono virt end_ 4096 ltac:(lia) ltac:(lia)).
    pose proof (Z.div_mod virt 4096). pose proof (Z.div_mod end_ 4096). lia. }
  exists ok, s'. split_and!; try done. intros -> _. split_and!; [lia|lia|].
  intros a Ha. apply (user_writable_page _ _ (a .& PAGE_MASK)); [by apply page_of_mask; lia|].
  apply Hall; [done|apply Hal; lia|]. rewrite !land_page_mask by lia.
  pose proof (Z.div_le_mono virt a 4096 ltac:(lia) ltac:(lia)).
  pose proof (Z.div_le_mono a end_ 4096 ltac:(lia) ltac:(lia)). lia.
Qed.

(** [vmm_create_user_space] gives a new root that shares the kernel half
    with its source and maps nothing in the user half; it leaves the source untouched. *)
Theorem vmm_create_user_space_spec s p4_table src n s' :
  space_wf s src → vmm_create_user_space p4_table src s = (Some n, s') →
  (∀ virt, translate (vm_mem s') n virt =
     if user_slot (pml4_index virt) then None else translate (vm_mem s) src virt) ∧
  same_translation (vm_mem s) (vm_mem s') src.
Proof.
  intros Hwf. unfold vmm_create_user_space. rewrite (proj2 (Z.eqb_neq _ _) (root_nonzero _ _ Hwf)).
  destruct (alloc_block _) as [[n'|] fr] eqn:Hal; [|done]. intros Heq.
  injection Heq as -> <-. cbn [vm_mem].
  destruct (fa_alloc_some _ _ _ (sw_alloc _ _ Hwf) Hal) as (_ & Hn & Hfresh & _ & _).
  destruct (sw_table _ _ Hwf [] src RIGHTS path_ok_nil eq_refl) as [Hf Hu].
  destruct (create_loop n src (vm_mem s)) as [H1 H2]; [apply Hn|apply Hf|by intros ->|].
  set (m' := share_kernel_slots _ _ _) in *. clearbody m'.
  assert (Hag : ∀ t j, frame t → fa_used (vm_frames s) t → 0 ≤ j < 512 →
    entry m' t j = entry (vm_mem s) t j).
  { intros t j Ht Hut Hj. apply H2. intros k Hk [-> _]%slot_inj; [done|apply Ht|apply Hn|done|done]. }
  assert (Hsrc : ∀ virt, translate m' src virt = translate (vm_mem s) src virt).
  { intros virt. rewrite !translate_trans.
    apply (trans_agree s); [done|apply page_of_range|done]. }
  split; [|exact Hsrc]. intros virt. rewrite <- (Hsrc virt). unfold translate. cbn [walk].
  rewrite H1 by apply index_range. destruct (user_slot _); [done|].
  rewrite (Hag src) by (done || apply index_range). done.
Qed.
End props.

(** ** Concrete runs *)

(** All tables below [t], to check by computation what is not one of them. *)
Fixpoint tables (m : arr) (t : Z) (depth : nat) : list Z :=
  t :: match depth with
       | O => []
       | S d => mjoin ((λ i, let e := entry m t i in
                    if flag e PAGE_PRESENT && negb (flag e PAGE_HUGE)
                    then tables m (e .& PTE_PHYS_MASK) d else []) <$> seqZ 0 512)
       end.

Lemma walk_tables m t r q t' r' d :
  (length q ≤ d)%nat → Forall (λ i, 0 ≤ i < 512) q → walk m t r q = Some (t', r') →
  t' ∈ tables m t d.
Proof.
  revert t r d. induction q as [|i q IH]; intros t r d Hd Hr Hw.
  - injection Hw as <- _. destruct d; cbn [tables]; apply elem_of_cons; by left.
  - destruct d as [|d]; [simpl in Hd; lia|]. cbn [walk] in Hw.
    apply Forall_cons in Hr as [Hi Hr].
    destruct (flag (entry m t i) PAGE_PRESENT && _) eqn:Hp; [|done].
    cbn [tables]. apply elem_of_cons. right. apply list_elem_of_join.
    eexists. split; [|apply list_elem_of_fmap; exists i; split; [done|]].
    + cbv zeta. rewrite Hp. eapply IH; [simpl in Hd; lia|done|done].
    + apply elem_of_seqZ. lia.
Qed.

(** An empty root in the first free frame, and a data frame with two references. *)
Definition demo_root : Z := default 0 (pmm_alloc_block demo_pmm).1.
Definition demo_frames1 : pmm := (pmm_alloc_block demo_pmm).2.
Definition demo_data : Z := default 0 (pmm_alloc_block demo_frames1).1.
Definition demo_frames2 : pmm := (pmm_alloc_block demo_frames1).2.
Definition demo_frames3 : pmm := (pmm_retain_block demo_data demo_frames2).2.
Definition demo_space : vm := Vm (arr_fill 0) demo_frames3.
Definition demo_virt : Z := AOS_USER_SPACE_START + 0x3000.
(** [PAGE_PRESENT | PAGE_USER | PAGE_COW] with [PAGE_COW = 1 << 9] *)
Definition demo_shared : vm := vmm_map_page demo_root demo_virt demo_data 0x205 demo_space.

Lemma demo_space_wf : space_wf demo_space demo_root.
Proof.
  assert (H1 : alloc_block demo_pmm = (Some demo_root, demo_frames1)) by (vm_compute; reflexivity).
  assert (H2 : alloc_block demo_frames1 = (Some demo_data, demo_frames2)) by (vm_compute; reflexivity).
  assert (H3 : retain_block demo_data demo_frames2 = (true, demo_frames3)) by (vm_compute; reflexivity).
  assert (W0 : fa_wf demo_pmm) by exact demo_pmm_wf.
  destruct (fa_alloc_some (A := pmm) demo_pmm _ _ W0 H1) as (W1 & F1 & _ & U1 & _).
  destruct (fa_alloc_some (A := pmm) _ _ _ W1 H2) as (W2 & F2 & _ & U2 & _).
  destruct (fa_retain_true (A := pmm) demo_frames2 demo_data demo_frames3 W2
    ltac:(destruct F2 as [[? _] _]; lia) (proj2 F2) H3) as (W3 & _ & U3 & _).
  apply empty_space_wf; [exact W3|exact F1| |].
  - apply U3, U2; [apply F1|right]. apply U1; [apply F1|left; reflexivity].
  - intros i _. apply arr_get_fill.
Qed.

Lemma demo_shared_wf : space_wf demo_shared demo_root.
Proof.
  exact (mp_wf _ _ _ _ _
    (vmm_map_page_mapped demo_space demo_root demo_virt demo_data 0x205 demo_space_wf)).
Qed.

Lemma vmm_map_page_spec_witness :
  space_wf demo_shared demo_root ∧
  translate (vm_mem demo_shared) demo_root demo_virt = Some (demo_data .| 0x205, 4).
Proof.
  pose proof (vmm_map_page_spec demo_space demo_root demo_virt demo_data 0x205 demo_space_wf) as H.
  split; [exact (proj1 H)|vm_compute; reflexivity].
Defined.

Lemma vmm_unmap_page_spec_witness :
  (vmm_unmap_page demo_root demo_virt demo_shared).1 = demo_data ∧
  translate (vm_mem (vmm_unmap_page demo_root demo_virt demo_shared).2) demo_root demo_virt = None.
Proof.
  assert (Hv : AOS_USER_SPACE_START ≤ demo_virt) by (vm_compute; congruence).
  pose proof (vmm_unmap_page_spec demo_shared demo_root demo_virt demo_shared_wf Hv) as (_ & _ & H).
  assert (He : leaf_entry_of demo_shared demo_root demo_virt = Some (demo_data .| 0x205))
    by (vm_compute; reflexivity).
  rewrite He in H.
  assert (Hp : flag (demo_data .| 0x205) PAGE_PRESENT = true) by (vm_compute; reflexivity).
  rewrite Hp in H. destruct H as [-> H]. split; [vm_compute; reflexivity|exact H].
Defined.

Lemma vmm_cow_fault_spec_witness :
  ∃ e', leaf_entry_of (vmm_handle_cow_fault 512 demo_root demo_virt demo_shared).2
          demo_root demo_virt = Some e' ∧
    flag e' PAGE_WRITABLE = true ∧ e' .& PTE_PHYS_MASK ≠ demo_data.
Proof.
  assert (He : leaf_entry_of demo_shared demo_root demo_virt = Some (demo_data .| 0x205))
    by (vm_compute; reflexivity).
  assert (Hph : (demo_data .| 0x205) .& PTE_PHYS_MASK = demo_data) by (vm_compute; reflexivity).
  assert (Hnot : demo_data ∉ tables (vm_mem demo_shared) demo_root 3)
    by (apply (bool_decide_unpack _); vm_compute; exact I).
  destruct (vmm_handle_cow_fault 512 demo_root demo_virt demo_shared) as [ok s'] eqn:Hf.
  assert (Hok : ok = true).
  { change ok with (ok, s').1. rewrite <- Hf. vm_compute. reflexivity. }
  subst ok.
  assert (Hp : flag (demo_data .| 0x205) PAGE_PRESENT = true) by (vm_compute; reflexivity).
  assert (Hc : flag (demo_data .| 0x205) 512 = true) by (vm_compute; reflexivity).
  destruct (vmm_cow_fault_spec 512 9 ltac:(split; [reflexivity|lia]) demo_shared demo_root demo_virt
    (demo_data .| 0x205) true s' demo_shared_wf He Hp Hc) as (e' & _ & Hl & Hw & _ & _ & _ & _ & Hsh).
  { intros q r [Hq1 Hq2] Hw. rewrite Hph in Hw. apply Hnot.
    exact (walk_tables _ _ _ _ _ _ 3 Hq1 Hq2 Hw). }
  { exact Hf. }
  rewrite Hph in Hsh.
  assert (Hrc : (1 <? block_refcount demo_data (vm_frames demo_shared)) = true) by (vm_compute; reflexivity).
  rewrite Hrc in Hsh. exists e'. cbn [snd]. rewrite Hl, decide_True by reflexivity.
  split; [reflexivity|split; [exact Hw|apply Hsh]].
Defined.

Lemma vmm_prepare_user_write_spec_witness :
  ∃ ok s', vmm_prepare_user_write 512 4 demo_root (demo_virt + 5) 16 demo_shared = Some (ok, s') ∧
    ok = true ∧ user_writable s' demo_root (demo_virt + 7).
Proof.
  destruct (vmm_prepare_user_write_spec 512 9 ltac:(split; [reflexivity|lia]) 4 demo_shared demo_root
    (demo_virt + 5) 16 demo_shared_wf) as (ok & s' & Hr & _ & _ & H).
  1-3: unfold demo_virt, AOS_USER_SPACE_START; lia.
  assert (Hok : ok = true).
  { assert (Hc : fst <$> vmm_prepare_user_write 512 4 demo_root (demo_virt + 5) 16 demo_shared = Some true)
      by (vm_compute; reflexivity).
    rewrite Hr in Hc. injection Hc as ->. reflexivity. }
  exists ok, s'. split; [exact Hr|split; [exact Hok|]].
  apply (H Hok); [lia|]. unfold demo_virt. lia.
Defined.

Lemma vmm_create_user_space_spec_witness :
  ∃ n s', vmm_create_user_space demo_root demo_root demo_shared = (Some n, s') ∧
    translate (vm_mem s') n demo_virt = None.
Proof.
  destruct (vmm_create_user_space demo_root demo_root demo_shared) as [[n|] s'] eqn:Hc.
  - exists n, s'. split; [reflexivity|].
    rewrite (proj1 (vmm_create_user_space_spec demo_shared demo_root demo_root n s'
      demo_shared_wf Hc) demo_virt). vm_compute. reflexivity.
  - exfalso. assert (Hd : (vmm_create_user_space demo_root demo_root demo_shared).1 ≠ None)
      by (vm_compute; congruence). rewrite Hc in Hd. by apply Hd.
Defined.
