(* ===== verification/VfsNode.v ===== *)
(** * Nodes of the virtual file system ([include/vfs.h])

    The values every file system back end exchanges with the VFS layer:
    [struct vfs_node], node types and back ends.  [kernel/vfs.c] and
    [kernel/tmpfs.c] also use the members [mode], [uid] and [gid] and the
    constants [VFS_NODE_TYPE_SYMLINK], [VFS_BACKEND_PROCFS] and
    [VFS_DEV_URANDOM], which the checked-in header does not declare yet; they
    are members and constructors here. *)

From S2P Require Import Prelude CString.

(** [VFS_NODE_TYPE_*]; [NODE_NONE] is the zero of a cleared structure. *)
Inductive node_type :=
  NODE_NONE | NODE_REGULAR | NODE_DIRECTORY | NODE_CHAR_DEVICE | NODE_SYMLINK.

#[export] Instance node_type_eq_dec : EqDecision node_type.
Proof. solve_decision. Defined.

(** [VFS_BACKEND_*] *)
Inductive backend :=
  BACKEND_NONE | BACKEND_SYNTHETIC | BACKEND_INITRD | BACKEND_FAT32 | BACKEND_TMPFS
| BACKEND_EXT4 | BACKEND_AOSFS | BACKEND_PROCFS.

#[export] Instance backend_eq_dec : EqDecision backend.
Proof. solve_decision. Defined.

(** [VFS_DEV_*] *)
Inductive device := DEV_CONSOLE | DEV_TTY0 | DEV_NULL | DEV_URANDOM.

(** The union [u] of [struct vfs_node]: nothing, a pointer to file data (a tmpfs
    slot, or an address), the first cluster of a FAT32 file, or a device number. *)
Inductive node_u :=
| U_none
| U_tmpfs_data (slot : nat)
| U_data (address : Z)
| U_first_cluster (cluster : Z)
| U_device (d : device).

Record vfs_node := VfsNode {
  node_type_of : node_type;
  node_backend : backend;
  node_mode : Z;
  node_uid : Z;
  node_gid : Z;
  node_size : Z;
  node_inode : Z;
  node_path : cstr;
  node_data : node_u
}.

Definition NODE_PATH_MAX : nat := 256.
