(* ===== verification/Tmpfs.v ===== *)
(** * The temporary file system ([kernel/tmpfs.c])

    A table of 64 entries, each with its full path and a 4 KiB data area.  The
    whole file is modelled.  A C string result (a normalised path, a parent
    path, a name) is returned as a value; [None] is the error code -1. *)

From S2P Require Import Prelude CString VfsNode.

Definition TMPFS_MAX_ENTRIES : nat := 64.
Definition TMPFS_PATH_MAX : nat := 256.
Definition TMPFS_FILE_CAPACITY : Z := 4096.
Definition TMPFS_ROOT_INO : Z := 0x544D5001.
(** [07777U], the mode bits that [allocate_entry] and [tmpfs_chmod_path] keep *)
Definition MODE_MASK : Z := 0xFFF.

Record tmpfs_entry := TmpfsEntry {
  e_in_use : bool;
  e_type : node_type;
  e_mode : Z;
  e_uid : Z;
  e_gid : Z;
  e_size : Z;
  e_inode : Z;
  e_path : cstr;
  e_data : list Z
}.

(** [local_memset(entry, 0, sizeof( *entry))] *)
Definition zero_entry : tmpfs_entry :=
  TmpfsEntry false NODE_NONE 0 0 0 0 0 [] (replicate (Z.to_nat TMPFS_FILE_CAPACITY) 0).

Record tmpfs := Tmpfs {
  g_tmpfs_entries : list tmpfs_entry;
  g_tmpfs_next_inode : Z
}.

Definition set_entries (l : list tmpfs_entry) (st : tmpfs) : tmpfs :=
  Tmpfs l (g_tmpfs_next_inode st).

Definition put_entry (i : nat) (e : tmpfs_entry) (st : tmpfs) : tmpfs :=
  set_entries (<[i := e]> (g_tmpfs_entries st)) st.

(** ** Paths *)

(** [while (length > 3 && path[length - 1] == '/') length--] *)
Fixpoint trim_slashes (path : cstr) (len : nat) : nat :=
  match len with
  | O => O
  | S m => if (3 <? len)%nat && bool_decide (char_at path m = SLASH)
           then trim_slashes path m else len
  end.

Definition normalize_tmpfs_path (path : option cstr) (out_size : nat) : option cstr :=
  match path with
  | None => None
  | Some path =>
      if (out_size =? 0)%nat then None else
      let path := skip_slashes path in
      let len := trim_slashes path (local_strlen path) in
      if (len <? 3)%nat || negb (bool_decide (char_at path 0 = "t"%char))
         || negb (bool_decide (char_at path 1 = "m"%char))
         || negb (bool_decide (char_at path 2 = "p"%char))
         || ((3 <? len)%nat && negb (bool_decide (char_at path 3 = SLASH)))
         || (out_size <=? len)%nat
      then None
      else Some (take len path)
  end.

Definition parent_path_of (path : cstr) (parent_size : nat) : option cstr :=
  let len := local_strlen path in
  if (parent_size =? 0)%nat || (len <=? 3)%nat then None else
  let slash := last_slash path len in
  if (slash <=? 3)%nat || (parent_size <? slash)%nat then None
  else Some (take (slash - 1) path).

Fixpoint is_descendant (directory path : cstr) : bool :=
  match directory, path with
  | [], _ => bool_decide (char_at path 0 = SLASH)
  | d :: directory', p :: path' =>
      if negb (bool_decide (p = d)) then false else is_descendant directory' path'
  | _ :: _, [] => false
  end.

(** The name of [path] inside [directory], when it is a direct child. *)
Definition direct_child_name (directory path : cstr) : option cstr :=
  if negb (is_descendant directory path) then None else
  let child := drop (local_strlen directory + 1) path in
  let len := component_len child in
  if (len =? 0)%nat || negb (len =? length child)%nat then None
  else Some (take len child).

(** ** The entry table *)

Definition find_entry (st : tmpfs) (path : cstr) : option nat :=
  find_idx (λ e, e_in_use e && path_equals (e_path e) path) (g_tmpfs_entries st).

(** [*entry] for a pointer returned by [find_entry]. *)
Definition entry_at (st : tmpfs) (i : nat) : tmpfs_entry :=
  default zero_entry (g_tmpfs_entries st !! i).

Definition is_type (e : tmpfs_entry) (t : node_type) : bool := bool_decide (e_type e = t).

Definition parent_directory_exists (st : tmpfs) (path : cstr) : bool :=
  match parent_path_of path TMPFS_PATH_MAX with
  | None => false
  | Some parent =>
      if path_equals parent (lit "tmp") then true
      else match find_entry st parent with
           | Some i => is_type (entry_at st i) NODE_DIRECTORY
           | None => false
           end
  end.

Definition allocate_entry (st : tmpfs) (path : cstr) (type : node_type) (mode uid gid : Z)
    : option (nat * tmpfs) :=
  match find_idx (λ e, negb (e_in_use e)) (g_tmpfs_entries st) with
  | None => None
  | Some i =>
      let e := TmpfsEntry true type (mode .& MODE_MASK) uid gid 0 (g_tmpfs_next_inode st)
                 (copy_string TMPFS_PATH_MAX path) (e_data zero_entry) in
      Some (i, Tmpfs (<[i := e]> (g_tmpfs_entries st)) (u64 (g_tmpfs_next_inode st + 1)))
  end.

(** ** Nodes handed to the VFS *)

Definition fill_root_node : vfs_node :=
  VfsNode NODE_DIRECTORY BACKEND_TMPFS 0x3FF 0 0 0 TMPFS_ROOT_INO
    (copy_string NODE_PATH_MAX (lit "tmp")) U_none.

Definition fill_entry_node (i : nat) (e : tmpfs_entry) : vfs_node :=
  VfsNode (e_type e) BACKEND_TMPFS (e_mode e) (e_uid e) (e_gid e) (e_size e) (e_inode e)
    (copy_string NODE_PATH_MAX (e_path e))
    (if is_type e NODE_REGULAR then U_tmpfs_data i else U_none).

(** ** Operations *)

Definition tmpfs_init : tmpfs :=
  Tmpfs (replicate TMPFS_MAX_ENTRIES zero_entry) (TMPFS_ROOT_INO + 1).

Definition tmpfs_lookup_path (path : option cstr) (out : outptr) (st : tmpfs) : option vfs_node :=
  if is_null out then None else
  match normalize_tmpfs_path path TMPFS_PATH_MAX with
  | None => None
  | Some normalized =>
      if path_equals normalized (lit "tmp") then Some fill_root_node
      else match find_entry st normalized with
           | None => None
           | Some i => Some (fill_entry_node i (entry_at st i))
           end
  end.

Definition tmpfs_create_path_mode (path : option cstr) (mode uid gid : Z) (out : outptr)
    (st : tmpfs) : option vfs_node * tmpfs :=
  if is_null out then (None, st) else
  match normalize_tmpfs_path path TMPFS_PATH_MAX with
  | None => (None, st)
  | Some normalized =>
      if path_equals normalized (lit "tmp") || negb (parent_directory_exists st normalized)
      then (None, st)
      else match find_entry st normalized with
           | Some i =>
               let e := entry_at st i in
               if negb (is_type e NODE_REGULAR) then (None, st)
               else (Some (fill_entry_node i e), st)
           | None =>
               match allocate_entry st normalized NODE_REGULAR mode uid gid with
               | None => (None, st)
               | Some (i, st') => (Some (fill_entry_node i (entry_at st' i)), st')
               end
           end
  end.

Definition tmpfs_create_path (path : option cstr) (out : outptr) (st : tmpfs)
    : option vfs_node * tmpfs :=
  tmpfs_create_path_mode path 0x180 0 0 out st.

(** Operations without an out-parameter return [true] for 0 and [false] for -1. *)
Definition tmpfs_mkdir_path_mode (path : option cstr) (mode uid gid : Z) (st : tmpfs)
    : bool * tmpfs :=
  match normalize_tmpfs_path path TMPFS_PATH_MAX with
  | None => (false, st)
  | Some normalized =>
      if path_equals normalized (lit "tmp")
         || bool_decide (is_Some (find_entry st normalized))
         || negb (parent_directory_exists st normalized)
      then (false, st)
      else match allocate_entry st normalized NODE_DIRECTORY mode uid gid with
           | None => (false, st)
           | Some (_, st') => (true, st')
           end
  end.

(** [local_memset(data + off, 0, n)] inside the data area. *)
Definition zero_data (data : list Z) (off n : nat) : list Z :=
  take off data ++ replicate n 0 ++ drop (off + n) data.

(** [local_memcpy(data + off, bytes, length bytes)] inside the data area. *)
Definition blit (data : list Z) (off : nat) (bytes : list Z) : list Z :=
  take off data ++ bytes ++ drop (off + length bytes) data.

Definition with_size (size : Z) (e : tmpfs_entry) : tmpfs_entry :=
  TmpfsEntry (e_in_use e) (e_type e) (e_mode e) (e_uid e) (e_gid e) size (e_inode e)
    (e_path e) (e_data e).
Definition with_data (data : list Z) (e : tmpfs_entry) : tmpfs_entry :=
  TmpfsEntry (e_in_use e) (e_type e) (e_mode e) (e_uid e) (e_gid e) (e_size e) (e_inode e)
    (e_path e) data.
Definition with_mode (mode : Z) (e : tmpfs_entry) : tmpfs_entry :=
  TmpfsEntry (e_in_use e) (e_type e) mode (e_uid e) (e_gid e) (e_size e) (e_inode e)
    (e_path e) (e_data e).
Definition with_owner (uid gid : Z) (e : tmpfs_entry) : tmpfs_entry :=
  TmpfsEntry (e_in_use e) (e_type e) (e_mode e) uid gid (e_size e) (e_inode e)
    (e_path e) (e_data e).

Definition tmpfs_resize_path (path : option cstr) (size : Z) (st : tmpfs) : bool * tmpfs :=
  if TMPFS_FILE_CAPACITY <? size then (false, st) else
  match normalize_tmpfs_path path TMPFS_PATH_MAX with
  | None => (false, st)
  | Some normalized =>
      match find_entry st normalized with
      | None => (false, st)
      | Some i =>
          let e := entry_at st i in
          if negb (is_type e NODE_REGULAR) then (false, st) else
          let e := if e_size e <? size
                   then with_data (zero_data (e_data e) (Z.to_nat (e_size e))
                                     (Z.to_nat (size - e_size e))) e
                   else e in
          (true, put_entry i (with_size size e) st)
      end
  end.

Definition tmpfs_truncate_path (path : option cstr) (st : tmpfs) : bool * tmpfs :=
  tmpfs_resize_path path 0 st.

(** The bytes stored in [buffer] on success. *)
Definition tmpfs_read_path (path : option cstr) (offset : Z) (buffer : outptr) (len : Z)
    (st : tmpfs) : option (list Z) :=
  if is_null buffer then None else
  match normalize_tmpfs_path path TMPFS_PATH_MAX with
  | None => None
  | Some normalized =>
      match find_entry st normalized with
      | None => None
      | Some i =>
          let e := entry_at st i in
          if negb (is_type e NODE_REGULAR) || (e_size e <? offset)
             || (e_size e - offset <? len)
          then None
          else Some (take (Z.to_nat len) (drop (Z.to_nat offset) (e_data e)))
      end
  end.

(** Result of [tmpfs_write_path]: the return code (true for 0) and the values
    stored through [written] and [new_size] ([None] where nothing is stored). *)
Record write_result := WriteResult {
  wr_ok : bool;
  wr_written : option Z;
  wr_new_size : option Z
}.

(** [buffer] holds the bytes the caller's pointer can reach; [len] is the caller's
    count.  The sum [offset + to_write] is 64-bit, and a copy that would leave the
    data area or the buffer is undefined behaviour.  [new_size] may be [NULL] in the
    source; the model gives the value that is stored when it is not. *)
Definition tmpfs_write_path (path : option cstr) (offset : Z) (buffer : option (list Z))
    (len : Z) (written : outptr) (st : tmpfs) : ub (write_result * tmpfs) :=
  match buffer with
  | None => Ok (WriteResult false None None, st)
  | Some bytes =>
      if is_null written then Ok (WriteResult false None None, st) else
      match normalize_tmpfs_path path TMPFS_PATH_MAX with
      | None => Ok (WriteResult false None None, st)
      | Some normalized =>
          match find_entry st normalized with
          | None => Ok (WriteResult false (Some 0) None, st)
          | Some i =>
              let e := entry_at st i in
              if negb (is_type e NODE_REGULAR) then Ok (WriteResult false (Some 0) None, st)
              else if TMPFS_FILE_CAPACITY <=? offset
              then Ok (WriteResult true (Some 0) None, st)
              else
                let to_write := if TMPFS_FILE_CAPACITY <? u64 (offset + len)
                                then TMPFS_FILE_CAPACITY - offset else len in
                if (TMPFS_FILE_CAPACITY <? offset + to_write)
                   || (Z.of_nat (length bytes) <? to_write) then UB else
                let data := blit (e_data e) (Z.to_nat offset)
                              (take (Z.to_nat to_write) bytes) in
                let size := if e_size e <? u64 (offset + to_write)
                            then u32 (offset + to_write) else e_size e in
                Ok (WriteResult true (Some to_write) (Some size),
                    put_entry i (with_size size (with_data data e)) st)
          end
      end
  end.

Definition tmpfs_unlink_path (path : option cstr) (st : tmpfs) : bool * tmpfs :=
  match normalize_tmpfs_path path TMPFS_PATH_MAX with
  | None => (false, st)
  | Some normalized =>
      match find_entry st normalized with
      | None => (false, st)
      | Some i => if negb (is_type (entry_at st i) NODE_REGULAR) then (false, st)
                  else (true, put_entry i zero_entry st)
      end
  end.

Definition tmpfs_rmdir_path (path : option cstr) (st : tmpfs) : bool * tmpfs :=
  match normalize_tmpfs_path path TMPFS_PATH_MAX with
  | None => (false, st)
  | Some normalized =>
      if path_equals normalized (lit "tmp") then (false, st) else
      match find_entry st normalized with
      | None => (false, st)
      | Some i =>
          if negb (is_type (entry_at st i) NODE_DIRECTORY) then (false, st)
          else if existsb (λ e, e_in_use e && is_descendant normalized (e_path e))
                    (g_tmpfs_entries st)
          then (false, st)
          else (true, put_entry i zero_entry st)
      end
  end.

Definition tmpfs_chmod_path (path : option cstr) (mode : Z) (st : tmpfs) : bool * tmpfs :=
  match normalize_tmpfs_path path TMPFS_PATH_MAX with
  | None => (false, st)
  | Some normalized =>
      match find_entry st normalized with
      | None => (false, st)
      | Some i => (true, put_entry i (with_mode (mode .& MODE_MASK) (entry_at st i)) st)
      end
  end.

Definition tmpfs_chown_path (path : option cstr) (uid gid : Z) (st : tmpfs) : bool * tmpfs :=
  match normalize_tmpfs_path path TMPFS_PATH_MAX with
  | None => (false, st)
  | Some normalized =>
      match find_entry st normalized with
      | None => (false, st)
      | Some i => (true, put_entry i (with_owner uid gid (entry_at st i)) st)
      end
  end.

(** A directory entry: name, size, [d_type] (4 directory, 8 file). *)
Record dirent := Dirent { d_name : cstr; d_size : Z; d_type : Z }.

(** The table scan: the [index]-th entry that is a direct child of [dir]. *)
Fixpoint nth_child (dir : cstr) (l : list tmpfs_entry) (index : nat) (cap : nat)
    : option dirent :=
  match l with
  | [] => None
  | e :: l' =>
      match (if e_in_use e then direct_child_name dir (e_path e) else None) with
      | None => nth_child dir l' index cap
      | Some name =>
          match index with
          | S index' => nth_child dir l' index' cap
          | O => if (cap <=? length name)%nat then None
                 else Some (Dirent name (e_size e) (if is_type e NODE_DIRECTORY then 4 else 8))
          end
      end
  end.

Definition tmpfs_dirent_at_index (path : option cstr) (index : nat) (name_buf : outptr)
    (name_buf_size : nat) (st : tmpfs) : option dirent :=
  if is_null name_buf || (name_buf_size =? 0)%nat then None else
  match normalize_tmpfs_path path TMPFS_PATH_MAX with
  | None => None
  | Some normalized =>
      if negb (path_equals normalized (lit "tmp"))
         && match find_entry st normalized with
            | None => true
            | Some i => negb (is_type (entry_at st i) NODE_DIRECTORY)
            end
      then None
      else match index with
           | 0%nat => Some (Dirent (copy_string name_buf_size (lit ".")) 0 4)
           | 1%nat => Some (Dirent (copy_string name_buf_size (lit "..")) 0 4)
           | S (S k) => nth_child normalized (g_tmpfs_entries st) k name_buf_size
           end
  end.

(** ** Lemmas on paths *)

Lemma char_at_take s n i : (i < n)%nat → char_at (take n s) i = char_at s i.
Proof. intros H. unfold char_at. by rewrite lookup_take_lt. Qed.

Lemma trim_slashes_spec s len :
  (trim_slashes s len ≤ len)%nat ∧
  (3 < trim_slashes s len → char_at s (trim_slashes s len - 1) ≠ SLASH)%nat ∧
  (3 ≤ len → 3 ≤ trim_slashes s len)%nat.
Proof.
  induction len as [|len (IH1 & IH2 & IH3)]; simpl; [lia|].
  destruct (Nat.ltb_spec 3 (S len)); simpl; [|lia].
  case_bool_decide as Hc.
  - split_and!; [lia|done|]. intros _. apply IH3. lia.
  - split_and!; [lia| |lia]. intros _. by replace (S len - 1)%nat with len by lia.
Qed.

Lemma trim_slashes_fix s len :
  (3 < len → char_at s (len - 1) ≠ SLASH)%nat → trim_slashes s len = len.
Proof.
  destruct len as [|len]; [done|]. intros H. simpl.
  destruct (Nat.ltb_spec 3 (S len)); [|done]. simpl.
  rewrite bool_decide_false; [done|].
  replace (S len - 1)%nat with len in H by lia. by apply H.
Qed.

(** The shape of a normalised path: [tmp], or [tmp/...] without a slash at the end. *)
Record norm_form (p : cstr) : Prop := {
  nf_len : (3 ≤ length p)%nat;
  nf_t : char_at p 0 = "t"%char;
  nf_m : char_at p 1 = "m"%char;
  nf_p : char_at p 2 = "p"%char;
  nf_slash : (3 < length p)%nat → char_at p 3 = SLASH;
  nf_last : (3 < length p)%nat → char_at p (length p - 1) ≠ SLASH
}.

Lemma normalize_form path size p :
  normalize_tmpfs_path path size = Some p → norm_form p ∧ (length p < size)%nat.
Proof.
  unfold normalize_tmpfs_path. destruct path as [path|]; [|done].
  set (s := skip_slashes path). unfold local_strlen.
  destruct (trim_slashes_spec s (length s)) as (Hle & Hlast & _).
  set (n := trim_slashes s (length s)) in *. clearbody n.
  destruct (size =? 0)%nat; [done|]. case_ifs; [done|].
  intros [= <-]. repeat match goal with H : _ || _ = false |- _ =>
    apply orb_false_iff in H as [? ?] end. bool_to_prop.
  repeat match goal with H : bool_decide _ = true |- _ => apply bool_decide_eq_true_1 in H end.
  match goal with H : (n <? 3)%nat = false |- _ => apply Nat.ltb_ge in H end.
  match goal with H : (size <=? n)%nat = false |- _ => apply Nat.leb_gt in H end.
  assert (Hlen : length (take n s) = n) by (rewrite length_take; lia).
  split; [|lia]. split; rewrite ?Hlen, ?char_at_take by lia; try done.
  - intros H'. rewrite char_at_take by lia.
    match goal with H : (3 <? n)%nat && _ = false |- _ =>
      rewrite (proj2 (Nat.ltb_lt _ _) H') in H; simpl in H;
      by apply negb_false_iff, bool_decide_eq_true_1 in H end.
Qed.

Lemma norm_form_normalize p size :
  norm_form p → (length p < size)%nat → normalize_tmpfs_path (Some p) size = Some p.
Proof.
  intros [H1 H2 H3 H4 H5 H6] Hsz. unfold normalize_tmpfs_path.
  destruct (Nat.eqb_spec size 0); [lia|].
  assert (skip_slashes p = p) as ->.
  { destruct p as [|c p]; [done|]. unfold char_at in H2. simpl in H2. simplify_eq. done. }
  unfold local_strlen. rewrite trim_slashes_fix by done.
  rewrite H2, H3, H4, !bool_decide_true by done. simpl.
  rewrite (proj2 (Nat.ltb_ge _ _) H1), (proj2 (Nat.leb_gt _ _) Hsz). simpl.
  destruct (Nat.ltb_spec 3 (length p)); simpl; [|by rewrite firstn_all].
  rewrite H5 by done. rewrite bool_decide_true by done. simpl. by rewrite firstn_all.
Qed.

Lemma normalize_idem path size p :
  normalize_tmpfs_path path size = Some p → normalize_tmpfs_path (Some p) size = Some p.
Proof. intros [??]%normalize_form. by apply norm_form_normalize. Qed.

Lemma is_descendant_spec d p : is_descendant d p = true ↔ ∃ q, p = d ++ SLASH :: q.
Proof.
  revert p. induction d as [|x d IH]; intros p; simpl.
  - case_bool_decide as Hc; split; try done.
    + intros _. destruct p as [|c p]; [done|]. unfold char_at in Hc. simpl in Hc.
      exists p. by subst c.
    + intros [q ->]. by destruct Hc.
  - destruct p as [|c p]; [split; [done|]; by intros [q ?]|].
    case_bool_decide as Hc; simpl.
    + subst c. rewrite IH. split; intros [q Hq]; exists q; simpl in *; congruence.
    + split; [done|]. intros [q Hq]. simpl in Hq. congruence.
Qed.

(** A path lies below its parent. *)
Lemma parent_is_ancestor p size q :
  parent_path_of p size = Some q → is_descendant q p = true ∧ (length q < length p)%nat.
Proof.
  unfold parent_path_of, local_strlen. case_ifs; try done. intros [= <-].
  pose proof (last_slash_le p (length p)) as Hle.
  destruct (last_slash_spec p (length p)) as [[Hz|(m & Hm & Hc)] _].
  - rewrite Hz in *. done.
  - rewrite Hm in *. replace (S m - 1)%nat with m by lia.
    split; [|rewrite length_take; lia].
    apply is_descendant_spec. exists (drop (S m) p).
    rewrite <- (take_drop m p) at 1. f_equal.
    rewrite (drop_S p SLASH m); [done|]. rewrite <- Hc. apply char_at_lookup. lia.
Qed.
