(* ===== verification/TmpfsSpec.v ===== *)
(** * What tmpfs promises: an abstract tree of files, and the refinement

    The abstract file system is a finite map from normalised paths to nodes,
    with room for 64 of them.  [tmpfs_refines] shows that every operation of
    [kernel/tmpfs.c] is the corresponding operation on that map, on success and
    on failure, and preserves the table's invariant. *)

From S2P Require Import Prelude CString VfsNode Tmpfs.

(** ** The table invariant *)

(** The representation of the paths stored in the table. *)
Definition normal_path (p : cstr) : Prop :=
  normalize_tmpfs_path (Some p) TMPFS_PATH_MAX = Some p ∧ p ≠ lit "tmp".

Record entry_ok (e : tmpfs_entry) : Prop := {
  eo_path : normal_path (e_path e);
  eo_type : e_type e = NODE_REGULAR ∨ e_type e = NODE_DIRECTORY;
  eo_size : 0 ≤ e_size e ≤ TMPFS_FILE_CAPACITY
}.

Record tmpfs_wf (st : tmpfs) : Prop := {
  tw_len : length (g_tmpfs_entries st) = TMPFS_MAX_ENTRIES;
  tw_data : ∀ i e, g_tmpfs_entries st !! i = Some e →
    length (e_data e) = Z.to_nat TMPFS_FILE_CAPACITY;
  tw_entry : ∀ i e, g_tmpfs_entries st !! i = Some e → e_in_use e = true → entry_ok e;
  tw_uniq : ∀ i j e f, g_tmpfs_entries st !! i = Some e → g_tmpfs_entries st !! j = Some f →
    e_in_use e = true → e_in_use f = true → e_path e = e_path f → i = j;
  tw_parent : ∀ i e, g_tmpfs_entries st !! i = Some e → e_in_use e = true →
    parent_directory_exists st (e_path e) = true
}.

(** ** The abstract file system *)

Inductive anode :=
| ADir (mode uid gid : Z)
| AFile (mode uid gid : Z) (content : list Z).

Notation afs := (gmap cstr anode).

Definition content_of (e : tmpfs_entry) : list Z := take (Z.to_nat (e_size e)) (e_data e).

Definition anode_of (e : tmpfs_entry) : anode :=
  if is_type e NODE_DIRECTORY then ADir (e_mode e) (e_uid e) (e_gid e)
  else AFile (e_mode e) (e_uid e) (e_gid e) (content_of e).

Definition in_use_pair (e : tmpfs_entry) : option (cstr * anode) :=
  if e_in_use e then Some (e_path e, anode_of e) else None.

Definition abs (st : tmpfs) : afs := list_to_map (omap in_use_pair (g_tmpfs_entries st)).

(** Abstract operations; [None] is failure with the map unchanged. *)
Definition a_parent (fs : afs) (p : cstr) : bool :=
  match parent_path_of p TMPFS_PATH_MAX with
  | None => false
  | Some q => if bool_decide (q = lit "tmp") then true
              else match fs !! q with Some (ADir _ _ _) => true | _ => false end
  end.

Definition a_insert (p : cstr) (n : anode) (fs : afs) : option afs :=
  if (size fs <? TMPFS_MAX_ENTRIES)%nat then Some (<[p := n]> fs) else None.

Inductive tmpfs_op :=
| OpCreate (path : option cstr) (mode uid gid : Z)
| OpMkdir (path : option cstr) (mode uid gid : Z)
| OpResize (path : option cstr) (size : Z)
| OpWrite (path : option cstr) (offset : Z) (bytes : list Z)
| OpUnlink (path : option cstr)
| OpRmdir (path : option cstr)
| OpChmod (path : option cstr) (mode : Z)
| OpChown (path : option cstr) (uid gid : Z).

(** The code: whether it returned success, and the new table. *)
Definition run_op (op : tmpfs_op) (st : tmpfs) : ub (bool * tmpfs) :=
  match op with
  | OpCreate p m u g =>
      let '(r, st') := tmpfs_create_path_mode p m u g PtrValid st in
      Ok (bool_decide (is_Some r), st')
  | OpMkdir p m u g => Ok (tmpfs_mkdir_path_mode p m u g st)
  | OpResize p n => Ok (tmpfs_resize_path p n st)
  | OpWrite p off bytes =>
      match tmpfs_write_path p off (Some bytes) (Z.of_nat (length bytes)) PtrValid st with
      | UB => UB
      | Ok (r, st') => Ok (wr_ok r, st')
      end
  | OpUnlink p => Ok (tmpfs_unlink_path p st)
  | OpRmdir p => Ok (tmpfs_rmdir_path p st)
  | OpChmod p m => Ok (tmpfs_chmod_path p m st)
  | OpChown p u g => Ok (tmpfs_chown_path p u g st)
  end.

(** Overwriting a list at an offset inside it or at its end, up to the capacity. *)
Definition a_splice (old : list Z) (off : nat) (bytes : list Z) : list Z :=
  let w := take (Z.to_nat TMPFS_FILE_CAPACITY - off) bytes in
  take off old ++ w ++ drop (off + length w) old.

Definition a_resize (old : list Z) (n : nat) : list Z :=
  take n old ++ replicate (n - length old) 0.

Definition spec_file (fs : afs) (p : cstr) (f : list Z → list Z) : option afs :=
  match fs !! p with
  | Some (AFile m u g c) => Some (<[p := AFile m u g (f c)]> fs)
  | _ => None
  end.

Definition spec_path (op : tmpfs_op) : option cstr :=
  match op with
  | OpCreate p _ _ _ | OpMkdir p _ _ _ | OpResize p _ | OpWrite p _ _ | OpUnlink p
  | OpRmdir p | OpChmod p _ | OpChown p _ _ => p
  end.

(** The specification of an operation on a normalised path. *)
Definition spec_op (op : tmpfs_op) (p : cstr) (fs : afs) : option afs :=
  match op with
  | OpCreate _ m u g =>
      if bool_decide (p = lit "tmp") || negb (a_parent fs p) then None else
      match fs !! p with
      | Some (AFile _ _ _ _) => Some fs
      | Some (ADir _ _ _) => None
      | None => a_insert p (AFile (m .& MODE_MASK) u g []) fs
      end
  | OpMkdir _ m u g =>
      if bool_decide (p = lit "tmp") || negb (a_parent fs p) then None else
      match fs !! p with
      | Some _ => None
      | None => a_insert p (ADir (m .& MODE_MASK) u g) fs
      end
  | OpResize _ n => if TMPFS_FILE_CAPACITY <? n then None
                    else spec_file fs p (λ c, a_resize c (Z.to_nat n))
  | OpWrite _ off bytes =>
      spec_file fs p (λ c, if TMPFS_FILE_CAPACITY <=? off then c
                           else a_splice c (Z.to_nat off) bytes)
  | OpUnlink _ =>
      match fs !! p with Some (AFile _ _ _ _) => Some (delete p fs) | _ => None end
  | OpRmdir _ =>
      match fs !! p with
      | Some (ADir _ _ _) =>
          if bool_decide (map_Exists (λ q _, is_descendant p q = true) fs) then None
          else Some (delete p fs)
      | _ => None
      end
  | OpChmod _ m =>
      match fs !! p with
      | Some (ADir _ u g) => Some (<[p := ADir (m .& MODE_MASK) u g]> fs)
      | Some (AFile _ u g c) => Some (<[p := AFile (m .& MODE_MASK) u g c]> fs)
      | None => None
      end
  | OpChown _ u g =>
      match fs !! p with
      | Some (ADir m _ _) => Some (<[p := ADir m u g]> fs)
      | Some (AFile m _ _ c) => Some (<[p := AFile m u g c]> fs)
      | None => None
      end
  end.

Definition spec_run (op : tmpfs_op) (fs : afs) : bool * afs :=
  match normalize_tmpfs_path (spec_path op) TMPFS_PATH_MAX with
  | None => (false, fs)
  | Some p => match spec_op op p fs with Some fs' => (true, fs') | None => (false, fs) end
  end.

(** Arguments the refinement covers: sizes and offsets are unsigned, a write does
    not leave a hole after the end of the file, and its end fits 64 bits. *)
Definition op_ok (op : tmpfs_op) (fs : afs) : Prop :=
  match op with
  | OpResize _ n => 0 ≤ n
  | OpWrite path off bytes =>
      0 ≤ off ∧ off + Z.of_nat (length bytes) < 2 ^ 64 ∧
      ∀ p m u g c, normalize_tmpfs_path path TMPFS_PATH_MAX = Some p →
        fs !! p = Some (AFile m u g c) → off ≤ Z.of_nat (length c) ∨ TMPFS_FILE_CAPACITY ≤ off
  | _ => True
  end.

(** ** The table and the map *)

Definition uniq (st : tmpfs) : Prop :=
  ∀ i j e f, g_tmpfs_entries st !! i = Some e → g_tmpfs_entries st !! j = Some f →
    e_in_use e = true → e_in_use f = true → e_path e = e_path f → i = j.

Definition closed (fs : afs) : Prop := ∀ p n, fs !! p = Some n → a_parent fs p = true.

Lemma find_entry_Some st p i :
  find_entry st p = Some i →
  ∃ e, g_tmpfs_entries st !! i = Some e ∧ e_in_use e = true ∧ e_path e = p ∧ entry_at st i = e.
Proof.
  unfold find_entry. intros (e & Hl & Hf & _)%find_idx_Some.
  apply andb_true_iff in Hf as [Hu Hp%path_equals_spec].
  exists e. split_and!; try done. unfold entry_at. by rewrite Hl.
Qed.

Lemma find_entry_None st p i e :
  find_entry st p = None → g_tmpfs_entries st !! i = Some e → e_in_use e = true → e_path e ≠ p.
Proof.
  unfold find_entry. rewrite find_idx_None. intros Hnone Hl Hu Hp.
  specialize (Hnone i e Hl). rewrite Hu, Hp, path_equals_refl in Hnone. done.
Qed.

Lemma abs_lookup_Some st p n :
  uniq st →
  abs st !! p = Some n ↔
  ∃ i e, g_tmpfs_entries st !! i = Some e ∧ e_in_use e = true ∧ e_path e = p ∧ anode_of e = n.
Proof.
  intros Hu. unfold abs. rewrite <- elem_of_list_to_map.
  - rewrite list_elem_of_omap. setoid_rewrite list_elem_of_lookup. unfold in_use_pair. split.
    + intros (e & [i Hi] & He). exists i, e. destruct (e_in_use e); naive_solver.
    + intros (i & e & Hi & Hin & <- & <-). exists e. rewrite Hin. eauto.
  - rewrite list_fmap_omap. apply NoDup_omap_lookup. unfold in_use_pair.
    intros i j e f p' Hi Hj He Hf.
    destruct (e_in_use e) eqn:E1, (e_in_use f) eqn:E2; simplify_eq/=.
    by apply (Hu i j e f).
Qed.

Lemma abs_lookup_find st p :
  uniq st → abs st !! p = anode_of ∘ entry_at st <$> find_entry st p.
Proof.
  intros Hu. destruct (find_entry st p) as [i|] eqn:Hf; simpl.
  - apply find_entry_Some in Hf as (e & Hi & Hin & Hp & Hat).
    apply abs_lookup_Some; [done|]. exists i, e. rewrite Hat. done.
  - apply eq_None_not_Some. intros [n (i & e & Hi & Hin & Hp & _)%abs_lookup_Some]; [|done].
    by eapply find_entry_None.
Qed.

Lemma anode_of_dir e : is_type e NODE_DIRECTORY = true ↔ ∃ m u g, anode_of e = ADir m u g.
Proof. unfold anode_of. destruct (is_type e NODE_DIRECTORY); naive_solver. Qed.

Lemma parent_abs st p : uniq st → parent_directory_exists st p = a_parent (abs st) p.
Proof.
  intros Hu. unfold parent_directory_exists, a_parent.
  destruct (parent_path_of p TMPFS_PATH_MAX) as [q|]; [|done].
  rewrite path_equals_decide. case_bool_decide; [done|].
  rewrite abs_lookup_find by done. destruct (find_entry st q) as [i|]; [|done].
  simpl. unfold anode_of. by destruct (is_type _ NODE_DIRECTORY).
Qed.

Lemma wf_uniq st : tmpfs_wf st → uniq st.
Proof. intros Hwf. exact (tw_uniq _ Hwf). Qed.

Lemma wf_closed st : tmpfs_wf st → closed (abs st).
Proof.
  intros Hwf p n (i & e & Hi & Hin & <- & _)%abs_lookup_Some; [|by apply wf_uniq].
  rewrite <- parent_abs by by apply wf_uniq. by eapply (tw_parent _ Hwf).
Qed.

(** Replacing one slot. *)
Lemma uniq_put st i e :
  uniq st →
  (e_in_use e = true → ∀ j f, j ≠ i → g_tmpfs_entries st !! j = Some f → e_in_use f = true →
     e_path f ≠ e_path e) →
  uniq (put_entry i e st).
Proof.
  intros Hu Hne j k f g Hj Hk Hf Hg Hp. simpl in Hj, Hk.
  destruct (decide (j = i)) as [->|Hji], (decide (k = i)) as [->|Hki]; [done|..].
  - rewrite list_lookup_insert_ne in Hk by done.
    pose proof (lookup_lt_Some _ _ _ Hj) as Hlt. rewrite length_insert in Hlt.
    rewrite list_lookup_insert_eq in Hj by done. simplify_eq. by edestruct Hne.
  - rewrite list_lookup_insert_ne in Hj by done.
    pose proof (lookup_lt_Some _ _ _ Hk) as Hlt. rewrite length_insert in Hlt.
    rewrite list_lookup_insert_eq in Hk by done. simplify_eq. by edestruct Hne.
  - rewrite list_lookup_insert_ne in Hj, Hk by done. by apply (Hu j k f g).
Qed.

Lemma abs_put st i e0 e :
  uniq st → uniq (put_entry i e st) → g_tmpfs_entries st !! i = Some e0 →
  e_in_use e = true →
  (e_in_use e0 = true → e_path e0 = e_path e) →
  abs (put_entry i e st) = <[e_path e := anode_of e]> (abs st).
Proof.
  intros Hu Hu' Hi Hin Hold. pose proof (lookup_lt_Some _ _ _ Hi) as Hlt.
  apply map_eq. intros p. apply option_eq. intros n.
  rewrite abs_lookup_Some by done. rewrite lookup_insert_Some, abs_lookup_Some by done.
  simpl. split.
  - intros (j & f & Hj & Hf & <- & <-). destruct (decide (j = i)) as [->|Hne].
    + rewrite list_lookup_insert_eq in Hj by done. simplify_eq. by left.
    + pose proof Hj as Hj'. rewrite list_lookup_insert_ne in Hj by done. right. split; [|eauto 8].
      intros Hp. apply Hne. apply (Hu' j i f e); simpl; [done| |done..].
      by apply list_lookup_insert_eq.
  - intros [[<- <-]|(Hne & j & f & Hj & Hf & <- & <-)].
    + exists i, e. split_and!; try done. by apply list_lookup_insert_eq.
    + exists j, f. split_and!; try done. rewrite list_lookup_insert_ne; [done|].
      intros ->. simplify_eq. naive_solver.
Qed.

Lemma abs_clear st i e0 :
  uniq st → g_tmpfs_entries st !! i = Some e0 → e_in_use e0 = true →
  abs (put_entry i zero_entry st) = delete (e_path e0) (abs st).
Proof.
  intros Hu Hi Hin. pose proof (lookup_lt_Some _ _ _ Hi) as Hlt.
  apply map_eq. intros p. apply option_eq. intros n.
  rewrite abs_lookup_Some by (apply uniq_put; [done|by intros]).
  rewrite lookup_delete_Some, abs_lookup_Some by done. simpl. split.
  - intros (j & f & Hj & Hf & <- & <-). destruct (decide (j = i)) as [->|Hne].
    + rewrite list_lookup_insert_eq in Hj by done. by simplify_eq.
    + rewrite list_lookup_insert_ne in Hj by done. split; [|eauto 8].
      intros Hp. apply Hne. symmetry. by apply (Hu i j e0 f).
  - intros (Hne & j & f & Hj & Hf & <- & <-). exists j, f. split_and!; try done.
    rewrite list_lookup_insert_ne; [done|]. intros ->. by simplify_eq.
Qed.

(** ** The abstract operations keep the tree closed *)

Lemma closed_insert fs p n :
  closed fs → a_parent fs p = true →
  (∀ m u g, fs !! p = Some (ADir m u g) → ∃ m' u' g', n = ADir m' u' g') →
  closed (<[p := n]> fs).
Proof.
  intros Hc Hp Hdir q k Hq.
  assert (Hpq : a_parent fs q = true).
  { apply lookup_insert_Some in Hq as [[<- _]|[_ Hq]]; [done|by eapply Hc]. }
  revert Hpq. unfold a_parent. destruct (parent_path_of q _) as [r|]; [|done].
  case_bool_decide; [done|]. destruct (decide (p = r)) as [->|Hne].
  - rewrite lookup_insert_eq. destruct (fs !! r) as [[]|] eqn:Hr; try done.
    by destruct (Hdir _ _ _ eq_refl) as (? & ? & ? & ->).
  - by rewrite lookup_insert_ne.
Qed.

Lemma closed_delete fs p :
  closed fs →
  (∀ q n, fs !! q = Some n → q ≠ p → parent_path_of q TMPFS_PATH_MAX = Some p →
     ∀ m u g, fs !! p ≠ Some (ADir m u g)) →
  closed (delete p fs).
Proof.
  intros Hc Hno q k [Hne Hq]%lookup_delete_Some.
  pose proof (Hc q k Hq) as Hpq. revert Hpq. unfold a_parent.
  destruct (parent_path_of q _) as [r|] eqn:Hr; [|done]. case_bool_decide; [done|].
  destruct (decide (p = r)) as [->|Hpr]; [|by rewrite lookup_delete_ne].
  destruct (fs !! r) as [[m u g|]|] eqn:Hfr; try done.
  destruct (Hno q k Hq ltac:(done) Hr m u g). done.
Qed.

(** ** One-slot updates preserve the invariant *)

Lemma wf_put st i e :
  tmpfs_wf st → length (e_data e) = Z.to_nat TMPFS_FILE_CAPACITY →
  (e_in_use e = true → entry_ok e) →
  uniq (put_entry i e st) → closed (abs (put_entry i e st)) →
  tmpfs_wf (put_entry i e st).
Proof.
  intros Hwf Hd Hok Hu Hc. split.
  - simpl. rewrite length_insert. apply (tw_len _ Hwf).
  - intros j f [(-> & -> & _)|[_ Hj]]%list_lookup_insert_Some; [done|].
    by eapply (tw_data _ Hwf).
  - intros j f [(-> & -> & _)|[_ Hj]]%list_lookup_insert_Some; [done|].
    by eapply (tw_entry _ Hwf).
  - exact Hu.
  - intros j f Hj Hf. rewrite parent_abs by done. eapply Hc.
    apply abs_lookup_Some; [done|]. eauto 8.
Qed.

Lemma wf_update st i e0 e :
  tmpfs_wf st → g_tmpfs_entries st !! i = Some e0 → e_in_use e0 = true →
  e_in_use e = true → e_path e = e_path e0 → e_type e = e_type e0 →
  0 ≤ e_size e ≤ TMPFS_FILE_CAPACITY →
  length (e_data e) = Z.to_nat TMPFS_FILE_CAPACITY →
  tmpfs_wf (put_entry i e st) ∧ abs (put_entry i e st) = <[e_path e := anode_of e]> (abs st).
Proof.
  intros Hwf Hi Hin0 Hin Hp Ht Hs Hd. pose proof (wf_uniq _ Hwf) as Hu.
  assert (Hu' : uniq (put_entry i e st)).
  { apply uniq_put; [done|]. intros _ j f Hne Hj Hf Heq. apply Hne.
    apply (Hu j i f e0); congruence. }
  assert (Habs : abs (put_entry i e st) = <[e_path e := anode_of e]> (abs st))
    by (by eapply abs_put).
  assert (Hold : abs st !! e_path e = Some (anode_of e0)).
  { apply abs_lookup_Some; [done|]. eauto 8. }
  split; [|done]. destruct (tw_entry _ Hwf i e0 Hi Hin0) as [H1 H2 H3].
  apply wf_put; try done.
  - intros _. split; [by rewrite Hp|by rewrite Ht|done].
  - rewrite Habs. apply closed_insert; [by apply wf_closed|by eapply wf_closed|].
    rewrite Hold. intros m u g [= Hn]. apply anode_of_dir. unfold is_type.
    rewrite Ht. apply (anode_of_dir e0). eauto.
Qed.

Lemma wf_remove st i e0 :
  tmpfs_wf st → g_tmpfs_entries st !! i = Some e0 → e_in_use e0 = true →
  closed (delete (e_path e0) (abs st)) →
  tmpfs_wf (put_entry i zero_entry st) ∧
  abs (put_entry i zero_entry st) = delete (e_path e0) (abs st).
Proof.
  intros Hwf Hi Hin Hc. pose proof (wf_uniq _ Hwf) as Hu.
  assert (Habs := abs_clear st i e0 Hu Hi Hin). split; [|done].
  apply wf_put; try done.
  - by apply uniq_put.
  - by rewrite Habs.
Qed.

Lemma size_abs st :
  uniq st → size (abs st) = length (omap in_use_pair (g_tmpfs_entries st)).
Proof.
  intros Hu. unfold abs. rewrite <- length_map_to_list.
  apply Permutation_length, map_to_list_to_map.
  rewrite list_fmap_omap. apply NoDup_omap_lookup. unfold in_use_pair.
  intros i j e f p' Hi Hj He Hf.
  destruct (e_in_use e) eqn:E1, (e_in_use f) eqn:E2; simplify_eq/=.
  by apply (Hu i j e f).
Qed.

(** [allocate_entry] fails exactly when the abstract map is full. *)
Lemma allocate_abs st p t m u g :
  tmpfs_wf st → normal_path p → abs st !! p = None → a_parent (abs st) p = true →
  t = NODE_REGULAR ∨ t = NODE_DIRECTORY →
  match allocate_entry st p t m u g with
  | None => ¬ (size (abs st) < TMPFS_MAX_ENTRIES)%nat
  | Some (i, st') =>
      (size (abs st) < TMPFS_MAX_ENTRIES)%nat ∧ tmpfs_wf st' ∧
      abs st' = <[p := if bool_decide (t = NODE_DIRECTORY) then ADir (m .& MODE_MASK) u g
                       else AFile (m .& MODE_MASK) u g []]> (abs st)
  end.
Proof.
  intros Hwf [Hnp Htmp] Hnone Hpar Ht. pose proof (wf_uniq _ Hwf) as Hu.
  unfold allocate_entry. destruct (find_idx _ _) as [i|] eqn:Hfi.
  - apply find_idx_Some in Hfi as (e0 & Hi & Hfree%negb_true_iff & _).
    destruct (normalize_form _ _ _ Hnp) as [_ Hlen].
    rewrite copy_string_id by done.
    set (e := TmpfsEntry true t _ u g 0 _ p _).
    set (st1 := Tmpfs _ _).
    assert (Hsame : g_tmpfs_entries st1 = g_tmpfs_entries (put_entry i e st)) by done.
    assert (Hu' : uniq (put_entry i e st)).
    { apply uniq_put; [done|]. intros _ j f _ Hj Hf Hp.
      assert (abs st !! p = Some (anode_of f)); [|congruence].
      apply abs_lookup_Some; [done|]. eauto 8. }
    assert (Habs : abs (put_entry i e st) = <[p := anode_of e]> (abs st)).
    { apply (abs_put st i e0 e); try done. by rewrite Hfree. }
    assert (Hwf' : tmpfs_wf (put_entry i e st)).
    { apply wf_put; [done|done| |done|].
      - intros _. split; [split; done|done|simpl; unfold TMPFS_FILE_CAPACITY; lia].
      - rewrite Habs. apply closed_insert; [by apply wf_closed|done|]. by rewrite Hnone. }
    split_and!.
    + rewrite size_abs, <- (tw_len _ Hwf) by done.
      apply (length_omap_partial _ _ e0); [by eapply list_elem_of_lookup_2|].
      unfold in_use_pair. by rewrite Hfree.
    + destruct Hwf' as [H1 H2 H3 H4 H5]. by split.
    + change (abs st1) with (abs (put_entry i e st)). rewrite Habs. f_equal.
  - rewrite find_idx_None in Hfi. rewrite size_abs, <- (tw_len _ Hwf) by done.
    rewrite length_omap_full; [lia|]. intros e [i Hi]%list_elem_of_lookup.
    unfold in_use_pair. apply Hfi, negb_false_iff in Hi. by rewrite Hi.
Qed.

(** ** Contents *)

Lemma content_blit data size off bytes :
  length data = Z.to_nat TMPFS_FILE_CAPACITY →
  0 ≤ off ≤ size → size ≤ TMPFS_FILE_CAPACITY → off < TMPFS_FILE_CAPACITY →
  let w := take (Z.to_nat TMPFS_FILE_CAPACITY - Z.to_nat off) bytes in
  let end_ := off + Z.of_nat (length w) in
  take (Z.to_nat (Z.max size end_)) (blit data (Z.to_nat off) w) =
  a_splice (take (Z.to_nat size) data) (Z.to_nat off) bytes ∧
  end_ ≤ TMPFS_FILE_CAPACITY ∧
  length (blit data (Z.to_nat off) w) = length data.
Proof.
  intros Hd Hoff Hsz Hcap w end_. unfold a_splice, blit. fold w.
  assert (Hw : (length w ≤ Z.to_nat TMPFS_FILE_CAPACITY - Z.to_nat off)%nat)
    by (unfold w; rewrite length_take; lia).
  assert (He : end_ = off + Z.of_nat (length w)) by done. clearbody end_. clearbody w.
  unfold TMPFS_FILE_CAPACITY in *.
  split_and!; [|lia|rewrite !length_app, length_take, length_drop; lia].
  rewrite take_take, (Nat.min_l (Z.to_nat off)) by lia.
  rewrite take_app_ge by (rewrite length_take; lia).
  rewrite length_take, (Nat.min_l (Z.to_nat off)) by lia. f_equal.
  rewrite take_app_ge by lia. f_equal.
  destruct (decide (end_ ≤ size)).
  - rewrite Z.max_l by lia. rewrite take_drop_commute. f_equal. f_equal. lia.
  - rewrite Z.max_r by lia.
    replace (Z.to_nat end_ - Z.to_nat off - length w)%nat with 0%nat by lia.
    rewrite take_0. symmetry. apply drop_ge. rewrite length_take. lia.
Qed.

Lemma content_zero_data data size n :
  length data = Z.to_nat TMPFS_FILE_CAPACITY → 0 ≤ size < n → n ≤ TMPFS_FILE_CAPACITY →
  let data' := zero_data data (Z.to_nat size) (Z.to_nat (n - size)) in
  take (Z.to_nat n) data' = a_resize (take (Z.to_nat size) data) (Z.to_nat n) ∧
  length data' = length data.
Proof.
  intros Hd Hs Hn data'. unfold data', zero_data, a_resize. unfold TMPFS_FILE_CAPACITY in *.
  split; [|rewrite !length_app, length_take, length_replicate, length_drop; lia].
  rewrite take_app_ge by (rewrite length_take; lia).
  rewrite length_take, (Nat.min_l (Z.to_nat size)) by lia.
  rewrite take_take, Nat.min_r by lia. f_equal.
  rewrite take_app_le by (rewrite length_replicate; lia).
  rewrite take_replicate. f_equal. lia.
Qed.

(** ** Operation by operation *)

Definition refines (op : tmpfs_op) (st : tmpfs) : Prop :=
  ∃ b st', run_op op st = Ok (b, st') ∧ tmpfs_wf st' ∧ spec_run op (abs st) = (b, abs st').

(** What the code learns from a successful [find_entry]. *)
Lemma find_entry_wf st p i :
  tmpfs_wf st → find_entry st p = Some i →
  ∃ e, g_tmpfs_entries st !! i = Some e ∧ entry_at st i = e ∧ e_in_use e = true ∧
    e_path e = p ∧ entry_ok e ∧ length (e_data e) = Z.to_nat TMPFS_FILE_CAPACITY ∧
    abs st !! p = Some (anode_of e).
Proof.
  intros Hwf Hf. pose proof (wf_uniq _ Hwf) as Hu.
  pose proof (abs_lookup_find st p Hu) as Habs. rewrite Hf in Habs. simpl in Habs.
  apply find_entry_Some in Hf as (e & Hi & Hin & Hp & Hat). rewrite Hat in Habs.
  exists e. split_and!; try done; [by eapply (tw_entry _ Hwf)|by eapply (tw_data _ Hwf)].
Qed.

Lemma find_entry_abs_None st p :
  tmpfs_wf st → find_entry st p = None → abs st !! p = None.
Proof. intros Hwf Hf. rewrite abs_lookup_find by by apply wf_uniq. by rewrite Hf. Qed.

Lemma anode_of_regular e :
  entry_ok e → is_type e NODE_REGULAR = true →
  anode_of e = AFile (e_mode e) (e_uid e) (e_gid e) (content_of e).
Proof.
  intros _ Ht%bool_decide_eq_true_1. unfold anode_of, is_type. rewrite Ht. done.
Qed.

Lemma anode_of_not_regular e :
  entry_ok e → is_type e NODE_REGULAR = false →
  anode_of e = ADir (e_mode e) (e_uid e) (e_gid e) ∧ is_type e NODE_DIRECTORY = true.
Proof.
  intros [_ [Ht|Ht] _]; unfold anode_of, is_type; rewrite Ht; done.
Qed.

Lemma length_content e :
  entry_ok e → length (e_data e) = Z.to_nat TMPFS_FILE_CAPACITY →
  Z.of_nat (length (content_of e)) = e_size e.
Proof.
  intros [_ _ Hs] Hd. unfold content_of, TMPFS_FILE_CAPACITY in *. rewrite length_take. lia.
Qed.

Lemma refines_create st path m u g : tmpfs_wf st → refines (OpCreate path m u g) st.
Proof.
  intros Hwf. pose proof (wf_uniq _ Hwf) as Hu.
  unfold refines, run_op, spec_run, tmpfs_create_path_mode, spec_op, spec_path. simpl.
  destruct (normalize_tmpfs_path path _) as [p|] eqn:Hn; [|by eexists _, _].
  rewrite path_equals_decide, parent_abs by done.
  destruct (bool_decide (p = lit "tmp")) eqn:Htmp; simpl; [by eexists _, _|].
  destruct (a_parent (abs st) p) eqn:Hpar; simpl; [|by eexists _, _].
  destruct (find_entry st p) as [i|] eqn:Hf.
  - destruct (find_entry_wf st p i Hwf Hf) as (e & Hi & -> & Hin & Hp & Hok & Hd & Habs).
    rewrite Habs. destruct (is_type e NODE_REGULAR) eqn:Ht; simpl.
    + rewrite anode_of_regular by done. by eexists _, _.
    + destruct (anode_of_not_regular e) as [-> _]; [done..|]. by eexists _, _.
  - pose proof (find_entry_abs_None st p Hwf Hf) as Hnone. rewrite Hnone.
    apply bool_decide_eq_false_1 in Htmp. apply normalize_idem in Hn.
    pose proof (allocate_abs st p NODE_REGULAR m u g Hwf (conj Hn Htmp) Hnone Hpar
      ltac:(by left)) as Hal. unfold a_insert.
    destruct (allocate_entry _ _ _ _ _ _) as [[i st']|].
    + destruct Hal as (Hsz & Hwf' & Habs). rewrite (proj2 (Nat.ltb_lt _ _) Hsz).
      eexists _, _. split_and!; [done|done|by rewrite Habs].
    + destruct (Nat.ltb_spec (size (abs st)) TMPFS_MAX_ENTRIES); [done|]. by eexists _, _.
Qed.

Lemma refines_mkdir st path m u g : tmpfs_wf st → refines (OpMkdir path m u g) st.
Proof.
  intros Hwf. pose proof (wf_uniq _ Hwf) as Hu.
  unfold refines, run_op, spec_run, tmpfs_mkdir_path_mode, spec_op, spec_path.
  destruct (normalize_tmpfs_path path _) as [p|] eqn:Hn; [|by eexists _, _].
  rewrite path_equals_decide, parent_abs by done.
  destruct (bool_decide (p = lit "tmp")) eqn:Htmp; simpl; [by eexists _, _|].
  destruct (find_entry st p) as [i|] eqn:Hf.
  - destruct (find_entry_wf st p i Hwf Hf) as (e & _ & _ & _ & _ & _ & _ & ->).
    rewrite bool_decide_true by done. simpl. destruct (a_parent (abs st) p); by eexists _, _.
  - rewrite (find_entry_abs_None st p Hwf Hf), bool_decide_false by (by intros []).
    destruct (a_parent (abs st) p) eqn:Hpar; simpl; [|by eexists _, _].
    apply bool_decide_eq_false_1 in Htmp. apply normalize_idem in Hn.
    pose proof (allocate_abs st p NODE_DIRECTORY m u g Hwf (conj Hn Htmp)
      (find_entry_abs_None st p Hwf Hf) Hpar ltac:(by right)) as Hal. unfold a_insert.
    destruct (allocate_entry _ _ _ _ _ _) as [[i st']|].
    + destruct Hal as (Hsz & Hwf' & Habs). rewrite (proj2 (Nat.ltb_lt _ _) Hsz).
      eexists _, _. split_and!; [done|done|by rewrite Habs].
    + destruct (Nat.ltb_spec (size (abs st)) TMPFS_MAX_ENTRIES); [done|]. by eexists _, _.
Qed.

Lemma refines_resize st path n : tmpfs_wf st → 0 ≤ n → refines (OpResize path n) st.
Proof.
  intros Hwf Hn0. unfold refines, run_op, spec_run, tmpfs_resize_path, spec_op, spec_path.
  destruct (TMPFS_FILE_CAPACITY <? n) eqn:Hcap; bool_to_prop.
  { destruct (normalize_tmpfs_path path _); by eexists _, _. }
  destruct (normalize_tmpfs_path path _) as [p|] eqn:Hn; [|by eexists _, _].
  unfold spec_file. destruct (find_entry st p) as [i|] eqn:Hf;
    [|rewrite (find_entry_abs_None st p Hwf Hf); by eexists _, _].
  destruct (find_entry_wf st p i Hwf Hf) as (e & Hi & -> & Hin & Hp & Hok & Hd & ->).
  destruct (is_type e NODE_REGULAR) eqn:Ht; simpl;
    [|destruct (anode_of_not_regular e) as [-> _]; [done..|]; by eexists _, _].
  rewrite anode_of_regular by done. pose proof (eo_size _ Hok) as Hsz.
  set (e1 := if e_size e <? n then _ else e).
  assert (He1 : length (e_data e1) = length (e_data e) ∧
    take (Z.to_nat n) (e_data e1) = a_resize (content_of e) (Z.to_nat n)).
  { unfold e1. destruct (e_size e <? n) eqn:E; bool_to_prop; simpl.
    - destruct (content_zero_data (e_data e) (e_size e) n Hd ltac:(lia) ltac:(lia)). done.
    - split; [done|]. pose proof (length_content e Hok Hd). unfold a_resize.
      replace (_ - _)%nat with 0%nat by lia. rewrite app_nil_r. unfold content_of.
      rewrite take_take. f_equal. lia. }
  assert (Hsame : e_in_use e1 = e_in_use e ∧ e_path e1 = e_path e ∧ e_type e1 = e_type e ∧
    e_mode e1 = e_mode e ∧ e_uid e1 = e_uid e ∧ e_gid e1 = e_gid e)
    by (unfold e1; by case_ifs).
  destruct Hsame as (S1 & S2 & S3 & S4 & S5 & S6), He1 as [L1 L2]. clearbody e1.
  destruct (wf_update st i e (with_size n e1) Hwf Hi Hin) as [Hwf' Habs];
    simpl; try congruence; [lia|].
  eexists _, _. split_and!; [done|done|]. simpl. rewrite Habs. simpl.
  rewrite S2, Hp. do 3 f_equal. unfold anode_of, is_type, content_of. simpl.
  apply bool_decide_eq_true_1 in Ht. rewrite S3, S4, S5, S6, Ht. by rewrite L2.
Qed.

Lemma refines_write st path off bytes :
  tmpfs_wf st → op_ok (OpWrite path off bytes) (abs st) → refines (OpWrite path off bytes) st.
Proof.
  intros Hwf (Hoff & Hov & Hhole).
  unfold refines, run_op, spec_run, tmpfs_write_path, spec_op, spec_path, spec_file. simpl.
  destruct (normalize_tmpfs_path path _) as [p|] eqn:Hn; [|by eexists _, _].
  destruct (find_entry st p) as [i|] eqn:Hf;
    [|rewrite (find_entry_abs_None st p Hwf Hf); by eexists _, _].
  destruct (find_entry_wf st p i Hwf Hf) as (e & Hi & -> & Hin & Hp & Hok & Hd & Habs0).
  rewrite Habs0. destruct (is_type e NODE_REGULAR) eqn:Ht; simpl;
    [|destruct (anode_of_not_regular e) as [-> _]; [done..|]; by eexists _, _].
  rewrite anode_of_regular in * by done. pose proof (eo_size _ Hok) as Hsz.
  destruct (TMPFS_FILE_CAPACITY <=? off) eqn:Hcap; bool_to_prop.
  { rewrite insert_id by done. by eexists _, _. }
  specialize (Hhole p _ _ _ _ eq_refl Habs0). rewrite (length_content e Hok Hd) in Hhole.
  destruct (content_blit (e_data e) (e_size e) off bytes Hd ltac:(lia) ltac:(lia) ltac:(lia))
    as (Hc & Hend & Hlen).
  rewrite (u64_small (off + Z.of_nat (length bytes))) by lia.
  set (tw := if _ <? off + Z.of_nat (length bytes) then _ else _).
  set (w := take (Z.to_nat TMPFS_FILE_CAPACITY - Z.to_nat off) bytes) in *.
  assert (Htw : take (Z.to_nat tw) bytes = w ∧ tw = Z.of_nat (length w)).
  { unfold tw, w. destruct (_ <? _) eqn:E; bool_to_prop; rewrite length_take.
    - split; [f_equal; lia|lia].
    - split; [rewrite !take_ge by lia; done|lia]. }
  destruct Htw as [-> Htw]. rewrite Htw. clear Htw. clearbody tw.
  destruct (TMPFS_FILE_CAPACITY <? off + Z.of_nat (length w)) eqn:E; bool_to_prop; [lia|].
  destruct (Z.of_nat (length bytes) <? Z.of_nat (length w)) eqn:E'; bool_to_prop.
  { unfold w in E'. rewrite length_take in E'. lia. }
  unfold TMPFS_FILE_CAPACITY in *.
  rewrite (u64_small (off + Z.of_nat (length w))), (u32_small (off + Z.of_nat (length w))) by lia.
  assert ((if e_size e <? off + Z.of_nat (length w) then off + Z.of_nat (length w) else e_size e)
    = Z.max (e_size e) (off + Z.of_nat (length w))) as ->
    by (destruct (_ <? _) eqn:E''; bool_to_prop; lia).
  destruct (wf_update st i e
    (with_size (Z.max (e_size e) (off + Z.of_nat (length w)))
       (with_data (blit (e_data e) (Z.to_nat off) w) e)) Hwf Hi Hin) as [Hwf' Habs];
    simpl; try congruence; [unfold TMPFS_FILE_CAPACITY; lia|unfold TMPFS_FILE_CAPACITY; congruence|].
  eexists _, _. split_and!; [done|done|]. simpl. rewrite Habs. simpl. rewrite Hp.
  do 3 f_equal. unfold anode_of, is_type. simpl.
  apply bool_decide_eq_true_1 in Ht. rewrite Ht. simpl. unfold content_of at 2. simpl.
  by rewrite Hc.
Qed.

Lemma refines_unlink st path : tmpfs_wf st → refines (OpUnlink path) st.
Proof.
  intros Hwf. unfold refines, run_op, spec_run, tmpfs_unlink_path, spec_op, spec_path.
  destruct (normalize_tmpfs_path path _) as [p|] eqn:Hn; [|by eexists _, _].
  destruct (find_entry st p) as [i|] eqn:Hf;
    [|rewrite (find_entry_abs_None st p Hwf Hf); by eexists _, _].
  destruct (find_entry_wf st p i Hwf Hf) as (e & Hi & -> & Hin & Hp & Hok & Hd & Habs).
  rewrite Habs. destruct (is_type e NODE_REGULAR) eqn:Ht; simpl;
    [|destruct (anode_of_not_regular e) as [-> _]; [done..|]; by eexists _, _].
  rewrite anode_of_regular in * by done.
  destruct (wf_remove st i e Hwf Hi Hin) as [Hwf' Habs'].
  { apply closed_delete; [by apply wf_closed|]. rewrite Hp, Habs. done. }
  eexists _, _. split_and!; [done|done|]. by rewrite Habs', Hp.
Qed.

Lemma refines_rmdir st path : tmpfs_wf st → refines (OpRmdir path) st.
Proof.
  intros Hwf. unfold refines, run_op, spec_run, tmpfs_rmdir_path, spec_op, spec_path.
  destruct (normalize_tmpfs_path path _) as [p|] eqn:Hn; [|by eexists _, _].
  destruct (find_entry st p) as [i|] eqn:Hf.
  2:{ rewrite (find_entry_abs_None st p Hwf Hf).
      destruct (path_equals p (lit "tmp")); by eexists _, _. }
  destruct (find_entry_wf st p i Hwf Hf) as (e & Hi & -> & Hin & Hp & Hok & Hd & Habs).
  assert (path_equals p (lit "tmp") = false) as ->.
  { rewrite path_equals_decide. apply bool_decide_eq_false_2. subst p. apply (eo_path _ Hok). }
  rewrite Habs. destruct (is_type e NODE_DIRECTORY) eqn:Ht; simpl.
  2:{ unfold anode_of. rewrite Ht. by eexists _, _. }
  assert (Hex : existsb (λ e, e_in_use e && is_descendant p (e_path e)) (g_tmpfs_entries st) =
    bool_decide (map_Exists (λ q _, is_descendant p q = true) (abs st))).
  { apply eq_true_iff_eq. rewrite existsb_exists, bool_decide_eq_true. unfold map_Exists.
    setoid_rewrite <- list_elem_of_In. setoid_rewrite list_elem_of_lookup. split.
    - intros (f & [j Hj] & [Hfu Hfd]%andb_true_iff). exists (e_path f), (anode_of f).
      split; [|done]. apply abs_lookup_Some; [by apply wf_uniq|]. eauto 8.
    - intros (q & n & (j & f & Hj & Hfu & <- & _)%abs_lookup_Some & Hq); [|by apply wf_uniq].
      exists f. rewrite Hfu. eauto. }
  rewrite Hex. destruct (anode_of e) as [m u g|] eqn:Ha;
    [|unfold anode_of in Ha; rewrite Ht in Ha; done].
  case_bool_decide as Hd'; [by eexists _, _|].
  destruct (wf_remove st i e Hwf Hi Hin) as [Hwf' Habs'].
  { apply closed_delete; [by apply wf_closed|]. rewrite Hp. intros q n Hq Hne Hpar.
    destruct Hd'. exists q, n. split; [done|].
    by apply parent_is_ancestor in Hpar as [? _]. }
  eexists _, _. split_and!; [done|done|]. by rewrite Habs', Hp.
Qed.

Lemma refines_chmod st path m : tmpfs_wf st → refines (OpChmod path m) st.
Proof.
  intros Hwf. unfold refines, run_op, spec_run, tmpfs_chmod_path, spec_op, spec_path.
  destruct (normalize_tmpfs_path path _) as [p|] eqn:Hn; [|by eexists _, _].
  destruct (find_entry st p) as [i|] eqn:Hf;
    [|rewrite (find_entry_abs_None st p Hwf Hf); by eexists _, _].
  destruct (find_entry_wf st p i Hwf Hf) as (e & Hi & -> & Hin & Hp & Hok & Hd & Habs).
  destruct (wf_update st i e (with_mode (m .& MODE_MASK) e) Hwf Hi Hin) as [Hwf' Habs'];
    simpl; try done; [by apply Hok|].
  rewrite Habs. eexists _, _. split_and!; [done|done|]. simpl in *. rewrite Habs', Hp.
  unfold anode_of, is_type, content_of. simpl. by case_bool_decide.
Qed.

Lemma refines_chown st path u g : tmpfs_wf st → refines (OpChown path u g) st.
Proof.
  intros Hwf. unfold refines, run_op, spec_run, tmpfs_chown_path, spec_op, spec_path.
  destruct (normalize_tmpfs_path path _) as [p|] eqn:Hn; [|by eexists _, _].
  destruct (find_entry st p) as [i|] eqn:Hf;
    [|rewrite (find_entry_abs_None st p Hwf Hf); by eexists _, _].
  destruct (find_entry_wf st p i Hwf Hf) as (e & Hi & -> & Hin & Hp & Hok & Hd & Habs).
  destruct (wf_update st i e (with_owner u g e) Hwf Hi Hin) as [Hwf' Habs'];
    simpl; try done; [by apply Hok|].
  rewrite Habs. eexists _, _. split_and!; [done|done|]. simpl in *. rewrite Habs', Hp.
  unfold anode_of, is_type, content_of. simpl. by case_bool_decide.
Qed.

Lemma tmpfs_init_entry i e :
  g_tmpfs_entries tmpfs_init !! i = Some e → e = zero_entry.
Proof. intros H. unfold tmpfs_init in H. cbn [g_tmpfs_entries] in H. by apply lookup_replicate in H as [? _]. Qed.

Lemma tmpfs_init_wf : tmpfs_wf tmpfs_init.
Proof.
  split.
  - unfold tmpfs_init. cbn [g_tmpfs_entries]. apply length_replicate.
  - intros i e ->%tmpfs_init_entry. unfold zero_entry. cbn [e_data]. apply length_replicate.
  - intros i e ->%tmpfs_init_entry. done.
  - intros i j e f ->%tmpfs_init_entry. done.
  - intros i e ->%tmpfs_init_entry. done.
Qed.

(** ** Writing in general: also past the end of the file *)

Lemma write_eq st path p i e off bytes :
  tmpfs_wf st → normalize_tmpfs_path path TMPFS_PATH_MAX = Some p →
  find_entry st p = Some i → g_tmpfs_entries st !! i = Some e →
  is_type e NODE_REGULAR = true →
  0 ≤ off < TMPFS_FILE_CAPACITY → off + Z.of_nat (length bytes) < 2 ^ 64 →
  let tw := Z.min (Z.of_nat (length bytes)) (TMPFS_FILE_CAPACITY - off) in
  let size := Z.max (e_size e) (off + tw) in
  tmpfs_write_path path off (Some bytes) (Z.of_nat (length bytes)) PtrValid st =
  Ok (WriteResult true (Some tw) (Some size),
      put_entry i (with_size size
        (with_data (blit (e_data e) (Z.to_nat off) (take (Z.to_nat tw) bytes)) e)) st).
Proof.
  intros Hwf Hn Hf Hi Ht Hoff Hov tw size. unfold tmpfs_write_path. simpl.
  rewrite Hn, Hf. unfold entry_at. rewrite Hi. simpl. rewrite Ht. simpl.
  unfold TMPFS_FILE_CAPACITY in *.
  rewrite (proj2 (Z.leb_gt _ _)) by lia. rewrite (u64_small (off + _)) by lia.
  replace (if 4096 <? off + Z.of_nat (length bytes) then 4096 - off
           else Z.of_nat (length bytes)) with tw
    by (unfold tw; destruct (_ <? _) eqn:E; bool_to_prop; lia).
  rewrite (proj2 (Z.ltb_ge 4096 (off + tw))), (proj2 (Z.ltb_ge (Z.of_nat _) tw)) by lia.
  simpl. rewrite (u64_small (off + tw)), (u32_small (off + tw)) by lia.
  replace (if e_size e <? off + tw then off + tw else e_size e) with size
    by (unfold size; destruct (_ <? _) eqn:E; bool_to_prop; lia).
  done.
Qed.

Lemma find_entry_put st p i e e' :
  g_tmpfs_entries st !! i = Some e → e_in_use e' = e_in_use e → e_path e' = e_path e →
  find_entry (put_entry i e' st) p = find_entry st p ∧ entry_at (put_entry i e' st) i = e'.
Proof.
  intros Hi Hu Hp. unfold find_entry, entry_at, put_entry. simpl. split.
  - apply (find_idx_insert _ _ _ e); [done|]. by rewrite Hu, Hp.
  - by rewrite list_lookup_insert_eq by by eapply lookup_lt_Some.
Qed.

(** ** Directory listings *)

Definition child_of (dir : cstr) (e : tmpfs_entry) : option cstr :=
  if e_in_use e then direct_child_name dir (e_path e) else None.

Lemma component_len_full s :
  component_len s = length s ↔ SLASH ∉ s.
Proof.
  induction s as [|c s IH]; simpl; [set_solver|]. case_bool_decide as Hc.
  - split; [done|]. set_solver.
  - rewrite Nat.succ_inj_wd, IH. set_solver.
Qed.

Lemma direct_child_name_spec dir p name :
  direct_child_name dir p = Some name ↔ p = dir ++ SLASH :: name ∧ name ≠ [] ∧ SLASH ∉ name.
Proof.
  unfold direct_child_name, local_strlen. destruct (is_descendant dir p) eqn:Hd; simpl.
  - apply is_descendant_spec in Hd as [q ->].
    rewrite drop_app_add' by done. change (drop 1 (SLASH :: q)) with q.
    rewrite <- component_len_full.
    destruct (Nat.eqb_spec (component_len q) 0) as [Hz|Hz]; simpl.
    + split; [done|]. intros (Hq & Hne & Hs). apply app_inv_head in Hq. simplify_eq.
      destruct name; [done|]. simpl in *. lia.
    + destruct (Nat.eqb_spec (component_len q) (length q)) as [Hc|Hc]; simpl.
      * rewrite Hc, firstn_all. split.
        -- intros [= <-]. split_and!; [done| |done]. by intros ->.
        -- intros (Hq & _ & _). apply app_inv_head in Hq. by simplify_eq.
      * split; [done|]. intros (Hq & _ & Hs). apply app_inv_head in Hq. by simplify_eq.
  - split; [done|]. intros (-> & _). assert (is_descendant dir (dir ++ SLASH :: name) = true); [|congruence].
    apply is_descendant_spec. by exists name.
Qed.

(** The table scan is indexing in the list of children. *)
Lemma nth_child_lookup dir l k cap d :
  nth_child dir l k cap = Some d ↔
  ∃ e name, omap (λ e, (λ n, (e, n)) <$> child_of dir e) l !! k = Some (e, name) ∧
    (length name < cap)%nat ∧
    d = Dirent name (e_size e) (if is_type e NODE_DIRECTORY then 4 else 8).
Proof.
  revert k. induction l as [|e l IH]; intros k; csimpl.
  { split; [done|]. by intros (? & ? & ? & _). }
  change (if e_in_use e then direct_child_name dir (e_path e) else None) with (child_of dir e).
  destruct (child_of dir e) as [name|]; csimpl; [|apply IH].
  destruct k as [|k]; csimpl; [|apply IH].
  destruct (Nat.leb_spec cap (length name)) as [Hle|Hlt].
  - split; [done|]. intros (e' & name' & [= <- <-] & Hlt & _). lia.
  - split.
    + intros [= <-]. by exists e, name.
    + by intros (e' & name' & [= <- <-] & _ & ->).
Qed.

(** ** Properties *)

(** C3 (refinement): every tmpfs operation, on success and on failure, is the
    operation of the abstract file system on the normalised path; it returns
    without leaving a buffer and preserves the table invariant (64 slots, distinct
    normalised paths, sizes within the data area, every parent a directory).
    Creation fails for lack of space exactly when 64 nodes exist. *)
Theorem tmpfs_refines op st :
  tmpfs_wf st → op_ok op (abs st) →
  ∃ b st', run_op op st = Ok (b, st') ∧ tmpfs_wf st' ∧ spec_run op (abs st) = (b, abs st').
Proof.
  intros Hwf Hok. destruct op.
  - by apply refines_create.
  - by apply refines_mkdir.
  - by apply refines_resize.
  - by apply refines_write.
  - by apply refines_unlink.
  - by apply refines_rmdir.
  - by apply refines_chmod.
  - by apply refines_chown.
Qed.

Lemma tmpfs_refines_witness :
  op_ok (OpMkdir (Some (lit "/tmp/d")) 0x1FF 1 1) (abs tmpfs_init) ∧
  ∃ b st', run_op (OpMkdir (Some (lit "/tmp/d")) 0x1FF 1 1) tmpfs_init = Ok (b, st') ∧
    tmpfs_wf st' ∧
    spec_run (OpMkdir (Some (lit "/tmp/d")) 0x1FF 1 1) (abs tmpfs_init) = (b, abs st').
Proof.
  split; [exact I|].
  exact (tmpfs_refines (OpMkdir (Some (lit "/tmp/d")) 0x1FF 1 1) tmpfs_init tmpfs_init_wf I).
Defined.

(** A table with one regular file [tmp/a] that held a secret and was truncated. *)
Definition secret : list Z := [115; 101; 99; 114; 101; 116; 33; 33].

Definition after {A} (r : A * tmpfs) : tmpfs := r.2.
Definition after_write (r : ub (write_result * tmpfs)) : tmpfs :=
  match r with Ok (_, st) => st | UB => tmpfs_init end.

Definition demo_file : tmpfs :=
  after (tmpfs_create_path_mode (Some (lit "/tmp/a")) 0x1B6 7 7 PtrValid tmpfs_init).
Definition demo_truncated : tmpfs :=
  after (tmpfs_truncate_path (Some (lit "/tmp/a"))
    (after_write (tmpfs_write_path (Some (lit "/tmp/a")) 0 (Some secret) 8 PtrValid demo_file))).

Lemma demo_file_wf : tmpfs_wf demo_file.
Proof.
  destruct (refines_create tmpfs_init (Some (lit "/tmp/a")) 0x1B6 7 7 tmpfs_init_wf)
    as (b & st' & Hrun & Hwf & _).
  unfold demo_file. unfold run_op in Hrun.
  destruct (tmpfs_create_path_mode _ _ _ _ _ _) as [r st1]. by simplify_eq/=.
Qed.

(** C22 (round trip): what a successful [tmpfs_write_path] reports as written is what
    [tmpfs_read_path] returns at the same offset, whether or not the write extended
    the file; the count is the request clipped at the 4 KiB capacity. *)
Theorem tmpfs_write_read st path off bytes r st' :
  tmpfs_wf st → 0 ≤ off < TMPFS_FILE_CAPACITY → off + Z.of_nat (length bytes) < 2 ^ 64 →
  tmpfs_write_path path off (Some bytes) (Z.of_nat (length bytes)) PtrValid st = Ok (r, st') →
  wr_ok r = true →
  let w := Z.min (Z.of_nat (length bytes)) (TMPFS_FILE_CAPACITY - off) in
  wr_written r = Some w ∧
  tmpfs_read_path path off PtrValid w st' = Some (take (Z.to_nat w) bytes).
Proof.
  intros Hwf Hoff Hov Hw Hok w.
  assert (Hinv : ∃ p i, normalize_tmpfs_path path TMPFS_PATH_MAX = Some p ∧
    find_entry st p = Some i ∧ is_type (entry_at st i) NODE_REGULAR = true).
  { unfold tmpfs_write_path in Hw. simpl in Hw.
    destruct (normalize_tmpfs_path path _) as [p|]; [|by simplify_eq].
    destruct (find_entry st p) as [i|] eqn:Hf; [|by simplify_eq].
    destruct (is_type (entry_at st i) NODE_REGULAR) eqn:Ht; simpl in Hw; [|by simplify_eq].
    by exists p, i. }
  destruct Hinv as (p & i & Hn & Hf & Ht).
  destruct (find_entry_wf st p i Hwf Hf) as (e & Hi & He & Hin & Hp & Heok & Hd & _).
  rewrite He in Ht. rewrite (write_eq st path p i e) in Hw by done. fold w in Hw.
  injection Hw as <- <-. split; [done|]. unfold tmpfs_read_path. simpl. rewrite Hn.
  match goal with |- context [put_entry i ?e' st] =>
    destruct (find_entry_put st p i e e' Hi eq_refl eq_refl) as [Hfe Hee] end.
  rewrite Hfe, Hf, Hee. unfold is_type in *. simpl. rewrite Ht. simpl.
  unfold TMPFS_FILE_CAPACITY in *.
  rewrite (proj2 (Z.ltb_ge _ off)), (proj2 (Z.ltb_ge _ w)) by lia. simpl. f_equal.
  unfold blit. rewrite drop_app_length' by (rewrite length_take; lia).
  rewrite take_app_length' by (rewrite length_take; lia). done.
Qed.

Lemma tmpfs_write_read_witness :
  tmpfs_read_path (Some (lit "tmp/a")) 4 PtrValid 8
    (after_write (tmpfs_write_path (Some (lit "tmp/a")) 4 (Some secret) 8 PtrValid demo_file))
  = Some secret.
Proof.
  refine (proj2 (tmpfs_write_read demo_file (Some (lit "tmp/a")) 4 secret
    (WriteResult true (Some 8) (Some 12)) _ demo_file_wf _ _ _ eq_refl)).
  - unfold TMPFS_FILE_CAPACITY. lia.
  - simpl. lia.
  - vm_compute. reflexivity.
Defined.

(** C24 (error): a write past the end of a file does not clear the gap.  The bytes
    between the old size and the offset become readable with whatever the data area
    held before, such as the contents the file had before it was truncated. *)
Theorem tmpfs_write_exposes_gap st path p i off bytes :
  tmpfs_wf st → normalize_tmpfs_path path TMPFS_PATH_MAX = Some p →
  find_entry st p = Some i → is_type (entry_at st i) NODE_REGULAR = true →
  bytes ≠ [] → e_size (entry_at st i) < off < TMPFS_FILE_CAPACITY →
  off + Z.of_nat (length bytes) < 2 ^ 64 →
  let size := e_size (entry_at st i) in
  ∃ r st',
    tmpfs_write_path path off (Some bytes) (Z.of_nat (length bytes)) PtrValid st = Ok (r, st') ∧
    wr_ok r = true ∧
    tmpfs_read_path path size PtrValid (off - size) st' =
      Some (take (Z.to_nat (off - size)) (drop (Z.to_nat size) (e_data (entry_at st i)))).
Proof.
  intros Hwf Hn Hf Ht Hne Hoff Hov size. unfold size.
  destruct (find_entry_wf st p i Hwf Hf) as (e & Hi & He & Hin & Hp & Heok & Hd & _).
  rewrite He in *. pose proof (eo_size _ Heok) as Hs.
  rewrite (write_eq st path p i e) by (done || lia). eexists _, _. split_and!; [done|done|].
  unfold tmpfs_read_path. simpl. rewrite Hn.
  match goal with |- context [put_entry i ?e' st] =>
    destruct (find_entry_put st p i e e' Hi eq_refl eq_refl) as [Hfe Hee] end.
  rewrite Hfe, Hf, Hee. unfold is_type in *. simpl. rewrite Ht. simpl.
  assert (0 < length bytes)%nat by (destruct bytes; simpl; [done|lia]).
  unfold TMPFS_FILE_CAPACITY in *.
  rewrite (proj2 (Z.ltb_ge _ (e_size e))), (proj2 (Z.ltb_ge _ (off - e_size e))) by lia.
  simpl. f_equal. unfold blit.
  rewrite !take_drop_commute. f_equal.
  rewrite take_app_le by (rewrite length_take; lia). rewrite take_take. f_equal. lia.
Qed.

Lemma tmpfs_write_exposes_gap_witness :
  ∃ r st',
    tmpfs_write_path (Some (lit "tmp/a")) 8 (Some [0]) 1 PtrValid demo_truncated = Ok (r, st') ∧
    wr_ok r = true ∧
    tmpfs_read_path (Some (lit "tmp/a")) 0 PtrValid 8 st' = Some secret.
Proof.
  assert (Hwf : tmpfs_wf demo_truncated).
  { destruct (refines_write demo_file (Some (lit "/tmp/a")) 0 secret demo_file_wf)
      as (b1 & st1 & Hrun1 & Hwf1 & _).
    { split_and!; [lia|simpl; lia|]. intros. left. lia. }
    destruct (refines_resize st1 (Some (lit "/tmp/a")) 0 Hwf1 ltac:(lia))
      as (b2 & st2 & Hrun2 & Hwf2 & _).
    unfold run_op in Hrun1, Hrun2.
    change (Z.of_nat (length secret)) with 8 in Hrun1.
    unfold demo_truncated, after, after_write, tmpfs_truncate_path.
    destruct (tmpfs_write_path _ _ _ _ _ _) as [[r st]|]; simplify_eq.
    match goal with H : tmpfs_resize_path _ _ _ = _ |- _ => rewrite H end. done. }
  exact (tmpfs_write_exposes_gap demo_truncated (Some (lit "tmp/a")) (lit "tmp/a") 0 8 [0] Hwf
    eq_refl eq_refl eq_refl ltac:(done) ltac:(vm_compute; split; reflexivity) ltac:(simpl; lia)).
Defined.

(** The capacity check adds offset and length in 64 bits.  When that sum
    wraps, the clip is skipped and the copy runs past the 4 KiB data area, whatever
    the caller's buffer holds. *)
Theorem tmpfs_write_wraps st path p i off len bytes :
  normalize_tmpfs_path path TMPFS_PATH_MAX = Some p →
  find_entry st p = Some i → is_type (entry_at st i) NODE_REGULAR = true →
  0 ≤ off < TMPFS_FILE_CAPACITY → 0 ≤ len < 2 ^ 64 → 2 ^ 64 ≤ off + len →
  tmpfs_write_path path off (Some bytes) len PtrValid st = UB.
Proof.
  intros Hn Hf Ht Hoff Hlen Hov. unfold tmpfs_write_path. simpl.
  rewrite Hn, Hf, Ht. simpl. unfold TMPFS_FILE_CAPACITY in *.
  rewrite (proj2 (Z.leb_gt _ _)) by lia.
  assert (Hw : u64 (off + len) = off + len - 2 ^ 64).
  { unfold u64. symmetry. apply (Z.mod_unique _ _ 1); lia. }
  rewrite Hw. rewrite (proj2 (Z.ltb_ge 4096 (off + len - 2 ^ 64))) by lia.
  by rewrite (proj2 (Z.ltb_lt 4096 (off + len))) by lia.
Qed.

Lemma tmpfs_write_wraps_witness :
  tmpfs_write_path (Some (lit "tmp/a")) 1 (Some secret) (2 ^ 64 - 1) PtrValid demo_file = UB.
Proof.
  apply (tmpfs_write_wraps demo_file (Some (lit "tmp/a")) (lit "tmp/a") 0 1 (2 ^ 64 - 1) secret);
    try reflexivity; unfold TMPFS_FILE_CAPACITY; lia.
Defined.

(** The children of the directory [dir], with their entries. *)
Definition children (dir : cstr) (st : tmpfs) : list (tmpfs_entry * cstr) :=
  omap (λ e, (λ n, (e, n)) <$> child_of dir e) (g_tmpfs_entries st).

Lemma children_elem dir st e name : (e, name) ∈ children dir st ↔
  e ∈ g_tmpfs_entries st ∧ e_in_use e = true ∧ e_path e = dir ++ SLASH :: name ∧ name ≠ [] ∧ SLASH ∉ name.
Proof.
  unfold children. rewrite list_elem_of_omap. unfold child_of. split.
  - intros (e' & He & Hg). destruct (e_in_use e') eqn:Hu; [|done].
    apply fmap_Some in Hg as (n & Hn & [= -> ->]). apply direct_child_name_spec in Hn. naive_solver.
  - intros (He & Hu & Hp). exists e. split; [done|]. rewrite Hu. apply fmap_Some. exists name.
    split; [|done]. by apply direct_child_name_spec.
Qed.

Lemma children_nodup dir st : uniq st → NoDup (snd <$> children dir st).
Proof.
  intros Hu. unfold children. rewrite list_fmap_omap. apply NoDup_omap_lookup. intros i j x y b Hi Hj.
  assert (Hmem : ∀ e n, snd <$> ((λ n, (e, n)) <$> child_of dir e) = Some n → e_in_use e = true ∧ e_path e = dir ++ SLASH :: n).
  { intros e n (z & (m & Hm & ->)%fmap_Some & ->)%fmap_Some. simpl. unfold child_of in Hm.
    destruct (e_in_use e); [|done]. by apply direct_child_name_spec in Hm as (-> & _). }
  intros [Hx1 Hx2]%Hmem [Hy1 Hy2]%Hmem. apply (Hu i j x y); congruence.
Qed.

(** A listing of a directory is the list of its children. *)
Lemma dirent_children st path p cap k : tmpfs_wf st → (0 < cap)%nat →
  normalize_tmpfs_path path TMPFS_PATH_MAX = Some p →
  p = lit "tmp" ∨ (∃ m u g, abs st !! p = Some (ADir m u g)) →
  tmpfs_dirent_at_index path (S (S k)) PtrValid cap st = nth_child p (g_tmpfs_entries st) k cap.
Proof.
  intros Hwf Hcap Hn Hdir. unfold tmpfs_dirent_at_index. simpl.
  rewrite (proj2 (Nat.eqb_neq cap 0)), Hn by lia.
  assert (Hguard : negb (path_equals p (lit "tmp")) && match find_entry st p with
    | None => true | Some i => negb (is_type (entry_at st i) NODE_DIRECTORY) end = false);
    [|by rewrite Hguard].
  destruct Hdir as [->|(m & u & g & Ha)]; [by rewrite path_equals_refl|].
  rewrite abs_lookup_find in Ha by apply wf_uniq, Hwf. destruct (find_entry st p) as [i|]; [|done].
  simpl in Ha. apply andb_false_iff. right. apply negb_false_iff, anode_of_dir. simplify_eq. eauto.
Qed.

Lemma child_short dir st e name : tmpfs_wf st → (e, name) ∈ children dir st → (length name < TMPFS_PATH_MAX)%nat.
Proof.
  intros Hwf Hc. apply children_elem in Hc as (He & Hin & Hp & _). apply list_elem_of_lookup in He as [i Hi].
  destruct (tw_entry _ Hwf i e Hi Hin) as [[Hnorm _] _ _].
  apply normalize_form in Hnorm as [_ Hlen]. rewrite Hp, length_app in Hlen. simpl in Hlen. lia.
Qed.

(** C23 (functional): listing a directory with a name buffer of any size [cap].  The entries at
    index 2 and up name exactly the nodes directly below the directory whose names fit the
    buffer, each at one index; the indices of the children have no gap, and there is no
    entry at an index exactly when it is behind the last child or the name there does not
    fit.  (The kernel lists with 64 bytes and stops at the first index without an entry.) *)
Theorem tmpfs_listing_complete st path p cap :
  tmpfs_wf st → (0 < cap)%nat → normalize_tmpfs_path path TMPFS_PATH_MAX = Some p →
  p = lit "tmp" ∨ (∃ m u g, abs st !! p = Some (ADir m u g)) →
  let at_ (cap k : nat) := tmpfs_dirent_at_index path (S (S k)) PtrValid cap st in
  (∀ name, (∃ k d, at_ cap k = Some d ∧ d_name d = name) ↔
    name ≠ [] ∧ SLASH ∉ name ∧ (length name < cap)%nat ∧ is_Some (abs st !! (p ++ SLASH :: name))) ∧
  (∀ k k' d d', at_ cap k = Some d → at_ cap k' = Some d' → d_name d = d_name d' → k = k') ∧
  ∃ n, (∀ k, is_Some (at_ TMPFS_PATH_MAX k) ↔ (k < n)%nat) ∧
    ∀ k, at_ cap k = None ↔ (n ≤ k)%nat ∨ ∃ d, at_ TMPFS_PATH_MAX k = Some d ∧ (cap ≤ length (d_name d))%nat.
Proof.
  intros Hwf Hcap Hn Hdir at_. pose proof (wf_uniq _ Hwf) as Hu.
  assert (Hat : ∀ cap k d, (0 < cap)%nat → at_ cap k = Some d ↔ ∃ e name, children p st !! k = Some (e, name) ∧
    (length name < cap)%nat ∧ d = Dirent name (e_size e) (if is_type e NODE_DIRECTORY then 4 else 8)).
  { intros cap' k d Hc. unfold at_. rewrite (dirent_children st path p) by done. apply nth_child_lookup. }
  clearbody at_. assert (HM : (0 < TMPFS_PATH_MAX)%nat) by (unfold TMPFS_PATH_MAX; lia). split_and!.
  - intros name. split.
    + intros (k & d & Hd & <-). apply Hat in Hd as (e & nm & Hl%list_elem_of_lookup_2 & Hlen & ->); [|done].
      apply children_elem in Hl as (He & Hin & Hp & Hne & Hs). apply list_elem_of_lookup in He as [i Hi].
      split_and!; try done. exists (anode_of e). apply abs_lookup_Some; eauto 8.
    + intros (Hne & Hs & Hlen & [nd Ha]). apply (abs_lookup_Some _ _ _ Hu) in Ha as (i & e & Hi & Hin & Hp & _).
      assert (He : (e, name) ∈ children p st) by (apply children_elem; split_and!; [by eapply list_elem_of_lookup_2|done..]).
      apply list_elem_of_lookup in He as [k Hk]. exists k. eexists. split; [apply Hat; eauto|done].
  - intros k k' d d' (e & nm & Hk & _ & ->)%Hat (e' & nm' & Hk' & _ & ->)%Hat; [|done..]. simpl. intros <-.
    apply (NoDup_lookup _ k k' nm (children_nodup p st Hu)); rewrite list_lookup_fmap; [by rewrite Hk|by rewrite Hk'].
  - exists (length (children p st)).
    assert (Hfull : ∀ k e name, children p st !! k = Some (e, name) →
      at_ TMPFS_PATH_MAX k = Some (Dirent name (e_size e) (if is_type e NODE_DIRECTORY then 4 else 8))).
    { intros k e name Hk. apply Hat; [exact HM|]. exists e, name. split_and!; [done| |done].
      by eapply child_short, list_elem_of_lookup_2. }
    split.
    + intros k. rewrite <- lookup_lt_is_Some. split; intros [x Hx].
      * apply Hat in Hx as (e & name & Hk & _); [eauto|exact HM].
      * destruct x as [e name]. eauto.
    + intros k. destruct (children p st !! k) as [[e name]|] eqn:Hk.
      * pose proof (lookup_lt_Some _ _ _ Hk). rewrite (Hfull k e name Hk). split.
        -- intros Hno. right. eexists. split; [done|]. simpl. apply Nat.nlt_ge. intros Hlt.
           assert (at_ cap k = Some (Dirent name (e_size e) (if is_type e NODE_DIRECTORY then 4 else 8)))
             by (apply Hat; eauto). congruence.
        -- intros [?|(d & [= <-] & Hlen)]; [lia|]. simpl in Hlen. destruct (at_ cap k) as [d|] eqn:Hd; [|done].
           apply Hat in Hd as (e' & nm & Hk' & Hlt & _); [|done]. simplify_eq. lia.
      * split; [intros _; left; by apply lookup_ge_None|]. intros _. destruct (at_ cap k) as [d|] eqn:Hd; [|done].
        apply Hat in Hd as (? & ? & ? & _); [congruence|done].
Qed.

Lemma tmpfs_listing_complete_witness :
  is_Some (abs demo_file !! (lit "tmp" ++ SLASH :: lit "a")) ∧
  (∃ k d, tmpfs_dirent_at_index (Some (lit "/tmp")) (S (S k)) PtrValid 64 demo_file = Some d ∧
          d_name d = lit "a").
Proof.
  assert (Ha : is_Some (abs demo_file !! (lit "tmp" ++ SLASH :: lit "a"))).
  { exists (AFile 0x1B6 7 7 []). apply abs_lookup_Some; [apply wf_uniq, demo_file_wf|].
    exists 0%nat, (entry_at demo_file 0). split_and!; reflexivity. }
  split; [exact Ha|].
  apply (proj1 (tmpfs_listing_complete demo_file (Some (lit "/tmp")) (lit "tmp") 64
    demo_file_wf ltac:(lia) eq_refl (or_introl eq_refl)) (lit "a")).
  split_and!; [done|by apply (bool_decide_unpack _)|simpl; lia|exact Ha].
Defined.
