(* ===== verification/VfsPath.v ===== *)
(** * Paths of the virtual file system ([kernel/vfs.c])

    Path normalisation and the string helpers of the VFS, and their meaning on
    lists of components.  A path buffer is the string it holds; [None] is -1. *)

From S2P Require Import Prelude CString.

Definition MAX_VFS_PATH : nat := 256.

Definition DOT : ascii := "."%char.

Definition copy_path_string (dst_size : nat) (src : cstr) : cstr := copy_string dst_size src.

(** A component is given by its characters. *)
Definition component_is_dot (c : cstr) : bool :=
  (length c =? 1)%nat && bool_decide (char_at c 0 = DOT).

Definition component_is_dotdot (c : cstr) : bool :=
  (length c =? 2)%nat && bool_decide (char_at c 0 = DOT) && bool_decide (char_at c 1 = DOT).

(** Drops the characters after the last slash, then the slash. *)
Definition pop_path_component (out : cstr) : cstr :=
  let len := last_slash out (length out) in
  let len := if (0 <? len)%nat && bool_decide (char_at out (len - 1) = SLASH)
             then (len - 1)%nat else len in
  take len out.

Definition append_path_component (out : cstr) (out_size : nat) (component : cstr) : option cstr :=
  if negb (length out =? 0)%nat && (out_size <=? length out + 1)%nat then None else
  let out := if negb (length out =? 0)%nat then out ++ [SLASH] else out in
  if (out_size <=? length out + length component)%nat then None
  else Some (out ++ component).

(** The loop of [normalize_path]; a round consumes a component, so [length cursor] rounds
    are enough. *)
Fixpoint normalize_loop (fuel : nat) (cursor out : cstr) (out_size : nat) : option cstr :=
  match fuel, cursor with
  | O, _ | _, [] => Some out
  | S fuel', _ =>
      let cursor := skip_slashes cursor in
      let len := component_len cursor in
      if (len =? 0)%nat then Some out else
      let component := take len cursor in
      let rest := drop len cursor in
      if component_is_dot component then normalize_loop fuel' rest out out_size
      else if component_is_dotdot component
      then normalize_loop fuel' rest (pop_path_component out) out_size
      else match append_path_component out out_size component with
           | None => None
           | Some out => normalize_loop fuel' rest out out_size
           end
  end.

Definition normalize_path (path : option cstr) (out_size : nat) : option cstr :=
  match path with
  | None => None
  | Some path =>
      if (out_size =? 0)%nat then None else normalize_loop (length path) path [] out_size
  end.

(** The comparison loop; at the end of the prefix the path must end or go on with a
    slash. *)
Fixpoint starts_with_loop (path prefix : cstr) : bool :=
  match prefix with
  | [] => bool_decide (char_at path 0 = NUL) || bool_decide (char_at path 0 = SLASH)
  | p :: prefix' =>
      if negb (bool_decide (char_at path 0 = p)) then false
      else starts_with_loop (drop 1 path) prefix'
  end.

Definition path_starts_with_component (path prefix : cstr) : bool :=
  if bool_decide (char_at prefix 0 = NUL) then true else starts_with_loop path prefix.

Definition parent_path_of (path : cstr) (out_size : nat) : option cstr :=
  if (out_size =? 0)%nat then None else
  let len := local_strlen path in
  if (len =? 0)%nat then Some [] else
  let slash := last_slash path len in
  if (slash =? 0)%nat then Some []
  else if (out_size <=? slash - 1)%nat then None
  else Some (take (slash - 1) path).

(** ** Paths as lists of components *)

Fixpoint join (cs : list cstr) : cstr :=
  match cs with
  | [] => []
  | [c] => c
  | c :: cs' => c ++ SLASH :: join cs'
  end.

(** The non-empty runs between slashes. *)
Fixpoint components_acc (s cur : cstr) : list cstr :=
  match s with
  | [] => match cur with [] => [] | _ => [cur] end
  | c :: s' =>
      if bool_decide (c = SLASH)
      then match cur with [] => components_acc s' [] | _ => cur :: components_acc s' [] end
      else components_acc s' (cur ++ [c])
  end.

Definition components (s : cstr) : list cstr := components_acc s [].

(** Resolution of [.] and [..] against a stack of components, the root being its own
    parent. *)
Definition resolve_step (st : list cstr) (c : cstr) : list cstr :=
  if component_is_dot c then st
  else if component_is_dotdot c then take (length st - 1) st
  else st ++ [c].

Definition resolve (cs : list cstr) : list cstr := foldl resolve_step [] cs.

(** A component that can stand in a normalised path. *)
Record name_ok (c : cstr) : Prop := {
  no_nonempty : c ≠ [];
  no_slash : SLASH ∉ c;
  no_dot : component_is_dot c = false;
  no_dotdot : component_is_dotdot c = false
}.

(** ** Lemmas *)

Lemma join_snoc cs c : join (cs ++ [c]) = match cs with [] => c | _ => join cs ++ SLASH :: c end.
Proof.
  induction cs as [|x cs IH]; [done|]. destruct cs as [|y cs]; [done|].
  change (join ((x :: y :: cs) ++ [c])) with (x ++ SLASH :: join ((y :: cs) ++ [c])).
  rewrite IH. change (join (x :: y :: cs)) with (x ++ SLASH :: join (y :: cs)).
  by rewrite <- app_assoc.
Qed.

Lemma join_nil cs : Forall (λ c, c ≠ []) cs → join cs = [] → cs = [].
Proof.
  destruct cs as [|c cs]; [done|]. intros [Hc _]%Forall_cons. simpl.
  destruct cs; [done|]. by destruct c.
Qed.

Lemma skip_slashes_length s : (length (skip_slashes s) ≤ length s)%nat.
Proof. induction s as [|c s IH]; simpl; [lia|]. case_bool_decide; simpl; lia. Qed.

Lemma skip_slashes_head s c rest : skip_slashes s = c :: rest → c ≠ SLASH.
Proof.
  induction s as [|x s IH]; simpl; [done|]. case_bool_decide as Hx; [done|]. by intros [= -> _].
Qed.

Lemma component_take_noslash s : SLASH ∉ take (component_len s) s.
Proof.
  induction s as [|c s IH]; simpl; [set_solver|]. case_bool_decide as Hc; simpl; [set_solver|].
  apply not_elem_of_cons. done.
Qed.

Lemma component_drop_head s :
  match drop (component_len s) s with [] => True | c :: _ => c = SLASH end.
Proof. induction s as [|c s IH]; simpl; [done|]. by case_bool_decide. Qed.

Lemma components_skip s : components s = components (skip_slashes s).
Proof.
  induction s as [|c s IH]; simpl; [done|]. case_bool_decide as Hc; [|done].
  unfold components at 1. simpl. by rewrite bool_decide_eq_true_2.
Qed.

Lemma components_acc_cut s cur :
  cur ≠ [] ∨ component_len s ≠ 0%nat →
  components_acc s cur =
    (cur ++ take (component_len s) s) :: components (drop (component_len s) s).
Proof.
  revert cur. induction s as [|c s IH]; intros cur Hne; simpl.
  { rewrite app_nil_r. destruct cur; [by destruct Hne|done]. }
  case_bool_decide as Hc; simpl.
  - rewrite app_nil_r. destruct cur.
    { destruct Hne as [Hne|Hne]; [done|]. simpl in Hne. by rewrite bool_decide_eq_true_2 in Hne. }
    unfold components. simpl.
    by rewrite bool_decide_eq_true_2.
  - rewrite IH by (left; by destruct cur). by rewrite <- app_assoc.
Qed.

Lemma components_cons s :
  component_len s ≠ 0%nat →
  components s = take (component_len s) s :: components (drop (component_len s) s).
Proof. intros Hn. unfold components at 1. rewrite components_acc_cut by (by right). done. Qed.

Lemma component_len_zero s : component_len (skip_slashes s) = 0%nat → skip_slashes s = [].
Proof.
  destruct (skip_slashes s) as [|c r] eqn:E; [done|]. simpl.
  apply skip_slashes_head in E. by rewrite bool_decide_eq_false_2.
Qed.

(** Popping the last component of a joined path. *)
Lemma last_slash_app (a b : cstr) : SLASH ∉ b →
  last_slash (a ++ b) (length a + length b) = last_slash (a ++ b) (length a).
Proof.
  intros Hb. induction b as [|c b IH] using rev_ind; [simpl; by rewrite Nat.add_0_r|].
  rewrite length_app. simpl. replace (length a + (length b + 1))%nat with (S (length a + length b)) by lia.
  cbn [last_slash]. rewrite not_elem_of_app in Hb. destruct Hb as [Hb Hc%not_elem_of_cons].
  rewrite bool_decide_eq_false_2.
  2: { unfold char_at. rewrite app_assoc, lookup_app_r by (rewrite length_app; lia).
       rewrite length_app, Nat.sub_diag. simpl. by intros ->; destruct Hc. }
  rewrite app_assoc. specialize (IH Hb).
  assert (Hpre : ∀ n, (n ≤ length (a ++ b))%nat → last_slash ((a ++ b) ++ [c]) n = last_slash (a ++ b) n).
  { induction n as [|n IHn]; intros Hn; simpl; [done|]. unfold char_at.
    rewrite lookup_app_l by lia. by rewrite IHn by lia. }
  rewrite !Hpre by (rewrite length_app; lia). done.
Qed.

Lemma pop_join st c : SLASH ∉ c → Forall (λ c, c ≠ []) st →
  pop_path_component (join (st ++ [c])) = join st.
Proof.
  intros Hc Hne. rewrite join_snoc. unfold pop_path_component. destruct st as [|x st].
  - pose proof (last_slash_app [] c Hc) as H. simpl in H. rewrite H. done.
  - set (a := join (x :: st)). change (a ++ SLASH :: c) with (a ++ [SLASH] ++ c). rewrite app_assoc.
    rewrite length_app, last_slash_app by done. rewrite length_app. simpl.
    replace (length a + 1)%nat with (S (length a)) by lia. cbn [last_slash].
    assert (Hat : char_at ((a ++ [SLASH]) ++ c) (length a) = SLASH).
    { unfold char_at. rewrite <- app_assoc, lookup_app_r, Nat.sub_diag by lia. done. }
    rewrite Hat, bool_decide_eq_true_2 by done. cbn [Nat.ltb Nat.leb andb].
    replace (S (length a) - 1)%nat with (length a) by lia.
    rewrite Hat, bool_decide_eq_true_2 by done. cbn [andb].
    by rewrite <- app_assoc, take_app_length.
Qed.

Lemma pop_join_stack st : Forall name_ok st →
  pop_path_component (join st) = join (take (length st - 1) st).
Proof.
  intros Hst. destruct st as [|c st _] using rev_ind; [done|].
  apply Forall_app in Hst as [Hst [Hc _]%Forall_cons]. rewrite length_app. simpl.
  replace (length st + 1 - 1)%nat with (length st) by lia. rewrite take_app_length.
  apply pop_join; [apply Hc|]. eapply Forall_impl; [done|]. by intros ? [].
Qed.

(** Appending to a joined path. *)
Lemma append_join st c out_size : Forall name_ok st →
  append_path_component (join st) out_size c =
    if (length (join (st ++ [c])) <? out_size)%nat then Some (join (st ++ [c])) else None.
Proof.
  intros Hst. unfold append_path_component. rewrite join_snoc. destruct st as [|x st].
  - simpl. destruct (Nat.leb_spec out_size (length c)), (Nat.ltb_spec (length c) out_size); try lia; done.
  - assert (Hne : length (join (x :: st)) ≠ 0%nat).
    { intros Hz%nil_length_inv. apply join_nil in Hz; [done|].
      eapply Forall_impl; [done|]. by intros ? []. }
    set (a := join (x :: st)) in *. rewrite (proj2 (Nat.eqb_neq _ _) Hne). cbn [negb andb].
    rewrite !length_app. cbn [length].
    destruct (Nat.leb_spec out_size (length a + 1)), (Nat.leb_spec out_size (length a + 1 + length c)),
      (Nat.ltb_spec (length a + S (length c)) out_size); try lia; try done.
    by rewrite <- app_assoc.
Qed.

Lemma resolve_step_ok st c : Forall name_ok st → SLASH ∉ c → c ≠ [] → Forall name_ok (resolve_step st c).
Proof.
  intros Hst Hs Hne. unfold resolve_step.
  destruct (component_is_dot c) eqn:E1; [done|]. destruct (component_is_dotdot c) eqn:E2.
  - by apply Forall_take.
  - apply Forall_app. split; [done|]. apply Forall_singleton. by split.
Qed.

(** The loop computes the resolution, or runs out of room on the way. *)
Lemma normalize_loop_spec fuel cursor st out_size :
  (length cursor ≤ fuel)%nat → Forall name_ok st →
  (st = [] ∨ match cursor with [] => True | c :: _ => c = SLASH end) →
  match normalize_loop fuel cursor (join st) out_size with
  | Some out => out = join (foldl resolve_step st (components cursor)) ∧
      Forall name_ok (foldl resolve_step st (components cursor))
  | None => (out_size ≤ length (join st) + length cursor)%nat
  end.
Proof.
  revert cursor st. induction fuel as [|fuel IH]; intros cursor st Hlen Hst Hhead.
  { destruct cursor; [done|simpl in Hlen; lia]. }
  destruct cursor as [|c0 cursor0]; [done|]. cbn [normalize_loop].
  set (cursor := c0 :: cursor0) in *. rewrite components_skip.
  pose proof (skip_slashes_length cursor) as Hskip. set (s := skip_slashes cursor) in *.
  destruct (Nat.eqb_spec (component_len s) 0) as [Hz|Hnz].
  { apply component_len_zero in Hz. fold s in Hz. rewrite Hz. done. }
  rewrite components_cons by done. cbn [foldl].
  set (comp := take (component_len s) s). set (rest := drop (component_len s) s).
  pose proof (component_len_le s) as Hcl.
  assert (Hcs : SLASH ∉ comp) by apply component_take_noslash.
  assert (Hclen : length comp = component_len s) by (unfold comp; rewrite length_take; lia).
  assert (Hcne : comp ≠ []) by (intros E; rewrite E in Hclen; simpl in Hclen; lia).
  assert (Hrest : (length rest + length comp ≤ length cursor)%nat)
    by (unfold rest; rewrite length_drop; lia).
  assert (Hrh : match rest with [] => True | c :: _ => c = SLASH end) by apply component_drop_head.
  assert (Hrest' : st ≠ [] → (length rest + length comp + 1 ≤ length cursor)%nat).
  { intros Hsn. destruct Hhead as [|Hh]; [done|].
    assert (Hs : skip_slashes cursor = skip_slashes cursor0).
    { unfold cursor in *. cbn [skip_slashes]. by rewrite bool_decide_eq_true_2. }
    pose proof (skip_slashes_length cursor0) as H0. rewrite <- Hs in H0. fold s in H0.
    assert (length cursor = S (length cursor0)) by done.
    unfold rest. rewrite length_drop. lia. }
  pose proof (resolve_step_ok st comp Hst Hcs Hcne) as Hst'.
  assert (Hshort : (length (join (take (length st - 1) st)) ≤ length (join st))%nat).
  { rewrite <- pop_join_stack by done. unfold pop_path_component. rewrite length_take. lia. }
  assert (Heq : resolve_step st comp = if component_is_dot comp then st
    else if component_is_dotdot comp then take (length st - 1) st else st ++ [comp]) by done.
  rewrite Heq in Hst' |- *. clear Heq.
  destruct (component_is_dot comp) eqn:E1.
  { specialize (IH rest st ltac:(lia) Hst (or_intror Hrh)). destruct (normalize_loop _ _ _ _); [done|lia]. }
  destruct (component_is_dotdot comp) eqn:E2.
  { rewrite pop_join_stack by done. specialize (IH rest _ ltac:(lia) Hst' (or_intror Hrh)).
    destruct (normalize_loop _ _ _ _); [done|lia]. }
  rewrite append_join by done.
  assert (Hjl : (length (join (st ++ [comp])) + length rest ≤ length (join st) + length cursor)%nat).
  { rewrite join_snoc. destruct st; [change (length (join [])) with 0%nat; lia|]. rewrite length_app. cbn [length].
    specialize (Hrest' ltac:(done)). lia. }
  destruct (Nat.ltb_spec (length (join (st ++ [comp]))) out_size) as [Hf|Hf]; [|lia].
  specialize (IH rest _ ltac:(lia) Hst' (or_intror Hrh)).
  destruct (normalize_loop _ _ _ _); [done|lia].
Qed.

Lemma component_len_app c rest :
  SLASH ∉ c → match rest with [] => True | x :: _ => x = SLASH end →
  component_len (c ++ rest) = length c.
Proof.
  intros Hs Hr. induction c as [|x c IH]; simpl.
  - destruct rest as [|y rest]; [done|]. simpl. by rewrite bool_decide_eq_true_2.
  - apply not_elem_of_cons in Hs as [Hx Hs]. rewrite bool_decide_eq_false_2 by done. by rewrite IH.
Qed.

Lemma components_app c rest :
  c ≠ [] → SLASH ∉ c → match rest with [] => True | x :: _ => x = SLASH end →
  components (c ++ rest) = c :: components rest.
Proof.
  intros Hne Hs Hr. pose proof (component_len_app c rest Hs Hr) as Hl.
  rewrite components_cons, Hl, take_app_length, drop_app_length; [done|].
  rewrite Hl. by destruct c.
Qed.

(** The components of a joined stack are the stack. *)
Lemma components_join st : Forall name_ok st → components (join st) = st.
Proof.
  induction st as [|c st IH]; intros Hst; [done|]. apply Forall_cons in Hst as [Hc Hst].
  destruct st as [|d st].
  - simpl. rewrite <- (app_nil_r c) at 1. by rewrite components_app by (done || apply Hc).
  - change (join (c :: d :: st)) with (c ++ SLASH :: join (d :: st)).
    rewrite components_app by (done || apply Hc). f_equal.
    transitivity (components (join (d :: st))); [done|by apply IH].
Qed.

(** A slash separates the components before it from those after it. *)
Lemma components_acc_slash a b cur :
  components_acc (a ++ SLASH :: b) cur = components_acc a cur ++ components b.
Proof.
  revert cur. induction a as [|c a IH]; intros cur; [by destruct cur|].
  cbn [app components_acc]. case_bool_decide; [|apply IH]. destruct cur; rewrite IH; done.
Qed.

Lemma components_slash a b : components (a ++ SLASH :: b) = components a ++ components b.
Proof. apply components_acc_slash. Qed.

Lemma parent_join st c out_size : name_ok c → Forall name_ok st →
  (length (join (st ++ [c])) < out_size)%nat →
  parent_path_of (join (st ++ [c])) out_size = Some (join st).
Proof.
  intros Hc Hst Hlen.
  assert (Hne : c ≠ []) by apply Hc. assert (Hs : SLASH ∉ c) by apply Hc.
  pose proof (pop_join st c Hs (Forall_impl _ _ _ Hst no_nonempty)) as Hp.
  unfold parent_path_of, local_strlen. rewrite (proj2 (Nat.eqb_neq _ 0)) by lia.
  revert Hp Hlen. unfold pop_path_component. set (p := join (st ++ [c])). intros Hp Hlen.
  destruct (Nat.eqb_spec (length p) 0) as [Hz|_].
  { exfalso. revert Hz. unfold p. rewrite join_snoc. destruct st; [by destruct c|].
    rewrite length_app. simpl. lia. }
  pose proof (last_slash_le p (length p)) as Hle.
  destruct (last_slash_spec p (length p)) as [Hl _].
  destruct Hl as [Hl|(m & Hl & Hm)]; rewrite Hl in *.
  - cbn [Nat.ltb Nat.leb andb take] in Hp. by rewrite <- Hp.
  - change (S m =? 0)%nat with false. cbn [Nat.ltb Nat.leb andb] in Hp.
    replace (S m - 1)%nat with m in * by lia. rewrite Hm, bool_decide_eq_true_2 in Hp by done.
    cbv iota. rewrite (proj2 (Nat.leb_gt _ _)) by lia. by rewrite Hp.
Qed.

Lemma resolve_names st : Forall name_ok st → resolve st = st.
Proof.
  intros Hst. unfold resolve. rewrite <- (app_nil_l st) at 2. generalize (@nil cstr) as acc.
  induction Hst as [|c st Hc Hst IH]; intros acc; simpl; [by rewrite app_nil_r|].
  unfold resolve_step at 2. rewrite (no_dot c Hc), (no_dotdot c Hc), IH. by rewrite <- app_assoc.
Qed.

(** Normalisation in terms of components: it succeeds on every path that fits the buffer,
    and a result is always the joined resolution. *)
Lemma normalize_path_components p out_size :
  (0 < out_size)%nat →
  match normalize_path (Some p) out_size with
  | Some out => out = join (resolve (components p)) ∧ Forall name_ok (resolve (components p))
  | None => (out_size ≤ length p)%nat
  end.
Proof.
  intros Ho. unfold normalize_path. rewrite (proj2 (Nat.eqb_neq _ 0)) by lia.
  pose proof (normalize_loop_spec (length p) p [] out_size ltac:(lia) ltac:(constructor) ltac:(by left)) as H.
  destruct (normalize_loop _ _ _ _); [done|]. simpl in H. lia.
Qed.

(** The result always fits the buffer. *)
Lemma append_fits out out_size c q :
  append_path_component out out_size c = Some q → (length q < out_size)%nat.
Proof.
  unfold append_path_component. destruct (_ && _); [done|].
  set (o := if negb (length out =? 0)%nat then out ++ [SLASH] else out). destruct (Nat.leb_spec out_size (length o + length c)); [done|].
  intros [= <-]. rewrite length_app. lia.
Qed.

Lemma normalize_loop_fits fuel cursor out out_size q :
  (length out < out_size)%nat → normalize_loop fuel cursor out out_size = Some q →
  (length q < out_size)%nat.
Proof.
  revert cursor out. induction fuel as [|fuel IH]; intros cursor out Ho; simpl; [by intros [= <-]|].
  destruct cursor as [|c cursor]; [by intros [= <-]|]. destruct (_ =? 0)%nat; [by intros [= <-]|].
  destruct (component_is_dot _); [by apply IH|]. destruct (component_is_dotdot _).
  - apply IH. unfold pop_path_component. rewrite length_take. lia.
  - destruct (append_path_component _ _ _) as [out'|] eqn:Ha; [|done]. by eapply IH, append_fits.
Qed.

Lemma normalize_fits path out_size q :
  normalize_path path out_size = Some q → (length q < out_size)%nat.
Proof.
  unfold normalize_path. destruct path as [path|]; [|done].
  destruct (Nat.eqb_spec out_size 0); [done|]. apply normalize_loop_fits. simpl. lia.
Qed.

(** A path in normal form. *)
Definition normal (p : cstr) : Prop := ∃ st, Forall name_ok st ∧ p = join st.

Lemma normalize_normal p out_size q : normalize_path (Some p) out_size = Some q → normal q.
Proof.
  intros Hn. assert (0 < out_size)%nat.
  { unfold normalize_path in Hn. destruct (Nat.eqb_spec out_size 0); [done|lia]. }
  pose proof (normalize_path_components p out_size ltac:(lia)) as Hc. rewrite Hn in Hc.
  destruct Hc as [-> Hc]. by exists (resolve (components p)).
Qed.

Lemma normalize_of_normal q out_size :
  normal q → (length q < out_size)%nat → normalize_path (Some q) out_size = Some q.
Proof.
  intros (st & Hst & ->) Hlen.
  pose proof (normalize_path_components (join st) out_size ltac:(lia)) as H.
  rewrite components_join, resolve_names in H by done.
  destruct (normalize_path _ _); [by destruct H as [-> _]|lia].
Qed.

(** A normal path as a component prefix. *)
Lemma starts_with_loop_spec path prefix : NUL ∉ path → NUL ∉ prefix →
  starts_with_loop path prefix = true ↔ ∃ rest, path = prefix ++ rest ∧
    match rest with [] => True | c :: _ => c = SLASH end.
Proof.
  revert path. induction prefix as [|p prefix IH]; intros path Hnp Hnq; simpl.
  - destruct path as [|c path]; simpl.
    + split; [intros _; by exists []|done].
    + unfold char_at. simpl. apply not_elem_of_cons in Hnp as [Hc _].
      rewrite bool_decide_eq_false_2 by done. simpl. rewrite bool_decide_eq_true. split.
      * intros ->. by exists (SLASH :: path).
      * by intros (rest & <- & Hr).
  - apply not_elem_of_cons in Hnq as [Hp Hnq]. destruct path as [|c path].
    + unfold char_at. simpl. rewrite bool_decide_eq_false_2 by done. simpl.
      split; [done|]. by intros (rest & ? & _).
    + unfold char_at. simpl. rewrite drop_0. apply not_elem_of_cons in Hnp as [_ Hnp].
      case_bool_decide as Hc; simpl.
      * subst p. rewrite IH by done. split; intros (rest & Hr & Hh); exists rest; simplify_eq/=; done.
      * split; [done|]. intros (rest & ? & _). simplify_eq/=.
Qed.

(** ** Properties *)

(** C17 (functional): [normalize_path] resolves a path the way its components say: empty
    components and dots are dropped, dot-dot removes the component before it (and
    nothing at the root).  It succeeds on every path shorter than the buffer; a failure
    means the path does not fit. *)
Theorem normalize_path_spec path out_size :
  (0 < out_size)%nat →
  match normalize_path (Some path) out_size with
  | Some out => out = join (resolve (components path)) ∧ components out = resolve (components path)
  | None => (out_size ≤ length path)%nat
  end.
Proof.
  intros Ho. pose proof (normalize_path_components path out_size Ho) as H.
  destruct (normalize_path _ _); [|done]. destruct H as [-> H]. split; [done|].
  by apply components_join.
Qed.

Lemma normalize_path_spec_witness :
  normalize_path (Some (lit "/a//b/./../c/../../d/")) 256 = Some (lit "d") ∧
  match normalize_path (Some (lit "/a//b/./../c/../../d/")) 256 with
  | Some out => out = join (resolve (components (lit "/a//b/./../c/../../d/"))) ∧
      components out = resolve (components (lit "/a//b/./../c/../../d/"))
  | None => (256 ≤ length (lit "/a//b/./../c/../../d/"))%nat
  end.
Proof.
  split; [reflexivity|]. apply (normalize_path_spec (lit "/a//b/./../c/../../d/") 256). lia.
Defined.

(** A normalised path fits the buffer and normalises to itself. *)
Theorem normalize_path_idempotent path out_size q :
  normalize_path (Some path) out_size = Some q →
  (length q < out_size)%nat ∧ normalize_path (Some q) out_size = Some q.
Proof.
  intros Hn. pose proof (normalize_fits _ _ _ Hn) as Hl. split; [done|].
  apply normalize_of_normal; [|done]. by eapply normalize_normal.
Qed.

Lemma normalize_path_idempotent_witness :
  normalize_path (Some (lit "tmp/x")) 256 = Some (lit "tmp/x").
Proof.
  apply (normalize_path_idempotent (lit "//tmp/./x/") 256 (lit "tmp/x")). reflexivity.
Defined.
