(* ===== verification/Vfs.v ===== *)
(** * The virtual file system ([kernel/vfs.c])

    Mount table, lookup through mounts and symbolic links, and the operations that
    are dispatched to the back ends.  The temporary file system is the one of
    [Tmpfs.v]; the other back ends are reached through the class [Backends], with one
    abstract state [B].  A result that is an [option] or a [bool] is -1 when [None] or
    [false]. *)

From S2P Require Import Prelude CString VfsNode Tmpfs VfsPath.

Definition VFS_MAX_MOUNTS : nat := 12.
Definition VFS_SYNTH_ROOT_INO : Z := 1.
Definition VFS_SYNTH_MNT_INO : Z := 2.
Definition VFS_SYNTH_DYNAMIC_DIR_BASE : Z := 0x2000.
Definition VFS_SYMLINK_LIMIT : nat := 16.
Definition LINUX_W_OK : Z := 2.
Definition LINUX_ACCESS_MASK : Z := 7.
Definition LINUX_DTYPE_REG : Z := 8.
Definition LINUX_DTYPE_DIR : Z := 4.
Definition LINUX_DTYPE_CHR : Z := 2.
Definition LINUX_DTYPE_LNK : Z := 10.

(** What the VFS calls in [kernel/aosfs.c], [kernel/fat32.c], [kernel/ext4.c] and
    [kernel/initrd.c], and memory behind a data pointer. *)
Class Backends (B : Type) := {
  aosfs_init : B → B;
  aosfs_lookup_path : cstr → B → option vfs_node;
  aosfs_readlink_path : cstr → nat → B → option cstr;
  aosfs_read_path : cstr → Z → Z → B → option (list Z);
  aosfs_write_path : cstr → Z → list Z → Z → B → write_result * B;
  aosfs_mkdir_path_mode : cstr → Z → Z → Z → B → bool * B;
  aosfs_unlink_path : cstr → B → bool * B;
  aosfs_rmdir_path : cstr → B → bool * B;
  aosfs_symlink_path : cstr → cstr → Z → Z → B → bool * B;
  aosfs_chmod_path : cstr → Z → B → bool * B;
  aosfs_chown_path : cstr → Z → Z → B → bool * B;
  aosfs_dirent_at_index : cstr → nat → nat → B → option dirent;
  (** is a directory, first cluster, size *)
  fat32_lookup_path : cstr → B → option (bool * Z * Z);
  fat32_read_file : Z → Z → Z → Z → B → option (list Z);
  fat32_write_path : cstr → Z → list Z → Z → B → write_result * B;
  fat32_dirent_at_index : cstr → nat → nat → B → option dirent;
  (** is a directory, inode, size *)
  ext4_lookup_path : cstr → B → option (bool * Z * Z);
  ext4_read_file : Z → Z → Z → Z → B → option (list Z);
  ext4_write_path : cstr → Z → list Z → Z → B → write_result * B;
  ext4_dirent_at_index : cstr → nat → nat → B → option dirent;
  (** address and size of the file's data *)
  initrd_get_file : cstr → B → option (Z * Z);
  initrd_get_entry : nat → nat → B → option (cstr * Z);
  load_bytes : Z → Z → B → list Z;
  (** the device number of [/dev/urandom], which the checked-in header does not define *)
  VFS_DEV_URANDOM : Z
}.

Record vfs_mount := VfsMount {
  mnt_in_use : bool;
  mnt_backend : backend;
  mnt_path : cstr;
  mnt_root : cstr
}.

Definition zero_mount : vfs_mount := VfsMount false BACKEND_NONE [] [].

(** ** The mount table *)

(** The component of [mount_path] just below [parent]. *)
Definition immediate_mount_child (parent mount_path : cstr) : option cstr :=
  let parent_len := local_strlen parent in
  let child rest :=
    if bool_decide (char_at rest 0 = NUL) then None
    else if (component_len rest =? 0)%nat then None
    else Some (take (component_len rest) rest) in
  if (parent_len =? 0)%nat then child mount_path
  else if negb (path_starts_with_component mount_path parent) then None
  else
    let rest := drop parent_len mount_path in
    if negb (bool_decide (char_at rest 0 = SLASH)) then None else child (drop 1 rest).

Definition mount_child_seen_before (mounts : list vfs_mount) (parent : cstr) (mount_index : nat)
    (child : cstr) : bool :=
  existsb (λ m, mnt_in_use m &&
    match immediate_mount_child parent (mnt_path m) with
    | Some earlier => bool_decide (earlier = child)
    | None => false
    end) (take mount_index mounts).

(** The [index]-th distinct child directory that the mount table puts below [parent]. *)
Fixpoint mount_children (mounts : list vfs_mount) (parent : cstr) (i : nat) (todo : list vfs_mount)
    : list cstr :=
  match todo with
  | [] => []
  | m :: todo' =>
      let rest := mount_children mounts parent (S i) todo' in
      if negb (mnt_in_use m) then rest
      else match immediate_mount_child parent (mnt_path m) with
           | None => rest
           | Some child =>
               if mount_child_seen_before mounts parent i child then rest else child :: rest
           end
  end.

Definition dirent_mount_child_at (mounts : list vfs_mount) (parent : cstr) (index : nat)
    (name_buf_size : nat) : option dirent :=
  match mount_children mounts parent 0 mounts !! index with
  | Some child =>
      if (name_buf_size <=? length child)%nat then None
      else Some (Dirent child 0 LINUX_DTYPE_DIR)
  | None => None
  end.

(** Counts until the first failure, with a 64-byte buffer. *)
Fixpoint count_children (fuel : nat) (mounts : list vfs_mount) (parent : cstr) (count : nat) : nat :=
  match fuel with
  | O => count
  | S fuel' =>
      match dirent_mount_child_at mounts parent count 64 with
      | Some _ => count_children fuel' mounts parent (S count)
      | None => count
      end
  end.

Definition mount_child_count (mounts : list vfs_mount) (parent : cstr) : nat :=
  count_children VFS_MAX_MOUNTS mounts parent 0.

Definition synthetic_dir_exists (mounts : list vfs_mount) (normalized : cstr) : bool :=
  bool_decide (char_at normalized 0 = NUL) || path_equals normalized (lit "mnt")
  || path_equals normalized (lit "dev")
  || existsb (λ m, mnt_in_use m &&
       match VfsPath.parent_path_of (mnt_path m) MAX_VFS_PATH with
       | Some parent => path_equals parent normalized
       | None => false
       end) mounts.

Definition make_mount_backend_path (normalized mount_path backend_root : cstr) (out_size : nat)
    : option cstr :=
  if (out_size =? 0)%nat then None
  else if negb (path_starts_with_component normalized mount_path) then None else
  let mount_len := length mount_path in
  let backend_len := length backend_root in
  let rest := skip_slashes (drop mount_len normalized) in
  if bool_decide (char_at rest 0 = NUL) then Some (copy_path_string out_size backend_root)
  else if (backend_len =? 0)%nat then Some (copy_path_string out_size rest)
  else if (out_size <=? backend_len + 1)%nat then None
  else Some (take backend_len (copy_path_string out_size backend_root) ++
             SLASH :: copy_path_string (out_size - backend_len - 1) rest).

(** The scan for the longest mount path; [best] is the best so far. *)
Fixpoint best_mount (mounts : list vfs_mount) (normalized : cstr) (best : option vfs_mount)
    : option vfs_mount :=
  match mounts with
  | [] => best
  | m :: mounts' =>
      if negb (mnt_in_use m) then best_mount mounts' normalized best
      else if negb (path_starts_with_component normalized (mnt_path m))
      then best_mount mounts' normalized best
      else
        let longer := match best with
                      | None => true
                      | Some b => (length (mnt_path b) <? length (mnt_path m))%nat
                      end in
        best_mount mounts' normalized (if longer then Some m else best)
  end.

Definition find_mount_for_path (mounts : list vfs_mount) (normalized : cstr)
    (backend_path_size : nat) : option (vfs_mount * cstr) :=
  match best_mount mounts normalized None with
  | None => None
  | Some best =>
      match make_mount_backend_path normalized (mnt_path best) (mnt_root best) backend_path_size with
      | Some p => Some (best, p)
      | None => None
      end
  end.

Definition vfs_mount_op (path : option cstr) (b : backend) (backend_root : option cstr)
    (mounts : list vfs_mount) : bool * list vfs_mount :=
  match normalize_path path MAX_VFS_PATH, normalize_path backend_root MAX_VFS_PATH with
  | Some normalized, Some root =>
      match find_idx (λ m, mnt_in_use m && path_equals (mnt_path m) normalized) mounts with
      | Some i =>
          (true, alter (λ m, VfsMount (mnt_in_use m) b (mnt_path m) (copy_path_string MAX_VFS_PATH root))
                   i mounts)
      | None =>
          match find_idx (λ m, negb (mnt_in_use m)) mounts with
          | Some i => (true, <[i := VfsMount true b (copy_path_string MAX_VFS_PATH normalized)
                                     (copy_path_string MAX_VFS_PATH root)]> mounts)
          | None => (false, mounts)
          end
      end
  | _, _ => (false, mounts)
  end.

(** The calls of [vfs_init_mounts], in order; the results are ignored. *)
Definition init_mount_calls : list (cstr * backend * cstr) := [
  (lit "/", BACKEND_AOSFS, lit "/");
  (lit "commands", BACKEND_INITRD, lit "/");
  (lit "lib", BACKEND_AOSFS, lit "lib");
  (lit "lib64", BACKEND_AOSFS, lit "lib64");
  (lit "main", BACKEND_AOSFS, lit "main");
  (lit "etc", BACKEND_AOSFS, lit "etc");
  (lit "tmp", BACKEND_TMPFS, lit "tmp");
  (lit "proc", BACKEND_PROCFS, lit "proc");
  (lit "trash", BACKEND_FAT32, lit "");
  (lit "fat32", BACKEND_FAT32, lit "fat32");
  (lit "mnt/fat32", BACKEND_FAT32, lit "fat32");
  (lit "ext4", BACKEND_EXT4, lit "ext4");
  (lit "mnt/ext4", BACKEND_EXT4, lit "ext4")].

Definition init_mounts : list vfs_mount :=
  foldl (λ mounts '(path, b, root), (vfs_mount_op (Some path) b (Some root) mounts).2)
    (replicate VFS_MAX_MOUNTS zero_mount) init_mount_calls.

(** [struct vfs_mount_info]: both paths cut to 63 characters. *)
Record vfs_mount_info := MountInfo { mi_backend : backend; mi_path : cstr; mi_root : cstr }.

Definition vfs_mount_info_at (index : nat) (out : outptr) (mounts : list vfs_mount)
    : option vfs_mount_info :=
  if is_null out then None else
  match filter (λ m, mnt_in_use m = true) mounts !! index with
  | Some m => Some (MountInfo (mnt_backend m) (copy_path_string 64 (mnt_path m))
                      (copy_path_string 64 (mnt_root m)))
  | None => None
  end.

(** ** Lookup *)

Section vfs.
  Context {B : Type} `{!Backends B}.

Record vfs := Vfs {
  g_mounts : list vfs_mount;
  v_tmpfs : tmpfs;
  v_disk : B;
  (** [process_get_command()] of the running process *)
  v_command : option cstr
}.

Definition set_tmpfs (t : tmpfs) (v : vfs) : vfs := Vfs (g_mounts v) t (v_disk v) (v_command v).
Definition set_disk (d : B) (v : vfs) : vfs := Vfs (g_mounts v) (v_tmpfs v) d (v_command v).

Definition vfs_init_mounts (v : vfs) : vfs :=
  Vfs init_mounts (v_tmpfs v) (aosfs_init (v_disk v)) (v_command v).

Definition fill_synthetic_dir (inode : Z) (path : cstr) : vfs_node :=
  VfsNode NODE_DIRECTORY BACKEND_SYNTHETIC 0x1ED 0 0 0 inode
    (copy_path_string NODE_PATH_MAX path) U_none.

Definition device_number (d : device) : Z :=
  match d with DEV_CONSOLE => 1 | DEV_TTY0 => 2 | DEV_NULL => 3
  | DEV_URANDOM => VFS_DEV_URANDOM end.

Definition fill_synthetic_char_device (d : device) (path : cstr) : vfs_node :=
  VfsNode NODE_CHAR_DEVICE BACKEND_SYNTHETIC 0x1B6 0 0 0 (0xD000 + device_number d)
    (copy_path_string NODE_PATH_MAX path) (U_device d).

Definition with_backend (b : backend) (n : vfs_node) : vfs_node :=
  VfsNode (node_type_of n) b (node_mode n) (node_uid n) (node_gid n) (node_size n) (node_inode n)
    (node_path n) (node_data n).

Definition dir_or_regular (is_dir : bool) : node_type :=
  if is_dir then NODE_DIRECTORY else NODE_REGULAR.
Definition dir_or_regular_mode (is_dir : bool) : Z := if is_dir then 0x1ED else 0x1A4.

Definition lookup_fat32_node (normalized : cstr) (v : vfs) : option vfs_node :=
  match fat32_lookup_path normalized (v_disk v) with
  | None => None
  | Some (is_dir, first_cluster, size) =>
      Some (VfsNode (dir_or_regular is_dir) BACKEND_FAT32 (dir_or_regular_mode is_dir) 0 0 size
              (if first_cluster =? 0 then 3 else first_cluster)
              (copy_path_string NODE_PATH_MAX normalized) (U_first_cluster first_cluster))
  end.

Definition lookup_ext4_node (normalized : cstr) (v : vfs) : option vfs_node :=
  match ext4_lookup_path normalized (v_disk v) with
  | None => None
  | Some (is_dir, inode, size) =>
      Some (VfsNode (dir_or_regular is_dir) BACKEND_EXT4 (dir_or_regular_mode is_dir) 0 0 size
              inode (copy_path_string NODE_PATH_MAX normalized) U_none)
  end.

Definition lookup_tmpfs_node (normalized : cstr) (v : vfs) : option vfs_node :=
  if negb (path_starts_with_component normalized (lit "tmp")) then None
  else tmpfs_lookup_path (Some normalized) PtrValid (v_tmpfs v).

(** The target of [/proc/self/exe]: the command, made absolute. *)
Definition exe_target (command : cstr) : cstr :=
  if bool_decide (char_at command 0 = SLASH) then command else SLASH :: command.

Definition lookup_procfs_node (normalized : cstr) (v : vfs) : option vfs_node :=
  if path_equals normalized (lit "proc")
  then Some (with_backend BACKEND_PROCFS (fill_synthetic_dir 0x50524F43 normalized))
  else if path_equals normalized (lit "proc/self")
  then Some (with_backend BACKEND_PROCFS (fill_synthetic_dir 0x50524F44 normalized))
  else if negb (path_equals normalized (lit "proc/self/exe")) then None
  else match v_command v with
       | None | Some [] => None
       | Some command =>
           Some (VfsNode NODE_SYMLINK BACKEND_PROCFS 0x1FF 0 0
                   (u32 (Z.of_nat (length (exe_target command)))) 0x50524F45
                   (copy_path_string NODE_PATH_MAX normalized) U_none)
       end.

Definition lookup_initrd_node (normalized : cstr) (v : vfs) : option vfs_node :=
  if bool_decide (char_at normalized 0 = NUL)
  then Some (VfsNode NODE_DIRECTORY BACKEND_INITRD 0x1ED 0 0 0 0x1A17D
               (copy_path_string NODE_PATH_MAX []) U_none)
  else match initrd_get_file normalized (v_disk v) with
       | None => None
       | Some (data, size) =>
           Some (VfsNode NODE_REGULAR BACKEND_INITRD 0x16D 0 0 size (u64 (0x1A000 + data))
                   (copy_path_string NODE_PATH_MAX normalized) (U_data data))
       end.

(** Dispatch on the back end of a mount; [None] falls through to the code after the
    [if (mount)] block. *)
Definition lookup_mounted (b : backend) (backend_path : cstr) (v : vfs)
    : option (option vfs_node) :=
  match b with
  | BACKEND_TMPFS => Some (lookup_tmpfs_node backend_path v)
  | BACKEND_PROCFS => Some (lookup_procfs_node backend_path v)
  | BACKEND_INITRD => Some (lookup_initrd_node backend_path v)
  | BACKEND_FAT32 => Some (lookup_fat32_node backend_path v)
  | BACKEND_EXT4 => Some (lookup_ext4_node backend_path v)
  | BACKEND_AOSFS => Some (aosfs_lookup_path backend_path (v_disk v))
  | _ => None
  end.

Definition lookup_unmounted (normalized : cstr) (v : vfs) : option vfs_node :=
  if synthetic_dir_exists (g_mounts v) normalized
  then Some (fill_synthetic_dir
               (if path_equals normalized (lit "mnt") then VFS_SYNTH_MNT_INO
                else VFS_SYNTH_DYNAMIC_DIR_BASE) normalized)
  else aosfs_lookup_path normalized (v_disk v).

Definition lookup_normalized (normalized : cstr) (v : vfs) : option vfs_node :=
  if bool_decide (char_at normalized 0 = NUL) then aosfs_lookup_path [] (v_disk v)
  else if path_equals normalized (lit "dev") then Some (fill_synthetic_dir 0xD00 normalized)
  else if path_equals normalized (lit "dev/console")
  then Some (fill_synthetic_char_device DEV_CONSOLE normalized)
  else if path_equals normalized (lit "dev/tty0")
  then Some (fill_synthetic_char_device DEV_TTY0 normalized)
  else if path_equals normalized (lit "dev/null")
  then Some (fill_synthetic_char_device DEV_NULL normalized)
  else if path_equals normalized (lit "dev/urandom")
  then Some (fill_synthetic_char_device DEV_URANDOM normalized)
  else match find_mount_for_path (g_mounts v) normalized MAX_VFS_PATH with
       | Some (mount, backend_path) =>
           match lookup_mounted (mnt_backend mount) backend_path v with
           | Some result => result
           | None => lookup_unmounted normalized v
           end
       | None => lookup_unmounted normalized v
       end.

Definition append_text (out : cstr) (out_size : nat) (text : cstr) : option cstr :=
  if negb (length text =? 0)%nat && (out_size <=? length out + length text)%nat then None
  else Some (out ++ text).

(** The bytes stored in the buffer, at most [capacity]. *)
Definition readlink_node (node : vfs_node) (capacity : nat) (v : vfs) : option cstr :=
  if negb (bool_decide (node_type_of node = NODE_SYMLINK)) then None
  else if bool_decide (node_backend node = BACKEND_AOSFS)
  then aosfs_readlink_path (node_path node) capacity (v_disk v)
  else if bool_decide (node_backend node = BACKEND_PROCFS)
          && path_equals (node_path node) (lit "proc/self/exe")
  then match v_command v with
       | Some command => Some (take capacity (exe_target command))
       | None => None
       end
  else None.

(** [if (length != 0) { ...; combined[length++] = '/'; }] *)
Definition append_slash (out : cstr) (out_size : nat) : option cstr :=
  if (length out =? 0)%nat then Some out
  else if (out_size <=? length out + 1)%nat then None else Some (out ++ [SLASH]).

Definition build_link_destination (link_path target remaining : cstr) (out_size : nat)
    : option cstr :=
  combined ←
    (if negb (bool_decide (char_at target 0 = SLASH)) then
       parent ← VfsPath.parent_path_of link_path MAX_VFS_PATH;
       c ← append_text [] MAX_VFS_PATH parent;
       if negb (bool_decide (char_at target 0 = NUL)) then append_slash c MAX_VFS_PATH else Some c
     else Some []);
  combined ← append_text combined MAX_VFS_PATH target;
  combined ←
    (if negb (bool_decide (char_at remaining 0 = NUL)) then
       c ← append_slash combined MAX_VFS_PATH;
       append_text c MAX_VFS_PATH remaining
     else Some combined);
  normalize_path (Some combined) out_size.

(** Outcome of one pass over the components of [current]. *)
Inductive pass := PassFail | PassDone | PassFollow (current : cstr).

(** The component loop; [last_hop] is [hop == VFS_SYMLINK_LIMIT].  A round consumes a
    component, so [length cursor] rounds are enough. *)
Fixpoint links_pass (fuel : nat) (follow_final last_hop : bool) (prefix cursor : cstr) (v : vfs)
    : pass :=
  match fuel, cursor with
  | O, _ | _, [] => PassDone
  | S fuel', _ =>
      let len := component_len cursor in
      match append_path_component prefix MAX_VFS_PATH (take len cursor) with
      | None => PassFail
      | Some prefix =>
          let remaining := skip_slashes (drop len cursor) in
          let final_component := bool_decide (char_at remaining 0 = NUL) in
          match lookup_normalized prefix v with
          | None => PassFail
          | Some node =>
              if bool_decide (node_type_of node = NODE_SYMLINK)
                 && (follow_final || negb final_component)
              then if last_hop then PassFail
                   else match readlink_node node (MAX_VFS_PATH - 1) v with
                        | None => PassFail
                        | Some target =>
                            match build_link_destination prefix (c_string target) remaining MAX_VFS_PATH with
                            | None => PassFail
                            | Some current => PassFollow current
                            end
                        end
              else links_pass fuel' follow_final last_hop prefix remaining v
          end
      end
  end.

(** [hops] is the number of passes left: [VFS_SYMLINK_LIMIT + 1 - hop]. *)
Fixpoint follow_links (hops : nat) (follow_final : bool) (current : cstr) (v : vfs)
    : option vfs_node :=
  match hops with
  | O => None
  | S hops' =>
      match links_pass (length current) follow_final (hops' =? 0)%nat [] current v with
      | PassFail => None
      | PassDone => lookup_normalized current v
      | PassFollow current => follow_links hops' follow_final current v
      end
  end.

Definition lookup_with_links (path : option cstr) (follow_final : bool) (v : vfs) : option vfs_node :=
  match normalize_path path MAX_VFS_PATH with
  | None => None
  | Some current => follow_links (S VFS_SYMLINK_LIMIT) follow_final current v
  end.

Definition vfs_lookup (path : option cstr) (v : vfs) : option vfs_node := lookup_with_links path true v.
Definition vfs_lstat (path : option cstr) (v : vfs) : option vfs_node := lookup_with_links path false v.

(** ** Operations *)

Definition is_backend (n : vfs_node) (b : backend) : bool := bool_decide (node_backend n = b).
Definition has_type (n : vfs_node) (t : node_type) : bool := bool_decide (node_type_of n = t).

Definition vfs_access_path (path : option cstr) (mode : Z) (v : vfs) : bool :=
  match path with
  | None => false
  | Some _ =>
      if flag mode (0xFFFFFFFFFFFFFFFF .^ LINUX_ACCESS_MASK) then false else
      match vfs_lookup path v with
      | None => false
      | Some node =>
          if has_type node NODE_CHAR_DEVICE then true
          else if flag mode LINUX_W_OK
          then is_backend node BACKEND_AOSFS || is_backend node BACKEND_TMPFS
               || is_backend node BACKEND_FAT32 || is_backend node BACKEND_EXT4
          else true
      end
  end.

Definition vfs_read_node (node : option vfs_node) (offset : Z) (buffer : outptr) (len : Z) (v : vfs)
    : option (list Z) :=
  match node with
  | None => None
  | Some node =>
      if is_null buffer || negb (has_type node NODE_REGULAR) then None
      else if (node_size node <? offset) || (node_size node - offset <? len) then None
      else match node_backend node with
           | BACKEND_FAT32 =>
               match node_data node with
               | U_first_cluster c => fat32_read_file c (node_size node) offset len (v_disk v)
               | _ => fat32_read_file 0 (node_size node) offset len (v_disk v)
               end
           | BACKEND_EXT4 => ext4_read_file (u32 (node_inode node)) (node_size node) offset len (v_disk v)
           | BACKEND_TMPFS => tmpfs_read_path (Some (node_path node)) offset PtrValid len (v_tmpfs v)
           | BACKEND_AOSFS =>
               match node_data node with
               | U_data a =>
                   if negb (a =? 0) then Some (load_bytes (u64 (a + offset)) len (v_disk v))
                   else aosfs_read_path (node_path node) offset len (v_disk v)
               | _ => aosfs_read_path (node_path node) offset len (v_disk v)
               end
           | BACKEND_INITRD =>
               match node_data node with
               | U_data a => Some (load_bytes (u64 (a + offset)) len (v_disk v))
               | _ => None
               end
           | _ => None
           end
  end.

Definition vfs_write_node (node : option vfs_node) (offset : Z) (buffer : option (list Z)) (len : Z)
    (written : outptr) (v : vfs) : ub (write_result * vfs) :=
  let fail := Ok (WriteResult false None None, v) in
  match node, buffer with
  | Some node, Some bytes =>
      if negb (has_type node NODE_REGULAR) then fail else
      match node_backend node with
      | BACKEND_TMPFS =>
          match tmpfs_write_path (Some (node_path node)) offset (Some bytes) len written (v_tmpfs v) with
          | Ok (r, t) => Ok (r, set_tmpfs t v)
          | UB => UB
          end
      | BACKEND_FAT32 =>
          let (r, d) := fat32_write_path (node_path node) offset bytes len (v_disk v) in
          Ok (r, set_disk d v)
      | BACKEND_EXT4 =>
          let (r, d) := ext4_write_path (node_path node) offset bytes len (v_disk v) in
          Ok (r, set_disk d v)
      | BACKEND_AOSFS =>
          let (r, d) := aosfs_write_path (node_path node) offset bytes len (v_disk v) in
          Ok (r, set_disk d v)
      | _ => fail
      end
  | _, _ => fail
  end.

(** Runs an operation of the temporary file system or of the other back ends. *)
Definition on_tmpfs (f : tmpfs → bool * tmpfs) (v : vfs) : bool * vfs :=
  let (r, t) := f (v_tmpfs v) in (r, set_tmpfs t v).
Definition on_disk (f : B → bool * B) (v : vfs) : bool * vfs :=
  let (r, d) := f (v_disk v) in (r, set_disk d v).

Definition vfs_mkdir_path (path : option cstr) (mode uid gid : Z) (v : vfs) : bool * vfs :=
  match normalize_path path MAX_VFS_PATH with
  | None | Some [] => (false, v)
  | Some normalized =>
      match vfs_lstat (Some normalized) v with
      | Some _ => (false, v)
      | None =>
          match find_mount_for_path (g_mounts v) normalized MAX_VFS_PATH with
          | Some (mount, backend_path) =>
              match mnt_backend mount with
              | BACKEND_TMPFS => on_tmpfs (tmpfs_mkdir_path_mode (Some backend_path) mode uid gid) v
              | BACKEND_AOSFS => on_disk (aosfs_mkdir_path_mode backend_path mode uid gid) v
              | _ => (false, v)
              end
          | None => on_disk (aosfs_mkdir_path_mode normalized mode uid gid) v
          end
      end
  end.

Definition vfs_unlink_path (path : option cstr) (v : vfs) : bool * vfs :=
  match normalize_path path MAX_VFS_PATH with
  | None | Some [] => (false, v)
  | Some normalized =>
      match vfs_lstat (Some normalized) v with
      | None => (false, v)
      | Some node =>
          if negb (has_type node NODE_REGULAR) && negb (has_type node NODE_SYMLINK) then (false, v)
          else match find_mount_for_path (g_mounts v) normalized MAX_VFS_PATH with
               | Some (mount, backend_path) =>
                   match mnt_backend mount with
                   | BACKEND_TMPFS => on_tmpfs (tmpfs_unlink_path (Some backend_path)) v
                   | BACKEND_AOSFS => on_disk (aosfs_unlink_path (node_path node)) v
                   | _ => (false, v)
                   end
               | None =>
                   if is_backend node BACKEND_TMPFS
                   then on_tmpfs (tmpfs_unlink_path (Some normalized)) v
                   else if is_backend node BACKEND_AOSFS
                   then on_disk (aosfs_unlink_path normalized) v
                   else (false, v)
               end
      end
  end.

Definition vfs_rmdir_path (path : option cstr) (v : vfs) : bool * vfs :=
  match normalize_path path MAX_VFS_PATH with
  | None | Some [] => (false, v)
  | Some normalized =>
      match vfs_lstat (Some normalized) v with
      | None => (false, v)
      | Some node =>
          if negb (has_type node NODE_DIRECTORY) then (false, v)
          else match find_mount_for_path (g_mounts v) normalized MAX_VFS_PATH with
               | Some (mount, backend_path) =>
                   match mnt_backend mount with
                   | BACKEND_TMPFS => on_tmpfs (tmpfs_rmdir_path (Some backend_path)) v
                   | BACKEND_AOSFS => on_disk (aosfs_rmdir_path (node_path node)) v
                   | _ => (false, v)
                   end
               | None =>
                   if is_backend node BACKEND_AOSFS
                   then on_disk (aosfs_rmdir_path normalized) v
                   else (false, v)
               end
      end
  end.

Definition vfs_symlink_path (target : option cstr) (path : option cstr) (uid gid : Z) (v : vfs)
    : bool * vfs :=
  match target with
  | None | Some [] => (false, v)
  | Some target =>
      match normalize_path path MAX_VFS_PATH with
      | None | Some [] => (false, v)
      | Some normalized =>
          match vfs_lstat (Some normalized) v with
          | Some _ => (false, v)
          | None =>
              match find_mount_for_path (g_mounts v) normalized MAX_VFS_PATH with
              | Some (mount, backend_path) =>
                  if bool_decide (mnt_backend mount = BACKEND_AOSFS)
                  then on_disk (aosfs_symlink_path target backend_path uid gid) v
                  else (false, v)
              | None => on_disk (aosfs_symlink_path target normalized uid gid) v
              end
          end
      end
  end.

Definition vfs_readlink_path (path : option cstr) (capacity : nat) (v : vfs) : option cstr :=
  match vfs_lstat path v with
  | None => None
  | Some node => readlink_node node capacity v
  end.

Definition vfs_chmod_path (path : option cstr) (mode : Z) (nofollow : bool) (v : vfs) : bool * vfs :=
  match (if nofollow then vfs_lstat path v else vfs_lookup path v) with
  | None => (false, v)
  | Some node =>
      match node_backend node with
      | BACKEND_TMPFS => on_tmpfs (tmpfs_chmod_path (Some (node_path node)) mode) v
      | BACKEND_AOSFS => on_disk (aosfs_chmod_path (node_path node) mode) v
      | _ => (false, v)
      end
  end.

Definition vfs_chown_path (path : option cstr) (uid gid : Z) (nofollow : bool) (v : vfs)
    : bool * vfs :=
  match (if nofollow then vfs_lstat path v else vfs_lookup path v) with
  | None => (false, v)
  | Some node =>
      match node_backend node with
      | BACKEND_TMPFS => on_tmpfs (tmpfs_chown_path (Some (node_path node)) uid gid) v
      | BACKEND_AOSFS => on_disk (aosfs_chown_path (node_path node) uid gid) v
      | _ => (false, v)
      end
  end.

(** The entries for [.] and [..], then [rest] from index 2 on. *)
Definition dot_entries (index name_buf_size : nat) (rest : nat → option dirent) : option dirent :=
  match index with
  | 0%nat => Some (Dirent (copy_path_string name_buf_size (lit ".")) 0 LINUX_DTYPE_DIR)
  | 1%nat => Some (Dirent (copy_path_string name_buf_size (lit "..")) 0 LINUX_DTYPE_DIR)
  | S (S k) => rest k
  end.

Definition named (name : string) (name_buf_size : nat) (d_type : Z) : option dirent :=
  Some (Dirent (copy_path_string name_buf_size (lit name)) 0 d_type).

Definition initrd_entry (index name_buf_size : nat) (v : vfs) : option dirent :=
  match initrd_get_entry index name_buf_size (v_disk v) with
  | Some (name, size) => Some (Dirent name size LINUX_DTYPE_REG)
  | None => None
  end.

Definition synthetic_dirent (node : vfs_node) (index name_buf_size : nat) (v : vfs) : option dirent :=
  if node_inode node =? VFS_SYNTH_ROOT_INO then
    dot_entries index name_buf_size (λ k,
      match dirent_mount_child_at (g_mounts v) [] k name_buf_size with
      | Some d => Some d
      | None =>
          let mount_count := mount_child_count (g_mounts v) [] in
          if (k <? mount_count)%nat then None
          else if (k =? mount_count)%nat then named "dev" name_buf_size LINUX_DTYPE_DIR
          else initrd_entry (k - 1 - mount_count) name_buf_size v
      end)
  else if path_equals (node_path node) (lit "dev") then
    dot_entries index name_buf_size (λ k,
      match k with
      | 0%nat => named "console" name_buf_size LINUX_DTYPE_CHR
      | 1%nat => named "tty0" name_buf_size LINUX_DTYPE_CHR
      | 2%nat => named "null" name_buf_size LINUX_DTYPE_CHR
      | 3%nat => named "urandom" name_buf_size LINUX_DTYPE_CHR
      | _ => None
      end)
  else dot_entries index name_buf_size (λ k,
         dirent_mount_child_at (g_mounts v) (node_path node) k name_buf_size).

Definition procfs_dirent (node : vfs_node) (index name_buf_size : nat) : option dirent :=
  dot_entries index name_buf_size (λ k,
    if path_equals (node_path node) (lit "proc") && (k =? 0)%nat
    then named "self" name_buf_size LINUX_DTYPE_DIR
    else if path_equals (node_path node) (lit "proc/self") && (k =? 0)%nat
    then named "exe" name_buf_size LINUX_DTYPE_LNK
    else None).

Definition vfs_dirent_at (node : option vfs_node) (index : nat) (name_buf : outptr)
    (name_buf_size : nat) (v : vfs) : option dirent :=
  match node with
  | None => None
  | Some node =>
      if is_null name_buf || (name_buf_size =? 0)%nat || negb (has_type node NODE_DIRECTORY)
      then None
      else match node_backend node with
           | BACKEND_FAT32 => fat32_dirent_at_index (node_path node) index name_buf_size (v_disk v)
           | BACKEND_EXT4 => ext4_dirent_at_index (node_path node) index name_buf_size (v_disk v)
           | BACKEND_AOSFS => aosfs_dirent_at_index (node_path node) index name_buf_size (v_disk v)
           | BACKEND_INITRD =>
               dot_entries index name_buf_size (λ k, initrd_entry k name_buf_size v)
           | BACKEND_SYNTHETIC => synthetic_dirent node index name_buf_size v
           | BACKEND_PROCFS => procfs_dirent node index name_buf_size
           | BACKEND_TMPFS =>
               tmpfs_dirent_at_index (Some (node_path node)) index PtrValid name_buf_size (v_tmpfs v)
           | BACKEND_NONE => None
           end
  end.

End vfs.
