(* ===== verification/VfsSpec.v ===== *)
(** * Contract of the virtual file system

    Mount resolution in terms of path components, lookup through symbolic links, and
    the separation between the temporary file system and the other back ends. *)

From S2P Require Import Prelude CString VfsNode Tmpfs VfsPath Vfs.

(** A stack of components without embedded terminators. *)
Definition names (st : list cstr) : Prop := Forall name_ok st ∧ Forall (λ c, NUL ∉ c) st.

Lemma names_app st st' : names (st ++ st') ↔ names st ∧ names st'.
Proof. unfold names. rewrite !Forall_app. tauto. Qed.

Lemma names_cons c st : names (c :: st) ↔ (name_ok c ∧ NUL ∉ c) ∧ names st.
Proof. unfold names. rewrite !Forall_cons. tauto. Qed.

Lemma join_nonul st : Forall (λ c, NUL ∉ c) st → NUL ∉ join st.
Proof.
  induction st as [|c st IH]; intros Hst; [set_solver|]. apply Forall_cons in Hst as [Hc Hst].
  destruct st as [|d st]; [done|].
  change (join (c :: d :: st)) with (c ++ SLASH :: join (d :: st)).
  rewrite not_elem_of_app, not_elem_of_cons. split_and!; [done|done|by apply IH].
Qed.

Lemma join_head st : names st → st ≠ [] →
  char_at (join st) 0 ≠ NUL ∧ char_at (join st) 0 ≠ SLASH.
Proof.
  intros Hst Hne. destruct st as [|c st]; [done|]. apply names_cons in Hst as [[Hc Hn] _].
  destruct c as [|x c]; [by destruct (no_nonempty _ Hc)|].
  assert (Hat : char_at (join ((x :: c) :: st)) 0 = x) by (by destruct st).
  rewrite Hat. apply not_elem_of_cons in Hn as [Hn _].
  pose proof (no_slash _ Hc) as Hs. apply not_elem_of_cons in Hs as [Hs _]. done.
Qed.

Lemma join_app st st' : st ≠ [] → st' ≠ [] → join (st ++ st') = join st ++ SLASH :: join st'.
Proof.
  intros Hst Hst'. induction st as [|c st IH]; [done|]. destruct st as [|d st].
  - by destruct st'.
  - change (join ((c :: d :: st) ++ st')) with (c ++ SLASH :: join ((d :: st) ++ st')).
    change (join (c :: d :: st)) with (c ++ SLASH :: join (d :: st)).
    rewrite IH by done. by rewrite <- app_assoc.
Qed.

(** ** Component prefixes *)

Lemma prefix_of_join cs ms :
  names cs → names ms → ms ≠ [] →
  (∃ rest, join cs = join ms ++ rest ∧ match rest with [] => True | c :: _ => c = SLASH end) ↔
  ms `prefix_of` cs.
Proof.
  intros Hcs Hms Hne. split.
  - intros (rest & Heq & Hr).
    assert (Hcomp : components (join ms ++ rest) = ms ++ components rest).
    { clear Heq Hcs. induction ms as [|m ms IH]; [done|]. apply names_cons in Hms as [[Hm Hn] Hms].
      destruct ms as [|m' ms].
      - simpl. rewrite components_app by (done || apply Hm). done.
      - change (join (m :: m' :: ms)) with (m ++ SLASH :: join (m' :: ms)).
        rewrite <- app_assoc. rewrite components_app by (done || apply Hm).
        change ((m :: m' :: ms) ++ components rest) with (m :: ((m' :: ms) ++ components rest)).
        f_equal. exact (IH Hms ltac:(done)). }
    rewrite <- Heq, components_join in Hcomp by apply Hcs. rewrite Hcomp. by exists (components rest).
  - intros [ks ->]. destruct ks as [|k ks].
    + exists []. by rewrite !app_nil_r.
    + exists (SLASH :: join (k :: ks)). split; [by apply join_app|done].
Qed.

Lemma starts_with_component_join cs ms :
  names cs → names ms →
  path_starts_with_component (join cs) (join ms) = bool_decide (ms `prefix_of` cs).
Proof.
  intros Hcs Hms. unfold path_starts_with_component. destruct ms as [|m ms].
  { symmetry. apply bool_decide_eq_true_2, prefix_nil. }
  destruct (join_head (m :: ms) Hms ltac:(done)) as [Hh _].
  case_bool_decide as Hnul; [done|]. clear Hnul.
  apply Bool.eq_true_iff_eq. rewrite bool_decide_eq_true.
  rewrite starts_with_loop_spec by (apply join_nonul; apply Hcs || apply Hms).
  by apply prefix_of_join.
Qed.

(** The path a mount hands to its back end: its root, then what is below the mount. *)
Lemma backend_path_join cs ms rs out_size :
  names cs → names ms → names rs → ms `prefix_of` cs →
  (length (join (rs ++ drop (length ms) cs)) < out_size)%nat →
  make_mount_backend_path (join cs) (join ms) (join rs) out_size =
    Some (join (rs ++ drop (length ms) cs)).
Proof.
  intros Hcs Hms Hrs Hpre Hlen. unfold make_mount_backend_path.
  rewrite (proj2 (Nat.eqb_neq _ 0)) by lia.
  rewrite starts_with_component_join, bool_decide_eq_true_2 by done. cbn [negb].
  destruct Hpre as [ks ->]. rewrite drop_app_length in *.
  apply names_app in Hcs as [_ Hks].
  assert (Hrest : skip_slashes (drop (length (join ms)) (join (ms ++ ks))) = join ks).
  { destruct ks as [|k ks]; [by rewrite app_nil_r, drop_all|].
    destruct (join_head (k :: ks) Hks ltac:(done)) as [_ Hsl].
    assert (Hskip : ∀ l, char_at l 0 ≠ SLASH → skip_slashes l = l).
    { intros [|x l] Hx; [done|]. unfold char_at in Hx. simpl in *. by rewrite bool_decide_eq_false_2. }
    destruct ms as [|m ms]; [simpl; by apply Hskip|].
    rewrite join_app, drop_app_length by done. simpl. by apply Hskip. }
  rewrite Hrest. destruct ks as [|k ks].
  - simpl. rewrite app_nil_r in *. unfold copy_path_string. by rewrite copy_string_id.
  - destruct (join_head (k :: ks) Hks ltac:(done)) as [Hnn _]. rewrite bool_decide_eq_false_2 by done.
    unfold copy_path_string. destruct rs as [|r rs].
    + simpl length. cbn [Nat.eqb]. by rewrite copy_string_id.
    + rewrite join_app in * by done. rewrite length_app in Hlen. cbn [length] in Hlen.
      assert (Hne : length (join (r :: rs)) ≠ 0%nat).
      { intros Hz%nil_length_inv. destruct (join_head (r :: rs) Hrs ltac:(done)) as [Hh _].
        by rewrite Hz in Hh. }
      rewrite (proj2 (Nat.eqb_neq _ 0) Hne).
      destruct (Nat.leb_spec out_size (length (join (r :: rs)) + 1)); [lia|].
      rewrite !copy_string_id by lia. by rewrite firstn_all.
Qed.

(** ** The longest mount *)

Lemma best_mount_spec mounts p best :
  match best_mount mounts p best with
  | Some b =>
      (best = Some b ∨ (b ∈ mounts ∧ mnt_in_use b = true ∧
         path_starts_with_component p (mnt_path b) = true)) ∧
      (∀ b0, best = Some b0 → (length (mnt_path b0) ≤ length (mnt_path b))%nat) ∧
      (∀ m, m ∈ mounts → mnt_in_use m = true →
         path_starts_with_component p (mnt_path m) = true →
         (length (mnt_path m) ≤ length (mnt_path b))%nat)
  | None => best = None ∧ ∀ m, m ∈ mounts → mnt_in_use m = true →
      path_starts_with_component p (mnt_path m) = false
  end.
Proof.
  revert best. induction mounts as [|m mounts IH]; intros best; simpl.
  { destruct best; [|set_solver]. split_and!; [by left| |set_solver]. intros ? [= <-]. lia. }
  destruct (mnt_in_use m) eqn:Hu; simpl; cycle 1.
  { specialize (IH best). destruct (best_mount mounts p best) as [b|].
    - destruct IH as (H1 & H2 & H3). split_and!; [|done|].
      + destruct H1 as [?|(? & ? & ?)]; [by left|right; set_solver].
      + intros m' [->|Hm']%elem_of_cons Hu'; [congruence|by apply H3].
    - destruct IH as [-> H]. split; [done|]. intros m' [->|Hm']%elem_of_cons Hu'; [congruence|by apply H]. }
  destruct (path_starts_with_component p (mnt_path m)) eqn:Hs; simpl; cycle 1.
  { specialize (IH best). destruct (best_mount mounts p best) as [b|].
    - destruct IH as (H1 & H2 & H3). split_and!; [|done|].
      + destruct H1 as [?|(? & ? & ?)]; [by left|right; set_solver].
      + intros m' [->|Hm']%elem_of_cons Hu' Hs'; [congruence|by apply H3].
    - destruct IH as [-> H]. split; [done|]. intros m' [->|Hm']%elem_of_cons Hu'; [done|by apply H]. }
  match goal with |- context [best_mount mounts p ?b] => set (best' := b) end.
  assert (Hb' : ∃ b', best' = Some b' ∧ (b' = m ∨ best = Some b') ∧
    (length (mnt_path m) ≤ length (mnt_path b'))%nat ∧
    ∀ b0, best = Some b0 → (length (mnt_path b0) ≤ length (mnt_path b'))%nat).
  { unfold best'. destruct best as [b0|].
    - destruct (Nat.ltb_spec (length (mnt_path b0)) (length (mnt_path m))).
      + exists m. split_and!; [done|by left|lia|]. intros ? [= <-]. lia.
      + exists b0. split_and!; [done|by right|lia|]. intros ? [= <-]. lia.
    - exists m. split_and!; [done|by left|lia|done]. }
  destruct Hb' as (b' & Hb' & Hor & Hm & Hold). specialize (IH best').
  destruct (best_mount mounts p best') as [b|]; [|by destruct IH as [? _]; congruence].
  destruct IH as (H1 & H2 & H3). specialize (H2 b' Hb'). split_and!.
  - destruct H1 as [H1|(? & ? & ?)]; [|right; set_solver]. rewrite Hb' in H1. injection H1 as ->.
    destruct Hor as [->|]; [right; set_solver|by left].
  - intros b0 Hb0. specialize (Hold b0 Hb0). lia.
  - intros m' [->|Hm']%elem_of_cons Hu' Hs'; [lia|by apply H3].
Qed.

(** ** The mount table as a map *)

(** What the table promises: a finite map from mount points to back ends and roots,
    both as components. *)
Definition mount_entry (m : vfs_mount) : list cstr * (backend * list cstr) :=
  (components (mnt_path m), (mnt_backend m, components (mnt_root m))).

Definition in_use (mounts : list vfs_mount) : list vfs_mount :=
  filter (λ m, mnt_in_use m = true) mounts.

Definition mount_map (mounts : list vfs_mount) : gmap (list cstr) (backend * list cstr) :=
  list_to_map (mount_entry <$> in_use mounts).

Definition clean (p : cstr) : Prop := ∃ st, names st ∧ p = join st ∧ (length p < MAX_VFS_PATH)%nat.

(** Every entry in use holds normalised paths, and no path is mounted twice. *)
Record mounts_wf (mounts : list vfs_mount) : Prop := {
  mw_clean : ∀ m, m ∈ in_use mounts → clean (mnt_path m) ∧ clean (mnt_root m);
  mw_nodup : NoDup (mnt_path <$> in_use mounts)
}.

Lemma clean_components p : clean p → names (components p) ∧ p = join (components p).
Proof. intros (st & Hst & -> & _). rewrite components_join by apply Hst. done. Qed.

Lemma entry_keys mounts : mounts_wf mounts → NoDup (mount_entry <$> in_use mounts).*1.
Proof.
  intros [Hc Hn]. rewrite <- list_fmap_compose. revert Hc Hn.
  generalize (in_use mounts). intros l. induction l as [|m l IH]; intros Hc Hn; [constructor|].
  apply NoDup_cons in Hn as [Hm Hn]. apply NoDup_cons. split; [|apply IH; [set_solver|done]].
  intros (m' & Heq & Hm')%list_elem_of_fmap. apply Hm. simpl in Heq.
  destruct (Hc m ltac:(set_solver)) as [[_ ->]%clean_components _]. rewrite Heq.
  destruct (Hc m' ltac:(set_solver)) as [[_ Hp]%clean_components _].
  apply list_elem_of_fmap. exists m'. split; [by rewrite <- Hp|done].
Qed.

Lemma mount_map_lookup mounts ms b rs : mounts_wf mounts →
  mount_map mounts !! ms = Some (b, rs) ↔
  ∃ m, m ∈ in_use mounts ∧ mnt_backend m = b ∧ mnt_path m = join ms ∧ mnt_root m = join rs ∧
    names ms ∧ names rs.
Proof.
  intros Hwf. unfold mount_map. rewrite <- elem_of_list_to_map by (by apply entry_keys).
  rewrite list_elem_of_fmap. split.
  - intros (m & Heq & Hm). injection Heq as -> -> ->. exists m.
    destruct (mw_clean _ Hwf m Hm) as [[Hn Hp]%clean_components [Hn' Hp']%clean_components]. done.
  - intros (m & Hm & <- & Hp & Hr & Hn & Hn'). exists m. split; [|done]. unfold mount_entry.
    by rewrite Hp, Hr, !components_join by (apply Hn || apply Hn').
Qed.

Lemma join_prefix_length ms ms' : names ms → names ms' → ms' `prefix_of` ms →
  (length (join ms) ≤ length (join ms'))%nat → ms = ms'.
Proof.
  intros Hms Hms' [ks ->] Hlen. destruct ks as [|k ks]; [by rewrite app_nil_r|].
  apply names_app in Hms as [_ Hk]. destruct ms' as [|m ms'].
  - destruct (join_head (k :: ks) Hk ltac:(done)) as [Hh _].
    change (length (join (k :: ks)) ≤ 0)%nat in Hlen. destruct (join (k :: ks)); [done|simpl in Hlen; lia].
  - rewrite join_app, length_app in Hlen by done. simpl in Hlen. lia.
Qed.

Lemma find_mount_spec mounts cs n :
  mounts_wf mounts → names cs →
  (∀ ms b rs, mount_map mounts !! ms = Some (b, rs) → ms `prefix_of` cs →
     (length (join (rs ++ drop (length ms) cs)) < n)%nat) →
  match find_mount_for_path mounts (join cs) n with
  | Some (m, p) => ∃ ms rs,
      mount_map mounts !! ms = Some (mnt_backend m, rs) ∧ ms `prefix_of` cs ∧
      (∀ ms', is_Some (mount_map mounts !! ms') → ms' `prefix_of` cs → ms' `prefix_of` ms) ∧
      p = join (rs ++ drop (length ms) cs)
  | None => ∀ ms, ms `prefix_of` cs → mount_map mounts !! ms = None
  end.
Proof.
  intros Hwf Hcs Hfit. unfold find_mount_for_path.
  pose proof (best_mount_spec mounts (join cs) None) as Hbest.
  destruct (best_mount mounts (join cs) None) as [m|].
  - destruct Hbest as ([?|(Hm & Hu & Hs)] & _ & Hmax); [done|].
    assert (Hmu : m ∈ in_use mounts) by (apply list_elem_of_filter; done).
    destruct (mw_clean _ Hwf m Hmu) as [[Hn Hp]%clean_components [Hn' Hp']%clean_components].
    set (ms := components (mnt_path m)) in *. set (rs := components (mnt_root m)) in *.
    rewrite Hp, starts_with_component_join in Hs by done. apply bool_decide_eq_true in Hs.
    assert (Hlk : mount_map mounts !! ms = Some (mnt_backend m, rs)).
    { apply mount_map_lookup; [done|]. by exists m. }
    rewrite Hp, Hp', backend_path_join by eauto. exists ms, rs. split_and!; [done..| |done].
    intros ms' [[b' rs'] Hlk'] Hpre'. apply mount_map_lookup in Hlk' as (m' & Hm' & _ & Hq & _ & Hq' & _); [|done].
    apply list_elem_of_filter in Hm' as [Hu' Hm'].
    specialize (Hmax m' Hm' Hu'). rewrite Hq, starts_with_component_join in Hmax by done.
    specialize (Hmax (bool_decide_eq_true_2 _ Hpre')). rewrite Hp in Hmax.
    destruct (prefix_weak_total ms ms' cs Hs Hpre') as [Hw|Hw]; [|done].
    by rewrite (join_prefix_length ms' ms).
  - destruct Hbest as [_ Hnone]. intros ms Hpre.
    destruct (mount_map mounts !! ms) as [[b rs]|] eqn:Hlk; [|done].
    apply mount_map_lookup in Hlk as (m & Hm & _ & Hq & _ & Hq' & _); [|done].
    apply list_elem_of_filter in Hm as [Hu Hm]. specialize (Hnone m Hm Hu).
    rewrite Hq, starts_with_component_join in Hnone by done.
    by apply bool_decide_eq_false in Hnone.
Qed.

(** ** Changing the table *)

Lemma components_acc_nonul s cur : NUL ∉ s → NUL ∉ cur → Forall (λ c, NUL ∉ c) (components_acc s cur).
Proof.
  revert cur. induction s as [|c s IH]; intros cur Hs Hcur; simpl.
  { destruct cur; [constructor|]. by apply Forall_singleton. }
  apply not_elem_of_cons in Hs as [Hc Hs]. case_bool_decide.
  - destruct cur; [apply IH; set_solver|]. apply Forall_cons. split; [done|apply IH; set_solver].
  - apply IH; [done|]. set_solver.
Qed.

Lemma resolve_nonul cs : Forall (λ c, NUL ∉ c) cs → Forall (λ c, NUL ∉ c) (resolve cs).
Proof.
  unfold resolve. assert (Hnil : Forall (λ c : cstr, NUL ∉ c) []) by constructor. revert Hnil.
  generalize (@nil cstr) as acc. induction cs as [|c cs IH]; intros acc Hacc Hcs; simpl; [done|].
  apply Forall_cons in Hcs as [Hc Hcs]. apply IH; [|done]. unfold resolve_step.
  destruct (component_is_dot c); [done|]. destruct (component_is_dotdot c); [by apply Forall_take|].
  apply Forall_app. split; [done|by apply Forall_singleton].
Qed.

(** Normalisation of a path without terminators gives names that fit. *)
Lemma normalize_names p out_size :
  (0 < out_size)%nat → NUL ∉ p →
  match normalize_path (Some p) out_size with
  | Some q => q = join (resolve (components p)) ∧ names (resolve (components p)) ∧
      (length q < out_size)%nat
  | None => (out_size ≤ length p)%nat
  end.
Proof.
  intros Ho Hp. pose proof (normalize_path_components p out_size Ho) as Hc.
  destruct (normalize_path (Some p) out_size) as [q|] eqn:Hn; [|done].
  apply normalize_fits in Hn. destruct Hc as [-> Hc]. split_and!; [done| |done].
  split; [done|]. apply resolve_nonul, components_acc_nonul; [done|apply not_elem_of_nil].
Qed.

Lemma in_use_insert mounts i m m' : mounts !! i = Some m → mnt_in_use m' = true → ∃ rest,
  in_use (<[i := m']> mounts) ≡ₚ m' :: rest ∧
  in_use mounts ≡ₚ (if mnt_in_use m then m :: rest else rest).
Proof.
  intros Hi Hu. exists (in_use (take i mounts) ++ in_use (drop (S i) mounts)). unfold in_use. split.
  - rewrite insert_take_drop by (by eapply lookup_lt_Some). rewrite filter_app.
    rewrite filter_cons_True by done. by rewrite <- Permutation_middle.
  - transitivity (filter (λ m, mnt_in_use m = true) (take i mounts ++ m :: drop (S i) mounts));
      [by rewrite take_drop_middle|]. rewrite filter_app. destruct (mnt_in_use m) eqn:Hm.
    + rewrite filter_cons_True by done. by rewrite <- Permutation_middle.
    + rewrite filter_cons_False by congruence. done.
Qed.

Lemma mount_map_insert mounts i m m' :
  mounts_wf mounts → mounts !! i = Some m → mnt_in_use m' = true →
  clean (mnt_path m') → clean (mnt_root m') →
  (mnt_in_use m = true ∧ mnt_path m' = mnt_path m ∨
   mnt_in_use m = false ∧ mnt_path m' ∉ (mnt_path <$> in_use mounts)) →
  mounts_wf (<[i := m']> mounts) ∧
  mount_map (<[i := m']> mounts) =
    <[components (mnt_path m') := (mnt_backend m', components (mnt_root m'))]> (mount_map mounts).
Proof.
  intros Hwf Hi Hu Hcp Hcr Hcase. destruct (in_use_insert mounts i m m' Hi Hu) as (rest & Hnew & Hold).
  assert (Hrest : ∀ x, x ∈ rest → x ∈ in_use mounts).
  { intros x Hx. rewrite Hold. destruct (mnt_in_use m); set_solver. }
  assert (Hnd : NoDup (mnt_path <$> m' :: rest)).
  { pose proof (mw_nodup _ Hwf) as Hnd. rewrite Hold in Hnd.
    destruct Hcase as [[Hm Heq]|[Hm Hnin]]; rewrite Hm in Hnd.
    - simpl in *. by rewrite Heq.
    - simpl. apply NoDup_cons. split; [|done]. rewrite Hold, Hm in Hnin. done. }
  assert (Hwf' : mounts_wf (<[i := m']> mounts)).
  { split.
    - intros x Hx. rewrite Hnew in Hx. apply elem_of_cons in Hx as [->|Hx]; [done|].
      apply (mw_clean _ Hwf). auto.
    - by rewrite Hnew. }
  split; [done|]. pose proof (entry_keys _ Hwf) as Hk. pose proof (entry_keys _ Hwf') as Hk'.
  unfold mount_map.
  rewrite (list_to_map_proper (mount_entry <$> in_use (<[i := m']> mounts)) (mount_entry <$> m' :: rest))
    by (done || by rewrite Hnew).
  simpl. destruct Hcase as [[Hm Heq]|[Hm _]]; rewrite Hm in Hold.
  - rewrite (list_to_map_proper (mount_entry <$> in_use mounts) (mount_entry <$> m :: rest))
      by (done || by rewrite Hold).
    simpl. by rewrite Heq, insert_insert_eq.
  - by rewrite (list_to_map_proper (mount_entry <$> in_use mounts) (mount_entry <$> rest))
      by (done || by rewrite Hold).
Qed.

Lemma mount_map_size mounts : mounts_wf mounts → size (mount_map mounts) = length (in_use mounts).
Proof.
  intros Hwf. unfold mount_map. rewrite map_size_list_to_map by (by apply entry_keys).
  by rewrite length_fmap.
Qed.

(** ** Properties *)

(** C28 (refinement): the mount table is a finite map from mount points to back ends.
    [vfs_mount] keeps the paths normalised and distinct; when it succeeds it adds or
    replaces exactly the entry of the resolved path, and it fails only for a path that is
    too long or when every slot is taken by another mount point. *)
Theorem vfs_mount_refines mounts path b root :
  mounts_wf mounts → NUL ∉ path → NUL ∉ root →
  match vfs_mount_op (Some path) b (Some root) mounts with
  | (true, mounts') =>
      mounts_wf mounts' ∧ length mounts' = length mounts ∧
      mount_map mounts' =
        <[resolve (components path) := (b, resolve (components root))]> (mount_map mounts)
  | (false, mounts') => mounts' = mounts ∧
      ((MAX_VFS_PATH ≤ length path)%nat ∨ (MAX_VFS_PATH ≤ length root)%nat ∨
       mount_map mounts !! resolve (components path) = None ∧
       size (mount_map mounts) = length mounts)
  end.
Proof.
  intros Hwf Hp Hr. unfold vfs_mount_op.
  pose proof (normalize_names path MAX_VFS_PATH ltac:(unfold MAX_VFS_PATH; lia) Hp) as Hnp.
  pose proof (normalize_names root MAX_VFS_PATH ltac:(unfold MAX_VFS_PATH; lia) Hr) as Hnr.
  destruct (normalize_path (Some path) _) as [np|]; [|by auto].
  destruct (normalize_path (Some root) _) as [nr|]; [|by auto].
  destruct Hnp as (Enp & Hcp & Hlp), Hnr as (Enr & Hcr & Hlr).
  unfold copy_path_string. rewrite !copy_string_id by done.
  assert (Hclp : clean np) by (exists (resolve (components path)); done).
  assert (Hclr : clean nr) by (exists (resolve (components root)); done).
  assert (Ecp : components np = resolve (components path)) by (rewrite Enp; apply components_join, Hcp).
  assert (Ecr : components nr = resolve (components root)) by (rewrite Enr; apply components_join, Hcr).
  destruct (find_idx _ mounts) as [i|] eqn:Hf.
  - apply find_idx_Some in Hf as (m & Hi & [Hu Heq]%andb_true_iff & _). apply path_equals_spec in Heq.
    rewrite (list_alter_ext _ (λ _, VfsMount (mnt_in_use m) b (mnt_path m) nr) mounts mounts i)
      by (done || by intros; simplify_eq).
    rewrite <- list_insert_alter, length_insert. destruct (mount_map_insert mounts i m
      (VfsMount (mnt_in_use m) b (mnt_path m) nr) Hwf Hi Hu ltac:(by rewrite Heq) Hclr ltac:(by left)) as [Hw Hm].
    simpl in Hm. rewrite Heq, Ecp, Ecr in Hm. by rewrite Heq in *.
  - assert (Hnin : np ∉ (mnt_path <$> in_use mounts)).
    { intros (m & -> & [Hu [j Hj]%list_elem_of_lookup]%list_elem_of_filter)%list_elem_of_fmap.
      pose proof (proj1 (find_idx_None _ _) Hf j m Hj) as Hz. simpl in Hz.
      by rewrite Hu, path_equals_refl in Hz. }
    destruct (find_idx (λ m, negb (mnt_in_use m)) mounts) as [i|] eqn:Hg.
    + apply find_idx_Some in Hg as (m & Hi & Hu%negb_true_iff & _). rewrite length_insert.
      destruct (mount_map_insert mounts i m (VfsMount true b np nr) Hwf Hi eq_refl Hclp Hclr
        ltac:(by right)) as [Hw Hm].
      simpl in Hm. by rewrite Ecp, Ecr in Hm.
    + split; [done|]. right. right. split.
      * destruct (mount_map mounts !! _) as [[b' rs']|] eqn:Hlk; [|done].
        apply mount_map_lookup in Hlk as (m & Hm & _ & Hq & _); [|done].
        exfalso. apply Hnin, list_elem_of_fmap. exists m. by rewrite Enp, Hq.
      * rewrite mount_map_size by done. unfold in_use. f_equal.
        clear -Hg. induction mounts as [|m l IH]; [done|].
        simpl in Hg. destruct (mnt_in_use m) eqn:Hm; [|done]. simpl in Hg.
        destruct (find_idx _ l) eqn:Hl; [done|]. rewrite filter_cons_True by done. by rewrite IH.
Qed.

Lemma vfs_mount_refines_witness :
  match vfs_mount_op (Some (lit "/mnt//usb/")) BACKEND_FAT32 (Some (lit "fat32"))
    (replicate VFS_MAX_MOUNTS zero_mount) with
  | (true, mounts') => mount_map mounts' =
      <[resolve (components (lit "/mnt//usb/")) := (BACKEND_FAT32, resolve (components (lit "fat32")))]>
        (mount_map (replicate VFS_MAX_MOUNTS zero_mount))
  | (false, _) => False
  end ∧ resolve (components (lit "/mnt//usb/")) = [lit "mnt"; lit "usb"].
Proof.
  split; [|reflexivity].
  pose proof (vfs_mount_refines (replicate VFS_MAX_MOUNTS zero_mount) (lit "/mnt//usb/") BACKEND_FAT32
    (lit "fat32")) as H.
  destruct (vfs_mount_op _ _ _ _) as [r mounts'] eqn:E. assert (r = true) as ->.
  { transitivity (r, mounts').1; [done|]. rewrite <- E. vm_compute. reflexivity. }
  apply H.
  - split; [intros m Hm; by apply elem_of_nil in Hm|constructor].
  - apply (bool_decide_unpack _). vm_compute. exact I.
  - apply (bool_decide_unpack _). vm_compute. exact I.
Defined.

(** C13 (functional): a path is served by the deepest mount point that is a component
    prefix of it, and the back end is handed the root of that mount followed by the
    components below the mount point; there is no result exactly when no mount point is a
    prefix.  (The back-end paths are assumed to fit the buffer.) *)
Theorem vfs_mount_resolution mounts cs n :
  mounts_wf mounts → names cs →
  (∀ ms b rs, mount_map mounts !! ms = Some (b, rs) → ms `prefix_of` cs →
     (length (join (rs ++ drop (length ms) cs)) < n)%nat) →
  match find_mount_for_path mounts (join cs) n with
  | Some (m, p) => ∃ ms rs,
      mount_map mounts !! ms = Some (mnt_backend m, rs) ∧ ms `prefix_of` cs ∧
      (∀ ms', is_Some (mount_map mounts !! ms') → ms' `prefix_of` cs → ms' `prefix_of` ms) ∧
      p = join (rs ++ drop (length ms) cs)
  | None => ∀ ms, ms `prefix_of` cs → mount_map mounts !! ms = None
  end.
Proof. apply find_mount_spec. Qed.

(** ** The mounts made at start *)

Lemma clean_normal p : NUL ∉ p → normalize_path (Some p) MAX_VFS_PATH = Some p → clean p.
Proof.
  intros Hp Hn. pose proof (normalize_names p MAX_VFS_PATH ltac:(unfold MAX_VFS_PATH; lia) Hp) as H.
  rewrite Hn in H. destruct H as (? & ? & ?). by exists (resolve (components p)).
Qed.

Lemma init_mounts_wf : mounts_wf init_mounts.
Proof.
  split.
  - assert (H : Forall (λ m,
      (NUL ∉ mnt_path m ∧ normalize_path (Some (mnt_path m)) MAX_VFS_PATH = Some (mnt_path m)) ∧
      (NUL ∉ mnt_root m ∧ normalize_path (Some (mnt_root m)) MAX_VFS_PATH = Some (mnt_root m)))
      (in_use init_mounts)) by (apply (bool_decide_unpack _); vm_compute; exact I).
    intros m Hm. rewrite Forall_forall in H. destruct (H m Hm) as [[? ?] [? ?]].
    split; by apply clean_normal.
  - apply (bool_decide_unpack _). vm_compute. exact I.
Qed.

(** No root is longer than its mount point, so a back-end path is never longer than the
    path it comes from. *)
Lemma join_replace_length ms rs ks :
  names ms → (length (join rs) ≤ length (join ms))%nat → names rs →
  (length (join (rs ++ ks)) ≤ length (join (ms ++ ks)))%nat.
Proof.
  intros Hms Hlen Hrs. destruct ks as [|k ks]; [by rewrite !app_nil_r|].
  destruct rs as [|r rs].
  - destruct ms as [|m ms]; [done|]. rewrite (join_app (m :: ms)), length_app by done.
    change ([] ++ k :: ks) with (k :: ks). cbn [length]. lia.
  - destruct ms as [|m ms].
    + destruct (join_head (r :: rs) Hrs ltac:(done)) as [Hh _].
      change (length (join [])) with 0%nat in Hlen. destruct (join (r :: rs)); [done|simpl in Hlen; lia].
    + rewrite !join_app, !length_app by done. cbn [length]. lia.
Qed.

Lemma init_roots_short ms b rs : mount_map init_mounts !! ms = Some (b, rs) →
  (length (join rs) ≤ length (join ms))%nat ∧ (b = BACKEND_TMPFS → ms = [lit "tmp"] ∧ rs = [lit "tmp"]) ∧
  ([lit "tmp"] `prefix_of` ms → ms = [lit "tmp"] ∧ b = BACKEND_TMPFS).
Proof.
  intros Hlk. assert (H : Forall (λ e : list cstr * (backend * list cstr),
    (length (join e.2.2) ≤ length (join e.1))%nat ∧
    (¬ e.2.1 = BACKEND_TMPFS ∨ e.1 = [lit "tmp"] ∧ e.2.2 = [lit "tmp"]) ∧
    (¬ [lit "tmp"] `prefix_of` e.1 ∨ e.1 = [lit "tmp"] ∧ e.2.1 = BACKEND_TMPFS))
    (mount_entry <$> in_use init_mounts)) by (apply (bool_decide_unpack _); vm_compute; exact I).
  rewrite Forall_forall in H. unfold mount_map in Hlk.
  apply elem_of_list_to_map in Hlk; [|apply entry_keys, init_mounts_wf].
  apply H in Hlk as (H1 & H2 & H3). cbn [fst snd] in H1, H2, H3. split_and!; [done| |].
  - by destruct H2.
  - by destruct H3.
Qed.

Lemma init_fits cs ms b rs : names cs → (length (join cs) < MAX_VFS_PATH)%nat →
  mount_map init_mounts !! ms = Some (b, rs) → ms `prefix_of` cs →
  (length (join (rs ++ drop (length ms) cs)) < MAX_VFS_PATH)%nat.
Proof.
  intros Hcs Hlen Hlk [ks ->]. rewrite drop_app_length.
  destruct (init_roots_short _ _ _ Hlk) as [Hs _].
  apply mount_map_lookup in Hlk as (m & _ & _ & _ & _ & Hms & Hrs); [|apply init_mounts_wf].
  pose proof (join_replace_length ms rs ks Hms Hs Hrs). lia.
Qed.

(** At start every path is mounted, and exactly those below [tmp] are served by the
    temporary file system, under their own name. *)
Lemma init_resolve cs : names cs → (length (join cs) < MAX_VFS_PATH)%nat →
  ∃ m p, find_mount_for_path init_mounts (join cs) MAX_VFS_PATH = Some (m, p) ∧
    (mnt_backend m = BACKEND_TMPFS ↔ [lit "tmp"] `prefix_of` cs) ∧
    (mnt_backend m = BACKEND_TMPFS → p = join cs).
Proof.
  intros Hcs Hlen.
  pose proof (find_mount_spec init_mounts cs MAX_VFS_PATH init_mounts_wf Hcs
    (λ ms b rs, init_fits cs ms b rs Hcs Hlen)) as H.
  assert (Hroot : mount_map init_mounts !! [] = Some (BACKEND_AOSFS, [])) by (vm_compute; reflexivity).
  assert (Htmp : mount_map init_mounts !! [lit "tmp"] = Some (BACKEND_TMPFS, [lit "tmp"]))
    by (vm_compute; reflexivity).
  destruct (find_mount_for_path _ _ _) as [[m p]|].
  - destruct H as (ms & rs & Hlk & Hpre & Hmax & Hp). exists m, p.
    destruct (init_roots_short _ _ _ Hlk) as (_ & H2 & H3). split_and!; [done| |].
    + split; [intros Hb; by destruct (H2 Hb) as [<- _]|]. intros Ht. apply H3.
      apply Hmax; [by rewrite Htmp|done].
    + intros Hb. destruct (H2 Hb) as [-> ->]. destruct Hpre as [ks ->]. by rewrite Hp, drop_app_length.
  - specialize (H [] (prefix_nil _)). congruence.
Qed.

Lemma vfs_mount_resolution_witness :
  match find_mount_for_path init_mounts (join [lit "mnt"; lit "fat32"; lit "x"]) MAX_VFS_PATH with
  | Some (m, p) => ∃ ms rs,
      mount_map init_mounts !! ms = Some (mnt_backend m, rs) ∧
      ms `prefix_of` [lit "mnt"; lit "fat32"; lit "x"] ∧
      (∀ ms', is_Some (mount_map init_mounts !! ms') →
         ms' `prefix_of` [lit "mnt"; lit "fat32"; lit "x"] → ms' `prefix_of` ms) ∧
      p = join (rs ++ drop (length ms) [lit "mnt"; lit "fat32"; lit "x"])
  | None => ∀ ms, ms `prefix_of` [lit "mnt"; lit "fat32"; lit "x"] → mount_map init_mounts !! ms = None
  end.
Proof.
  assert (Hcs : names [lit "mnt"; lit "fat32"; lit "x"]).
  { split; repeat (apply Forall_cons; split); try (apply Forall_nil; done);
      try (split; [done| |reflexivity..]); apply (bool_decide_unpack _); vm_compute; exact I. }
  apply (vfs_mount_resolution init_mounts [lit "mnt"; lit "fat32"; lit "x"] MAX_VFS_PATH init_mounts_wf Hcs).
  intros ms b rs. apply init_fits; [exact Hcs|]. apply (bool_decide_unpack _). vm_compute. exact I.
Defined.

(** ** Lookup through symbolic links *)

(** Two texts with a slash between them, when neither is empty. *)
Definition slash_join (a b : cstr) : cstr :=
  match a, b with [], _ => b | _, [] => a | _, _ => a ++ SLASH :: b end.

Definition absolute (target : cstr) : bool := bool_decide (char_at target 0 = SLASH).

(** The text a link in the directory [pre] stands for, with the components that follow it. *)
Definition link_text (pre : list cstr) (target : cstr) (rest : list cstr) : cstr :=
  slash_join (slash_join (if absolute target then [] else join pre) target) (join rest).

Lemma components_slash_join a b : components (slash_join a b) = components a ++ components b.
Proof.
  destruct a as [|x a]; [done|]. destruct b as [|y b]; [|apply components_slash].
  change (components []) with (@nil cstr). by rewrite app_nil_r.
Qed.

Lemma link_text_components pre target rest : Forall name_ok pre → Forall name_ok rest →
  components (link_text pre target rest) =
    (if absolute target then [] else pre) ++ components target ++ rest.
Proof.
  intros Hpre Hrest. unfold link_text. rewrite !components_slash_join, <- app_assoc.
  rewrite (components_join rest) by done. f_equal. destruct (absolute target); [done|].
  by apply components_join.
Qed.

Lemma slash_join_nonul a b : NUL ∉ a → NUL ∉ b → NUL ∉ slash_join a b.
Proof.
  intros Ha Hb. unfold slash_join. destruct a as [|x a]; [done|]. destruct b as [|y b]; [done|].
  by rewrite not_elem_of_app, (not_elem_of_cons (y :: b)).
Qed.

(** The checks of the buffer while a slash and a text are added, as one. *)
Lemma append_slash_text a b n : (length a < n)%nat → NUL ∉ b →
  (c ← (if negb (bool_decide (char_at b 0 = NUL)) then append_slash a n else Some a);
   append_text c n b) =
  if (length (slash_join a b) <? n)%nat then Some (slash_join a b) else None.
Proof.
  intros Ha Hb. destruct b as [|y b].
  - rewrite bool_decide_eq_true_2 by done. cbn [negb mbind option_bind]. unfold append_text.
    cbn [length Nat.eqb negb andb]. rewrite app_nil_r.
    destruct a; cbn [slash_join]; by rewrite (proj2 (Nat.ltb_lt _ _)) by done.
  - rewrite bool_decide_eq_false_2 by (intros E; apply Hb; rewrite <- E; by left).
    unfold append_slash, append_text. cbn [negb]. destruct a as [|x a].
    + change (length (@nil ascii) =? 0)%nat with true. change (length (y :: b) =? 0)%nat with false.
      cbn [slash_join negb andb mbind option_bind length Nat.add app].
      destruct (Nat.leb_spec n (S (length b))), (Nat.ltb_spec (S (length b)) n); done || lia.
    + change (length (x :: a) =? 0)%nat with false. change (length (y :: b) =? 0)%nat with false.
      assert (E : slash_join (x :: a) (y :: b) = ((x :: a) ++ [SLASH]) ++ (y :: b))
        by (cbn [slash_join]; by rewrite <- app_assoc).
      rewrite E. generalize (x :: a) (y :: b) Ha. intros a' b' Ha'.
      rewrite (length_app _ b'), (length_app a'). cbn [length negb andb].
      destruct (Nat.leb_spec n (length a' + 1)); cbn [mbind option_bind]; rewrite ?length_app; cbn [length];
        destruct (Nat.ltb_spec (length a' + 1 + length b') n); try lia; [done..| |];
        destruct (Nat.leb_spec n (length a' + 1 + length b')); done || lia.
Qed.

Lemma append_remaining a b n : (length a < n)%nat → NUL ∉ b →
  (if negb (bool_decide (char_at b 0 = NUL))
   then c ← append_slash a n; append_text c n b else Some a) =
  if (length (slash_join a b) <? n)%nat then Some (slash_join a b) else None.
Proof.
  intros Ha Hb. rewrite <- append_slash_text by done. destruct b as [|y b].
  - rewrite bool_decide_eq_true_2 by done. cbn [negb mbind option_bind]. unfold append_text.
    cbn [length Nat.eqb negb andb]. by rewrite app_nil_r.
  - by rewrite bool_decide_eq_false_2 by (intros E; apply Hb; rewrite <- E; by left).
Qed.

Lemma slash_join_length a b : (length a ≤ length (slash_join a b))%nat.
Proof.
  destruct a as [|x a]; [simpl; lia|]. destruct b as [|y b]; [done|].
  cbn [slash_join]. rewrite length_app. lia.
Qed.

Lemma join_app_length st st' : (length (join st) ≤ length (join (st ++ st')))%nat.
Proof.
  destruct st' as [|c st']; [by rewrite app_nil_r|]. destruct st as [|d st]; [simpl; lia|].
  rewrite join_app, length_app by done. lia.
Qed.

(** The destination is the text of the link, resolved; it fails exactly when the text does
    not fit the buffer. *)
Lemma build_link_destination_spec pre c target rest :
  names pre → name_ok c → names rest → NUL ∉ target →
  (length (join (pre ++ [c])) < MAX_VFS_PATH)%nat →
  build_link_destination (join (pre ++ [c])) target (join rest) MAX_VFS_PATH =
    if (length (link_text pre target rest) <? MAX_VFS_PATH)%nat
    then Some (join (resolve (components (link_text pre target rest)))) else None.
Proof.
  intros Hpre Hc Hrest Ht Hlen. unfold build_link_destination.
  set (base := if absolute target then [] else join pre).
  assert (Hbase : (length base < MAX_VFS_PATH)%nat).
  { unfold base. pose proof (join_app_length pre [c]). destruct (absolute target); simpl; [unfold MAX_VFS_PATH|]; lia. }
  assert (E1 : (combined ← (if negb (bool_decide (char_at target 0 = SLASH)) then
       parent ← VfsPath.parent_path_of (join (pre ++ [c])) MAX_VFS_PATH;
       c ← append_text [] MAX_VFS_PATH parent;
       if negb (bool_decide (char_at target 0 = NUL)) then append_slash c MAX_VFS_PATH else Some c
     else Some []); append_text combined MAX_VFS_PATH target) =
    if (length (slash_join base target) <? MAX_VFS_PATH)%nat then Some (slash_join base target) else None).
  { rewrite <- append_slash_text by done. unfold base, absolute. case_bool_decide as Hs.
    - cbn [negb mbind option_bind]. by destruct (bool_decide _).
    - cbn [negb]. rewrite parent_join by (done || apply Hpre). cbn [mbind option_bind].
      change (append_text [] MAX_VFS_PATH (join pre)) with
        (if negb (length (join pre) =? 0)%nat && (MAX_VFS_PATH <=? length (join pre))%nat
         then None else Some (join pre)).
      unfold base, absolute in Hbase. rewrite bool_decide_eq_false_2 in Hbase by done.
      rewrite (proj2 (Nat.leb_gt _ _)) by done. rewrite andb_false_r. done. }
  match type of E1 with mbind _ ?X = _ => destruct X as [x|] end; cbn [mbind option_bind] in E1 |- *; rewrite <- ?E1.
  all: pose proof (slash_join_length (slash_join base target) (join rest)) as Hle.
  all: unfold link_text; fold base.
  - rewrite E1. destruct (Nat.ltb_spec (length (slash_join base target)) MAX_VFS_PATH) as [Hl|Hl];
      cbn [mbind option_bind]; [|by rewrite (proj2 (Nat.ltb_ge _ _)) by lia].
    rewrite append_remaining by (done || by apply join_nonul, Hrest).
    destruct (Nat.ltb_spec (length (slash_join (slash_join base target) (join rest))) MAX_VFS_PATH) as [Hk|Hk];
      [|done]. cbn [mbind option_bind].
    pose proof (normalize_path_components (slash_join (slash_join base target) (join rest)) MAX_VFS_PATH
      ltac:(unfold MAX_VFS_PATH; lia)) as Hn.
    destruct (normalize_path _ _); [by destruct Hn as [-> _]|lia].
  - destruct (Nat.ltb_spec (length (slash_join base target)) MAX_VFS_PATH) as [Hl|Hl]; [done|].
    by rewrite (proj2 (Nat.ltb_ge _ _)) by lia.
Qed.

(** ** Following links *)

Section lookup.
  Context {B : Type} `{!Backends B}.
  Implicit Types v : @vfs B.

(** The node at a normalised path, when it is there and is not a symbolic link. *)
Definition plain (st : list cstr) (v : vfs) : Prop :=
  ∃ m, lookup_normalized (join st) v = Some m ∧ node_type_of m ≠ NODE_SYMLINK.

(** Every proper and improper prefix of a path but the root. *)
Definition plain_path (st : list cstr) (v : vfs) : Prop :=
  ∀ k, (0 < k ≤ length st)%nat → plain (take k st) v.

(** The component [c] of the directory [pre] is a link, and what follows is looked up at
    its target: from the root when the target is absolute, from [pre] otherwise. *)
Definition link_at (v : vfs) (pre : list cstr) (c : cstr) (rest st' : list cstr) : Prop :=
  ∃ m text, lookup_normalized (join (pre ++ [c])) v = Some m ∧ node_type_of m = NODE_SYMLINK ∧
    readlink_node m (MAX_VFS_PATH - 1) v = Some text ∧
    (length (link_text pre (c_string text) rest) < MAX_VFS_PATH)%nat ∧
    st' = resolve ((if absolute (c_string text) then [] else pre) ++ components (c_string text) ++ rest).

(** One link followed: the first one on the path. *)
Definition link_step (v : vfs) (st st' : list cstr) : Prop :=
  ∃ pre c rest, st = pre ++ c :: rest ∧ plain_path pre v ∧ link_at v pre c rest st'.

Lemma join_cut c st :
  name_ok c → Forall name_ok st →
  component_len (join (c :: st)) = length c ∧ take (length c) (join (c :: st)) = c ∧
  skip_slashes (drop (length c) (join (c :: st))) = join st.
Proof.
  intros Hc Hst. destruct st as [|d st].
  - simpl. rewrite firstn_all, drop_all. split_and!; [|done..].
    rewrite <- (app_nil_r c) at 1. by rewrite component_len_app by (done || apply Hc).
  - change (join (c :: d :: st)) with (c ++ SLASH :: join (d :: st)).
    rewrite take_app_length, drop_app_length. rewrite component_len_app by (done || apply Hc).
    split_and!; [done..|]. simpl skip_slashes. apply Forall_cons in Hst as [Hd _].
    destruct d as [|x d]; [by destruct (no_nonempty _ Hd)|].
    pose proof (no_slash _ Hd) as Hs. apply not_elem_of_cons in Hs as [Hs _].
    destruct st; simpl; by rewrite bool_decide_eq_false_2.
Qed.

Lemma plain_path_nil v : plain_path [] v.
Proof. intros k. simpl. lia. Qed.

Lemma plain_path_take v st k : plain_path st v → plain_path (take k st) v.
Proof.
  intros Hp j Hj. rewrite length_take in Hj. rewrite take_take, Nat.min_l by lia. apply Hp. lia.
Qed.

Lemma plain_path_snoc pre c v : plain_path pre v → plain (pre ++ [c]) v → plain_path (pre ++ [c]) v.
Proof.
  intros Hp Hc k Hk. rewrite length_app in Hk. simpl in Hk.
  destruct (decide (k = length pre + 1)%nat) as [->|].
  - by rewrite take_ge by (rewrite length_app; done).
  - rewrite take_app_le by lia. apply Hp. lia.
Qed.

Lemma not_plain_path pre c rest v : ¬ plain (pre ++ [c]) v → ¬ plain_path (pre ++ c :: rest) v.
Proof.
  intros Hn Hp. apply Hn. rewrite cons_middle, app_assoc in Hp.
  specialize (Hp (length (pre ++ [c]))). rewrite take_app_length in Hp. apply Hp.
  rewrite !length_app. simpl. lia.
Qed.

Lemma link_at_not_plain v pre c rest st' : link_at v pre c rest st' → ¬ plain (pre ++ [c]) v.
Proof. intros (m & ? & ? & ? & _) (m' & ? & ?). congruence. Qed.

Lemma take_snoc (pre : list cstr) c rest : take (S (length pre)) (pre ++ c :: rest) = pre ++ [c].
Proof.
  rewrite cons_middle, app_assoc. apply take_app_length'. rewrite length_app. simpl. lia.
Qed.

(** The link that is followed is the first on the path. *)
Lemma link_step_first v pre c rest st' : plain_path pre v → ¬ plain (pre ++ [c]) v →
  link_step v (pre ++ c :: rest) st' → link_at v pre c rest st'.
Proof.
  intros Hp Hn (pre' & c' & rest' & E & Hp' & Hl).
  assert (Hlen : length pre = length pre').
  { destruct (lt_eq_lt_dec (length pre) (length pre')) as [[Hlt|]|Hlt]; [|done|]; exfalso.
    - apply (not_plain_path pre c (drop (S (length pre)) pre') v Hn).
      assert (Ec : pre' = pre ++ c :: drop (S (length pre)) pre'); [|by rewrite <- Ec].
      rewrite <- (take_drop (S (length pre)) pre') at 1. rewrite cons_middle, app_assoc. f_equal.
      pose proof (f_equal (take (S (length pre))) E) as Et. rewrite (take_app_le pre') in Et by lia.
      rewrite <- Et. apply take_snoc.
    - apply link_at_not_plain in Hl. apply (not_plain_path pre' c' (drop (S (length pre')) pre) v Hl).
      assert (Ec : pre = pre' ++ c' :: drop (S (length pre')) pre); [|by rewrite <- Ec].
      rewrite <- (take_drop (S (length pre')) pre) at 1. rewrite cons_middle, app_assoc. f_equal.
      pose proof (f_equal (take (S (length pre'))) E) as Et. rewrite (take_app_le pre) in Et by lia.
      rewrite Et. apply take_snoc. }
  apply app_inj_1 in E as [-> E]; [|done]. by simplify_eq.
Qed.

Lemma link_step_det v st st1 st2 : link_step v st st1 → link_step v st st2 → st1 = st2.
Proof.
  intros (pre & c & rest & -> & Hp & H1) H2.
  apply link_step_first in H2; [|done|by eapply link_at_not_plain].
  destruct H1 as (? & ? & ? & _ & ? & _ & ->), H2 as (? & ? & ? & _ & ? & _ & ->). simplify_eq. done.
Qed.

Lemma link_step_not_plain v st st' : link_step v st st' → ¬ plain_path st v.
Proof. intros (pre & c & rest & -> & _ & Hl). by eapply not_plain_path, link_at_not_plain. Qed.

Lemma join_tail_length c rest : c ≠ [] → (length (join rest) < length (join (c :: rest)))%nat.
Proof.
  intros Hc. assert (Hl : (0 < length c)%nat) by (destruct c; [done|simpl; lia]).
  destruct rest as [|d rest]; [done|].
  change (join (c :: d :: rest)) with (c ++ SLASH :: join (d :: rest)). rewrite length_app. simpl. lia.
Qed.

(** Following a link keeps the path well formed and short. *)
Lemma link_step_names v st st' : names st → link_step v st st' →
  names st' ∧ (length (join st') < MAX_VFS_PATH)%nat.
Proof.
  intros Hst (pre & c & rest & -> & _ & (m & text & _ & _ & _ & Hlen & ->)).
  apply names_app in Hst as [Hpre [Hr1 Hr2]]. apply Forall_cons in Hr1 as [_ Hr1], Hr2 as [_ Hr2].
  rewrite <- link_text_components by (done || apply Hpre).
  assert (Hnn : NUL ∉ link_text pre (c_string text) rest).
  { unfold link_text. apply slash_join_nonul; [|by apply join_nonul].
    apply slash_join_nonul; [|apply c_string_nonul].
    destruct (absolute _); [apply not_elem_of_nil|]. apply join_nonul, Hpre. }
  pose proof (normalize_names (link_text pre (c_string text) rest) MAX_VFS_PATH
    ltac:(unfold MAX_VFS_PATH; lia) Hnn) as H.
  destruct (normalize_path _ _) as [q|]; [|lia]. by destruct H as (-> & ? & ?).
Qed.

(** One round of the component loop, on components. *)
Lemma links_pass_step fuel last_hop pre c rest v :
  names (pre ++ c :: rest) → (length (join (pre ++ c :: rest)) < MAX_VFS_PATH)%nat →
  links_pass (S fuel) true last_hop (join pre) (join (c :: rest)) v =
  match lookup_normalized (join (pre ++ [c])) v with
  | None => PassFail
  | Some node =>
      if bool_decide (node_type_of node = NODE_SYMLINK) then
        if last_hop then PassFail
        else match readlink_node node (MAX_VFS_PATH - 1) v with
             | None => PassFail
             | Some text =>
                 if (length (link_text pre (c_string text) rest) <? MAX_VFS_PATH)%nat
                 then PassFollow (join (resolve (components (link_text pre (c_string text) rest))))
                 else PassFail
             end
      else links_pass fuel true last_hop (join (pre ++ [c])) (join rest) v
  end.
Proof.
  intros Hok Hlen. rewrite cons_middle, app_assoc in Hok, Hlen.
  apply names_app in Hok as [[Hpre Hc]%names_app Hrest].
  pose proof (proj1 (Forall_singleton name_ok c) (proj1 Hc)) as Hc'.
  destruct (join_cut c rest Hc' (proj1 Hrest)) as (E1 & E2 & E3).
  pose proof (join_app_length (pre ++ [c]) rest) as Hstep.
  cbn [links_pass]. destruct (join (c :: rest)) as [|x cur] eqn:Ecur.
  { exfalso. pose proof (no_nonempty _ Hc'). destruct rest; simpl in Ecur; [done|]. by destruct c. }
  rewrite E1, E2, E3, append_join by apply Hpre.
  rewrite (proj2 (Nat.ltb_lt _ _)) by lia. cbn [orb].
  destruct (lookup_normalized _ _) as [node|]; [|done]. rewrite andb_true_r. case_bool_decide; [|done].
  destruct last_hop; [done|]. destruct (readlink_node _ _ _) as [text|]; [|done].
  rewrite build_link_destination_spec by (done || lia || apply c_string_nonul).
  by destruct (_ <? _)%nat.
Qed.

(** A pass over the components after [pre] ends without following a link exactly when all
    the prefixes it visits are plain, and follows the first link among them otherwise. *)
Lemma links_pass_spec fuel last_hop pre rest v :
  names (pre ++ rest) → (length (join rest) ≤ fuel)%nat →
  (length (join (pre ++ rest)) < MAX_VFS_PATH)%nat → plain_path pre v →
  match links_pass fuel true last_hop (join pre) (join rest) v with
  | PassDone => plain_path (pre ++ rest) v
  | PassFollow q => last_hop = false ∧ ∃ st', link_step v (pre ++ rest) st' ∧ q = join st'
  | PassFail => ¬ plain_path (pre ++ rest) v ∧
      (last_hop = true ∨ ∀ st', ¬ link_step v (pre ++ rest) st')
  end.
Proof.
  revert pre fuel. induction rest as [|c rest IH]; intros pre fuel Hok Hfuel Hlen Hpl.
  { rewrite app_nil_r. by destruct fuel. }
  assert (Hok' := Hok). apply names_app in Hok' as [Hpre [[Hc Hrest]%Forall_cons _]].
  pose proof (join_tail_length c rest (no_nonempty c Hc)) as Hlc.
  destruct fuel as [|fuel]; [lia|]. rewrite links_pass_step by done.
  destruct (lookup_normalized (join (pre ++ [c])) v) as [node|] eqn:Hl; cycle 1.
  { assert (Hn : ¬ plain (pre ++ [c]) v) by (intros (m & ? & _); congruence).
    split; [by eapply not_plain_path|right]. intros st' Hs.
    apply (link_step_first _ _ _ _ _ Hpl Hn) in Hs as (m & ? & ? & _). congruence. }
  case_bool_decide as Hsym.
  - assert (Hn : ¬ plain (pre ++ [c]) v) by (intros (m & ? & ?); congruence).
    assert (Hnp := not_plain_path pre c rest v Hn). destruct last_hop; [by split; [|left]|].
    assert (Hfirst := λ st', link_step_first v pre c rest st' Hpl Hn). unfold link_at in Hfirst.
    destruct (readlink_node node (MAX_VFS_PATH - 1) v) as [text|] eqn:Hr; cycle 1.
    { split; [done|right]. intros st' (m & ? & ? & _ & ? & _)%Hfirst. congruence. }
    rewrite link_text_components by (done || apply Hpre).
    destruct (Nat.ltb_spec (length (link_text pre (c_string text) rest)) MAX_VFS_PATH) as [Hf|Hf]; cycle 1.
    { split; [done|right]. intros st' (m & t & ? & _ & ? & ? & _)%Hfirst. simplify_eq. lia. }
    split; [done|]. eexists. split; [|done]. exists pre, c, rest. split_and!; [done..|].
    exists node, text. split_and!; done.
  - assert (E : pre ++ c :: rest = (pre ++ [c]) ++ rest) by (by rewrite <- app_assoc).
    rewrite E in *. apply IH; [done|lia|done|]. apply plain_path_snoc; [done|by exists node].
Qed.

Lemma follow_links_unfold hops current v :
  follow_links (S hops) true current v =
  match links_pass (length current) true (hops =? 0)%nat [] current v with
  | PassFail => None
  | PassDone => lookup_normalized current v
  | PassFollow current => follow_links hops true current v
  end.
Proof. done. Qed.

Lemma follow_links_sound hops st v n :
  names st → (length (join st) < MAX_VFS_PATH)%nat →
  follow_links (S hops) true (join st) v = Some n →
  ∃ k st', (k ≤ hops)%nat ∧ nsteps (link_step v) k st st' ∧ plain_path st' v ∧
    lookup_normalized (join st') v = Some n.
Proof.
  revert st. induction hops as [|hops IH]; intros st Hst Hlen Hf; cbn [follow_links] in Hf;
    match type of Hf with match links_pass _ _ ?last _ _ _ with _ => _ end = _ =>
      pose proof (links_pass_spec (length (join st)) last [] st v Hst ltac:(lia) Hlen (plain_path_nil v)) as Hp
    end; change (join []) with (@nil ascii) in Hp; rewrite ?app_nil_l in Hp;
    destruct (links_pass _ _ _ _ _ _) as [| |q]; try done.
  - exists 0%nat, st. split_and!; [done|constructor|done..].
  - exists 0%nat, st. split_and!; [lia|constructor|done..].
  - destruct Hp as (_ & st1 & Hs & ->). destruct (link_step_names v st st1 Hst Hs) as [Hn1 Hl1].
    destruct (IH st1 Hn1 Hl1 Hf) as (k & st' & Hk & Hsteps & Hrest).
    exists (S k), st'. split_and!; [lia|by econstructor|apply Hrest..].
Qed.

Lemma follow_links_complete hops k st st' v :
  names st → (length (join st) < MAX_VFS_PATH)%nat → (k ≤ hops)%nat →
  nsteps (link_step v) k st st' → plain_path st' v →
  follow_links (S hops) true (join st) v = lookup_normalized (join st') v.
Proof.
  intros Hst Hlen Hk Hsteps Hpl. revert hops Hk Hst Hlen.
  induction Hsteps as [st|k st st1 st' Hs Hsteps IH]; intros hops Hk Hst Hlen;
    pose proof (links_pass_spec (length (join st)) (hops =? 0)%nat [] st v Hst ltac:(lia) Hlen
      (plain_path_nil v)) as Hp; change (join []) with (@nil ascii) in Hp; rewrite ?app_nil_l in Hp;
    rewrite follow_links_unfold; destruct (links_pass _ _ _ _ _ _) as [| |q].
  - by destruct Hp as [Hn _].
  - done.
  - destruct Hp as (_ & st1 & Hs & _). by destruct (link_step_not_plain v st st1 Hs).
  - destruct Hp as [_ [Hh|Hn]]; [apply Nat.eqb_eq in Hh; lia|by destruct (Hn st1)].
  - by destruct (link_step_not_plain v st st1 Hs).
  - destruct Hp as (Hh & st2 & Hs2 & ->). rewrite (link_step_det v st st2 st1 Hs2 Hs).
    destruct (link_step_names v st st1 Hst Hs). destruct hops as [|hops]; [done|]. apply IH; [done|lia|done..].
Qed.

(** C29 (functional): [vfs_lookup] returns the node reached from the resolved components of
    the path by following, at most [VFS_SYMLINK_LIMIT] times, the first symbolic link on the
    path: the components before the link (none when its target is absolute), those of the
    target and those after the link are resolved, until the path and all its prefixes
    exist and are not links.  Conversely, for a path that fits the buffer, whatever
    such a chain reaches is what the lookup returns.  (A step exists only when its text fits
    the buffer; a link at the root itself is not followed.) *)
Theorem vfs_lookup_resolves path v : NUL ∉ path →
  (∀ n, vfs_lookup (Some path) v = Some n →
   ∃ k st, (k ≤ VFS_SYMLINK_LIMIT)%nat ∧ nsteps (link_step v) k (resolve (components path)) st ∧
     plain_path st v ∧ lookup_normalized (join st) v = Some n) ∧
  ((length path < MAX_VFS_PATH)%nat → ∀ k st,
   (k ≤ VFS_SYMLINK_LIMIT)%nat → nsteps (link_step v) k (resolve (components path)) st →
   plain_path st v → vfs_lookup (Some path) v = lookup_normalized (join st) v).
Proof.
  intros Hnul. unfold vfs_lookup, lookup_with_links.
  pose proof (normalize_names path MAX_VFS_PATH ltac:(unfold MAX_VFS_PATH; lia) Hnul) as Hn.
  destruct (normalize_path (Some path) MAX_VFS_PATH) as [q|]; [|split; [done|lia]].
  destruct Hn as (-> & Hok & Hlen). split.
  - intros n. by apply follow_links_sound.
  - intros _ k st. by apply follow_links_complete.
Qed.

(** ** Separation of the temporary file system *)

Definition touches_only (under_tmp : bool) (v v' : @vfs B) : Prop :=
  g_mounts v' = g_mounts v ∧
  if under_tmp then v_disk v' = v_disk v else v_tmpfs v' = v_tmpfs v.

Lemma on_tmpfs_only f v : touches_only true v (on_tmpfs f v).2.
Proof. unfold on_tmpfs. by destruct (f _). Qed.
Lemma on_disk_only f v : touches_only false v (on_disk f v).2.
Proof. unfold on_disk. by destruct (f _). Qed.
Lemma touches_refl b v : touches_only b v v.
Proof. by destruct b. Qed.

(** with the mounts made at start, creating and removing directories and
    removing files below [tmp] changes only the temporary file system, and elsewhere
    never changes it. *)
Theorem vfs_tmp_isolated cs mode uid gid v :
  g_mounts v = init_mounts → names cs → (length (join cs) < MAX_VFS_PATH)%nat →
  let under_tmp := bool_decide ([lit "tmp"] `prefix_of` cs) in
  touches_only under_tmp v (vfs_mkdir_path (Some (join cs)) mode uid gid v).2 ∧
  touches_only under_tmp v (vfs_unlink_path (Some (join cs)) v).2 ∧
  touches_only under_tmp v (vfs_rmdir_path (Some (join cs)) v).2.
Proof.
  intros Hm Hcs Hlen under_tmp. destruct (init_resolve cs Hcs Hlen) as (m & p & Hf & Hb & _).
  assert (Hn : normalize_path (Some (join cs)) MAX_VFS_PATH = Some (join cs)).
  { apply normalize_of_normal; [|done]. exists cs. split; [apply Hcs|done]. }
  assert (Hu : under_tmp = bool_decide (mnt_backend m = BACKEND_TMPFS)) by (by apply bool_decide_ext).
  unfold vfs_mkdir_path, vfs_unlink_path, vfs_rmdir_path. rewrite Hn, Hm, Hf, Hu.
  destruct (join cs) as [|x cs']; [split_and!; apply touches_refl|].
  assert (Hcases : ∀ f g, touches_only (bool_decide (mnt_backend m = BACKEND_TMPFS)) v
    (match mnt_backend m with BACKEND_TMPFS => on_tmpfs f v | BACKEND_AOSFS => on_disk g v
     | _ => (false, v) end).2).
  { intros f g. destruct (mnt_backend m); try apply touches_refl; [apply on_tmpfs_only|apply on_disk_only]. }
  destruct (vfs_lstat (Some (x :: cs')) v) as [node|].
  - split_and!; [apply touches_refl| |].
    + destruct (_ && _); [apply touches_refl|apply Hcases].
    + destruct (negb _); [apply touches_refl|apply Hcases].
  - split_and!; [apply Hcases|apply touches_refl..].
Qed.

End lookup.

(** ** A small disk *)

(** A disk with a directory [main], a file [main/f] and a link [go] to [main]. *)
Definition demo_node (p : cstr) : option vfs_node :=
  let node t := Some (VfsNode t BACKEND_AOSFS 0x1ED 0 0 0 7 p U_none) in
  if path_equals p (lit "main") then node NODE_DIRECTORY
  else if path_equals p (lit "main/f") then node NODE_REGULAR
  else if path_equals p (lit "go") then node NODE_SYMLINK else None.

#[local] Instance demo_backends : Backends unit := {|
  aosfs_init d := d;
  aosfs_lookup_path p _ := demo_node p;
  aosfs_readlink_path p n _ := Some (take n (lit "main"));
  aosfs_read_path _ _ _ _ := None;
  aosfs_write_path _ _ _ _ d := (WriteResult false None None, d);
  aosfs_mkdir_path_mode _ _ _ _ d := (false, d);
  aosfs_unlink_path _ d := (false, d);
  aosfs_rmdir_path _ d := (false, d);
  aosfs_symlink_path _ _ _ _ d := (false, d);
  aosfs_chmod_path _ _ d := (false, d);
  aosfs_chown_path _ _ _ d := (false, d);
  aosfs_dirent_at_index _ _ _ _ := None;
  fat32_lookup_path _ _ := None;
  fat32_read_file _ _ _ _ _ := None;
  fat32_write_path _ _ _ _ d := (WriteResult false None None, d);
  fat32_dirent_at_index _ _ _ _ := None;
  ext4_lookup_path _ _ := None;
  ext4_read_file _ _ _ _ _ := None;
  ext4_write_path _ _ _ _ d := (WriteResult false None None, d);
  ext4_dirent_at_index _ _ _ _ := None;
  initrd_get_file _ _ := None;
  initrd_get_entry _ _ _ := None;
  load_bytes _ _ _ := [];
  VFS_DEV_URANDOM := 4
|}.

Definition demo_vfs : @vfs unit := vfs_init_mounts (Vfs [] (Tmpfs.Tmpfs [] 0) tt None).

(** The link is followed: [/go/./f] is [main/f]. *)
Lemma vfs_lookup_resolves_witness :
  vfs_lookup (Some (lit "/go/./f")) demo_vfs = demo_node (lit "main/f") ∧
  ∃ n k st, (k ≤ VFS_SYMLINK_LIMIT)%nat ∧
    nsteps (link_step demo_vfs) k [lit "go"; lit "f"] st ∧ plain_path st demo_vfs ∧
    lookup_normalized (join st) demo_vfs = Some n.
Proof.
  assert (E : vfs_lookup (Some (lit "/go/./f")) demo_vfs = demo_node (lit "main/f"))
    by (vm_compute; reflexivity).
  assert (Es : ∃ n, demo_node (lit "main/f") = Some n) by (eexists; vm_compute; reflexivity).
  destruct Es as [n En]. split; [exact E|]. exists n.
  refine (proj1 (vfs_lookup_resolves (lit "/go/./f") demo_vfs _) n (eq_trans E En)).
  apply (bool_decide_unpack _). vm_compute. exact I.
Defined.

Lemma vfs_tmp_isolated_witness :
  touches_only true demo_vfs (vfs_mkdir_path (Some (join [lit "tmp"; lit "d"])) 0x1ED 0 0 demo_vfs).2.
Proof.
  refine (proj1 (vfs_tmp_isolated [lit "tmp"; lit "d"] 0x1ED 0 0 demo_vfs _ _ _)).
  - reflexivity.
  - split; repeat (apply Forall_cons; split); try (apply Forall_nil; done);
      try (split; [done| |reflexivity..]); apply (bool_decide_unpack _); vm_compute; exact I.
  - apply (bool_decide_unpack _). vm_compute. exact I.
Defined.
