(* ===== verification/ProcessData.v ===== *)
(** * Process control blocks ([include/process.h], [include/syscall.h])

    The data the scheduler and the process system calls share: register sets, the
    entries of [process_list], and the operations of the machine they rely on.  The
    members [session_id], [thread_group_id], [is_thread], [vfork_parent_pid],
    [interrupted_rcx], [nice_value], ... are used by the sources and not yet declared
    by the checked-in header. *)

From S2P Require Import Prelude CString.

Definition MAX_PROCESSES : nat := 64.
Definition PROCESS_CWD_MAX : nat := 256.
Definition PROCESS_FD_MAX : nat := 32.
Definition PROCESS_USERNAME_MAX : nat := 32.
Definition PROCESS_COMMAND_MAX : nat := 64.

Definition LINUX_EPERM : Z := 1.
Definition LINUX_ENOENT : Z := 2.
Definition LINUX_ECHILD : Z := 10.
Definition LINUX_EAGAIN : Z := 11.
Definition LINUX_ENOMEM : Z := 12.
Definition LINUX_EFAULT : Z := 14.
Definition LINUX_EINVAL : Z := 22.

(** [struct syscall_regs] *)
Record syscall_regs := Regs {
  rax : Z;
  rdx : Z;
  rsi : Z;
  rdi : Z;
  r10 : Z;
  r8 : Z;
  r9 : Z;
  r15 : Z;
  r14 : Z;
  r13 : Z;
  r12 : Z;
  rbx : Z;
  rbp : Z;
  rcx : Z;
  r11 : Z;
  rsp : Z
}.

Definition set_rax (v : Z) (p : syscall_regs) : syscall_regs :=
  Regs v (rdx p) (rsi p) (rdi p) (r10 p) (r8 p) (r9 p) (r15 p) (r14 p) (r13 p) (r12 p)
    (rbx p) (rbp p) (rcx p) (r11 p) (rsp p).
Definition set_rsp (v : Z) (p : syscall_regs) : syscall_regs :=
  Regs (rax p) (rdx p) (rsi p) (rdi p) (r10 p) (r8 p) (r9 p) (r15 p) (r14 p) (r13 p) (r12 p)
    (rbx p) (rbp p) (rcx p) (r11 p) v.
Definition zero_regs : syscall_regs := Regs 0 0 0 0 0 0 0 0 0 0 0 0 0 0 0 0.

(** The registers a user program sees. *)
Record user_context := UserContext {
  u_rax : Z;
  u_rdx : Z;
  u_rsi : Z;
  u_rdi : Z;
  u_r10 : Z;
  u_r8 : Z;
  u_r9 : Z;
  u_r15 : Z;
  u_r14 : Z;
  u_r13 : Z;
  u_r12 : Z;
  u_rbx : Z;
  u_rbp : Z;
  u_rcx : Z;
  u_r11 : Z;
  u_rsp : Z;
  u_rip : Z;
  u_rflags : Z
}.

(** [struct process_interrupt_frame]: the registers of the interrupted program and its code
    segment. *)
Record process_interrupt_frame := Frame {
  fr_user : user_context;
  fr_cs : Z
}.

Inductive process_status :=
  DEAD | READY | RUNNING | WAITING | ZOMBIE | PAUSED.

#[export] Instance process_status_eq_dec : EqDecision process_status.
Proof. solve_decision. Defined.

(** [enum fd_kind] *)
Inductive fd_kind :=
  FD_FREE | FD_STDIN | FD_STDOUT | FD_STDERR | FD_VNODE | FD_PIPE_READER | FD_PIPE_WRITER
| FD_TTY | FD_NULL | FD_SOCKET | FD_RANDOM | FD_EVENTFD.

Record fd_entry := FdEntry { kind : fd_kind; handle_index : Z }.

(** The members of [process_t], grouped: identifiers, heap, credentials, thermal policy. *)

Record ids := Ids {
  i_pid : Z;
  i_parent_pid : Z;
  i_session_id : Z;
  i_process_group_id : Z;
  i_thread_group_id : Z;
  i_is_thread : bool
}.
Record heap := Heap {
  brk_base : Z;
  brk_current : Z;
  brk_mapped_end : Z;
  mmap_next : Z
}.
Record cred := Cred {
  c_uid : Z;
  c_gid : Z;
  c_euid : Z;
  c_egid : Z;
  c_username : cstr;
  c_home : cstr
}.
Record thermal := Thermal {
  t_delay_events : Z;
  t_throttled : bool;
  t_skip_phase : Z
}.

(** [process_t].  [interrupted] is [interrupted_rcx] and [interrupted_r11] when
    [has_interrupt_context] is set.  [kernel_stack] is not used by this code. *)
Record process_t := Process {
  p_ids : ids;
  status : process_status;
  exit_status : Z;
  p4_table : Z;
  regs : syscall_regs;
  interrupted : option (Z * Z);
  cwd : cstr;
  wait_target_pid : Z;
  wait_status_ptr : Z;
  fd_table : list fd_entry;
  fs_base : Z;
  p_heap : heap;
  clear_child_tid : Z;
  cpu_ticks : Z;
  nice_value : Z;
  signal_stack : Z * Z * Z;
  p_cred : cred;
  command : cstr;
  p_thermal : thermal;
  vfork_parent_pid : Z;
  vfork_child_pid : Z;
  shares_address_space : bool
}.

Definition set_status (v : process_status) (p : process_t) : process_t :=
  Process (p_ids p) v (exit_status p) (p4_table p) (regs p) (interrupted p) (cwd p)
    (wait_target_pid p) (wait_status_ptr p) (fd_table p) (fs_base p) (p_heap p)
    (clear_child_tid p) (cpu_ticks p) (nice_value p) (signal_stack p) (p_cred p) (command p)
    (p_thermal p) (vfork_parent_pid p) (vfork_child_pid p) (shares_address_space p).
Definition set_exit_status (v : Z) (p : process_t) : process_t :=
  Process (p_ids p) (status p) v (p4_table p) (regs p) (interrupted p) (cwd p)
    (wait_target_pid p) (wait_status_ptr p) (fd_table p) (fs_base p) (p_heap p)
    (clear_child_tid p) (cpu_ticks p) (nice_value p) (signal_stack p) (p_cred p) (command p)
    (p_thermal p) (vfork_parent_pid p) (vfork_child_pid p) (shares_address_space p).
Definition set_p4_table (v : Z) (p : process_t) : process_t :=
  Process (p_ids p) (status p) (exit_status p) v (regs p) (interrupted p) (cwd p)
    (wait_target_pid p) (wait_status_ptr p) (fd_table p) (fs_base p) (p_heap p)
    (clear_child_tid p) (cpu_ticks p) (nice_value p) (signal_stack p) (p_cred p) (command p)
    (p_thermal p) (vfork_parent_pid p) (vfork_child_pid p) (shares_address_space p).
Definition set_regs (v : syscall_regs) (p : process_t) : process_t :=
  Process (p_ids p) (status p) (exit_status p) (p4_table p) v (interrupted p) (cwd p)
    (wait_target_pid p) (wait_status_ptr p) (fd_table p) (fs_base p) (p_heap p)
    (clear_child_tid p) (cpu_ticks p) (nice_value p) (signal_stack p) (p_cred p) (command p)
    (p_thermal p) (vfork_parent_pid p) (vfork_child_pid p) (shares_address_space p).
Definition set_interrupted (v : option (Z * Z)) (p : process_t) : process_t :=
  Process (p_ids p) (status p) (exit_status p) (p4_table p) (regs p) v (cwd p)
    (wait_target_pid p) (wait_status_ptr p) (fd_table p) (fs_base p) (p_heap p)
    (clear_child_tid p) (cpu_ticks p) (nice_value p) (signal_stack p) (p_cred p) (command p)
    (p_thermal p) (vfork_parent_pid p) (vfork_child_pid p) (shares_address_space p).
Definition set_cwd (v : cstr) (p : process_t) : process_t :=
  Process (p_ids p) (status p) (exit_status p) (p4_table p) (regs p) (interrupted p) v
    (wait_target_pid p) (wait_status_ptr p) (fd_table p) (fs_base p) (p_heap p)
    (clear_child_tid p) (cpu_ticks p) (nice_value p) (signal_stack p) (p_cred p) (command p)
    (p_thermal p) (vfork_parent_pid p) (vfork_child_pid p) (shares_address_space p).
Definition set_fd_table (v : list fd_entry) (p : process_t) : process_t :=
  Process (p_ids p) (status p) (exit_status p) (p4_table p) (regs p) (interrupted p) (cwd p)
    (wait_target_pid p) (wait_status_ptr p) v (fs_base p) (p_heap p) (clear_child_tid p)
    (cpu_ticks p) (nice_value p) (signal_stack p) (p_cred p) (command p) (p_thermal p)
    (vfork_parent_pid p) (vfork_child_pid p) (shares_address_space p).
Definition set_cpu_ticks (v : Z) (p : process_t) : process_t :=
  Process (p_ids p) (status p) (exit_status p) (p4_table p) (regs p) (interrupted p) (cwd p)
    (wait_target_pid p) (wait_status_ptr p) (fd_table p) (fs_base p) (p_heap p)
    (clear_child_tid p) v (nice_value p) (signal_stack p) (p_cred p) (command p)
    (p_thermal p) (vfork_parent_pid p) (vfork_child_pid p) (shares_address_space p).
Definition set_cred (v : cred) (p : process_t) : process_t :=
  Process (p_ids p) (status p) (exit_status p) (p4_table p) (regs p) (interrupted p) (cwd p)
    (wait_target_pid p) (wait_status_ptr p) (fd_table p) (fs_base p) (p_heap p)
    (clear_child_tid p) (cpu_ticks p) (nice_value p) (signal_stack p) v (command p)
    (p_thermal p) (vfork_parent_pid p) (vfork_child_pid p) (shares_address_space p).
Definition set_thermal (v : thermal) (p : process_t) : process_t :=
  Process (p_ids p) (status p) (exit_status p) (p4_table p) (regs p) (interrupted p) (cwd p)
    (wait_target_pid p) (wait_status_ptr p) (fd_table p) (fs_base p) (p_heap p)
    (clear_child_tid p) (cpu_ticks p) (nice_value p) (signal_stack p) (p_cred p) (command p)
    v (vfork_parent_pid p) (vfork_child_pid p) (shares_address_space p).
Definition set_vfork_parent_pid (v : Z) (p : process_t) : process_t :=
  Process (p_ids p) (status p) (exit_status p) (p4_table p) (regs p) (interrupted p) (cwd p)
    (wait_target_pid p) (wait_status_ptr p) (fd_table p) (fs_base p) (p_heap p)
    (clear_child_tid p) (cpu_ticks p) (nice_value p) (signal_stack p) (p_cred p) (command p)
    (p_thermal p) v (vfork_child_pid p) (shares_address_space p).
Definition set_vfork_child_pid (v : Z) (p : process_t) : process_t :=
  Process (p_ids p) (status p) (exit_status p) (p4_table p) (regs p) (interrupted p) (cwd p)
    (wait_target_pid p) (wait_status_ptr p) (fd_table p) (fs_base p) (p_heap p)
    (clear_child_tid p) (cpu_ticks p) (nice_value p) (signal_stack p) (p_cred p) (command p)
    (p_thermal p) (vfork_parent_pid p) v (shares_address_space p).
Definition set_shares_address_space (v : bool) (p : process_t) : process_t :=
  Process (p_ids p) (status p) (exit_status p) (p4_table p) (regs p) (interrupted p) (cwd p)
    (wait_target_pid p) (wait_status_ptr p) (fd_table p) (fs_base p) (p_heap p)
    (clear_child_tid p) (cpu_ticks p) (nice_value p) (signal_stack p) (p_cred p) (command p)
    (p_thermal p) (vfork_parent_pid p) (vfork_child_pid p) v.
Definition set_wait (target ptr : Z) (p : process_t) : process_t :=
  Process (p_ids p) (status p) (exit_status p) (p4_table p) (regs p) (interrupted p) (cwd p)
    target ptr (fd_table p) (fs_base p) (p_heap p) (clear_child_tid p) (cpu_ticks p)
    (nice_value p) (signal_stack p) (p_cred p) (command p) (p_thermal p)
    (vfork_parent_pid p) (vfork_child_pid p) (shares_address_space p).

(** A slot of zeros. *)
Definition zero_process : process_t :=
  Process (Ids 0 0 0 0 0 false) DEAD 0 0 zero_regs None [] 0 0
    (replicate PROCESS_FD_MAX (FdEntry FD_FREE 0)) 0 (Heap 0 0 0 0) 0 0 0 (0, 0, 0)
    (Cred 0 0 0 0 [] []) [] (Thermal 0 false 0) 0 0 false.

Definition pid (p : process_t) : Z := i_pid (p_ids p).
Definition parent_pid (p : process_t) : Z := i_parent_pid (p_ids p).
Definition is_status (st : process_status) (p : process_t) : bool := bool_decide (status p = st).

(** A program that [exec_initrd_program] has loaded: where it starts, its stack pointer and
    the end of its image. *)
Record exec_image := ExecImage { ei_entry : Z; ei_rsp : Z; ei_end : Z }.

(** What the process code calls elsewhere in the kernel, over a machine state [M]:
    [kernel/vmm.c], the reference counts of [kernel/syscall.c], the loader of programs, user
    memory and processor registers.  Addresses of page tables are numbers, 0 is [NULL]. *)
Class Machine (M : Type) := {
  vmm_copy_p4 : Z → M → Z * M;
  vmm_create_user_space : Z → M → Z * M;
  vmm_destroy_user_space : Z → M → M;
  vmm_prepare_user_write : Z → Z → Z → M → bool * M;
  switch_page_table : Z → M → M;
  process_load_fs_base : Z → M → M;
  (** a 32-bit store in the address space that is loaded *)
  store_u32 : Z → Z → M → M;
  retain_fd_entry_refs : fd_entry → M → M;
  release_file_handle : Z → M → M;
  release_pipe_ref : Z → fd_kind → M → M;
  close_socket_ref : Z → M → M;
  release_eventfd_ref : Z → M → M;
  (** the copies of the argument and environment strings: an error code *)
  exec_snapshot : Z → Z → M → option Z;
  (** the program file: an error code when it is not found, of the wrong kind or cannot be
      read *)
  exec_open : cstr → M → option Z;
  (** the program, its interpreter and the initial stack in a new address space: an error
      code or where to start *)
  exec_load : cstr → Z → Z → process_t → Z → M → (Z + exec_image) * M;
  input_clear_events : M → M
}.

(** How a handler ends: it returns a value, [switch_to_process] enters user mode in
    another process, [jump_to_user] enters a new program, [halt_forever] stops the machine,
    or [NULL] is dereferenced. *)
Inductive outcome := Return (r : Z) | SwitchTo (i : nat) | EnterUser (rip rsp : Z) | Halt | Undefined.

Record kernel (M : Type) := Kernel {
  process_list : list process_t;
  (** an index into [process_list] *)
  current_process : option nat;
  next_pid : Z;
  g_thermal_policy_active : bool;
  machine : M
}.
Arguments Kernel {M} _ _ _ _ _.
Arguments process_list {M} _.
Arguments current_process {M} _.
Arguments next_pid {M} _.
Arguments g_thermal_policy_active {M} _.
Arguments machine {M} _.
