(* ===== verification/Process.v ===== *)
(** * Processes and the scheduler ([kernel/process.c])

    The process table, round-robin selection with thermal throttling, preemption,
    [fork] and [clone].  Messages on the serial port are left out. *)

From S2P Require Import Prelude CString ProcessData.

Definition LINUX_CLONE_VM : Z := 0x100.
Definition LINUX_CLONE_VFORK : Z := 0x4000.
Definition LINUX_CLONE_THREAD : Z := 0x10000.
Definition LINUX_CLONE_SETTLS : Z := 0x80000.
Definition LINUX_CLONE_PARENT_SETTID : Z := 0x100000.
Definition LINUX_CLONE_CHILD_CLEARTID : Z := 0x200000.
Definition LINUX_CLONE_CHILD_SETTID : Z := 0x1000000.

(** [local_strcpy_bounded]; a [NULL] source gives the empty string. *)
Definition local_strcpy_bounded (dst_size : nat) (src : option cstr) : cstr :=
  copy_string dst_size (default [] src).

Definition local_streq (a b : cstr) : bool := path_equals a b.

(** [base] moves behind every slash. *)
Fixpoint basename_loop (base p : cstr) : cstr :=
  match p with
  | [] => base
  | c :: p' => basename_loop (if bool_decide (c = SLASH) then p' else base) p'
  end.

Definition command_basename (command : cstr) : cstr := basename_loop command command.

Definition essential_commands : list cstr :=
  lit <$> ["desktop.elf"; "desktop"; "dextop"; "dm"; "mui"; "mui.elf"; "MUI"; "shutdown";
           "shutdown.elf"; "restart"; "restart.elf"; "reboot"]%string.

Definition process_is_thermal_essential (p : process_t) : bool :=
  if pid p =? 1 then true
  else existsb (local_streq (command_basename (command p))) essential_commands.

(** ** Selection *)

Definition skip_phase (p : process_t) : Z := t_skip_phase (p_thermal p).
Definition throttled (p : process_t) : bool := t_throttled (p_thermal p).

(** [thermal_skip_phase = (thermal_skip_phase + 1) & 3] *)
Definition advance_phase (p : process_t) : process_t :=
  set_thermal (Thermal (t_delay_events (p_thermal p)) (throttled p) ((skip_phase p + 1) .& 3)) p.

(** The candidates in the order they are tried. *)
Definition scan_order (start_idx : nat) : list nat :=
  (λ i, ((start_idx + i) mod MAX_PROCESSES)%nat) <$> seq 0 MAX_PROCESSES.

Fixpoint select_loop (order : list nat) (fallback : option nat) (l : list process_t)
    : option nat * list process_t :=
  match order with
  | [] => (fallback, l)
  | idx :: order' =>
      match l !! idx with
      | None => select_loop order' fallback l
      | Some candidate =>
          if negb (is_status READY candidate) then select_loop order' fallback l
          else if throttled candidate then
            let fallback := match fallback with None => Some idx | _ => fallback end in
            let candidate := advance_phase candidate in
            let l := <[idx := candidate]> l in
            if negb (skip_phase candidate =? 0) then select_loop order' fallback l
            else (Some idx, l)
          else (Some idx, l)
      end
  end.

Definition process_select_next_ready (current : option nat) (l : list process_t)
    : option nat * list process_t :=
  select_loop (scan_order (match current with Some i => S i | None => 0%nat end)) None l.

(** ** Register contexts *)

Definition process_save_interrupt_context (frame : process_interrupt_frame) (p : process_t)
    : process_t :=
  let u := fr_user frame in
  set_interrupted (Some (u_rcx u, u_r11 u))
    (set_regs (Regs (u_rax u) (u_rdx u) (u_rsi u) (u_rdi u) (u_r10 u) (u_r8 u) (u_r9 u) (u_r15 u)
                 (u_r14 u) (u_r13 u) (u_r12 u) (u_rbx u) (u_rbp u) (u_rip u) (u_rflags u) (u_rsp u)) p).

Definition process_restore_interrupt_context (p : process_t) (frame : process_interrupt_frame)
    : process_interrupt_frame :=
  let r := regs p in
  Frame
    (UserContext (rax r) (rdx r) (rsi r) (rdi r) (r10 r) (r8 r) (r9 r) (r15 r) (r14 r) (r13 r)
       (r12 r) (rbx r) (rbp r)
       (match interrupted p with Some (c, _) => c | None => rcx r end)
       (match interrupted p with Some (_, f) => f | None => r11 r end)
       (rsp r) (rcx r) (r11 r .| 0x200))
    (fr_cs frame).

(** The registers with which [switch_to_process] ([arch/x86_64/kernel/process.asm]) enters
    user mode: [sysret] takes the instruction pointer from [rcx] and the flags from
    [r11], without bits the processor reserves. *)
Definition switch_to_process (p : process_t) : user_context :=
  let r := regs p in
  UserContext (rax r) (rdx r) (rsi r) (rdi r) (r10 r) (r8 r) (r9 r) (r15 r) (r14 r) (r13 r)
    (r12 r) (rbx r) (rbp r) (rcx r) (r11 r) (rsp r) (rcx r) ((r11 r .& 0x3C7FD7) .| 2).

(** ** State *)

Section process.
  Context {M : Type} `{!Machine M}.
  Implicit Types s : kernel M.

Definition set_list (l : list process_t) s : kernel M :=
  Kernel l (current_process s) (next_pid s) (g_thermal_policy_active s) (machine s).
Definition upd (i : nat) (f : process_t → process_t) s : kernel M :=
  set_list (alter f i (process_list s)) s.
Definition set_current (i : nat) s : kernel M :=
  Kernel (process_list s) (Some i) (next_pid s) (g_thermal_policy_active s) (machine s).
Definition on_machine (f : M → M) s : kernel M :=
  Kernel (process_list s) (current_process s) (next_pid s) (g_thermal_policy_active s) (f (machine s)).
Definition bump_pid s : kernel M :=
  Kernel (process_list s) (current_process s) (u32 (next_pid s + 1)) (g_thermal_policy_active s)
    (machine s).

(** [process_list[i]] *)
Definition proc (i : nat) s : process_t := default zero_process (process_list s !! i).

(** The running process, when there is one. *)
Definition get_current_process s : option process_t :=
  i ← current_process s; process_list s !! i.

Definition upd_current (f : process_t → process_t) s : kernel M :=
  match current_process s with Some i => upd i f s | None => s end.

Definition process_preempt_from_interrupt (frame : option process_interrupt_frame) s
    : option process_interrupt_frame * kernel M :=
  match frame, current_process s with
  | Some fr, Some previous =>
      if negb ((fr_cs fr .& 3) =? 3) || negb (is_status RUNNING (proc previous s)) then (frame, s)
      else
        let s := upd previous (process_save_interrupt_context fr) s in
        let s := upd previous (set_status READY) s in
        let (next, l) := process_select_next_ready (Some previous) (process_list s) in
        let s := set_list l s in
        match next with
        | Some next =>
            if (next =? previous)%nat then (frame, upd previous (set_status RUNNING) s)
            else
              let fr := process_restore_interrupt_context (proc next s) fr in
              let s := set_current next s in
              let s := upd next (set_status RUNNING) s in
              let s := on_machine (switch_page_table (p4_table (proc next s))) s in
              (Some fr, on_machine (process_load_fs_base (fs_base (proc next s))) s)
        | None => (frame, upd previous (set_status RUNNING) s)
        end
  | _, _ => (frame, s)
  end.

(** [switch_to_process(&process_list[i])]: it loads the page table of the process before it
    enters user mode there. *)
Definition enter_process (i : nat) s : outcome * kernel M :=
  (SwitchTo i, on_machine (switch_page_table (p4_table (proc i s))) s).

(** [releasing] is the index of [releasing_process]. *)
Definition process_release_address_space (address_space : Z) (releasing : nat) s : kernel M :=
  if address_space =? 0 then s
  else if existsb (λ i, negb (i =? releasing)%nat && negb (is_status DEAD (proc i s))
                        && (p4_table (proc i s) =? address_space)) (seq 0 MAX_PROCESSES)
  then s
  else on_machine (vmm_destroy_user_space address_space) s.

Definition process_complete_vfork (child : nat) s : kernel M :=
  let parent_pid := vfork_parent_pid (proc child s) in
  if parent_pid =? 0 then s else
  let s := upd child (set_vfork_parent_pid 0) s in
  match find_idx (λ parent, negb (is_status DEAD parent) && (pid parent =? parent_pid)
                   && (vfork_child_pid parent =? pid (proc child s))) (process_list s) with
  | None => s
  | Some i =>
      let s := upd i (set_vfork_child_pid 0) s in
      if is_status WAITING (proc i s) then upd i (set_status READY) s else s
  end.

Definition schedule (r : syscall_regs) s : outcome * kernel M :=
  match current_process s with
  | None => (Return 0, s)
  | Some current =>
      let s := upd current (set_regs r) s in
      let s := upd current (set_interrupted None) s in
      let s := if is_status RUNNING (proc current s) then upd current (set_status READY) s else s in
      let (next, l) := process_select_next_ready (Some current) (process_list s) in
      let s := set_list l s in
      let keep := (Return 0, upd current (set_status RUNNING) s) in
      match next with
      | Some next =>
          if (next =? current)%nat then keep
          else
            let s := set_current next s in
            let s := upd next (set_status RUNNING) s in
            enter_process next (on_machine (process_load_fs_base (fs_base (proc next s))) s)
      | None => keep
      end
  end.

Definition process_update_thermal_policy (emergency_active : bool) s : kernel M :=
  Kernel
    ((λ p, if is_status DEAD p || is_status ZOMBIE p
           then set_thermal (Thermal (t_delay_events (p_thermal p)) false 0) p
           else let t := emergency_active && negb (process_is_thermal_essential p) in
                set_thermal (Thermal (t_delay_events (p_thermal p)) t (if t then skip_phase p else 0)) p)
       <$> process_list s)
    (current_process s) (next_pid s) emergency_active (machine s).

(** [policy] is [thermal_emergency_active()] when [thermal_timer_tick()] asks for an
    update; the tick counter and the keyboard poll belong to other components. *)
Definition timer_handler (frame : option process_interrupt_frame) (policy : option bool) s
    : option process_interrupt_frame * kernel M :=
  let s := upd_current (λ p, if is_status RUNNING p then set_cpu_ticks (u64 (cpu_ticks p + 1)) p else p) s in
  let s := match policy with Some e => process_update_thermal_policy e s | None => s end in
  process_preempt_from_interrupt frame s.

Definition syscall_init_process_fd_table (count : nat) (table : list fd_entry) : list fd_entry :=
  if (count <? 3)%nat then table
  else [FdEntry FD_STDIN (-1); FdEntry FD_STDOUT (-1); FdEntry FD_STDERR (-1)]
       ++ replicate (count - 3) (FdEntry FD_FREE (-1)).

(** [p4] is the address of the boot page table. *)
Definition init_process (p4 : Z) s : kernel M :=
  let l := set_status DEAD <$> process_list s in
  let pid := next_pid s in
  let l := alter (λ p,
    Process (Ids pid 0 pid pid pid (i_is_thread (p_ids p))) RUNNING 0 p4 zero_regs (interrupted p) []
      (-1) 0 (syscall_init_process_fd_table PROCESS_FD_MAX (fd_table p)) 0 (Heap 0 0 0 0) 0 (cpu_ticks p)
      (nice_value p) (signal_stack p)
      (Cred 0 0 0 0 (local_strcpy_bounded PROCESS_USERNAME_MAX (Some (lit "root")))
         (local_strcpy_bounded PROCESS_CWD_MAX (Some (lit "root"))))
      (local_strcpy_bounded PROCESS_COMMAND_MAX (Some (lit "desktop.elf"))) (p_thermal p)
      (vfork_parent_pid p) (vfork_child_pid p) (shares_address_space p)) 0%nat l in
  Kernel l (Some 0%nat) (u32 (next_pid s + 1)) false (machine s).

(** ** [fork] and [clone] *)

(** [syscall_retain_fd_table_entries] *)
Definition syscall_retain_fd_table_entries (table : list fd_entry) (m : M) : M :=
  foldl (λ m e, match kind e with FD_FREE => m | _ => retain_fd_entry_refs e m end) m table.

Definition set_throttled (active : bool) (p : process_t) : process_t :=
  set_thermal (Thermal (t_delay_events (p_thermal p))
    (active && negb (process_is_thermal_essential p)) (skip_phase p)) p.

Definition sys_fork (r : syscall_regs) s : outcome * kernel M :=
  match find_idx (is_status DEAD) (process_list s) with
  | None => (Return (-1), s)
  | Some child =>
      let new_pid := next_pid s in
      let zeroed := Process (Ids new_pid 0 0 0 0 false) DEAD 0 0 zero_regs None [] 0 0
                      (fd_table zero_process) 0 (Heap 0 0 0 0) 0 0 0 (0, 0, 0) (Cred 0 0 0 0 [] []) []
                      (Thermal 0 false 0) 0 0 false in
      let s := bump_pid (upd child (λ _, zeroed) s) in
      match get_current_process s with
      | None => (Undefined, s)
      | Some parent =>
          let ids := Ids new_pid (pid parent) (i_session_id (p_ids parent))
                       (i_process_group_id (p_ids parent)) new_pid false in
          let (p4, m) := vmm_copy_p4 (p4_table parent) (machine s) in
          let s := on_machine (λ _, m) s in
          if p4 =? 0 then (Return (- LINUX_ENOMEM), upd child (λ _, zero_process) s) else
          let p := Process ids DEAD 0 p4 r None (cwd parent) (-1) 0 (fd_table parent) (fs_base parent)
                     (p_heap parent) 0 0 (nice_value parent) (signal_stack parent) (p_cred parent)
                     (command parent) (Thermal 0 false 0) 0 0 false in
          let s := on_machine (syscall_retain_fd_table_entries (fd_table p)) s in
          let p := set_throttled (g_thermal_policy_active s) p in
          let p := set_status READY (set_regs (set_rax 0 r) p) in
          (Return new_pid, upd child (λ _, p) s)
      end
  end.

(** The new entry that [sys_clone] fills in for [parent]. *)
Definition clone_child (r : syscall_regs) (new_pid : Z) (active : bool) (parent : process_t) : process_t :=
  let flags := rdi r in
  let thread := flag flags LINUX_CLONE_THREAD in
  let regs := set_rax 0 r in
  let regs := if negb (rsi r =? 0) then set_rsp (rsi r) regs else regs in
  set_throttled active
    (Process
      (Ids new_pid (if thread then parent_pid parent else pid parent) (i_session_id (p_ids parent))
         (i_process_group_id (p_ids parent))
         (if thread then i_thread_group_id (p_ids parent) else new_pid) thread)
      DEAD 0 (p4_table parent) regs None (cwd parent) (-1) 0 (fd_table parent)
      (if flag flags LINUX_CLONE_SETTLS then r8 r else fs_base parent) (p_heap parent)
      (if flag flags LINUX_CLONE_CHILD_CLEARTID then r10 r else 0) 0 (nice_value parent)
      (if negb (flag flags LINUX_CLONE_VM) || flag flags LINUX_CLONE_VFORK then signal_stack parent
       else (0, 0, 0))
      (p_cred parent) (command parent) (Thermal 0 false 0) 0 0 true).

Definition sys_clone (r : syscall_regs) s : outcome * kernel M :=
  let flags := rdi r in
  if negb (flag flags LINUX_CLONE_VM) then sys_fork r s else
  match current_process s with
  | None => (Return (- LINUX_EINVAL), s)
  | Some parent =>
      if flag flags LINUX_CLONE_PARENT_SETTID && (rdx r =? 0) then (Return (- LINUX_EFAULT), s)
      else if flag flags LINUX_CLONE_CHILD_SETTID && (r10 r =? 0) then (Return (- LINUX_EFAULT), s)
      else match find_idx (is_status DEAD) (process_list s) with
      | None => (Return (- LINUX_EAGAIN), s)
      | Some child =>
          let new_pid := next_pid s in
          let zeroed := Process (Ids new_pid 0 0 0 0 false) DEAD 0 0 zero_regs None [] 0 0
                          (fd_table zero_process) 0 (Heap 0 0 0 0) 0 0 0 (0, 0, 0)
                          (Cred 0 0 0 0 [] []) [] (Thermal 0 false 0) 0 0 false in
          let s := bump_pid (upd child (λ _, zeroed) s) in
          let s := upd child (λ _, clone_child r new_pid (g_thermal_policy_active s) (proc parent s)) s in
          let s := upd parent (set_shares_address_space true) s in
          let s := on_machine (syscall_retain_fd_table_entries (fd_table (proc child s))) s in
          let s := if flag flags LINUX_CLONE_PARENT_SETTID
                   then on_machine (store_u32 (rdx r) new_pid) s else s in
          let s := if flag flags LINUX_CLONE_CHILD_SETTID
                   then on_machine (store_u32 (r10 r) new_pid) s else s in
          let s := upd child (set_status READY) s in
          if flag flags LINUX_CLONE_VFORK then
            let s := upd child (set_vfork_parent_pid (pid (proc parent s))) s in
            let s := upd parent (set_vfork_child_pid new_pid) s in
            let s := upd parent (set_regs (set_rax new_pid r)) s in
            let s := upd parent (set_interrupted None) s in
            let s := upd parent (set_status WAITING) s in
            let s := upd child (set_status RUNNING) s in
            let s := set_current child s in
            let s := on_machine (switch_page_table (p4_table (proc child s))) s in
            enter_process child (on_machine (process_load_fs_base (fs_base (proc child s))) s)
          else (Return new_pid, s)
      end
  end.

(** ** Attributes of the running process *)

Definition process_get_cwd s : cstr :=
  match get_current_process s with Some p => cwd p | None => [] end.
Definition process_get_command s : cstr :=
  match get_current_process s with Some p => command p | None => [] end.
Definition process_set_cwd (path : option cstr) s : kernel M :=
  upd_current (set_cwd (local_strcpy_bounded PROCESS_CWD_MAX path)) s.
Definition process_get_fd_table s : option (list fd_entry) := fd_table <$> get_current_process s.
Definition process_get_uid s : Z :=
  match get_current_process s with Some p => c_uid (p_cred p) | None => 0 end.
Definition process_get_gid s : Z :=
  match get_current_process s with Some p => c_gid (p_cred p) | None => 0 end.
Definition process_get_euid s : Z :=
  match get_current_process s with Some p => c_euid (p_cred p) | None => 0 end.
Definition process_get_egid s : Z :=
  match get_current_process s with Some p => c_egid (p_cred p) | None => 0 end.
Definition root_if_empty (text : cstr) : cstr :=
  if bool_decide (char_at text 0 = NUL) then lit "root" else text.
Definition process_get_username s : cstr :=
  match get_current_process s with Some p => root_if_empty (c_username (p_cred p)) | None => lit "root" end.
Definition process_get_home s : cstr :=
  match get_current_process s with Some p => root_if_empty (c_home (p_cred p)) | None => lit "root" end.
Definition process_is_root s : bool := process_get_euid s =? 0.

Definition process_become_root s : kernel M :=
  upd_current (λ p, let c := p_cred p in
    set_cred (Cred (c_uid c) (c_gid c) 0 0 (c_username c) (c_home c)) p) s.

Definition process_set_identity (uid gid : Z) (username home : option cstr) s : kernel M :=
  upd_current (set_cred (Cred uid gid uid gid (local_strcpy_bounded PROCESS_USERNAME_MAX username)
                           (local_strcpy_bounded PROCESS_CWD_MAX home))) s.

(** Waiting for the timer leaves this state as it is. *)
Definition process_thermal_gate_current s : kernel M :=
  upd_current (λ p, if throttled p
    then set_thermal (Thermal (u64 (t_delay_events (p_thermal p) + 1)) (throttled p) (skip_phase p)) p
    else p) s.

Definition process_thermal_throttled_count s : Z :=
  countb (λ p, negb (is_status DEAD p) && negb (is_status ZOMBIE p) && throttled p) (process_list s).

End process.
