(* ===== verification/Lifecycle.v ===== *)
(** * Life cycle of processes ([kernel/syscall/process_lifecycle.c])

    Waiting, exiting, killing, pausing and resuming, and the part of
    [exec_initrd_program] ([kernel/syscall.c]) that replaces the program of a process. *)

From S2P Require Import Prelude CString Pmm ProcessData Process.

Definition WAIT_NOHANG : Z := 1.
Definition USER_MMAP_BASE : Z := 0x0000710000000000.

Definition align_up_page (value : Z) : Z := u64 (value + 0xFFF) .& PAGE_MASK.

(** [(int64_t)x] *)
Definition s64 (x : Z) : Z := if x <? 2 ^ 63 then x else x - 2 ^ 64.

Definition wait_pid_matches (requested_pid child_pid : Z) : bool :=
  (requested_pid =? -1) || (requested_pid =? child_pid).

(** [raw_status = (exit_code & 0xFF) << 8] *)
Definition raw_status (exit_code : Z) : Z := (exit_code .& 0xFF) .<< 8.

(** The scan of [sys_wait4] from slot [i] on: whether a child matches, the first that is
    ready, and the first zombie, where the scan stops. *)
Fixpoint wait_scan (parent requested_pid : Z) (i : nat) (l : list process_t)
    (has_matching_child : bool) (first_ready : option nat) : bool * option nat * option nat :=
  match l with
  | [] => (has_matching_child, first_ready, None)
  | child :: l' =>
      if is_status DEAD child || negb (parent_pid child =? parent)
         || negb (wait_pid_matches requested_pid (pid child))
      then wait_scan parent requested_pid (S i) l' has_matching_child first_ready
      else if is_status ZOMBIE child then (true, first_ready, Some i)
      else
        let first_ready := match first_ready with
                           | None => if is_status READY child then Some i else None
                           | Some _ => first_ready
                           end in
        wait_scan parent requested_pid (S i) l' true first_ready
  end.

Section lifecycle.
  Context {M : Type} `{!Machine M}.
  Implicit Types s : kernel M.

(** [true] is 0. *)
Definition write_process_u32 (p4 user_address value : Z) s : bool * kernel M :=
  if user_address =? 0 then (false, s) else
  let (ok, m) := vmm_prepare_user_write p4 user_address 4 (machine s) in
  let s := on_machine (λ _, m) s in
  if ok then (true, on_machine (store_u32 user_address value) s) else (false, s).

Definition release_fd_entry (e : fd_entry) (m : M) : M :=
  match kind e with
  | FD_VNODE => release_file_handle (handle_index e) m
  | FD_PIPE_READER | FD_PIPE_WRITER => release_pipe_ref (handle_index e) (kind e) m
  | FD_SOCKET => close_socket_ref (handle_index e) m
  | FD_EVENTFD => release_eventfd_ref (handle_index e) m
  | _ => m
  end.

(** The table of process [i]; [count] is [PROCESS_FD_MAX], its length. *)
Definition syscall_release_fd_table_entries (i : nat) s : kernel M :=
  let s := on_machine (λ m, foldl (λ m e, release_fd_entry e m) m (fd_table (proc i s))) s in
  upd i (λ p, set_fd_table ((λ _, FdEntry FD_FREE (-1)) <$> fd_table p) p) s.

Definition sys_wait4 (r : syscall_regs) s : outcome * kernel M :=
  let requested_pid := s64 (rdi r) in
  let status_ptr := rsi r in
  let options := rdx r in
  match current_process s with
  | None => (Return (- LINUX_ECHILD), s)
  | Some parent =>
      if flag options (0xFFFFFFFFFFFFFFFF .^ WAIT_NOHANG) then (Return (- LINUX_EINVAL), s)
      else if (requested_pid =? 0) || (requested_pid <? -1) then (Return (- LINUX_EINVAL), s)
      else
        match wait_scan (pid (proc parent s)) requested_pid 0 (process_list s) false None with
        | (_, _, Some zombie) =>
            let child_pid := pid (proc zombie s) in
            let reap s := (Return child_pid, upd zombie (λ _, zero_process) s) in
            if negb (status_ptr =? 0) then
              let (ok, s) := write_process_u32 (p4_table (proc parent s)) status_ptr
                               (u32 (exit_status (proc zombie s))) s in
              if ok then reap s else (Return (- LINUX_EFAULT), s)
            else reap s
        | (has_matching_child, first_ready, None) =>
            if negb has_matching_child then (Return (- LINUX_ECHILD), s)
            else if flag options WAIT_NOHANG then (Return 0, s)
            else match first_ready with
            | None => (Return (- LINUX_ECHILD), s)
            | Some next =>
                let s := upd parent (set_regs r) s in
                let s := upd parent (set_status WAITING) s in
                let s := upd parent (set_wait requested_pid status_ptr) s in
                let s := set_current next s in
                let s := upd next (set_status RUNNING) s in
                enter_process next (on_machine (process_load_fs_base (fs_base (proc next s))) s)
            end
        end
  end.

Definition release_process_memory (i : nat) s : kernel M :=
  let address_space := p4_table (proc i s) in
  if address_space =? 0 then s
  else process_release_address_space address_space i (upd i (set_p4_table 0) s).

Definition find_process_by_pid (target : Z) s : option nat :=
  find_idx (λ p, negb (is_status DEAD p) && (pid p =? target)) (process_list s).

(** [parent->regs.rax = value] and the end of its wait, with a new status. *)
Definition end_wait (st : process_status) (value : Z) (p : process_t) : process_t :=
  set_wait (-1) 0 (set_status st (set_regs (set_rax value (regs p)) p)).

Definition wake_parent_if_waiting (child : nat) (raw : Z) s : bool * kernel M :=
  match find_process_by_pid (parent_pid (proc child s)) s with
  | None => (false, s)
  | Some parent =>
      let p := proc parent s in
      if negb (is_status WAITING p) then (false, s)
      else if negb (wait_pid_matches (wait_target_pid p) (pid (proc child s))) then (false, s)
      else
        let done_ s := (true, upd parent (end_wait READY (pid (proc child s))) s) in
        if negb (wait_status_ptr p =? 0) then
          let (ok, m) := vmm_prepare_user_write (p4_table p) (wait_status_ptr p) 4 (machine s) in
          let s := on_machine (λ _, m) s in
          if negb ok then (true, upd parent (end_wait READY (u64 (- LINUX_EFAULT))) s)
          else
            let s := on_machine (switch_page_table (p4_table p)) s in
            let s := on_machine (store_u32 (wait_status_ptr p) (u32 raw)) s in
            let s := match get_current_process s with
                     | Some c => if negb (p4_table c =? 0)
                                 then on_machine (switch_page_table (p4_table c)) s else s
                     | None => s
                     end in
            done_ s
        else done_ s
  end.

(** A thread's exit: the next ready thread of its group, or any ready process. *)
Definition exit_thread (child : nat) s : outcome * kernel M :=
  let thread_group_id := i_thread_group_id (p_ids (proc child s)) in
  let s := release_process_memory child s in
  let s := upd child (λ _, zero_process) s in
  let next :=
    match find_idx (λ p, is_status READY p && (i_thread_group_id (p_ids p) =? thread_group_id))
            (process_list s) with
    | Some i => Some i
    | None => find_idx (is_status READY) (process_list s)
    end in
  match next with
  | Some next =>
      let s := set_current next s in
      let s := upd next (set_status RUNNING) s in
      let s := on_machine (switch_page_table (p4_table (proc next s))) s in
      enter_process next (on_machine (process_load_fs_base (fs_base (proc next s))) s)
  | None => (Halt, s)
  end.

(** The parent is in [wait4] for this child. *)
Definition exit_to_waiter (child parent : nat) (raw : Z) s : outcome * kernel M :=
  let child_pid := pid (proc child s) in
  let ptr := wait_status_ptr (proc parent s) in
  let p4 := p4_table (proc parent s) in
  let '(wait_status_error, s) :=
    if negb (ptr =? 0) then
      let (ok, m) := vmm_prepare_user_write p4 ptr 4 (machine s) in
      let s := on_machine (λ _, m) s in
      let s := on_machine (switch_page_table p4) s in
      (negb ok, if ok then on_machine (store_u32 ptr (u32 raw)) s else s)
    else (false, s) in
  let s := on_machine (switch_page_table p4) s in
  let s := release_process_memory child s in
  let s := upd parent (end_wait RUNNING (if (wait_status_error : bool) then u64 (- LINUX_EFAULT) else child_pid)) s in
  let s := upd child (λ _, zero_process) s in
  let s := set_current parent s in
  enter_process parent (on_machine (process_load_fs_base (fs_base (proc parent s))) s).

(** The parent runs on without having waited, or there is none. *)
Definition exit_to_zombie (child : nat) (parent : option nat) (raw : Z) s : outcome * kernel M :=
  let s := upd child (set_status ZOMBIE) s in
  let s := upd child (set_exit_status raw) s in
  match parent with
  | Some parent =>
      if is_status DEAD (proc parent s) || is_status ZOMBIE (proc parent s) then (Halt, s)
      else
        let s := set_current parent s in
        let s := on_machine (switch_page_table (p4_table (proc parent s))) s in
        let s := release_process_memory child s in
        let s := if is_status READY (proc parent s) || is_status WAITING (proc parent s)
                 then upd parent (λ p, set_wait (-1) 0 (set_status RUNNING p)) s else s in
        enter_process parent (on_machine (process_load_fs_base (fs_base (proc parent s))) s)
  | None => (Halt, s)
  end.

Definition process_exit_and_wake_parent (exit_code : Z) s : outcome * kernel M :=
  match current_process s with
  | None => (Halt, s)
  | Some child =>
      let raw := raw_status exit_code in
      let s := process_complete_vfork child s in
      let s := if negb (clear_child_tid (proc child s) =? 0)
               then (write_process_u32 (p4_table (proc child s)) (clear_child_tid (proc child s)) 0 s).2
               else s in
      let s := syscall_release_fd_table_entries child s in
      if i_is_thread (p_ids (proc child s)) then exit_thread child s
      else
        let parent := find_process_by_pid (parent_pid (proc child s)) s in
        match parent with
        | Some i =>
            if is_status WAITING (proc i s)
               && wait_pid_matches (wait_target_pid (proc i s)) (pid (proc child s))
            then exit_to_waiter child i raw s
            else exit_to_zombie child parent raw s
        | None => exit_to_zombie child parent raw s
        end
  end.

Definition syscall_kill_current_process (exit_code : Z) s : outcome * kernel M :=
  match get_current_process s with
  | Some p => if negb (pid p =? 1) then process_exit_and_wake_parent exit_code s else (Return 0, s)
  | None => (Return 0, s)
  end.

Definition sys_process_kill (r : syscall_regs) s : outcome * kernel M :=
  let raw := raw_status (rsi r .& 0xFF) in
  match find_process_by_pid (u32 (rdi r)) s with
  | None => (Return (- LINUX_ENOENT), s)
  | Some i =>
      if (pid (proc i s) =? 1) || bool_decide (current_process s = Some i)
      then (Return (- LINUX_EPERM), s)
      else if negb (process_is_root s) && negb (c_uid (p_cred (proc i s)) =? process_get_uid s)
      then (Return (- LINUX_EPERM), s)
      else if is_status ZOMBIE (proc i s) then (Return 0, s)
      else
        let s := syscall_release_fd_table_entries i s in
        let s := release_process_memory i s in
        let s := upd i (set_exit_status raw) s in
        let s := upd i (set_status ZOMBIE) s in
        let (woken, s) := wake_parent_if_waiting i raw s in
        (Return 0, if woken then upd i (λ _, zero_process) s else s)
  end.

Definition terminate_one (uid except_pid : Z) (i : nat) s : kernel M :=
  if is_status DEAD (proc i s) || (pid (proc i s) =? except_pid)
     || negb (c_uid (p_cred (proc i s)) =? uid)
  then s
  else
    let s := syscall_release_fd_table_entries i s in
    let s := release_process_memory i s in
    upd i (λ _, zero_process) s.

Definition syscall_terminate_uid_processes (uid except_pid : Z) s : kernel M :=
  foldl (λ s i, terminate_one uid except_pid i s) s (seq 0 MAX_PROCESSES).

Definition sys_process_pause (r : syscall_regs) s : outcome * kernel M :=
  match find_process_by_pid (u32 (rdi r)) s with
  | None => (Return (- LINUX_ENOENT), s)
  | Some i =>
      if (pid (proc i s) =? 1) || bool_decide (current_process s = Some i)
      then (Return (- LINUX_EPERM), s)
      else if is_status READY (proc i s) then (Return 0, upd i (set_status PAUSED) s)
      else if is_status PAUSED (proc i s) then (Return 0, s)
      else (Return (- LINUX_EINVAL), s)
  end.

Definition sys_process_resume (r : syscall_regs) s : outcome * kernel M :=
  match find_process_by_pid (u32 (rdi r)) s with
  | None => (Return (- LINUX_ENOENT), s)
  | Some i =>
      if is_status PAUSED (proc i s) then (Return 0, upd i (set_status READY) s)
      else (Return (- LINUX_EINVAL), s)
  end.

(** ** A new program *)

(** The process once its program is loaded. *)
Definition exec_process (new_p4 image_end : Z) (normalized : cstr) (p : process_t) : process_t :=
  let base := align_up_page image_end in
  Process (p_ids p) (status p) (exit_status p) new_p4 (regs p) (interrupted p) (cwd p)
    (wait_target_pid p) (wait_status_ptr p) (fd_table p) 0 (Heap base base base USER_MMAP_BASE)
    0 (cpu_ticks p) (nice_value p) (signal_stack p) (p_cred p) (copy_string PROCESS_COMMAND_MAX normalized)
    (p_thermal p) (vfork_parent_pid p) (vfork_child_pid p) (shares_address_space p).

(** From the point where nothing can fail any more; [c] is the process. *)
Definition exec_commit (c : nat) (old_p4 new_p4 : Z) (normalized : cstr) (image : exec_image) s : outcome * kernel M :=
  let s := upd c (exec_process new_p4 (ei_end image) normalized) s in
  let s := on_machine (switch_page_table new_p4) s in
  let s := process_release_address_space old_p4 c s in
  let s := on_machine (process_load_fs_base 0) s in
  let s := process_complete_vfork c s in
  (EnterUser (ei_entry image) (ei_rsp image), on_machine input_clear_events s).

(** [None] is the null path. *)
Definition exec_initrd_program (normalized : option cstr) (argv_user envp_user : Z) s : outcome * kernel M :=
  match normalized with
  | None | Some [] => (Return (- LINUX_ENOENT), s)
  | Some path =>
      match exec_snapshot argv_user envp_user (machine s) with
      | Some rc => (Return rc, s)
      | None =>
          match current_process s with
          | None => (Return (- LINUX_EINVAL), s)
          | Some c =>
              let old_p4 := p4_table (proc c s) in
              if old_p4 =? 0 then (Return (- LINUX_EINVAL), s) else
              match exec_open path (machine s) with
              | Some rc => (Return rc, s)
              | None =>
                  let (new_p4, m) := vmm_create_user_space old_p4 (machine s) in
                  let s := on_machine (λ _, m) s in
                  if new_p4 =? 0 then (Return (- LINUX_ENOMEM), s) else
                  let (res, m) := exec_load path argv_user envp_user (proc c s) new_p4 (machine s) in
                  let s := on_machine (λ _, m) s in
                  match res with
                  | inl failure => (Return failure, on_machine (vmm_destroy_user_space new_p4) s)
                  | inr image => exec_commit c old_p4 new_p4 path image s
                  end
              end
          end
      end
  end.
End lifecycle.
