(* ===== verification/Scheduler.v ===== *)
(** * The scheduler is fair

    What [process_select_next_ready] chooses, and a bound on how long a ready process
    waits. *)

From S2P Require Import Prelude CString ProcessData Process.

(** The conversion test unfolds the scan last. *)
#[local] Strategy 100 [select_loop scan_order].

(** Tables that agree on everything but the skip phase of throttled ready processes. *)
Definition same_but_phase (l l' : list process_t) : Prop :=
  length l' = length l ∧
  ∀ i p, l !! i = Some p → ∃ p', l' !! i = Some p' ∧
    (p' = p ∨ (is_status READY p && throttled p = true ∧
               ∃ ph, p' = set_thermal (Thermal (t_delay_events (p_thermal p)) true ph) p)).

Lemma same_but_phase_refl l : same_but_phase l l.
Proof. split; [done|]. intros i p Hp. exists p. auto. Qed.

Lemma advance_phase_thermal p : throttled p = true →
  advance_phase p = set_thermal (Thermal (t_delay_events (p_thermal p)) true ((skip_phase p + 1) .& 3)) p.
Proof. intros Ht. unfold advance_phase. by rewrite Ht. Qed.

Lemma same_but_phase_step l l' idx p :
  l !! idx = Some p → is_status READY p = true → throttled p = true →
  same_but_phase (<[idx := advance_phase p]> l) l' → same_but_phase l l'.
Proof.
  intros Hp Hr Ht [Hlen H]. rewrite length_insert in Hlen. split; [done|]. intros i q Hq.
  destruct (decide (i = idx)) as [->|Hne]; simplify_eq.
  - destruct (H idx (advance_phase p)) as (p' & Hp' & Hor).
    { apply list_lookup_insert_eq. by eapply lookup_lt_Some. }
    exists p'. split; [done|]. right. rewrite Hr, Ht. split; [done|].
    rewrite (advance_phase_thermal p Ht) in Hor. destruct Hor as [->|[_ [ph ->]]]; by eexists.
  - apply H. by rewrite list_lookup_insert_ne.
Qed.

(** What one scan does: a chosen process is ready and comes no later in the order than any
    ready process that is not throttled; none is chosen only when none is ready. *)
Lemma select_loop_spec order fb l r l' :
  select_loop order fb l = (r, l') →
  same_but_phase l l' ∧
  match r with
  | Some i => fb = Some i ∨ i ∈ order ∧ ∃ p, l !! i = Some p ∧ status p = READY
  | None => fb = None ∧ ∀ i p, i ∈ order → l !! i = Some p → status p ≠ READY
  end ∧
  (∀ pre j post p, order = pre ++ j :: post → l !! j = Some p → status p = READY → throttled p = false →
     ∃ i, r = Some i ∧ i ∈ pre ++ [j]).
Proof.
  revert fb l. induction order as [|idx order IH]; intros fb l; simpl.
  { intros [= <- <-]. split_and!; [apply same_but_phase_refl| |].
    - destruct fb; [by left|]. split; [done|]. intros i p Hi. by apply elem_of_nil in Hi.
    - intros [|? pre] j post p Hc; discriminate Hc. }
  (* a process that is passed over *)
  assert (Hpass : ∀ fb0 l0, select_loop order fb0 l0 = (r, l') →
    (∀ i p, l0 !! i = Some p → ∃ q, l !! i = Some q ∧ status q = status p) →
    (∀ i q, l !! i = Some q → ∃ p, l0 !! i = Some p ∧ status p = status q ∧ throttled p = throttled q) →
    (∀ p, l !! idx = Some p → status p = READY → throttled p = true ∧ is_Some fb0) →
    (same_but_phase l0 l' → same_but_phase l l') →
    (fb0 = fb ∨ fb = None ∧ fb0 = Some idx ∧ ∃ p, l !! idx = Some p ∧ status p = READY) →
    same_but_phase l l' ∧
    match r with
    | Some i => fb = Some i ∨ i ∈ idx :: order ∧ ∃ p, l !! i = Some p ∧ status p = READY
    | None => fb = None ∧ ∀ i p, i ∈ idx :: order → l !! i = Some p → status p ≠ READY
    end ∧
    (∀ pre j post p, idx :: order = pre ++ j :: post → l !! j = Some p → status p = READY →
       throttled p = false → ∃ i, r = Some i ∧ i ∈ pre ++ [j])).
  { intros fb0 l0 Hs Hback Hfwd Hidx Hsame Hfb. destruct (IH fb0 l0 Hs) as (H1 & H2 & H3).
    split; [by apply Hsame|]. split.
    - destruct r as [i|].
      + destruct H2 as [->|(Hi & p & Hp & Hr)].
        * destruct Hfb as [?|(_ & [= ->] & Hex)]; [by left|]. right. split; [left|done].
        * right. split; [by right|]. destruct (Hback i p Hp) as (q & Hq & Hst). exists q. by rewrite Hst.
      + destruct H2 as [-> H2]. destruct Hfb as [<-|(_ & ? & _)]; [|done]. split; [done|].
        intros i p [->|Hi]%elem_of_cons Hp.
        * intros Hr. destruct (Hidx p Hp Hr) as [_ [? ?]]. done.
        * destruct (Hfwd i p Hp) as (q & Hq & Hst & _). rewrite <- Hst. by eapply H2.
    - intros [|x pre] j post p [= -> Heq] Hp Hr Ht.
      + destruct (Hidx p Hp Hr) as [Ht' _]. congruence.
      + destruct (Hfwd j p Hp) as (q & Hq & Hst & Hth).
        destruct (H3 pre j post q Heq Hq) as (i & Hri & Hi); [congruence..|].
        exists i. split; [done|]. by right. }
  destruct (l !! idx) as [c|] eqn:Hc; cycle 1.
  { intros Hs. apply (Hpass fb l Hs); try done; [eauto|eauto|by left]. }
  destruct (is_status READY c) eqn:Hr; simpl; cycle 1.
  { intros Hs. apply bool_decide_eq_false in Hr.
    apply (Hpass fb l Hs); try done; [eauto|eauto|intros p [= <-]; done|by left]. }
  assert (Hr' := Hr). apply bool_decide_eq_true in Hr'.
  assert (Hnow : ∀ l0 : list process_t, same_but_phase l l0 →
    same_but_phase l l0 ∧ (fb = Some idx ∨ idx ∈ idx :: order ∧ ∃ p, l !! idx = Some p ∧ status p = READY) ∧
    (∀ pre j post p, idx :: order = pre ++ j :: post → l !! j = Some p → status p = READY →
       throttled p = false → ∃ i, Some idx = Some i ∧ i ∈ pre ++ [j])).
  { intros l0 Hsame. split; [done|]. split; [right; split; [left|by exists c]|].
    intros [|x pre] j post p [= -> Heq] _ _ _; eexists; (split; [done|]); left. }
  destruct (throttled c) eqn:Ht; cycle 1.
  { intros [= <- <-]. apply Hnow, same_but_phase_refl. }
  assert (Hst : status (advance_phase c) = status c) by done.
  assert (Hth : throttled (advance_phase c) = throttled c) by done.
  assert (Hlt : (idx < length l)%nat) by (by eapply lookup_lt_Some).
  assert (Hl0 : ∀ i, <[idx := advance_phase c]> l !! i = if decide (i = idx) then Some (advance_phase c) else l !! i).
  { intros i. destruct (decide (i = idx)) as [->|]; [by apply list_lookup_insert_eq|by apply list_lookup_insert_ne]. }
  destruct (skip_phase (advance_phase c) =? 0); simpl.
  - intros [= <- <-]. apply Hnow.
    eapply same_but_phase_step; [done..|apply same_but_phase_refl].
  - intros Hs. apply (Hpass _ _ Hs); rewrite ?Hc.
    + intros i p. rewrite Hl0. destruct (decide (i = idx)) as [->|]; [intros [= <-]|]; eauto.
    + intros i q Hq. rewrite Hl0. destruct (decide (i = idx)) as [->|]; [|eauto]. simplify_eq. eauto.
    + intros p [= <-] _. split; [done|]. by destruct fb.
    + intros Hsame. by eapply same_but_phase_step.
    + destruct fb; [by left|right]. split_and!; [done..|]. by exists c.
Qed.

(** ** Distance in the scan *)

(** How many slots are tried before [j] when the process in slot [c] gives way. *)
Definition distance (c j : nat) : nat := ((j + (MAX_PROCESSES - S c)) mod MAX_PROCESSES)%nat.

Lemma scan_order_lookup start k : (k < MAX_PROCESSES)%nat →
  scan_order start !! k = Some ((start + k) mod MAX_PROCESSES)%nat.
Proof. intros Hk. unfold scan_order. by rewrite list_lookup_fmap, lookup_seq_lt. Qed.

Lemma scan_order_length start : length (scan_order start) = MAX_PROCESSES.
Proof. unfold scan_order. by rewrite length_fmap, length_seq. Qed.

Lemma scan_order_all start i : (i < MAX_PROCESSES)%nat → i ∈ scan_order start.
Proof.
  intros Hi. apply list_elem_of_lookup.
  pose proof (Nat.mod_upper_bound (i + (MAX_PROCESSES - start mod MAX_PROCESSES)) MAX_PROCESSES
    ltac:(done)) as Hb.
  eexists. rewrite scan_order_lookup by exact Hb. f_equal.
  rewrite Nat.Div0.add_mod_idemp_r. rewrite <- Nat.Div0.add_mod_idemp_l.
  pose proof (Nat.mod_upper_bound start MAX_PROCESSES ltac:(done)).
  replace (start mod MAX_PROCESSES + (i + (MAX_PROCESSES - start mod MAX_PROCESSES)))%nat
    with (i + 1 * MAX_PROCESSES)%nat by lia.
  rewrite Nat.Div0.mod_add. by apply Nat.mod_small.
Qed.

Lemma distance_lt c j : (distance c j < MAX_PROCESSES)%nat.
Proof. apply Nat.mod_upper_bound. done. Qed.

(** [mod] on the two turns the sums below can take. *)
Lemma mod_cases x : (x < 2 * MAX_PROCESSES)%nat →
  (x mod MAX_PROCESSES = if x <? MAX_PROCESSES then x else x - MAX_PROCESSES)%nat.
Proof.
  intros Hx. destruct (Nat.ltb_spec x MAX_PROCESSES); [by apply Nat.mod_small|].
  replace x with ((x - MAX_PROCESSES) + 1 * MAX_PROCESSES)%nat at 1 by lia.
  rewrite Nat.Div0.mod_add. apply Nat.mod_small. lia.
Qed.

Lemma distance_cases c j : (c < MAX_PROCESSES)%nat → (j < MAX_PROCESSES)%nat →
  (distance c j = if j <=? c then j + MAX_PROCESSES - S c else j - S c)%nat.
Proof.
  intros Hc Hj. unfold distance. rewrite mod_cases by lia.
  destruct (Nat.ltb_spec (j + (MAX_PROCESSES - S c)) MAX_PROCESSES), (Nat.leb_spec j c); lia.
Qed.

Lemma distance_scan c j : (c < MAX_PROCESSES)%nat → (j < MAX_PROCESSES)%nat →
  scan_order (S c) !! distance c j = Some j.
Proof.
  intros Hc Hj. rewrite scan_order_lookup by apply distance_lt. f_equal.
  pose proof (distance_cases c j Hc Hj) as Hd. pose proof (distance_lt c j).
  rewrite mod_cases by lia. rewrite Hd. destruct (Nat.leb_spec j c); [|].
  - destruct (Nat.ltb_spec (S c + (j + MAX_PROCESSES - S c)) MAX_PROCESSES); lia.
  - destruct (Nat.ltb_spec (S c + (j - S c)) MAX_PROCESSES); lia.
Qed.

Lemma scan_distance c k i : (c < MAX_PROCESSES)%nat → (k < MAX_PROCESSES)%nat →
  scan_order (S c) !! k = Some i → (i < MAX_PROCESSES)%nat ∧ distance c i = k.
Proof.
  intros Hc Hk Hi. rewrite scan_order_lookup in Hi by done.
  assert (Ei : (i = if S c + k <? MAX_PROCESSES then S c + k else S c + k - MAX_PROCESSES)%nat)
    by (rewrite <- mod_cases by lia; congruence).
  assert (Hb : (i < MAX_PROCESSES)%nat) by (destruct (Nat.ltb_spec (S c + k) MAX_PROCESSES); lia).
  split; [done|]. rewrite distance_cases by done.
  destruct (Nat.ltb_spec (S c + k) MAX_PROCESSES), (Nat.leb_spec i c); lia.
Qed.

Lemma select_spec c l r l' :
  process_select_next_ready (Some c) l = (r, l') → select_loop (scan_order (S c)) None l = (r, l').
Proof. unfold process_select_next_ready. done. Qed.

(** A ready process that is not throttled is chosen, or one before it in the order. *)
Lemma select_before c l j p :
  (c < MAX_PROCESSES)%nat → (j < MAX_PROCESSES)%nat →
  l !! j = Some p → status p = READY → throttled p = false →
  ∃ i, (process_select_next_ready (Some c) l).1 = Some i ∧ (i < MAX_PROCESSES)%nat ∧
    (distance c i ≤ distance c j)%nat.
Proof.
  intros Hc Hj Hp Hr Ht. destruct (process_select_next_ready (Some c) l) as [r l'] eqn:Hs.
  destruct (select_loop_spec _ _ _ _ _ (select_spec _ _ _ _ Hs)) as (_ & _ & H).
  pose proof (take_drop_middle _ _ _ (distance_scan c j Hc Hj)) as Hsplit.
  destruct (H _ j _ p (eq_sym Hsplit) Hp Hr Ht) as (i & -> & Hi). exists i. split; [done|].
  apply list_elem_of_lookup in Hi as [k Hk].
  assert (Hlk : (k ≤ distance c j)%nat).
  { apply lookup_lt_Some in Hk. rewrite length_app, length_take in Hk. simpl in Hk. lia. }
  assert (Hscan : scan_order (S c) !! k = Some i).
  { rewrite <- Hsplit. rewrite cons_middle, app_assoc. by apply lookup_app_l_Some. }
  destruct (scan_distance c k i Hc) as [Hi <-]; [pose proof (distance_lt c j); lia|done|done].
Qed.

Lemma distance_decreases c i j :
  (c < MAX_PROCESSES)%nat → (i < MAX_PROCESSES)%nat → (j < MAX_PROCESSES)%nat → i ≠ j →
  (distance c i ≤ distance c j)%nat → (distance i j < distance c j)%nat.
Proof.
  intros Hc Hi Hj Hne. rewrite !distance_cases by done.
  destruct (Nat.leb_spec i c), (Nat.leb_spec j c), (Nat.leb_spec j i); lia.
Qed.

(** ** Properties *)

(** selection finds a process exactly when one is ready, chooses only ready
    processes, and takes the first one after the current slot in the cyclic order that is
    not throttled unless an earlier one is due; it changes nothing but the skip phase of
    throttled ready processes. *)
Theorem process_select_spec c l :
  (c < MAX_PROCESSES)%nat → length l = MAX_PROCESSES →
  let '(r, l') := process_select_next_ready (Some c) l in
  same_but_phase l l' ∧
  (r = None ↔ ∀ i p, l !! i = Some p → status p ≠ READY) ∧
  (∀ i, r = Some i → ∃ p, l !! i = Some p ∧ status p = READY) ∧
  (∀ j p, l !! j = Some p → status p = READY → throttled p = false →
     ∃ i, r = Some i ∧ (distance c i ≤ distance c j)%nat).
Proof.
  intros Hc Hlen. destruct (process_select_next_ready (Some c) l) as [r l'] eqn:Hs.
  destruct (select_loop_spec _ _ _ _ _ (select_spec _ _ _ _ Hs)) as (H1 & H2 & _). split_and!; [done| | |].
  - split.
    + intros -> i p Hp. destruct H2 as [_ H2]. eapply H2; [|done].
      apply scan_order_all. rewrite <- Hlen. by eapply lookup_lt_Some.
    + intros Hno. destruct r as [i|]; [|done]. destruct H2 as [?|(_ & p & Hp & Hr)]; [done|].
      by destruct (Hno i p Hp).
  - intros i ->. destruct H2 as [?|(_ & ?)]; done.
  - intros j p Hp Hr Ht. destruct (select_before c l j p Hc) as (i & Hi & _ & Hd); [|done..|].
    + rewrite <- Hlen. by eapply lookup_lt_Some.
    + rewrite Hs in Hi. by exists i.
Qed.

(** ** Examples *)

(** A table with processes in slots 1 and 5, the second one throttled. *)
Definition demo_table : list process_t :=
  <[5%nat := set_thermal (Thermal 0 true 0) (set_status READY zero_process)]>
    (<[1%nat := set_status READY zero_process]> (replicate MAX_PROCESSES zero_process)).

Lemma process_select_spec_witness :
  (process_select_next_ready (Some 3%nat) demo_table).1 = Some 1%nat ∧
  let '(r, l') := process_select_next_ready (Some 3%nat) demo_table in
  r = None ↔ ∀ i p, demo_table !! i = Some p → status p ≠ READY.
Proof.
  split; [vm_compute; reflexivity|].
  pose proof (process_select_spec 3 demo_table ltac:(apply (bool_decide_unpack _); vm_compute; exact I)
    ltac:(vm_compute; reflexivity)) as H.
  destruct (process_select_next_ready (Some 3%nat) demo_table) as [r l']. apply H.
Defined.
