(* ===== verification/ProcessInv.v ===== *)
(** * Invariants of the process table

    What every operation of [kernel/process.c] and [process_lifecycle.c] keeps: live
    process identifiers are distinct, only the current process runs, and no process
    holds an address space that has been destroyed. *)

From stdpp Require Import gmultiset.
From S2P Require Import Prelude CString ProcessData Process Lifecycle Scheduler.

#[local] Strategy 100 [select_loop scan_order proc].

(** ** The address spaces in use *)

(** A ledger of address spaces: those the memory manager has handed out (a new one, or a
    copy) and has not been told to destroy since.  It counts, so that nothing has to be
    assumed about the addresses that are handed out; it is lost ([None]) when an
    address space is destroyed that is not in use. *)
Definition ledger_t : Type := option (gmultiset Z).

(** An answer of [vmm_create_user_space] or [vmm_copy_p4]; 0 is a failure. *)
Definition handed_out (a : Z) (l : ledger_t) : ledger_t :=
  if a =? 0 then l else (λ S, {[+ a +]} ⊎ S) <$> l.

(** A call of [vmm_destroy_user_space]. *)
Definition given_back (a : Z) (l : ledger_t) : ledger_t :=
  S ← l; if decide (a ∈ S) then Some (S ∖ {[+ a +]}) else None.

(** The state of a machine shows its ledger: nothing but the three calls changes it. *)
Class MachineSpec (M : Type) `{!Machine M} := {
  ledger : M → ledger_t;
  ledger_copy p4 m a m' : vmm_copy_p4 p4 m = (a, m') → ledger m' = handed_out a (ledger m);
  ledger_create p4 m a m' : vmm_create_user_space p4 m = (a, m') → ledger m' = handed_out a (ledger m);
  ledger_destroy a m : ledger (vmm_destroy_user_space a m) = given_back a (ledger m);
  ledger_load path argv envp p p4 m res m' : exec_load path argv envp p p4 m = (res, m') → ledger m' = ledger m;
  ledger_prepare p4 a n m ok m' : vmm_prepare_user_write p4 a n m = (ok, m') → ledger m' = ledger m;
  ledger_input m : ledger (input_clear_events m) = ledger m;
  ledger_switch p4 m : ledger (switch_page_table p4 m) = ledger m;
  ledger_fs f m : ledger (process_load_fs_base f m) = ledger m;
  ledger_store a v m : ledger (store_u32 a v m) = ledger m;
  ledger_retain e m : ledger (retain_fd_entry_refs e m) = ledger m;
  ledger_release_file h m : ledger (release_file_handle h m) = ledger m;
  ledger_release_pipe h k m : ledger (release_pipe_ref h k m) = ledger m;
  ledger_close_socket h m : ledger (close_socket_ref h m) = ledger m;
  ledger_release_event h m : ledger (release_eventfd_ref h m) = ledger m
}.

(** Every machine keeps a ledger when its calls are recorded. *)
Record recorded (M : Type) := Recorded { rec_machine : M; rec_ledger : ledger_t }.
Arguments Recorded {M} _ _.
Arguments rec_machine {M} _.
Arguments rec_ledger {M} _.

Definition on_recorded {M} (f : M → M) (r : recorded M) : recorded M :=
  Recorded (f (rec_machine r)) (rec_ledger r).

#[export] Instance recorded_Machine {M} `{!Machine M} : Machine (recorded M) := {|
  vmm_copy_p4 p4 r := let (a, m) := vmm_copy_p4 p4 (rec_machine r) in (a, Recorded m (handed_out a (rec_ledger r)));
  vmm_create_user_space p4 r :=
    let (a, m) := vmm_create_user_space p4 (rec_machine r) in (a, Recorded m (handed_out a (rec_ledger r)));
  vmm_destroy_user_space a r :=
    Recorded (vmm_destroy_user_space a (rec_machine r)) (given_back a (rec_ledger r));
  vmm_prepare_user_write p4 a n r :=
    let (ok, m) := vmm_prepare_user_write p4 a n (rec_machine r) in (ok, Recorded m (rec_ledger r));
  switch_page_table p4 := on_recorded (switch_page_table p4);
  process_load_fs_base f := on_recorded (process_load_fs_base f);
  store_u32 a v := on_recorded (store_u32 a v);
  retain_fd_entry_refs e := on_recorded (retain_fd_entry_refs e);
  release_file_handle h := on_recorded (release_file_handle h);
  release_pipe_ref h k := on_recorded (release_pipe_ref h k);
  close_socket_ref h := on_recorded (close_socket_ref h);
  release_eventfd_ref h := on_recorded (release_eventfd_ref h);
  exec_snapshot argv envp r := exec_snapshot argv envp (rec_machine r);
  exec_open path r := exec_open path (rec_machine r);
  exec_load path argv envp p p4 r :=
    let (res, m) := exec_load path argv envp p p4 (rec_machine r) in (res, Recorded m (rec_ledger r));
  input_clear_events := on_recorded input_clear_events
|}.

#[export] Program Instance recorded_MachineSpec {M} `{!Machine M} : MachineSpec (recorded M) :=
  {| ledger := rec_ledger |}.
Next Obligation. intros M ? p4 m a m'. simpl. destruct (vmm_copy_p4 _ _). by intros [= <- <-]. Qed.
Next Obligation. intros M ? p4 m a m'. simpl. destruct (vmm_create_user_space _ _). by intros [= <- <-]. Qed.
Next Obligation. done. Qed.
Next Obligation.
  intros M ? path argv envp p p4 m res m'. simpl. destruct (exec_load _ _ _ _ _ _). by intros [= <- <-].
Qed.
Next Obligation. intros M ? p4 a n m ok m'. simpl. destruct (vmm_prepare_user_write _ _ _ _). by intros [= <- <-]. Qed.
Solve Obligations with done.

(** An address space that is in use; of 0 this says only that the ledger is not lost. *)
Definition alive {M} `{!Machine M} `{!MachineSpec M} (m : M) (a : Z) : Prop :=
  ∃ S, ledger m = Some S ∧ (a = 0 ∨ a ∈ S).

Section ledger.
  Context {M : Type} `{!Machine M} `{!MachineSpec M}.
  Implicit Types m : M.

Lemma alive_same m m' b : ledger m' = ledger m → alive m b → alive m' b.
Proof. unfold alive. by intros ->. Qed.

Lemma alive_zero m b : alive m b → alive m 0.
Proof. intros (S & HS & _). exists S. eauto. Qed.

Lemma alive_handed a m m' : ledger m' = handed_out a (ledger m) →
  (∀ b, alive m b → alive m' b) ∧ (a ≠ 0 → alive m 0 → alive m' a).
Proof.
  intros E. unfold alive. rewrite E. unfold handed_out. destruct (Z.eqb_spec a 0) as [|Ha]; [done|]. split.
  - intros b (S & -> & Hb). eexists. split; [done|]. destruct Hb; [by left|right]. multiset_solver.
  - intros _ (S & -> & _). eexists. split; [done|]. right. multiset_solver.
Qed.

Lemma alive_copy p4 m a m' : vmm_copy_p4 p4 m = (a, m') →
  (∀ b, alive m b → alive m' b) ∧ (a ≠ 0 → alive m 0 → alive m' a).
Proof. intros E. eapply alive_handed, ledger_copy, E. Qed.

(** Destroying one address space that is in use. *)
Lemma alive_destroy a m b : a ≠ 0 → alive m a → alive m b → b ≠ a → alive (vmm_destroy_user_space a m) b.
Proof.
  unfold alive. rewrite ledger_destroy. intros Ha (S & -> & [|HS]) (S' & [= <-] & Hb) Hne; [done|]. simpl.
  rewrite decide_True by done. eexists. split; [done|]. destruct Hb; [by left|right]. multiset_solver.
Qed.

(** Destroying what has just been handed out, and one of two. *)
Lemma alive_undo a m m' b : a ≠ 0 → ledger m' = handed_out a (ledger m) → alive m b →
  alive (vmm_destroy_user_space a m') b.
Proof.
  unfold alive. rewrite ledger_destroy. unfold handed_out. intros Ha -> (S & -> & Hb).
  rewrite (proj2 (Z.eqb_neq _ _) Ha). simpl. rewrite decide_True by multiset_solver.
  eexists. split; [done|]. destruct Hb; [by left|right]. multiset_solver.
Qed.

Lemma alive_replace a b m m' : b ≠ 0 → ledger m' = handed_out b (ledger m) → a ≠ 0 → alive m a →
  alive (vmm_destroy_user_space a m') b.
Proof.
  intros Hb E Ha Hal. destruct (decide (b = a)) as [->|Hne]; [by eapply alive_undo|].
  destruct (alive_handed _ _ _ E) as [H1 H2]. apply alive_destroy; [done|by apply H1| |done].
  apply H2; [done|]. by eapply alive_zero.
Qed.

Lemma alive_load path argv envp p p4 m res m' b :
  exec_load path argv envp p p4 m = (res, m') → alive m b → alive m' b.
Proof. intros E. eapply alive_same, ledger_load, E. Qed.
Lemma alive_prepare p4 a n m ok m' b : vmm_prepare_user_write p4 a n m = (ok, m') → alive m b → alive m' b.
Proof. intros E. eapply alive_same, ledger_prepare, E. Qed.
Lemma alive_input m b : alive m b → alive (input_clear_events m) b.
Proof. apply alive_same, ledger_input. Qed.
Lemma alive_switch p4 m b : alive m b → alive (switch_page_table p4 m) b.
Proof. apply alive_same, ledger_switch. Qed.
Lemma alive_fs f m b : alive m b → alive (process_load_fs_base f m) b.
Proof. apply alive_same, ledger_fs. Qed.
Lemma alive_store a v m b : alive m b → alive (store_u32 a v m) b.
Proof. apply alive_same, ledger_store. Qed.
Lemma alive_retain e m b : alive m b → alive (retain_fd_entry_refs e m) b.
Proof. apply alive_same, ledger_retain. Qed.
Lemma alive_release_file h m b : alive m b → alive (release_file_handle h m) b.
Proof. apply alive_same, ledger_release_file. Qed.
Lemma alive_release_pipe h k m b : alive m b → alive (release_pipe_ref h k m) b.
Proof. apply alive_same, ledger_release_pipe. Qed.
Lemma alive_close_socket h m b : alive m b → alive (close_socket_ref h m) b.
Proof. apply alive_same, ledger_close_socket. Qed.
Lemma alive_release_event h m b : alive m b → alive (release_eventfd_ref h m) b.
Proof. apply alive_same, ledger_release_event. Qed.
End ledger.

Create HintDb kern.
#[export] Hint Resolve alive_switch alive_fs alive_store alive_retain alive_release_file
  alive_release_pipe alive_close_socket alive_release_event alive_input : kern.

Section inv.
  Context {M : Type} `{!Machine M} `{!MachineSpec M}.
  Implicit Types s : kernel M.

(** The table. *)
Record ktable s : Prop := {
  kw_len : length (process_list s) = MAX_PROCESSES;
  kw_pid i p : process_list s !! i = Some p → status p ≠ DEAD → 0 < pid p < next_pid s;
  kw_uniq i j p q : process_list s !! i = Some p → process_list s !! j = Some q →
    status p ≠ DEAD → status q ≠ DEAD → pid p = pid q → i = j;
  kw_parent i p : process_list s !! i = Some p → status p ≠ DEAD → parent_pid p < pid p;
  kw_run i p : process_list s !! i = Some p → status p = RUNNING → current_process s = Some i;
  kw_dead i p : process_list s !! i = Some p → status p = DEAD → p4_table p = 0;
  kw_alive i p : process_list s !! i = Some p → p4_table p ≠ 0 → alive (machine s) (p4_table p);
  kw_ledger : alive (machine s) 0
}.

(** The current process is there and has not ended. *)
Definition klive s : Prop :=
  ∃ c p, current_process s = Some c ∧ process_list s !! c = Some p ∧ status p ≠ DEAD ∧ status p ≠ ZOMBIE.

Definition kwf s : Prop := ktable s ∧ klive s.

(** ** Elementary steps *)

Lemma upd_lookup i f s j :
  process_list (upd i f s) !! j =
    (if decide (i = j) then f <$> process_list s !! j else process_list s !! j).
Proof.
  simpl. destruct (decide (i = j)) as [->|Hne]; [by rewrite list_lookup_alter_eq|].
  by rewrite list_lookup_alter_ne.
Qed.

Lemma upd_lookup_inv i f s j q : process_list (upd i f s) !! j = Some q →
  (∃ p, j = i ∧ process_list s !! i = Some p ∧ q = f p) ∨ (j ≠ i ∧ process_list s !! j = Some q).
Proof.
  rewrite upd_lookup. destruct (decide (i = j)) as [->|]; [|by right].
  intros (p & Hp & ->)%fmap_Some. left. eauto.
Qed.

Lemma proc_lookup i s p : process_list s !! i = Some p → proc i s = p.
Proof. unfold proc. by intros ->. Qed.

Lemma lookup_proc i s : (i < length (process_list s))%nat → process_list s !! i = Some (proc i s).
Proof. unfold proc. intros Hi. apply lookup_lt_is_Some in Hi as [p Hp]. by rewrite Hp. Qed.

Lemma is_status_true st p : is_status st p = true ↔ status p = st.
Proof. apply bool_decide_eq_true. Qed.
Lemma is_status_false st p : is_status st p = false ↔ status p ≠ st.
Proof. apply bool_decide_eq_false. Qed.

(** An edit of one entry: a live process keeps its identifier, nobody comes back to life,
    only the current process may run, and an address space is kept or dropped. *)
Record edit_ok s (i : nat) (p q : process_t) : Prop := {
  eo_live : status q ≠ DEAD → status p ≠ DEAD ∧ p_ids q = p_ids p;
  eo_run : status q = RUNNING → current_process s = Some i;
  eo_dead : status q = DEAD → p4_table q = 0;
  eo_p4 : p4_table q = p4_table p ∨ p4_table q = 0
}.

Lemma ktable_upd i f s :
  ktable s → (∀ p, process_list s !! i = Some p → edit_ok s i p (f p)) → ktable (upd i f s).
Proof.
  intros [H1 H2 H3 H7 H4 H5 H6 H8] Hok.
  assert (Hold : ∀ j q, process_list (upd i f s) !! j = Some q → ∃ p, process_list s !! j = Some p ∧
    (status q ≠ DEAD → status p ≠ DEAD ∧ p_ids q = p_ids p) ∧
    (p4_table q = p4_table p ∨ p4_table q = 0)).
  { intros j q [(p & -> & Hp & ->)|[Hne Hq]]%upd_lookup_inv; [|by exists q; eauto].
    exists p. destruct (Hok p Hp). done. }
  split.
  - simpl. by rewrite length_alter.
  - intros j q Hq Hd. destruct (Hold j q Hq) as (p & Hp & Hl & _). destruct (Hl Hd) as [Hd' E].
    unfold pid. rewrite E. by eapply H2.
  - intros j k q q' Hq Hq' Hd Hd' Heq.
    destruct (Hold j q Hq) as (p & Hp & Hl & _), (Hold k q' Hq') as (p' & Hp' & Hl' & _).
    destruct (Hl Hd) as [? Hpid], (Hl' Hd') as [? Hpid']. eapply H3; [done..|]. unfold pid in *. congruence.
  - intros j q Hq Hd. destruct (Hold j q Hq) as (p & Hp & Hl & _). destruct (Hl Hd) as [Hd' E].
    unfold parent_pid, pid. rewrite E. by eapply H7.
  - intros j q [(p & -> & Hp & ->)|[Hne Hq]]%upd_lookup_inv Hr; [|by eapply H4].
    by apply (eo_run _ _ _ _ (Hok p Hp)).
  - intros j q [(p & -> & Hp & ->)|[Hne Hq]]%upd_lookup_inv Hd; [|by eapply H5].
    by apply (eo_dead _ _ _ _ (Hok p Hp)).
  - intros j q Hq Hne. destruct (Hold j q Hq) as (p & Hp & _ & [E|E]); [|done].
    rewrite E in *. by eapply H6.
  - done.
Qed.

Lemma klive_upd i f s :
  klive s → (∀ p, process_list s !! i = Some p → status p ≠ DEAD → status p ≠ ZOMBIE →
    current_process s = Some i → status (f p) ≠ DEAD ∧ status (f p) ≠ ZOMBIE) → klive (upd i f s).
Proof.
  intros (c & p & Hc & Hp & H1 & H2) Hok. exists c. setoid_rewrite upd_lookup.
  destruct (decide (i = c)) as [->|].
  - exists (f p). rewrite Hp. destruct (Hok p Hp H1 H2 Hc). done.
  - by exists p.
Qed.

(** An edit that keeps identifier, status and address space. *)
Definition quiet (f : process_t → process_t) : Prop :=
  ∀ p, p_ids (f p) = p_ids p ∧ status (f p) = status p ∧ p4_table (f p) = p4_table p.

Lemma ktable_quiet i f s : quiet f → ktable s → ktable (upd i f s).
Proof.
  intros Hf Hs. apply ktable_upd; [done|]. intros p Hp. destruct (Hf p) as (E1 & E2 & E3).
  split; rewrite ?E1, ?E2, ?E3; [done|by eapply kw_run|by eapply kw_dead|by left].
Qed.

Lemma klive_quiet i f s : quiet f → klive s → klive (upd i f s).
Proof. intros Hf Hs. apply klive_upd; [done|]. intros p _ ?? _. destruct (Hf p) as (_ & -> & _). done. Qed.

Lemma ktable_machine f s : (∀ b, alive (machine s) b → alive (f (machine s)) b) →
  ktable s → ktable (on_machine f s).
Proof. intros Hf [?????? H6 H8]. split; try done; simpl; eauto. Qed.

Lemma klive_machine f s : klive s → klive (on_machine f s).
Proof. done. Qed.

(** A new status that is neither running nor dead. *)
Lemma ktable_status i st s : st ≠ RUNNING → st ≠ DEAD → status (proc i s) ≠ DEAD →
  ktable s → ktable (upd i (set_status st) s).
Proof.
  intros H1 H2 Hd Hs. apply ktable_upd; [done|]. intros p Hp. rewrite (proc_lookup _ _ _ Hp) in Hd.
  split; simpl; try done. by left.
Qed.

Lemma ktable_clear i s : ktable s → ktable (upd i (λ _, zero_process) s).
Proof. intros Hs. apply ktable_upd; [done|]. intros p _. split; try done. by right. Qed.

(** Nobody runs, except possibly [j]. *)
Definition idle_but (j : nat) s : Prop :=
  ∀ i p, process_list s !! i = Some p → status p = RUNNING → i = j.

Lemma ktable_set_current j s : idle_but j s → ktable s → ktable (set_current j s).
Proof. intros Hi [?????? ? ?]. split; try done. intros i p Hp Hr. simpl. f_equal. symmetry. by eapply Hi. Qed.

(** When the current process does not run, nobody does. *)
Lemma idle_when_stopped c j s : ktable s → current_process s = Some c →
  status (proc c s) ≠ RUNNING → idle_but j s.
Proof.
  intros Hs Hc Hr i p Hp Hrun. pose proof (kw_run _ Hs i p Hp Hrun) as Hi.
  rewrite Hc in Hi. injection Hi as ->. by rewrite (proc_lookup _ _ _ Hp) in Hr.
Qed.

(** A new process in a dead slot. *)
Lemma ktable_new i q s : ktable s → status (proc i s) = DEAD → next_pid s + 1 < 2 ^ 32 →
  0 < next_pid s → pid q = next_pid s → parent_pid q < pid q → status q = READY →
  (p4_table q ≠ 0 → alive (machine s) (p4_table q)) →
  ktable (upd i (λ _, q) (bump_pid s)).
Proof.
  intros [H1 H2 H3 H7 H4 H5 H6 H8] Hd Hn Hpos Hpid Hpar Hst Hal.
  assert (Hu : u32 (next_pid s + 1) = next_pid s + 1) by (apply Z.mod_small; lia).
  assert (Hold : ∀ j p, process_list (upd i (λ _, q) (bump_pid s)) !! j = Some p →
    (j = i ∧ p = q) ∨ (j ≠ i ∧ process_list s !! j = Some p)).
  { intros j p [(p' & -> & Hp & ->)|?]%upd_lookup_inv; [by left|by right]. }
  split.
  - simpl. by rewrite length_alter.
  - intros j p [[-> ->]|[Hne Hp]]%Hold Hnd; simpl; rewrite Hu; [lia|].
    specialize (H2 j p Hp Hnd). lia.
  - intros j k p p' [[-> ->]|[Hne Hp]]%Hold [[-> ->]|[Hne' Hp']]%Hold Hd1 Hd2 Heq; [done| | |].
    + specialize (H2 k p' Hp' Hd2). lia.
    + specialize (H2 j p Hp Hd1). lia.
    + by eapply H3.
  - intros j p [[-> ->]|[Hne Hp]]%Hold Hnd; [done|by eapply H7].
  - intros j p [[-> ->]|[Hne Hp]]%Hold Hr; [congruence|by eapply H4].
  - intros j p [[-> ->]|[Hne Hp]]%Hold Hr; [congruence|by eapply H5].
  - intros j p [[-> ->]|[Hne Hp]]%Hold Hr; simpl; [auto|by eapply H6].
  - done.
Qed.

(** Tables that agree on identifiers, status and address spaces. *)
Definition same_view (l l' : list process_t) : Prop :=
  length l' = length l ∧
  ∀ i p', l' !! i = Some p' → ∃ p, l !! i = Some p ∧
    p_ids p' = p_ids p ∧ status p' = status p ∧ p4_table p' = p4_table p.

Lemma ktable_view l s : same_view (process_list s) l → ktable s → ktable (set_list l s).
Proof.
  intros [Hlen Hv] [H1 H2 H3 H7 H4 H5 H6 H8]. split; simpl.
  - congruence.
  - intros i p' Hp. destruct (Hv i p' Hp) as (p & Hl & E & -> & _). unfold pid. rewrite E. by eapply H2.
  - intros i j p' q' Hp Hq. destruct (Hv i p' Hp) as (p & Hl & E & -> & _).
    destruct (Hv j q' Hq) as (q & Hl' & E' & -> & _). unfold pid. rewrite E, E'. by eapply H3.
  - intros i p' Hp. destruct (Hv i p' Hp) as (p & Hl & E & -> & _). unfold parent_pid, pid. rewrite E.
    by eapply H7.
  - intros i p' Hp. destruct (Hv i p' Hp) as (p & Hl & _ & -> & _). eauto.
  - intros i p' Hp. destruct (Hv i p' Hp) as (p & Hl & _ & -> & ->). eauto.
  - intros i p' Hp. destruct (Hv i p' Hp) as (p & Hl & _ & _ & ->). eauto.
  - done.
Qed.

Lemma klive_view l s : same_view (process_list s) l → klive s → klive (set_list l s).
Proof.
  intros [Hlen Hv] (c & p & Hc & Hp & Hd & Hz).
  assert (Hlt : (c < length l)%nat) by (rewrite Hlen; by eapply lookup_lt_Some).
  apply lookup_lt_is_Some in Hlt as [p' Hp']. exists c, p'.
  destruct (Hv c p' Hp') as (p0 & Hp0 & _ & -> & _). by simplify_eq.
Qed.

Lemma view_status l s i : same_view (process_list s) l → status (proc i (set_list l s)) = status (proc i s).
Proof.
  intros [Hlen Hv]. unfold proc. simpl. destruct (l !! i) as [p'|] eqn:Hp'.
  - destruct (Hv i p' Hp') as (p & -> & _ & Hst & _). exact Hst.
  - apply lookup_ge_None in Hp'. rewrite Hlen in Hp'. apply lookup_ge_None in Hp' as ->. done.
Qed.

Lemma phase_view l l' : same_but_phase l l' → same_view l l'.
Proof.
  intros [Hlen H]. split; [done|]. intros i p' Hp'.
  assert (Hlt : (i < length l)%nat) by (rewrite <- Hlen; by eapply lookup_lt_Some).
  apply lookup_lt_is_Some in Hlt as [p Hp]. destruct (H i p Hp) as (q & Hq & Hor). simplify_eq.
  exists p. split; [done|]. destruct Hor as [->|(_ & ph & ->)]; done.
Qed.

Lemma select_view c l r l' : process_select_next_ready (Some c) l = (r, l') →
  same_view l l' ∧ (∀ i, r = Some i → ∃ p, l !! i = Some p ∧ status p = READY).
Proof.
  intros Hs. destruct (select_loop_spec _ _ _ _ _ (select_spec _ _ _ _ Hs)) as (H1 & H2 & _).
  split; [by apply phase_view|]. intros i ->. destruct H2 as [?|[_ ?]]; done.
Qed.

(** ** Steps the handlers share *)

Lemma kwf_quiet i f s : quiet f → kwf s → kwf (upd i f s).
Proof. intros Hf [??]. split; [by apply ktable_quiet|by apply klive_quiet]. Qed.

Lemma kwf_machine f s : (∀ b, alive (machine s) b → alive (f (machine s)) b) → kwf s → kwf (on_machine f s).
Proof. intros Hf [??]. split; [by apply ktable_machine|done]. Qed.

Lemma kwf_upd_current f s : quiet f → kwf s → kwf (upd_current f s).
Proof. intros Hf Hs. unfold upd_current. destruct (current_process s); [by apply kwf_quiet|done]. Qed.

(** The current process is entered again with a new status. *)
Lemma kwf_current_status c st s : kwf s → current_process s = Some c → st ≠ DEAD → st ≠ ZOMBIE →
  kwf (upd c (set_status st) s).
Proof.
  intros [Hs Hl] Hc Hd Hz. split.
  - destruct Hl as (c' & p & Hc' & Hp & Hd' & _). rewrite Hc in Hc'. injection Hc' as <-.
    apply ktable_upd; [done|]. intros q Hq. simplify_eq. split; simpl; try done. by left.
  - apply klive_upd; [done|]. intros p _ _ _ _. done.
Qed.

Lemma kwf_current_lt c s : kwf s → current_process s = Some c →
  (c < length (process_list s))%nat ∧ status (proc c s) ≠ DEAD ∧ status (proc c s) ≠ ZOMBIE.
Proof.
  intros [_ (c' & p & Hc' & Hp & Hd & Hz)] Hc. rewrite Hc in Hc'. injection Hc' as <-.
  rewrite (proc_lookup _ _ _ Hp). split; [by eapply lookup_lt_Some|done].
Qed.

(** An edit that starts a process. *)
Definition starting (f : process_t → process_t) : Prop :=
  ∀ p, p_ids (f p) = p_ids p ∧ status (f p) = RUNNING ∧ p4_table (f p) = p4_table p.

(** Entering another process after the current one has stopped. *)
Lemma kwf_enter_with c j f s : starting f → ktable s → current_process s = Some c →
  status (proc c s) ≠ RUNNING → (j < length (process_list s))%nat → status (proc j s) ≠ DEAD →
  kwf (upd j f (set_current j s)).
Proof.
  intros Hf Hs Hc Hr Hj Hd. split.
  - apply ktable_upd; [apply ktable_set_current; [by eapply idle_when_stopped|done]|].
    intros p Hp. change (process_list s !! j = Some p) in Hp. rewrite (proc_lookup _ _ _ Hp) in Hd.
    destruct (Hf p) as (E1 & E2 & E3). split; rewrite ?E1, ?E2, ?E3; try done. by left.
  - exists j, (f (proc j s)). rewrite upd_lookup, decide_True by done. destruct (Hf (proc j s)) as (_ & E & _).
    change (process_list (set_current j s)) with (process_list s).
    rewrite (lookup_proc _ _ Hj), E. done.
Qed.

Lemma kwf_enter c j s : ktable s → current_process s = Some c → status (proc c s) ≠ RUNNING →
  (j < length (process_list s))%nat → status (proc j s) ≠ DEAD →
  kwf (upd j (set_status RUNNING) (set_current j s)).
Proof. intros. eapply kwf_enter_with; [|done..]. by intros p. Qed.

Lemma proc_upd_eq i f s : (i < length (process_list s))%nat → proc i (upd i f s) = f (proc i s).
Proof.
  intros Hi. apply proc_lookup. rewrite upd_lookup, decide_True by done. by rewrite (lookup_proc _ _ Hi).
Qed.

Lemma proc_upd_ne i j f s : i ≠ j → proc j (upd i f s) = proc j s.
Proof. intros Hne. unfold proc. by rewrite upd_lookup, decide_False. Qed.

Lemma upd_length i f s : length (process_list (upd i f s)) = length (process_list s).
Proof. apply length_alter. Qed.

End inv.

(** Solves [quiet f] for the setters. *)
#[export] Hint Extern 0 (quiet _) => (intros ?; simpl; done) : kern.
