(* ===== verification/ProcessOps.v ===== *)
(** * Every process operation keeps the invariant *)

From S2P Require Import Prelude CString ProcessData Process Lifecycle Scheduler ProcessInv.

#[local] Strategy 100 [select_loop scan_order proc].

Section ops.
  Context {M : Type} `{!Machine M} `{!MachineSpec M}.
  Implicit Types s : kernel M.

(** ** Scheduling *)

Lemma schedule_wf r s : kwf s → kwf (schedule r s).2.
Proof.
  intros Hwf. unfold schedule, enter_process. destruct (current_process s) as [c|] eqn:Hc; [|done]. cbv zeta.
  set (s1 := upd c (set_interrupted None) (upd c (set_regs r) s)).
  assert (H1 : kwf s1) by (do 2 (apply kwf_quiet; [auto with kern|]); done).
  set (s2 := if is_status RUNNING (proc c s1) then upd c (set_status READY) s1 else s1).
  assert (Hc1 : current_process s1 = Some c) by done.
  assert (H2 : kwf s2) by (unfold s2; destruct (is_status _ _); [by apply kwf_current_status|done]).
  assert (Hc2 : current_process s2 = Some c) by (unfold s2; by destruct (is_status _ _)).
  assert (Hstop : status (proc c s2) ≠ RUNNING).
  { unfold s2. destruct (is_status RUNNING (proc c s1)) eqn:Hr.
    - destruct (kwf_current_lt c s1 H1 Hc1) as [Hlt _]. by rewrite proc_upd_eq.
    - by apply is_status_false in Hr. }
  destruct (process_select_next_ready (Some c) (process_list s2)) as [next l] eqn:Hsel.
  destruct (select_view _ _ _ _ Hsel) as [Hv Hready].
  assert (H3 : kwf (set_list l s2)) by (split; [apply ktable_view|apply klive_view]; (done || apply H2)).
  assert (Hkeep : kwf (upd c (set_status RUNNING) (set_list l s2))) by (by apply kwf_current_status).
  destruct next as [next|]; [|done]. destruct (next =? c)%nat; [done|]. simpl snd.
  do 2 (apply kwf_machine; [auto with kern|]). destruct (Hready next eq_refl) as (p & Hp & Hst).
  apply (kwf_enter c); [apply H3|done| | |].
  - by rewrite view_status.
  - simpl. rewrite (proj1 Hv). by eapply lookup_lt_Some.
  - rewrite view_status by done. rewrite (proc_lookup _ _ _ Hp). congruence.
Qed.

Lemma preempt_wf fr s : kwf s → kwf (process_preempt_from_interrupt fr s).2.
Proof.
  intros Hwf. unfold process_preempt_from_interrupt. destruct fr as [fr|]; [|done].
  destruct (current_process s) as [c|] eqn:Hc; [|done]. destruct (_ || _); [done|]. cbv zeta.
  set (s1 := upd c (process_save_interrupt_context fr) s).
  assert (H1 : kwf s1) by (apply kwf_quiet; [auto with kern|done]).
  set (s2 := upd c (set_status READY) s1).
  assert (H2 : kwf s2) by (by apply kwf_current_status).
  assert (Hstop : status (proc c s2) ≠ RUNNING).
  { destruct (kwf_current_lt c s1 H1 Hc) as [Hlt _]. unfold s2. by rewrite proc_upd_eq. }
  destruct (process_select_next_ready (Some c) (process_list s2)) as [next l] eqn:Hsel.
  destruct (select_view _ _ _ _ Hsel) as [Hv Hready].
  assert (H3 : kwf (set_list l s2)) by (split; [apply ktable_view|apply klive_view]; (done || apply H2)).
  assert (Hkeep : kwf (upd c (set_status RUNNING) (set_list l s2))) by (by apply kwf_current_status).
  destruct next as [next|]; [|done]. destruct (next =? c)%nat; [done|]. simpl snd.
  do 2 (apply kwf_machine; [auto with kern|]). destruct (Hready next eq_refl) as (p & Hp & Hst).
  apply (kwf_enter c); [apply H3|done| | |].
  - by rewrite view_status.
  - simpl. rewrite (proj1 Hv). by eapply lookup_lt_Some.
  - rewrite view_status by done. rewrite (proc_lookup _ _ _ Hp). congruence.
Qed.

Lemma thermal_view e l :
  same_view l ((λ p, if is_status DEAD p || is_status ZOMBIE p
     then set_thermal (Thermal (t_delay_events (p_thermal p)) false 0) p
     else let t := e && negb (process_is_thermal_essential p) in
          set_thermal (Thermal (t_delay_events (p_thermal p)) t (if t then skip_phase p else 0)) p) <$> l).
Proof.
  split; [by rewrite length_fmap|]. intros i p' Hp'. rewrite list_lookup_fmap in Hp'.
  apply fmap_Some in Hp' as (p & Hp & ->). exists p. split; [done|]. by destruct (_ || _).
Qed.

Lemma thermal_policy_wf e s : kwf s → kwf (process_update_thermal_policy e s).
Proof.
  intros [Ht Hl]. pose proof (thermal_view e (process_list s)) as Hv.
  pose proof (ktable_view _ s Hv Ht) as Ht'. pose proof (klive_view _ s Hv Hl) as Hl'.
  split; [|exact Hl']. destruct Ht'. split; assumption.
Qed.

Lemma timer_wf fr policy s : kwf s → kwf (timer_handler fr policy s).2.
Proof.
  intros Hs. unfold timer_handler. apply preempt_wf.
  set (s1 := upd_current _ s). assert (H1 : kwf s1).
  { apply kwf_upd_current; [|done]. intros p. by destruct (is_status RUNNING p). }
  destruct policy; [by apply thermal_policy_wf|done].
Qed.

(** ** Parts of the life cycle *)

Lemma vfork_ktable c s : ktable s → ktable (process_complete_vfork c s).
Proof.
  intros Hs. unfold process_complete_vfork. cbv zeta. destruct (_ =? 0); [done|].
  set (s1 := upd c (set_vfork_parent_pid 0) s). assert (H1 : ktable s1) by (apply ktable_quiet; auto with kern).
  destruct (find_idx _ _) as [i|]; [|done].
  assert (H2 : ktable (upd i (set_vfork_child_pid 0) s1)) by (apply ktable_quiet; auto with kern).
  destruct (is_status WAITING _) eqn:Hw; [|done]. apply is_status_true in Hw.
  apply ktable_status; [done..|congruence|done].
Qed.

Lemma write_u32_ktable p4 a v s : ktable s → ktable (write_process_u32 p4 a v s).2.
Proof.
  intros Hs. unfold write_process_u32. destruct (a =? 0); [done|].
  destruct (vmm_prepare_user_write p4 a 4 (machine s)) as [ok m] eqn:Hp.
  assert (H1 : ktable (on_machine (λ _, m) s)).
  { apply ktable_machine; [|done]. intros b. exact (alive_prepare _ _ _ _ _ _ b Hp). }
  destruct ok; [|done]. apply ktable_machine; [|done]. intros b.
  apply alive_store.
Qed.

Lemma alive_release_fds l m b : alive m b → alive (foldl (λ m e, release_fd_entry e m) m l) b.
Proof.
  revert m. induction l as [|e l IH]; intros m Hm; [done|]. apply IH. unfold release_fd_entry.
  destruct (kind e); auto with kern.
Qed.

Lemma alive_retain_fds l m b : alive m b → alive (syscall_retain_fd_table_entries l m) b.
Proof.
  unfold syscall_retain_fd_table_entries. revert m. induction l as [|e l IH]; intros m Hm; [done|].
  simpl. apply IH. destruct (kind e); auto with kern.
Qed.

Lemma release_fds_ktable i s : ktable s → ktable (syscall_release_fd_table_entries i s).
Proof.
  intros Hs. apply ktable_quiet; [auto with kern|]. apply ktable_machine; [|done].
  intros b. apply alive_release_fds.
Qed.

(** An address space is destroyed only when nobody holds it any more. *)
Lemma release_as_ktable a i s : (a ≠ 0 → alive (machine s) a) →
  (a ≠ 0 → p4_table (proc i s) = a → alive (vmm_destroy_user_space a (machine s)) a) → ktable s →
  ktable (process_release_address_space a i s).
Proof.
  intros Hal Hp4 Hs. unfold process_release_address_space. destruct (Z.eqb_spec a 0) as [|Ha]; [done|].
  destruct (existsb _ _) eqn:He; [done|]. destruct Hs as [H1 H2 H3 H7 H4 H5 H6 H8]. split; try done; simpl; [|by apply alive_destroy; auto].
  intros j p Hp Hne. destruct (decide (p4_table p = a)) as [<-|]; [|apply alive_destroy; [done|auto|by eapply H6|done]].
  destruct (decide (j = i)) as [->|Hj]; [rewrite (proc_lookup _ _ _ Hp) in Hp4; auto|]. exfalso.
  assert (Hd : status p ≠ DEAD) by (intros Hd; by apply Hne, (H5 j p)).
  assert (Hin : j ∈ seq 0 MAX_PROCESSES).
  { apply elem_of_seq. split; [lia|]. rewrite <- H1. apply lookup_lt_Some in Hp. lia. }
  enough (existsb (λ k, negb (k =? i)%nat && negb (is_status DEAD (proc k s))
    && (p4_table (proc k s) =? p4_table p)) (seq 0 MAX_PROCESSES) = true) by congruence.
  apply existsb_exists. exists j. split; [by apply list_elem_of_In|].
  rewrite (proc_lookup _ _ _ Hp), Z.eqb_refl, (proj2 (Nat.eqb_neq _ _) Hj).
  by rewrite (proj2 (is_status_false DEAD p)).
Qed.

Lemma release_memory_ktable i s : (i < length (process_list s))%nat → ktable s →
  ktable (release_process_memory i s).
Proof.
  intros Hi Hs. unfold release_process_memory. destruct (_ =? 0); [done|].
  apply release_as_ktable; [intros Ha; apply (kw_alive _ Hs i); [by apply lookup_proc|done]| |].
  { intros Ha. rewrite proc_upd_eq by done. simpl. intros E. by rewrite <- E in Ha. }
  apply ktable_upd; [done|]. intros p Hp. split; simpl; [done|by eapply kw_run|done|by right].
Qed.

(** What [release_process_memory] leaves: the same processes, one without memory. *)
Lemma release_memory_proc i j s : (i < length (process_list s))%nat →
  proc j (release_process_memory i s) =
    (if decide (i = j) then set_p4_table 0 (proc j s) else proc j s).
Proof.
  intros Hi. unfold release_process_memory. destruct (Z.eqb_spec (p4_table (proc i s)) 0) as [E|E].
  - destruct (decide (i = j)) as [<-|]; [|done]. destruct (proc i s). simpl in *. by rewrite <- E.
  - assert (Hsame : ∀ a s', process_list (process_release_address_space a i s') = process_list s').
    { intros a s'. unfold process_release_address_space. destruct (_ =? 0); [done|]. by destruct (existsb _ _). }
    unfold proc at 1. rewrite Hsame. change (proc j (upd i (set_p4_table 0) s) = if decide (i = j) then set_p4_table 0 (proc j s) else proc j s).
    destruct (decide (i = j)) as [<-|]; [by apply proc_upd_eq|by apply proc_upd_ne].
Qed.

Lemma release_memory_frame i s :
  current_process (release_process_memory i s) = current_process s ∧
  length (process_list (release_process_memory i s)) = length (process_list s).
Proof.
  unfold release_process_memory, process_release_address_space. cbv zeta.
  destruct (p4_table (proc i s) =? 0); [done|]. case_ifs; simpl; by rewrite length_alter.
Qed.

(** ** New processes *)

Lemma upd_upd_eq i f g s : upd i f (upd i g s) = upd i (f ∘ g) s.
Proof. unfold upd, set_list. simpl. by rewrite list_alter_alter_eq. Qed.

Lemma upd_upd_ne i j f g s : i ≠ j → upd i f (upd j g s) = upd j g (upd i f s).
Proof. intros Hne. unfold upd, set_list. simpl. by rewrite list_alter_alter_ne. Qed.

Lemma find_dead s child : find_idx (is_status DEAD) (process_list s) = Some child →
  (child < length (process_list s))%nat ∧ status (proc child s) = DEAD.
Proof.
  intros (p & Hp & Hd & _)%find_idx_Some. split; [by eapply lookup_lt_Some|].
  rewrite (proc_lookup _ _ _ Hp). by apply is_status_true.
Qed.

Lemma current_not_dead c child s : kwf s → current_process s = Some c →
  status (proc child s) = DEAD → child ≠ c.
Proof. intros Hwf Hc Hd ->. by destruct (kwf_current_lt c s Hwf Hc) as (_ & ? & _). Qed.

Lemma ktable_bump s : next_pid s + 1 < 2 ^ 32 → 0 ≤ next_pid s → ktable s → ktable (bump_pid s).
Proof.
  intros Hn Hp [H1 H2 H3 H7 H4 H5 H6 H8].
  assert (Hu : u32 (next_pid s + 1) = next_pid s + 1) by (apply Z.mod_small; lia).
  split; try done. simpl. intros i p Hl Hd. rewrite Hu. specialize (H2 i p Hl Hd). lia.
Qed.

Lemma klive_other i f s c : current_process s = Some c → i ≠ c → klive s → klive (upd i f s).
Proof. intros Hc Hne Hl. apply klive_upd; [done|]. intros p _ _ _ Hi. congruence. Qed.

(** Identifiers are not used up. *)
Definition pids_left s : Prop := 0 < next_pid s ∧ next_pid s + 1 < 2 ^ 32.

Lemma kwf_new c i q s : kwf s → pids_left s → current_process s = Some c → i ≠ c →
  status (proc i s) = DEAD → pid q = next_pid s → parent_pid q < pid q → status q = READY →
  (p4_table q ≠ 0 → alive (machine s) (p4_table q)) →
  kwf (upd i (λ _, q) (bump_pid s)).
Proof.
  intros [Ht Hl] [Hpos Hn] Hc Hne Hd Hpid Hpar Hst Hal. split; [by apply ktable_new|].
  by apply (klive_other i _ (bump_pid s) c).
Qed.

Lemma fork_wf r s : kwf s → pids_left s → kwf (sys_fork r s).2.
Proof.
  intros Hwf [Hpos Hn]. unfold sys_fork. destruct (find_idx _ _) as [child|] eqn:Hf; [|done]. cbv zeta.
  destruct (find_dead _ _ Hf) as [Hlt Hd].
  set (z := Process (Ids (next_pid s) 0 0 0 0 false) _ _ _ _ _ _ _ _ _ _ _ _ _ _ _ _ _ _ _ _ _).
  destruct (proj2 Hwf) as (c & parent & Hc & Hp & _ & _).
  assert (Hne : child ≠ c) by (by eapply current_not_dead).
  assert (Hg : get_current_process (bump_pid (upd child (λ _, z) s)) = Some parent).
  { unfold get_current_process. change (current_process (bump_pid (upd child (λ _, z) s))) with (current_process s).
    rewrite Hc. cbn. rewrite list_lookup_alter_ne by done. done. }
  rewrite Hg. change (machine (bump_pid (upd child (λ _, z) s))) with (machine s).
  destruct (vmm_copy_p4 (p4_table parent) (machine s)) as [p4 m] eqn:Hcopy.
  destruct (alive_copy _ _ _ _ Hcopy) as [Hkeep Hnew].
  assert (Hm : kwf (on_machine (λ _, m) s)) by (by apply kwf_machine).
  destruct (Z.eqb_spec p4 0) as [->|Hp4]; simpl snd.
  - change (kwf (upd child (λ _, zero_process) (upd child (λ _, z) (bump_pid (on_machine (λ _, m) s))))).
    rewrite upd_upd_eq. split.
    + apply ktable_clear, ktable_bump; [done|simpl; lia|apply Hm].
    + apply (klive_other _ _ _ c); [done..|]. exact (proj2 Hm).
  - set (q := set_status READY _).
    set (f := syscall_retain_fd_table_entries (fd_table parent)).
    change (kwf (upd child (λ _, q) (upd child (λ _, z) (bump_pid (on_machine f (on_machine (λ _, m) s)))))).
    rewrite upd_upd_eq. apply (kwf_new c); try done.
    + apply kwf_machine; [|done]. intros b. apply alive_retain_fds.
    + change (pid parent < next_pid s). destruct (kwf_current_lt c s Hwf Hc) as (_ & Hd' & _).
      rewrite (proc_lookup _ _ _ Hp) in Hd'. by apply (kw_pid _ (proj1 Hwf) c parent).
    + intros _. apply alive_retain_fds. apply Hnew; [done|]. apply Hwf.
Qed.

(** The stores of the new identifier. *)
Definition clone_stores (r : syscall_regs) (new_pid : Z) (m : M) : M :=
  let m := if flag (rdi r) LINUX_CLONE_PARENT_SETTID then store_u32 (rdx r) new_pid m else m in
  if flag (rdi r) LINUX_CLONE_CHILD_SETTID then store_u32 (r10 r) new_pid m else m.

Lemma alive_clone_stores r n m b : alive m b → alive (clone_stores r n m) b.
Proof. intros Hm. unfold clone_stores. case_ifs; auto with kern. Qed.

(** [sys_clone] after its checks, up to the [vfork] part. *)
Definition clone_base (r : syscall_regs) (child parent : nat) s : kernel M :=
  upd child (λ _, set_status READY (clone_child r (next_pid s) (g_thermal_policy_active s) (proc parent s)))
    (bump_pid (on_machine (λ m, clone_stores r (next_pid s)
                (syscall_retain_fd_table_entries (fd_table (proc parent s)) m))
      (upd parent (set_shares_address_space true) s))).

Lemma clone_base_wf r child parent s : kwf s → pids_left s →
  current_process s = Some parent → status (proc child s) = DEAD → kwf (clone_base r child parent s).
Proof.
  intros Hwf Hn Hc Hd. assert (Hne : child ≠ parent) by (by eapply current_not_dead).
  destruct (kwf_current_lt parent s Hwf Hc) as (Hlt & Hdp & _).
  assert (Hlk : process_list s !! parent = Some (proc parent s)) by (by apply lookup_proc).
  assert (Hq : kwf (upd parent (set_shares_address_space true) s)) by (apply kwf_quiet; auto with kern).
  unfold clone_base. apply (kwf_new parent); try done.
  - apply kwf_machine; [|done]. intros b Hb. by apply alive_clone_stores, alive_retain_fds.
  - change (status (proc child (upd parent (set_shares_address_space true) s)) = DEAD). by rewrite proc_upd_ne.
  - change ((if flag (rdi r) LINUX_CLONE_THREAD then parent_pid (proc parent s) else pid (proc parent s))
      < next_pid s).
    pose proof (kw_pid _ (proj1 Hwf) parent _ Hlk Hdp). pose proof (kw_parent _ (proj1 Hwf) parent _ Hlk Hdp).
    case_ifs; lia.
  - intros Hp4. apply alive_clone_stores, alive_retain_fds.
    exact (kw_alive _ (proj1 Hwf) parent _ Hlk Hp4).
Qed.

(** The [vfork] part of [sys_clone]: the parent waits, the child runs. *)
Definition clone_vfork (r : syscall_regs) (child parent : nat) (new_pid : Z) s : kernel M :=
  let s := upd child (set_vfork_parent_pid (pid (proc parent s))) s in
  let s := upd parent (set_vfork_child_pid new_pid) s in
  let s := upd parent (set_regs (set_rax new_pid r)) s in
  let s := upd parent (set_interrupted None) s in
  let s := upd parent (set_status WAITING) s in
  let s := upd child (set_status RUNNING) s in
  let s := set_current child s in
  let s := on_machine (switch_page_table (p4_table (proc child s))) s in
  let s := on_machine (process_load_fs_base (fs_base (proc child s))) s in
  on_machine (switch_page_table (p4_table (proc child s))) s.

Lemma clone_vfork_wf r child parent n s : kwf s → current_process s = Some parent → child ≠ parent →
  (child < length (process_list s))%nat → status (proc child s) ≠ DEAD →
  kwf (clone_vfork r child parent n s).
Proof.
  intros Hwf Hc Hne Hlt Hd. unfold clone_vfork. cbv zeta. do 3 (apply kwf_machine; [auto with kern|]).
  set (s1 := upd parent (set_interrupted None) _).
  assert (H1 : kwf s1) by (unfold s1; repeat (apply kwf_quiet; [auto with kern|]); done).
  assert (H2 : kwf (upd parent (set_status WAITING) s1)) by (by apply kwf_current_status).
  assert (Hlt1 : (parent < length (process_list s1))%nat) by (apply (kwf_current_lt parent s1 H1); done).
  change (kwf (upd child (set_status RUNNING) (set_current child (upd parent (set_status WAITING) s1)))).
  apply (kwf_enter parent); [apply H2|done| | |].
  - by rewrite proc_upd_eq.
  - rewrite upd_length. unfold s1. by rewrite !upd_length.
  - unfold s1. rewrite !(proc_upd_ne parent) by done. rewrite proc_upd_eq by done. done.
Qed.

Lemma clone_eq r child parent s : current_process s = Some parent → child ≠ parent →
  (child < length (process_list s))%nat →
  flag (rdi r) LINUX_CLONE_VM = true → find_idx (is_status DEAD) (process_list s) = Some child →
  (flag (rdi r) LINUX_CLONE_PARENT_SETTID && (rdx r =? 0)) = false →
  (flag (rdi r) LINUX_CLONE_CHILD_SETTID && (r10 r =? 0)) = false →
  sys_clone r s =
    if flag (rdi r) LINUX_CLONE_VFORK
    then (SwitchTo child, clone_vfork r child parent (next_pid s) (clone_base r child parent s))
    else (Return (next_pid s), clone_base r child parent s).
Proof.
  intros Hc Hne Hlt Hvm Hf Hp Hch. unfold sys_clone. rewrite Hvm, Hc, Hp, Hch, Hf. cbn [negb]. cbv zeta.
  set (z := Process (Ids (next_pid s) 0 0 0 0 false) _ _ _ _ _ _ _ _ _ _ _ _ _ _ _ _ _ _ _ _ _).
  set (sz := bump_pid (upd child (λ _, z) s)).
  assert (Epar : proc parent sz = proc parent s) by (by apply (proc_upd_ne child parent (λ _, z) s)).
  rewrite Epar. set (cc := clone_child r (next_pid s) (g_thermal_policy_active sz) (proc parent s)).
  set (s2 := upd parent (set_shares_address_space true) (upd child (λ _, cc) sz)).
  assert (Efd : fd_table (proc child s2) = fd_table (proc parent s)).
  { unfold s2. rewrite proc_upd_ne by done. rewrite proc_upd_eq; [done|]. unfold sz. simpl. by rewrite length_alter. }
  rewrite Efd.
  assert (Ebase : upd child (set_status READY) (on_machine (λ m, clone_stores r (next_pid s)
      (syscall_retain_fd_table_entries (fd_table (proc parent s)) m)) s2) = clone_base r child parent s).
  { unfold clone_base, upd, set_list, on_machine, bump_pid. simpl. f_equal.
    rewrite (list_alter_alter_ne _ _ _ parent child) by done.
    rewrite !list_alter_alter_eq, (list_alter_alter_ne _ _ _ parent child) by done.
    by rewrite list_alter_alter_eq. }
  rewrite <- Ebase. unfold clone_stores. by destruct (flag _ LINUX_CLONE_PARENT_SETTID), (flag _ LINUX_CLONE_CHILD_SETTID).
Qed.

Lemma clone_wf r s : kwf s → pids_left s → kwf (sys_clone r s).2.
Proof.
  intros Hwf Hn. destruct (flag (rdi r) LINUX_CLONE_VM) eqn:Hvm; cycle 1.
  { unfold sys_clone. rewrite Hvm. by apply fork_wf. }
  destruct (proj2 Hwf) as (c & p & Hc & Hp & _).
  destruct (flag (rdi r) LINUX_CLONE_PARENT_SETTID && (rdx r =? 0)) eqn:E1;
    [unfold sys_clone; by rewrite Hvm, Hc, E1|].
  destruct (flag (rdi r) LINUX_CLONE_CHILD_SETTID && (r10 r =? 0)) eqn:E2;
    [unfold sys_clone; by rewrite Hvm, Hc, E1, E2|].
  destruct (find_idx (is_status DEAD) (process_list s)) as [child|] eqn:Hf;
    [|unfold sys_clone; by rewrite Hvm, Hc, E1, E2, Hf].
  destruct (find_dead _ _ Hf) as [Hlt Hd]. assert (Hne : child ≠ c) by (by eapply current_not_dead).
  rewrite (clone_eq r child c) by done. pose proof (clone_base_wf r child c s Hwf Hn Hc Hd) as Hb.
  destruct (flag (rdi r) LINUX_CLONE_VFORK); [|done]. simpl snd.
  assert (Hl : (child < length (process_list (upd c (set_shares_address_space true) s)))%nat)
    by (by rewrite upd_length).
  apply clone_vfork_wf; [done..| |].
  - unfold clone_base. rewrite upd_length. exact Hl.
  - unfold clone_base. by rewrite proc_upd_eq.
Qed.

End ops.
