(* ===== verification/LifecycleOps.v ===== *)
(** * The life cycle keeps the invariant, and so does every run

    Preservation for the handlers of [process_lifecycle.c], and the invariant of all
    kernel runs. *)

From S2P Require Import Prelude CString ProcessData Process Lifecycle Scheduler ProcessInv ProcessOps.

#[local] Strategy 100 [select_loop scan_order proc].

Section ops.
  Context {M : Type} `{!Machine M} `{!MachineSpec M}.
  Implicit Types s : kernel M.

Lemma vfork_frame c s : kwf s → kwf (process_complete_vfork c s) ∧
  current_process (process_complete_vfork c s) = current_process s.
Proof.
  intros [Ht Hl]. split; [split; [by apply vfork_ktable|]|].
  - unfold process_complete_vfork. cbv zeta. destruct (_ =? 0); [done|].
    set (s1 := upd c (set_vfork_parent_pid 0) s).
    assert (H1 : klive s1) by (apply klive_quiet; auto with kern).
    destruct (find_idx _ _) as [i|]; [|done].
    assert (H2 : klive (upd i (set_vfork_child_pid 0) s1)) by (apply klive_quiet; auto with kern).
    destruct (is_status WAITING _); [|done]. by apply klive_upd.
  - unfold process_complete_vfork. cbv zeta. destruct (_ =? 0); [done|].
    destruct (find_idx _ _); [|done]. by destruct (is_status WAITING _).
Qed.

Lemma write_u32_frame p4 a v s :
  process_list (write_process_u32 p4 a v s).2 = process_list s ∧
  current_process (write_process_u32 p4 a v s).2 = current_process s ∧
  next_pid (write_process_u32 p4 a v s).2 = next_pid s.
Proof.
  unfold write_process_u32. destruct (a =? 0); [done|].
  destruct (vmm_prepare_user_write _ _ _ _) as [ok m]. by destruct ok.
Qed.

Lemma write_u32_wf p4 a v s : kwf s → kwf (write_process_u32 p4 a v s).2.
Proof.
  intros [Ht Hl]. split; [by apply write_u32_ktable|].
  destruct (write_u32_frame p4 a v s) as (E1 & E2 & _). unfold klive. by rewrite E1, E2.
Qed.

Lemma release_fds_wf i s : kwf s → kwf (syscall_release_fd_table_entries i s).
Proof.
  intros [Ht Hl]. split; [by apply release_fds_ktable|]. apply klive_quiet; [auto with kern|done].
Qed.

(** ** [wait4] *)

(** A child that a [wait4] of [parent] is about. *)
Definition waited (parent req : Z) (p : process_t) : bool :=
  negb (is_status DEAD p) && (parent_pid p =? parent) && wait_pid_matches req (pid p).

(** The scan as searches: the first zombie; failing that, whether there is a child and the
    first one that is ready. *)
Lemma wait_scan_find parent req l i has fr :
  match find_idx (λ p, waited parent req p && is_status ZOMBIE p) l with
  | Some k => ∃ has' fr', wait_scan parent req i l has fr = (has', fr', Some (i + k)%nat)
  | None => wait_scan parent req i l has fr =
      (has || existsb (waited parent req) l,
       match fr with
       | Some k => Some k
       | None => (λ k, (i + k)%nat) <$> find_idx (λ p, waited parent req p && is_status READY p) l
       end, None)
  end.
Proof.
  revert i has fr. induction l as [|child l IH]; intros i has fr; simpl.
  { rewrite orb_false_r. by destruct fr. }
  assert (Hskip : is_status DEAD child || negb (parent_pid child =? parent)
    || negb (wait_pid_matches req (pid child)) = negb (waited parent req child)).
  { unfold waited. by destruct (is_status DEAD child), (parent_pid child =? parent),
      (wait_pid_matches req (pid child)). }
  rewrite Hskip. destruct (waited parent req child); simpl.
  - destruct (is_status ZOMBIE child); [exists true, fr; by rewrite Nat.add_0_r|].
    set (fr1 := match fr with None => if is_status READY child then Some i else None | Some _ => fr end).
    specialize (IH (S i) true fr1). destruct (find_idx _ l) as [k|]; simpl.
    + destruct IH as (has' & fr' & ->). exists has', fr'. by rewrite Nat.add_succ_r.
    + rewrite IH, orb_true_r. unfold fr1. destruct fr; [done|].
      destruct (is_status READY child); simpl; [by rewrite Nat.add_0_r|].
      rewrite <- option_fmap_compose. do 2 f_equal. apply option_fmap_ext. intros k. simpl. lia.
  - specialize (IH (S i) has fr). destruct (find_idx _ l) as [k|]; simpl.
    + destruct IH as (has' & fr' & ->). exists has', fr'. by rewrite Nat.add_succ_r.
    + rewrite IH. destruct fr; [done|]. rewrite <- option_fmap_compose. do 2 f_equal.
      apply option_fmap_ext. intros k. simpl. lia.
Qed.

Lemma waited_not_dead parent req p : waited parent req p = true → status p ≠ DEAD.
Proof. unfold waited. intros [[H _]%andb_true_iff _]%andb_true_iff. by apply is_status_false, negb_true_iff. Qed.

(** A zombie or ready process is not the live current one. *)
Lemma wait4_wf r s : kwf s → kwf (sys_wait4 r s).2.
Proof.
  intros Hwf. unfold sys_wait4, enter_process. cbv zeta. destruct (current_process s) as [c|] eqn:Hc; [|done].
  destruct (flag _ _); [done|]. destruct (_ || _); [done|].
  destruct (kwf_current_lt c s Hwf Hc) as (Hlt & Hd & Hz).
  pose proof (wait_scan_find (pid (proc c s)) (s64 (rdi r)) (process_list s) 0 false None) as Hscan.
  destruct (find_idx _ (process_list s)) as [k|] eqn:Hf.
  - destruct Hscan as (has' & fr' & ->). simpl (0 + k)%nat.
    apply find_idx_Some in Hf as (p & Hp & [_ Hk]%andb_true_iff & _). apply is_status_true in Hk.
    assert (Hne : k ≠ c) by (intros ->; rewrite (proc_lookup _ _ _ Hp) in Hz; done).
    assert (Hreap : ∀ s', kwf s' → current_process s' = Some c → kwf (upd k (λ _, zero_process) s')).
    { intros s' [Ht Hl] Hc'. split; [by apply ktable_clear|by apply (klive_other k _ s' c)]. }
    destruct (negb _); [|by apply Hreap].
    pose proof (write_u32_wf (p4_table (proc c s)) (rsi r) (u32 (exit_status (proc k s))) s Hwf) as Hw.
    destruct (write_u32_frame (p4_table (proc c s)) (rsi r) (u32 (exit_status (proc k s))) s) as (_ & Hcw & _).
    destruct (write_process_u32 _ _ _ s) as [ok s']. simpl in *. destruct ok; [|done].
    apply Hreap; [done|congruence].
  - rewrite Hscan. destruct (negb _); [done|]. destruct (flag _ _); [done|].
    destruct (find_idx (λ p, waited _ _ p && is_status READY p) (process_list s)) as [k|] eqn:Hr; [|done].
    cbn [fmap option_fmap option_map snd]. change (0 + k)%nat with k.
    apply find_idx_Some in Hr as (p & Hp & [_ Hk]%andb_true_iff & _). apply is_status_true in Hk.
    do 2 (apply kwf_machine; [auto with kern|]).
    assert (H1 : kwf (upd c (set_regs r) s)) by (apply kwf_quiet; auto with kern).
    assert (H2 : kwf (upd c (set_status WAITING) (upd c (set_regs r) s))) by (by apply kwf_current_status).
    assert (H3 : kwf (upd c (set_wait (s64 (rdi r)) (rsi r)) (upd c (set_status WAITING) (upd c (set_regs r) s))))
      by (apply kwf_quiet; auto with kern).
    assert (Hkl : (k < length (process_list s))%nat) by (by eapply lookup_lt_Some).
    apply (kwf_enter c); [apply H3|done| | |].
    + rewrite !proc_upd_eq by (rewrite ?upd_length; done). done.
    + by rewrite !upd_length.
    + destruct (decide (c = k)) as [<-|Hne].
      * rewrite !proc_upd_eq by (rewrite ?upd_length; done). done.
      * rewrite !proc_upd_ne by done. rewrite (proc_lookup _ _ _ Hp). congruence.
Qed.

(** ** Exit *)

Lemma find_pid_spec t s i : find_process_by_pid t s = Some i →
  (i < length (process_list s))%nat ∧ status (proc i s) ≠ DEAD ∧ pid (proc i s) = t.
Proof.
  intros (p & Hp & [H1 H2]%andb_true_iff & _)%find_idx_Some. rewrite (proc_lookup _ _ _ Hp).
  apply negb_true_iff, is_status_false in H1. apply Z.eqb_eq in H2.
  split; [by eapply lookup_lt_Some|done].
Qed.

Lemma exit_thread_wf c s : kwf s → current_process s = Some c →
  (exit_thread c s).1 ≠ Halt → kwf (exit_thread c s).2.
Proof.
  intros Hwf Hc. destruct (kwf_current_lt c s Hwf Hc) as (Hlt & _ & _). unfold exit_thread, enter_process. cbv zeta.
  set (s1 := release_process_memory c s).
  destruct (release_memory_frame c s) as [Ec El]. fold s1 in Ec, El.
  set (s2 := upd c (λ _, zero_process) s1).
  assert (H2 : ktable s2) by (apply ktable_clear, release_memory_ktable; [done|apply Hwf]).
  assert (Hc2 : current_process s2 = Some c) by (simpl; congruence).
  assert (Hstop : status (proc c s2) ≠ RUNNING) by (unfold s2; rewrite proc_upd_eq; [done|congruence]).
  assert (Hgo : ∀ n, (∃ p, process_list s2 !! n = Some p ∧ status p = READY) →
    let s' := upd n (set_status RUNNING) (set_current n s2) in
    let s' := on_machine (switch_page_table (p4_table (proc n s'))) s' in
    let s' := on_machine (process_load_fs_base (fs_base (proc n s'))) s' in
    kwf (on_machine (switch_page_table (p4_table (proc n s'))) s')).
  { intros n (p & Hp & Hr). do 3 (apply kwf_machine; [auto with kern|]). apply (kwf_enter c); try done.
    - by eapply lookup_lt_Some.
    - rewrite (proc_lookup _ _ _ Hp). congruence. }
  destruct (find_idx (λ p, is_status READY p && _) _) as [n|] eqn:Hf.
  - intros _. apply Hgo. apply find_idx_Some in Hf as (p & Hp & [Hr _]%andb_true_iff & _).
    exists p. by apply is_status_true in Hr.
  - destruct (find_idx (is_status READY) _) as [n|] eqn:Hg; [|done]. intros _. apply Hgo.
    apply find_idx_Some in Hg as (p & Hp & Hr & _). exists p. by apply is_status_true in Hr.
Qed.

Lemma exit_to_waiter_wf c i raw s : kwf s → current_process s = Some c → i ≠ c →
  (i < length (process_list s))%nat → status (proc i s) ≠ DEAD →
  kwf (exit_to_waiter c i raw s).2.
Proof.
  intros Hwf Hc Hne Hi Hd. unfold exit_to_waiter, enter_process. cbv zeta.
  set (err := if negb _ then _ else _).
  assert (Herr : ∃ e s1, err = (e, s1) ∧ ktable s1 ∧ process_list s1 = process_list s ∧
    current_process s1 = current_process s).
  { unfold err. destruct (negb _); [|by exists false, s; destruct Hwf].
    destruct (vmm_prepare_user_write _ _ _ _) as [ok m] eqn:Hp. eexists _, _. split; [done|].
    assert (H1 : ktable (on_machine (switch_page_table (p4_table (proc i s))) (on_machine (λ _, m) s))).
    { apply ktable_machine; [auto with kern|]. apply ktable_machine; [|apply Hwf].
      intros b. exact (alive_prepare _ _ _ _ _ _ b Hp). }
    destruct ok; [|done]. split; [|done]. apply ktable_machine; [|done]. intros b.
    apply alive_store. }
  destruct Herr as (e & s1 & -> & H1 & El & Ec).
  set (s2 := on_machine (switch_page_table (p4_table (proc i s))) s1).
  assert (H2 : ktable s2) by (apply ktable_machine; [auto with kern|done]).
  destruct (kwf_current_lt c s Hwf Hc) as (Hlt & _ & _).
  assert (Hlt2 : (c < length (process_list s2))%nat) by (simpl; congruence).
  set (s3 := release_process_memory c s2).
  assert (H3 : ktable s3) by (by apply release_memory_ktable).
  destruct (release_memory_frame c s2) as [Ec3 El3]. fold s3 in Ec3, El3.
  simpl snd. do 2 (apply kwf_machine; [auto with kern|]).
  set (f := end_wait RUNNING _).
  change (kwf (set_current i (upd c (λ _, zero_process) (upd i f s3)))).
  rewrite (upd_upd_ne c i) by done.
  change (kwf (upd i f (set_current i (upd c (λ _, zero_process) s3)))).
  apply (kwf_enter_with c); [done|by apply ktable_clear| | | |].
  - simpl. rewrite Ec3. simpl. congruence.
  - rewrite proc_upd_eq; [done|congruence].
  - rewrite upd_length, El3. simpl. congruence.
  - rewrite proc_upd_ne by done. unfold s3. rewrite release_memory_proc, decide_False by done.
    unfold proc. simpl. rewrite El. exact Hd.
Qed.

Lemma exit_to_zombie_wf c parent raw s : kwf s → current_process s = Some c →
  (∀ i, parent = Some i → i ≠ c ∧ (i < length (process_list s))%nat) →
  (exit_to_zombie c parent raw s).1 ≠ Halt → kwf (exit_to_zombie c parent raw s).2.
Proof.
  intros Hwf Hc Hpar. destruct (kwf_current_lt c s Hwf Hc) as (Hlt & Hd & _).
  unfold exit_to_zombie, enter_process. cbv zeta. set (s1 := upd c (set_exit_status raw) (upd c (set_status ZOMBIE) s)).
  assert (H1 : ktable s1).
  { apply ktable_quiet; [auto with kern|]. apply ktable_status; [done..|apply Hwf]. }
  assert (Hz : status (proc c s1) = ZOMBIE)
    by (unfold s1; by rewrite !proc_upd_eq by (rewrite ?upd_length; done)).
  destruct parent as [i|]; [|done]. destruct (Hpar i eq_refl) as [Hne Hi].
  destruct (is_status DEAD (proc i s1) || is_status ZOMBIE (proc i s1)) eqn:Hdz; [done|]. intros _.
  apply orb_false_iff in Hdz as [Hnd%is_status_false Hnz%is_status_false].
  set (s2 := on_machine (switch_page_table (p4_table (proc i (set_current i s1)))) (set_current i s1)).
  assert (H2 : ktable s2).
  { apply ktable_machine; [auto with kern|]. apply ktable_set_current; [|done].
    apply (idle_when_stopped c); [done|done|congruence]. }
  assert (Hl2 : length (process_list s2) = length (process_list s)) by (simpl; by rewrite !length_alter).
  set (s3 := release_process_memory c s2).
  assert (H3 : ktable s3) by (apply release_memory_ktable; [congruence|done]).
  destruct (release_memory_frame c s2) as [Ec3 El3]. fold s3 in Ec3, El3.
  assert (E3 : proc i s3 = proc i s1).
  { unfold s3. rewrite release_memory_proc, decide_False by congruence. done. }
  assert (Hlk : process_list s3 !! i = Some (proc i s1)) by (rewrite <- E3; apply lookup_proc; congruence).
  assert (H3' : kwf s3) by (split; [done|]; by exists i, (proc i s1)).
  simpl snd. do 2 (apply kwf_machine; [auto with kern|]). rewrite E3. destruct (_ || _); [|done].
  assert (Hcur3 : current_process s3 = Some i) by done.
  change (λ p, set_wait (-1) 0 (set_status RUNNING p)) with (set_wait (-1) 0 ∘ set_status RUNNING).
  rewrite <- upd_upd_eq. apply kwf_quiet; [auto with kern|]. by apply kwf_current_status.
Qed.

Lemma exit_wf code s : kwf s → (process_exit_and_wake_parent code s).1 ≠ Halt →
  kwf (process_exit_and_wake_parent code s).2.
Proof.
  intros Hwf. unfold process_exit_and_wake_parent. destruct (current_process s) as [c|] eqn:Hc; [|done].
  cbv zeta. destruct (vfork_frame c s Hwf) as [H1 Ec1]. set (s1 := process_complete_vfork c s) in *.
  match goal with |- context [syscall_release_fd_table_entries c ?x] => set (s2 := x) end.
  assert (H2 : kwf s2 ∧ current_process s2 = Some c).
  { unfold s2. destruct (negb _); [|by rewrite Ec1]. split; [by apply write_u32_wf|].
    rewrite (proj1 (proj2 (write_u32_frame _ _ _ _))). congruence. }
  destruct H2 as [H2 Ec2]. set (s3 := syscall_release_fd_table_entries c s2).
  assert (H3 : kwf s3) by (by apply release_fds_wf). assert (Ec3 : current_process s3 = Some c) by done.
  destruct (i_is_thread _); [by apply exit_thread_wf|].
  destruct (kwf_current_lt c s3 H3 Ec3) as (Hlt & Hd & _).
  assert (Hpar : ∀ i, find_process_by_pid (parent_pid (proc c s3)) s3 = Some i →
    i ≠ c ∧ (i < length (process_list s3))%nat).
  { intros i (Hi & Hdi & Hpid)%find_pid_spec. split; [|done]. intros ->.
    pose proof (kw_parent _ (proj1 H3) c _ (lookup_proc _ _ Hlt) Hd). lia. }
  destruct (find_process_by_pid _ s3) as [i|] eqn:Hf;
    [|intros Hh; apply exit_to_zombie_wf; [done..|intros ? [=]|done]].
  destruct (_ && _); [|intros Hh; by apply exit_to_zombie_wf]. intros _.
  destruct (Hpar i eq_refl) as [Hne Hi]. apply find_pid_spec in Hf as (_ & Hdi & _).
  by apply exit_to_waiter_wf.
Qed.

(** ** A new program *)

(** A live process gets another address space. *)
Lemma kwf_new_space i f s : kwf s → status (proc i s) ≠ DEAD →
  (∀ p, p_ids (f p) = p_ids p ∧ status (f p) = status p ∧ alive (machine s) (p4_table (f p))) → kwf (upd i f s).
Proof.
  intros [[H1 H2 H3 H7 H4 H5 H6 H8] Hl] Hd Hf.
  assert (Hold : ∀ j q, process_list (upd i f s) !! j = Some q → ∃ p, process_list s !! j = Some p ∧
    p_ids q = p_ids p ∧ status q = status p ∧ (j = i ∧ alive (machine s) (p4_table q) ∨ q = p)).
  { intros j q [(p & -> & Hp & ->)|[Hne Hq]]%upd_lookup_inv; [|by exists q; eauto]. exists p.
    destruct (Hf p) as (? & ? & ?). split_and!; [done..|by left]. }
  split; [split|].
  - simpl. by rewrite length_alter.
  - intros j q Hq. destruct (Hold j q Hq) as (p & Hp & E & -> & _). unfold pid. rewrite E. by eapply H2.
  - intros j k q q' Hq Hq'. destruct (Hold j q Hq) as (p & Hp & E & -> & _), (Hold k q' Hq') as (p' & Hp' & E' & -> & _).
    unfold pid. rewrite E, E'. by eapply H3.
  - intros j q Hq. destruct (Hold j q Hq) as (p & Hp & E & -> & _). unfold pid, parent_pid. rewrite E. by eapply H7.
  - intros j q Hq. destruct (Hold j q Hq) as (p & Hp & _ & -> & _). by eapply H4.
  - intros j q Hq. destruct (Hold j q Hq) as (p & Hp & _ & -> & [[-> _]| ->]); [|by eapply H5].
    rewrite (proc_lookup _ _ _ Hp) in Hd. done.
  - intros j q Hq. destruct (Hold j q Hq) as (p & Hp & _ & _ & [[_ ?]| ->]); [done|by eapply H6].
  - done.
  - apply klive_upd; [done|]. intros p _ ?? _. by destruct (Hf p) as (_ & -> & _).
Qed.

Lemma release_as_list a i s : process_list (process_release_address_space a i s) = process_list s ∧
  current_process (process_release_address_space a i s) = current_process s.
Proof. unfold process_release_address_space. case_ifs; done. Qed.

(** [s0] is the state in which the new address space was handed out. *)
Lemma exec_commit_wf c new path image s0 s : kwf s → current_process s = Some c → new ≠ 0 →
  ledger (machine s) = handed_out new (ledger (machine s0)) → alive (machine s0) (p4_table (proc c s)) →
  p4_table (proc c s) ≠ 0 → kwf (exec_commit c (p4_table (proc c s)) new path image s).2.
Proof.
  intros Hwf Hc Hn Hlg Hold Hp4. destruct (kwf_current_lt c s Hwf Hc) as (Hlt & Hd & _).
  destruct (alive_handed _ _ _ Hlg) as [Hkeep Hnew].
  unfold exec_commit. cbv zeta. cbn [snd]. apply kwf_machine; [auto with kern|]. apply vfork_frame.
  apply kwf_machine; [auto with kern|].
  set (s1 := upd c (exec_process new (ei_end image) path) s).
  assert (H1 : kwf s1).
  { apply kwf_new_space; [done|done|]. intros p. split_and!; [done..|]. apply Hnew; [done|]. by eapply alive_zero. }
  assert (H2 : kwf (on_machine (switch_page_table new) s1)) by (apply kwf_machine; [auto with kern|done]).
  destruct (release_as_list (p4_table (proc c s)) c (on_machine (switch_page_table new) s1)) as [El Ec].
  assert (Hsw : ledger (machine (on_machine (switch_page_table new) s1)) = handed_out new (ledger (machine s0)))
    by (simpl; by rewrite ledger_switch).
  split.
  - apply release_as_ktable; [| |apply H2].
    + intros _. apply alive_switch. by apply Hkeep.
    + change (proc c (on_machine (switch_page_table new) s1)) with (proc c s1). unfold s1. rewrite proc_upd_eq by done.
      intros _ E. rewrite <- E at 2. by apply (alive_replace _ _ (machine s0)).
  - unfold klive. rewrite El, Ec. exact (proj2 H2).
Qed.

Lemma exec_wf path argv envp s : kwf s → kwf (exec_initrd_program path argv envp s).2.
Proof.
  intros Hwf. unfold exec_initrd_program. destruct path as [[|ch path]|]; [done| |done].
  destruct (exec_snapshot _ _ _); [done|]. destruct (current_process s) as [c|] eqn:Hc; [|done]. cbv zeta.
  destruct (Z.eqb_spec (p4_table (proc c s)) 0) as [|Hp4]; [done|]. destruct (exec_open _ _); [done|].
  destruct (vmm_create_user_space _ _) as [new m] eqn:Hcr. pose proof (ledger_create _ _ _ _ Hcr) as Hlg.
  destruct (alive_handed _ _ _ Hlg) as [Hold _].
  assert (H1 : kwf (on_machine (λ _, m) s)) by (by apply kwf_machine).
  destruct (Z.eqb_spec new 0) as [|Hn0]; [done|].
  destruct (exec_load _ _ _ _ _ _) as [res m2] eqn:Hld. pose proof (ledger_load _ _ _ _ _ _ _ _ Hld) as Hkeep.
  destruct res as [rc|image]; cbn [snd].
  - apply (kwf_machine (λ _, vmm_destroy_user_space new m2) s); [|done]. intros b Hb.
    apply (alive_undo new (machine s)); [done|by rewrite Hkeep|done].
  - set (s2 := on_machine (λ _, m2) (on_machine (λ _, m) s)).
    assert (H2 : kwf s2) by (apply kwf_machine; [intros b; by apply alive_same|done]).
    destruct (kwf_current_lt c s Hwf Hc) as (Hlt & _ & _).
    change (p4_table (proc c s)) with (p4_table (proc c s2)).
    apply (exec_commit_wf _ _ _ _ s); [done|done|done|simpl; by rewrite Hkeep| |done].
    change (alive (machine s) (p4_table (proc c s))). apply (kw_alive _ (proj1 Hwf) c); [by apply lookup_proc|done].
Qed.

(** ** Killing, pausing and resuming *)

Lemma wake_parent_wf c raw s : kwf s → kwf (wake_parent_if_waiting c raw s).2 ∧
  current_process (wake_parent_if_waiting c raw s).2 = current_process s.
Proof.
  intros Hwf. unfold wake_parent_if_waiting. cbv zeta.
  destruct (find_process_by_pid _ s) as [i|] eqn:Hf; [|done].
  destruct (is_status WAITING (proc i s)) eqn:Hw; [|done]. cbn [negb]. apply is_status_true in Hw.
  destruct (negb _); [done|].
  assert (Hend : ∀ s' v, kwf s' → process_list s' = process_list s →
    kwf (upd i (end_wait READY v) s')).
  { intros s' v [Ht Hl] El. split.
    - apply ktable_upd; [done|]. intros p Hp. rewrite El in Hp. rewrite (proc_lookup _ _ _ Hp) in Hw.
      split; simpl; try done; [|by left]. intros _. by rewrite Hw.
    - by apply klive_upd. }
  destruct (negb _); [|by split; [apply Hend|]].
  destruct (vmm_prepare_user_write _ _ _ _) as [ok m] eqn:Hp.
  assert (H1 : kwf (on_machine (λ _, m) s)).
  { apply kwf_machine; [|done]. intros b. exact (alive_prepare _ _ _ _ _ _ b Hp). }
  destruct ok; cbn [negb]; [|by split; [apply Hend|]].
  assert (H2 : kwf (on_machine (store_u32 (wait_status_ptr (proc i s)) (u32 raw))
    (on_machine (switch_page_table (p4_table (proc i s))) (on_machine (λ _, m) s)))).
  { apply kwf_machine; [intros b; apply alive_store|].
    apply kwf_machine; [auto with kern|done]. }
  destruct (get_current_process _) as [cp|]; [|by split; [apply Hend|]].
  destruct (negb _); (split; [apply Hend; [|done]|done]); [|done].
  apply kwf_machine; [auto with kern|done].
Qed.

Lemma release_memory_wf i c s : kwf s → current_process s = Some c → i ≠ c →
  (i < length (process_list s))%nat →
  kwf (release_process_memory i s) ∧ current_process (release_process_memory i s) = Some c ∧
  length (process_list (release_process_memory i s)) = length (process_list s).
Proof.
  intros [Ht Hl] Hc Hne Hi. destruct (release_memory_frame i s) as [Ec El].
  split; [|by rewrite Ec, El]. split; [by apply release_memory_ktable|].
  destruct Hl as (c' & p & Hc' & Hp & Hd & Hz). rewrite Hc in Hc'. injection Hc' as <-.
  exists c, p. rewrite Ec. split; [done|]. split; [|done].
  assert (Hlt : (c < length (process_list s))%nat) by (by eapply lookup_lt_Some).
  rewrite (lookup_proc c) by congruence. f_equal.
  rewrite release_memory_proc, decide_False by done. by apply proc_lookup.
Qed.

Lemma kill_wf r s : kwf s → kwf (sys_process_kill r s).2.
Proof.
  intros Hwf. unfold sys_process_kill. cbv zeta. destruct (find_process_by_pid _ s) as [i|] eqn:Hf; [|done].
  destruct (_ || bool_decide _) eqn:Hg; [done|]. apply orb_false_iff in Hg as [_ Hcur].
  apply bool_decide_eq_false in Hcur. destruct (_ && _); [done|]. destruct (is_status ZOMBIE _); [done|].
  destruct (proj2 Hwf) as (c & p & Hc & _). assert (Hne : i ≠ c) by congruence.
  apply find_pid_spec in Hf as (Hi & Hd & _). set (s1 := syscall_release_fd_table_entries i s).
  assert (H1 : kwf s1) by (by apply release_fds_wf).
  assert (Hl1 : length (process_list s1) = length (process_list s)) by (simpl; apply length_alter).
  destruct (release_memory_wf i c s1 H1 Hc Hne) as (H2 & Hc2 & Hl2); [congruence|].
  assert (Hd2 : status (proc i (release_process_memory i s1)) ≠ DEAD).
  { rewrite release_memory_proc, decide_True by congruence. unfold s1, syscall_release_fd_table_entries.
    cbv zeta. rewrite proc_upd_eq by done. done. }
  set (s2 := release_process_memory i s1) in *. set (s3 := upd i (set_exit_status _) s2).
  assert (H3 : kwf s3) by (apply kwf_quiet; auto with kern).
  assert (H4 : kwf (upd i (set_status ZOMBIE) s3)).
  { split; [|by apply (klive_other _ _ _ c); [|done|apply H3]].
    apply ktable_status; [done..| |apply H3]. unfold s3. rewrite proc_upd_eq; [done|congruence]. }
  destruct (wake_parent_wf i (raw_status (rsi r .& 0xFF)) _ H4) as [H5 Ec5].
  destruct (wake_parent_if_waiting _ _ _) as [woken s5]. simpl in *. destruct woken; [|done].
  split; [apply ktable_clear, H5|]. apply (klive_other _ _ _ c); [congruence|done|apply H5].
Qed.

Lemma pause_wf r s : kwf s → kwf (sys_process_pause r s).2.
Proof.
  intros Hwf. unfold sys_process_pause. destruct (find_process_by_pid _ s) as [i|] eqn:Hf; [|done].
  destruct (_ || _); [done|]. apply find_pid_spec in Hf as (Hi & Hd & _).
  destruct (is_status READY _); [|by destruct (is_status PAUSED _)]. simpl snd.
  split; [by apply ktable_status; [..|apply Hwf]|]. by apply klive_upd; [apply Hwf|].
Qed.

Lemma resume_wf r s : kwf s → kwf (sys_process_resume r s).2.
Proof.
  intros Hwf. unfold sys_process_resume. destruct (find_process_by_pid _ s) as [i|] eqn:Hf; [|done].
  apply find_pid_spec in Hf as (Hi & Hd & _). destruct (is_status PAUSED _); [|done]. simpl snd.
  split; [by apply ktable_status; [..|apply Hwf]|]. by apply klive_upd; [apply Hwf|].
Qed.

(** The caller spares its own process. *)
Lemma terminate_one_wf uid e i s : kwf s → (∃ c, current_process s = Some c ∧ pid (proc c s) = e) →
  kwf (terminate_one uid e i s) ∧
  ∃ c, current_process (terminate_one uid e i s) = Some c ∧ pid (proc c (terminate_one uid e i s)) = e.
Proof.
  intros Hwf (c & Hc & Hpid). unfold terminate_one. cbv zeta.
  destruct (_ || _) eqn:Hg; [eauto|]. apply orb_false_iff in Hg as [[Hd Hp]%orb_false_iff _].
  apply Z.eqb_neq in Hp. apply is_status_false in Hd.
  assert (Hne : i ≠ c) by (intros ->; done).
  assert (Hi : (i < length (process_list s))%nat).
  { destruct (decide (i < length (process_list s))%nat) as [|Hge]; [done|]. exfalso. apply Hd.
    unfold proc. rewrite lookup_ge_None_2 by lia. done. }
  set (s1 := syscall_release_fd_table_entries i s).
  assert (H1 : kwf s1) by (by apply release_fds_wf).
  assert (Hl1 : length (process_list s1) = length (process_list s)) by (simpl; apply length_alter).
  destruct (release_memory_wf i c s1 H1 Hc Hne) as (H2 & Hc2 & Hl2); [congruence|].
  split; [split; [apply ktable_clear, H2|by apply (klive_other _ _ _ c); [..|apply H2]]|].
  exists c. split; [done|]. rewrite proc_upd_ne by done.
  rewrite release_memory_proc, decide_False by (done || congruence).
  unfold s1, syscall_release_fd_table_entries. cbv zeta. rewrite proc_upd_ne by done. done.
Qed.

Lemma terminate_wf uid e s : kwf s → (∃ c, current_process s = Some c ∧ pid (proc c s) = e) →
  kwf (syscall_terminate_uid_processes uid e s).
Proof.
  unfold syscall_terminate_uid_processes. generalize (seq 0 MAX_PROCESSES). intros l. revert s.
  induction l as [|i l IH]; intros s Hwf Hc; [done|]. simpl.
  destruct (terminate_one_wf uid e i s Hwf Hc) as [H1 H2]. by apply IH.
Qed.

End ops.
