(* ===== verification/ProcessProps.v ===== *)
(** * Properties of the process subsystem

    Invariants of all runs, and what [fork], preemption, [exit] and [wait4] do. *)

From stdpp Require Import gmultiset.
From S2P Require Import Prelude CString ProcessData Process Lifecycle Scheduler ProcessInv ProcessOps.
From S2P Require Import LifecycleOps.

#[local] Strategy 100 [select_loop scan_order proc].

(** ** Runs *)

(** The entry points of the process subsystem. *)
Inductive kop :=
| OpSchedule (r : syscall_regs)
| OpTimer (fr : option process_interrupt_frame) (policy : option bool)
| OpFork (r : syscall_regs)
| OpClone (r : syscall_regs)
| OpWait4 (r : syscall_regs)
| OpExecve (path : option cstr) (argv envp : Z)
| OpExit (code : Z)
| OpKill (r : syscall_regs)
| OpPause (r : syscall_regs)
| OpResume (r : syscall_regs)
| OpTerminateUid (uid : Z)
| OpThermal (emergency : bool)
| OpThermalGate
| OpSetCwd (path : option cstr)
| OpBecomeRoot
| OpSetIdentity (uid gid : Z) (username home : option cstr).

Section runs.
  Context {M : Type} `{!Machine M}.
  Implicit Types s : kernel M.

Definition kexec (op : kop) s : outcome * kernel M :=
  match op with
  | OpSchedule r => schedule r s
  | OpTimer fr policy => (Return 0, (timer_handler fr policy s).2)
  | OpFork r => sys_fork r s
  | OpClone r => sys_clone r s
  | OpWait4 r => sys_wait4 r s
  | OpExecve path argv envp => exec_initrd_program path argv envp s
  | OpExit code => syscall_kill_current_process code s
  | OpKill r => sys_process_kill r s
  | OpPause r => sys_process_pause r s
  | OpResume r => sys_process_resume r s
  | OpTerminateUid uid =>
      (Return 0, match get_current_process s with
                 | Some p => syscall_terminate_uid_processes uid (pid p) s
                 | None => s
                 end)
  | OpThermal e => (Return 0, process_update_thermal_policy e s)
  | OpThermalGate => (Return 0, process_thermal_gate_current s)
  | OpSetCwd path => (Return 0, process_set_cwd path s)
  | OpBecomeRoot => (Return 0, process_become_root s)
  | OpSetIdentity uid gid username home => (Return 0, process_set_identity uid gid username home s)
  end.

(** The kernel before [init_process]. *)
Definition boot (m : M) : kernel M := Kernel (replicate MAX_PROCESSES zero_process) None 1 false m.

(** States after [n] operations from boot with page table [p4]; a halted machine goes no
    further. *)
Inductive reachable (p4 : Z) (m : M) : nat → kernel M → Prop :=
| reach_boot : reachable p4 m 0 (init_process p4 (boot m))
| reach_step n s op o s' :
    reachable p4 m n s → kexec op s = (o, s') → o ≠ Halt → reachable p4 m (S n) s'.

(** An executable run, for examples. *)
Definition krun (ops : list kop) s : kernel M := foldl (λ s op, (kexec op s).2) s ops.

(** A run that never halts. *)
Fixpoint safe_run (ops : list kop) s : bool :=
  match ops with
  | [] => true
  | op :: ops' => match (kexec op s).1 with Halt => false | _ => safe_run ops' (kexec op s).2 end
  end.

Lemma safe_reachable p4 (m : M) ops n s : reachable p4 m n s → safe_run ops s = true →
  reachable p4 m (n + length ops) (krun ops s).
Proof.
  revert n s. induction ops as [|op ops IH]; intros n s Hr Hs; [by rewrite Nat.add_0_r|].
  simpl in Hs. cbn [length]. rewrite Nat.add_succ_r, <- Nat.add_succ_l.
  destruct (kexec op s) as [o s'] eqn:He. change (krun (op :: ops) s) with (krun ops (kexec op s).2).
  rewrite He. apply IH; [|by destruct o].
  apply (reach_step _ _ _ s op o); [done..|]. by destruct o.
Qed.

(** ** Process identifiers grow by one at most *)

Definition pid_step s s' : Prop := next_pid s' = next_pid s ∨ next_pid s' = u32 (next_pid s + 1).

Lemma vfork_pid c s : next_pid (process_complete_vfork c s) = next_pid s.
Proof. unfold process_complete_vfork. cbv zeta. by repeat case_match. Qed.

Lemma release_as_pid a i s : next_pid (process_release_address_space a i s) = next_pid s.
Proof. unfold process_release_address_space. by repeat case_match. Qed.

Lemma release_memory_pid i s : next_pid (release_process_memory i s) = next_pid s.
Proof. unfold release_process_memory. case_match; [done|]. by rewrite release_as_pid. Qed.

Lemma exec_commit_pid c old new path image s : next_pid (exec_commit c old new path image s).2 = next_pid s.
Proof.
  transitivity (next_pid (process_release_address_space old c (on_machine (switch_page_table new)
    (upd c (exec_process new (ei_end image) path) s)))); [exact (vfork_pid _ _)|exact (release_as_pid _ _ _)].
Qed.

Lemma exit_pid code s : next_pid (process_exit_and_wake_parent code s).2 = next_pid s.
Proof.
  unfold process_exit_and_wake_parent. destruct (current_process s) as [c|]; [|done]. cbv zeta.
  set (s1 := process_complete_vfork c s).
  match goal with |- context [syscall_release_fd_table_entries c ?x] => set (s2 := x) end.
  assert (E2 : next_pid s2 = next_pid s).
  { unfold s2. transitivity (next_pid s1); [|apply vfork_pid].
    destruct (negb _); [apply write_u32_frame|done]. }
  set (s3 := syscall_release_fd_table_entries c s2). assert (E3 : next_pid s3 = next_pid s) by done.
  destruct (i_is_thread _).
  - rewrite <- E3. unfold exit_thread. cbv zeta. repeat case_match; exact (release_memory_pid c s3).
  - assert (Hz : ∀ par raw, next_pid (exit_to_zombie c par raw s3).2 = next_pid s).
    { intros par raw. rewrite <- E3. unfold exit_to_zombie. cbv zeta.
      repeat case_match; simpl; try done; by rewrite release_memory_pid. }
    destruct (find_process_by_pid _ s3) as [i|]; [|apply Hz]. destruct (_ && _); [|apply Hz].
    rewrite <- E3. unfold exit_to_waiter. cbv zeta.
    destruct (negb (wait_status_ptr _ =? 0)); [destruct (vmm_prepare_user_write _ _ _ _) as [[] m]|];
      exact (release_memory_pid c _).
Qed.

Lemma terminate_pid uid e s : next_pid (syscall_terminate_uid_processes uid e s) = next_pid s.
Proof.
  unfold syscall_terminate_uid_processes. generalize (seq 0 MAX_PROCESSES). intros l. revert s.
  induction l as [|i l IH]; intros s; [done|]. simpl. rewrite IH. unfold terminate_one. cbv zeta.
  case_match; [done|]. simpl. by rewrite release_memory_pid.
Qed.

Lemma wake_pid c raw s : next_pid (wake_parent_if_waiting c raw s).2 = next_pid s.
Proof.
  unfold wake_parent_if_waiting. cbv zeta. repeat (case_match; simpl; try done).
Qed.

Lemma kexec_pid op s : pid_step s (kexec op s).2.
Proof.
  unfold pid_step. destruct op; simpl; try by left.
  - left. unfold schedule. cbv zeta. repeat (case_match; simpl; try done).
  - left. unfold timer_handler, process_preempt_from_interrupt, upd_current. cbv zeta.
    repeat (case_match; simpl; try done).
  - unfold sys_fork. cbv zeta. repeat (case_match; simpl; auto).
  - unfold sys_clone, sys_fork. cbv zeta. repeat (case_match; simpl; auto).
  - left. unfold sys_wait4. cbv zeta. repeat (case_match; simpl; try done);
      match goal with H : write_process_u32 ?a ?b ?c ?d = _ |- _ =>
        pose proof (write_u32_frame a b c d) as (_ & _ & E); rewrite H in E; exact E end.
  - left. unfold exec_initrd_program. cbv zeta. repeat (case_match; try done). by rewrite exec_commit_pid.
  - left. unfold syscall_kill_current_process. repeat case_match; try done. apply exit_pid.
  - left. unfold sys_process_kill. cbv zeta. repeat (case_match; simpl; try done);
      match goal with H : wake_parent_if_waiting ?a ?b ?c = _ |- _ =>
        pose proof (wake_pid a b c) as E; rewrite H in E; simpl in E; rewrite E end;
      simpl; by rewrite release_memory_pid.
  - left. unfold sys_process_pause. repeat (case_match; simpl; try done).
  - left. unfold sys_process_resume. repeat (case_match; simpl; try done).
  - left. destruct (get_current_process s); [apply terminate_pid|done].
  - left. unfold process_thermal_gate_current, upd_current. by case_match.
  - left. unfold process_set_cwd, upd_current. by case_match.
  - left. unfold process_become_root, upd_current. by case_match.
  - left. unfold process_set_identity, upd_current. by case_match.
Qed.

End runs.

Section invariant.
  Context {M : Type} `{!Machine M} `{!MachineSpec M}.
  Implicit Types s : kernel M.

Lemma kexec_wf op s : kwf s → pids_left s → (kexec op s).1 ≠ Halt → kwf (kexec op s).2.
Proof.
  intros Hwf Hn Hh. destruct op; simpl in *.
  - by apply schedule_wf.
  - by apply timer_wf.
  - by apply fork_wf.
  - by apply clone_wf.
  - by apply wait4_wf.
  - by apply exec_wf.
  - unfold syscall_kill_current_process in *. destruct (get_current_process s) as [p|]; [|done].
    destruct (negb _); [by apply exit_wf|done].
  - by apply kill_wf.
  - by apply pause_wf.
  - by apply resume_wf.
  - destruct (get_current_process s) as [p|] eqn:Hp; [|done]. apply terminate_wf; [done|].
    unfold get_current_process in Hp. apply bind_Some in Hp as (c & Hc & Hp). exists c.
    by rewrite (proc_lookup _ _ _ Hp).
  - by apply thermal_policy_wf.
  - apply kwf_upd_current; [|done]. intros p. by destruct (throttled p).
  - apply kwf_upd_current; [auto with kern|done].
  - apply kwf_upd_current; [auto with kern|done].
  - apply kwf_upd_current; [auto with kern|done].
Qed.

Lemma boot_lookup p4 (m : M) i p : process_list (init_process p4 (boot m)) !! i = Some p →
  i = 0%nat ∧ pid p = 1 ∧ parent_pid p = 0 ∧ status p = RUNNING ∧ p4_table p = p4 ∨
  i ≠ 0%nat ∧ status p = DEAD ∧ p4_table p = 0.
Proof.
  unfold init_process, boot. cbn [process_list]. intros Hp.
  destruct (decide (i = 0%nat)) as [->|Hne].
  - left. rewrite list_lookup_alter_eq in Hp. simpl in Hp. by injection Hp as <-.
  - right. rewrite list_lookup_alter_ne, list_lookup_fmap in Hp by done.
    apply fmap_Some in Hp as (q & Hq & ->). apply lookup_replicate in Hq as [-> _]. done.
Qed.

Lemma boot_wf p4 (m : M) : alive m p4 → kwf (init_process p4 (boot m)).
Proof.
  intros Hal. split.
  - split.
    + done.
    + intros i p [(-> & Hpid & _)|(_ & Hd & _)]%boot_lookup Hnd; [|done]. rewrite Hpid. done.
    + intros i j p q [(-> & _)|(_ & Hd & _)]%boot_lookup [(-> & _)|(_ & Hd' & _)]%boot_lookup Hnd Hnd'; done.
    + intros i p [(-> & Hpid & Hpar & _)|(_ & Hd & _)]%boot_lookup Hnd; [|done]. lia.
    + intros i p [(-> & _)|(_ & Hd & _)]%boot_lookup Hr; [done|congruence].
    + intros i p [(-> & _ & _ & Hr & _)|(_ & _ & ?)]%boot_lookup Hd; [congruence|done].
    + intros i p [(-> & _ & _ & _ & ->)|(_ & _ & E)]%boot_lookup Hne; done.
    + by eapply alive_zero.
  - eexists 0%nat, _. split; [done|]. split; [reflexivity|]. done.
Qed.

Lemma reachable_wf p4 (m : M) n s : alive m p4 → reachable p4 m n s → Z.of_nat n < 2 ^ 32 - 3 →
  kwf s ∧ 0 < next_pid s ≤ 2 + Z.of_nat n.
Proof.
  intros Hal Hr. induction Hr as [|n s op o s' Hr IH He Hh]; intros Hn.
  { split; [by apply boot_wf|]. change (0 < 2 ≤ 2 + Z.of_nat 0). lia. }
  destruct IH as [Hwf Hpid]; [lia|]. assert (Hleft : pids_left s) by (split; lia).
  split.
  - replace s' with (kexec op s).2 by (by rewrite He). apply kexec_wf; [done..|]. by rewrite He.
  - pose proof (kexec_pid op s) as Hstep. rewrite He in Hstep. simpl in Hstep.
    assert (Hu : u32 (next_pid s + 1) = next_pid s + 1) by (apply Z.mod_small; lia).
    destruct Hstep as [-> | ->]; lia.
Qed.

(** C1 (invariant): in every state the kernel reaches before the process identifiers are used
    up, live processes have distinct positive identifiers, each younger than its parent's,
    at most the current process is running, and the current process has not ended. *)
Theorem process_table_invariant p4 (m : M) n s :
  alive m p4 → reachable p4 m n s → Z.of_nat n < 2 ^ 32 - 3 →
  (∀ i j p q, process_list s !! i = Some p → process_list s !! j = Some q →
     status p ≠ DEAD → status q ≠ DEAD → pid p = pid q → i = j) ∧
  (∀ i p, process_list s !! i = Some p → status p ≠ DEAD → 0 < pid p < next_pid s ∧ parent_pid p < pid p) ∧
  (∀ i p, process_list s !! i = Some p → status p = RUNNING → current_process s = Some i) ∧
  (∃ c p, current_process s = Some c ∧ process_list s !! c = Some p ∧
     status p ≠ DEAD ∧ status p ≠ ZOMBIE).
Proof.
  intros Hal Hr Hn. destruct (reachable_wf _ _ _ _ Hal Hr Hn) as [[Ht Hl] _].
  split_and!; [exact (kw_uniq _ Ht)| |exact (kw_run _ Ht)|exact Hl].
  intros i p Hp Hd. split; [by apply (kw_pid _ Ht i)|by apply (kw_parent _ Ht i)].
Qed.

(** ** [fork] *)

(** What a child inherits. *)
Definition inherits (child parent : process_t) : Prop :=
  cwd child = cwd parent ∧ fd_table child = fd_table parent ∧ fs_base child = fs_base parent ∧
  p_heap child = p_heap parent ∧ p_cred child = p_cred parent ∧ command child = command parent ∧
  nice_value child = nice_value parent ∧ signal_stack child = signal_stack parent.

(** C11 (functional): [fork] fills the first dead slot with a copy of the running process that
    has the next identifier, its own copy of the address space and 0 in [rax]; it leaves
    every other slot alone.  Without a free slot it returns -1, and without memory
    -ENOMEM with the slot still free. *)
Theorem sys_fork_spec r s c parent :
  kwf s → current_process s = Some c → process_list s !! c = Some parent →
  let '(o, s') := sys_fork r s in
  (∀ i p, process_list s !! i = Some p → status p ≠ DEAD → process_list s' !! i = Some p) ∧
  current_process s' = Some c ∧
  match find_idx (is_status DEAD) (process_list s) with
  | None => o = Return (-1) ∧ s' = s
  | Some child =>
      let '(p4, m) := vmm_copy_p4 (p4_table parent) (machine s) in
      ∃ q, process_list s' !! child = Some q ∧
      if p4 =? 0 then o = Return (- LINUX_ENOMEM) ∧ status q = DEAD
      else o = Return (next_pid s) ∧ pid q = next_pid s ∧ parent_pid q = pid parent ∧
        status q = READY ∧ p4_table q = p4 ∧ regs q = set_rax 0 r ∧ inherits q parent ∧
        clear_child_tid q = 0 ∧ interrupted q = None ∧
        machine s' = syscall_retain_fd_table_entries (fd_table parent) m
  end.
Proof.
  intros Hwf Hc Hp. unfold sys_fork. destruct (find_idx _ _) as [child|] eqn:Hf; [|done]. cbv zeta.
  destruct (find_dead _ _ Hf) as [Hlt Hd]. assert (Hne : child ≠ c) by (by eapply current_not_dead).
  set (z := Process (Ids (next_pid s) 0 0 0 0 false) _ _ _ _ _ _ _ _ _ _ _ _ _ _ _ _ _ _ _ _ _).
  assert (Hg : get_current_process (bump_pid (upd child (λ _, z) s)) = Some parent).
  { unfold get_current_process. change (current_process (bump_pid (upd child (λ _, z) s))) with (current_process s).
    rewrite Hc. cbn. by rewrite list_lookup_alter_ne. }
  rewrite Hg. change (machine (bump_pid (upd child (λ _, z) s))) with (machine s).
  destruct (vmm_copy_p4 (p4_table parent) (machine s)) as [p4 m].
  assert (Hother : ∀ q s' i p, process_list s' = alter (λ _, z) child (process_list s) →
    process_list s !! i = Some p → status p ≠ DEAD → process_list (upd child (λ _, q) s') !! i = Some p).
  { intros q s' i p El Hi Hnd. assert (i ≠ child) by (intros ->; by rewrite (proc_lookup _ _ _ Hi) in Hd).
    rewrite upd_lookup, decide_False, El by done. by rewrite list_lookup_alter_ne. }
  assert (Hchild : ∀ q s', process_list s' = alter (λ _, z) child (process_list s) →
    process_list (upd child (λ _, q) s') !! child = Some q).
  { intros q s' El. rewrite upd_lookup, decide_True, El by done.
    by rewrite list_lookup_alter_eq, (lookup_proc _ _ Hlt). }
  destruct (p4 =? 0) eqn:Ez; (split; [intros i p Hi Hnd; by apply Hother|]; split; [exact Hc|]);
    eexists; (split; [by apply Hchild|]); done.
Qed.

End invariant.

(** C2 (safety): no use after free, and no double free.  Whatever the memory manager and the
    rest of the machine do, when the calls for address spaces are recorded: in every state
    reached by fewer than 2^32 - 3 operations ([fork], [clone], [execve], [wait4], [exit],
    kill, scheduling, ...), no address space has been destroyed that was not in use, and
    the one each process holds has been handed out and not been destroyed since. *)
Theorem address_spaces_alive {M} `{!Machine M} p4 (m : M) n s :
  reachable p4 (Recorded m (Some {[+ p4 +]})) n s → Z.of_nat n < 2 ^ 32 - 3 →
  ∃ S, rec_ledger (machine s) = Some S ∧
    ∀ i p, process_list s !! i = Some p → p4_table p ≠ 0 → p4_table p ∈ S.
Proof.
  intros Hr Hn.
  assert (Hal : alive (Recorded m (Some {[+ p4 +]})) p4) by (exists {[+ p4 +]}; split; [done|right; multiset_solver]).
  destruct (reachable_wf _ _ _ _ Hal Hr Hn) as [[Ht _] _].
  destruct (kw_ledger _ Ht) as (S & HS & _). exists S. split; [exact HS|].
  intros i p Hp Hne. destruct (kw_alive _ Ht i p Hp Hne) as (S' & HS' & [?|?]); [done|].
  by simplify_eq.
Qed.
