(* ===== verification/SchedulerProps.v ===== *)
(** * How long a ready process waits

    Runs of the process subsystem in which control passes from process to process through
    the scheduler only: a ready process gets its turn. *)

From S2P Require Import Prelude CString ProcessData Process Lifecycle Scheduler ProcessInv ProcessOps.
From S2P Require Import LifecycleOps ProcessProps.

#[local] Strategy 100 [select_loop scan_order proc].

Section fair.
  Context {M : Type} `{!Machine M}.
  Implicit Types s : kernel M.

(** The operations that run the scheduler: [schedule], and a timer interrupt of a running
    program. *)
Definition selects (op : kop) s : bool :=
  match op, current_process s with
  | OpSchedule _, Some _ => true
  | OpTimer (Some fr) _, Some c => ((fr_cs fr .& 3) =? 3) && is_status RUNNING (proc c s)
  | _, _ => false
  end.

(** How often the scheduler runs. *)
Fixpoint selections (ops : list kop) s : nat :=
  match ops with
  | [] => 0
  | op :: ops' => (if selects op s then 1 else 0) + selections ops' (kexec op s).2
  end.

(** Until it is the current process, [j] is ready and not throttled, and control passes only
    when the scheduler runs: no [exit], [wait4] or [vfork] hands over to another process. *)
Fixpoint in_line (j : nat) (ops : list kop) s : Prop :=
  match ops with
  | [] => True
  | op :: ops' =>
      let s' := (kexec op s).2 in
      current_process s ≠ Some j →
      status (proc j s) = READY ∧ throttled (proc j s') = false ∧
      (selects op s = true ∨ current_process s' = current_process s) ∧ in_line j ops' s'
  end.

(** ** One selection *)

Lemma throttled_upd i j f s : (∀ p, throttled (f p) = throttled p) → throttled (proc j (upd i f s)) = throttled (proc j s).
Proof.
  intros Hf. unfold proc. rewrite upd_lookup. destruct (decide (i = j)); [|done].
  destruct (process_list s !! j); [apply Hf|done].
Qed.

Lemma ready_lookup j s : status (proc j s) = READY → process_list s !! j = Some (proc j s).
Proof. unfold proc. by destruct (process_list s !! j). Qed.

Lemma select_throttled c l r l' j p : process_select_next_ready (Some c) l = (r, l') → l !! j = Some p →
  ∃ p', l' !! j = Some p' ∧ throttled p' = throttled p.
Proof.
  intros Hs Hp. destruct (select_loop_spec _ _ _ _ _ (select_spec _ _ _ _ Hs)) as ([_ H] & _).
  destruct (H j p Hp) as (p' & Hp' & [->|(Ht & ph & ->)]); [by eauto|]. exists (set_thermal (Thermal (t_delay_events (p_thermal p)) true ph) p).
  split; [done|]. apply andb_true_iff in Ht as [_ ->]. done.
Qed.

(** What a selection from [s2] does, for the process that ends up current in [s3]. *)
Lemma selected c j s2 s3 : (c < MAX_PROCESSES)%nat → (j < MAX_PROCESSES)%nat → status (proc j s2) = READY →
  (let (next, l) := process_select_next_ready (Some c) (process_list s2) in
   current_process s3 = Some (default c next) ∧
   throttled (proc j s3) = throttled (proc j (set_list l s2))) →
  throttled (proc j s3) = false →
  ∃ i, current_process s3 = Some i ∧ (i < MAX_PROCESSES)%nat ∧ (distance c i ≤ distance c j)%nat.
Proof.
  intros Hc Hj Hr H Ht. pose proof (ready_lookup j s2 Hr) as Hl.
  destruct (process_select_next_ready (Some c) (process_list s2)) as [next l] eqn:Hs. destruct H as [Hcur Hthr].
  destruct (select_throttled _ _ _ _ j _ Hs Hl) as (p' & Hp' & Et).
  rewrite Hthr in Ht. unfold proc in Ht at 1. simpl in Ht. rewrite Hp' in Ht. simpl in Ht.
  destruct (select_before c _ j _ Hc Hj Hl Hr) as (i & Hi & Hlt & Hle); [congruence|].
  rewrite Hs in Hi. simpl in Hi. subst next. by exists i.
Qed.

Lemma schedule_selects r c j s : current_process s = Some c → c ≠ j → (c < MAX_PROCESSES)%nat → (j < MAX_PROCESSES)%nat →
  status (proc j s) = READY → throttled (proc j (schedule r s).2) = false →
  ∃ i, current_process (schedule r s).2 = Some i ∧ (i < MAX_PROCESSES)%nat ∧ (distance c i ≤ distance c j)%nat.
Proof.
  intros Hc Hne Hcl Hjl Hr. unfold schedule, enter_process. rewrite Hc. cbv zeta.
  set (s2 := if is_status RUNNING _ then _ else _).
  assert (E : proc j s2 = proc j s) by (unfold s2; destruct (is_status _ _); by rewrite !proc_upd_ne).
  assert (Hc2 : current_process s2 = Some c) by (unfold s2; by destruct (is_status _ _)).
  pose proof (selected c j s2) as Hsel.
  destruct (process_select_next_ready (Some c) (process_list s2)) as [next l].
  apply Hsel; [done|done|by rewrite E|].
  destruct next as [next|]; [|split; [exact Hc2|by apply throttled_upd]].
  destruct (Nat.eqb_spec next c) as [->|]; [split; [exact Hc2|by apply throttled_upd]|].
  split; [done|]. exact (throttled_upd next j (set_status RUNNING) (set_list l s2) (λ _, eq_refl)).
Qed.

Lemma thermal_status e j s : status (proc j (process_update_thermal_policy e s)) = status (proc j s).
Proof.
  unfold proc. simpl. rewrite list_lookup_fmap. destruct (process_list s !! j) as [p|]; [|done]. simpl.
  by destruct (_ || _).
Qed.

Lemma preempt_selects fr c j s : current_process s = Some c → c ≠ j → (c < MAX_PROCESSES)%nat → (j < MAX_PROCESSES)%nat →
  (fr_cs fr .& 3) =? 3 = true → is_status RUNNING (proc c s) = true →
  let s' := (process_preempt_from_interrupt (Some fr) s).2 in
  status (proc j s) = READY → throttled (proc j s') = false →
  ∃ i, current_process s' = Some i ∧ (i < MAX_PROCESSES)%nat ∧ (distance c i ≤ distance c j)%nat.
Proof.
  intros Hc Hne Hcl Hjl Hcs Hrun s' Hr. unfold s', process_preempt_from_interrupt. rewrite Hc, Hcs, Hrun. cbn [negb orb].
  cbv zeta. set (s2 := upd c (set_status READY) _).
  assert (E : proc j s2 = proc j s) by (unfold s2; by rewrite !proc_upd_ne).
  pose proof (selected c j s2) as Hsel.
  destruct (process_select_next_ready (Some c) (process_list s2)) as [next l].
  apply Hsel; [done|done|by rewrite E|].
  destruct next as [next|]; [|split; [exact Hc|by apply throttled_upd]].
  destruct (Nat.eqb_spec next c) as [->|]; [split; [exact Hc|by apply throttled_upd]|].
  split; [done|]. exact (throttled_upd next j (set_status RUNNING) (set_list l s2) (λ _, eq_refl)).
Qed.

Lemma timer_selects fr policy c j s : current_process s = Some c → c ≠ j → (c < MAX_PROCESSES)%nat → (j < MAX_PROCESSES)%nat →
  selects (OpTimer fr policy) s = true →
  let s' := (timer_handler fr policy s).2 in
  status (proc j s) = READY → throttled (proc j s') = false →
  ∃ i, current_process s' = Some i ∧ (i < MAX_PROCESSES)%nat ∧ (distance c i ≤ distance c j)%nat.
Proof.
  intros Hc Hne Hcl Hjl Hsel s' Hr. unfold selects in Hsel. rewrite Hc in Hsel. destruct fr as [fr|]; [|done].
  apply andb_true_iff in Hsel as [Hcs Hrun]. unfold s', timer_handler. cbv zeta.
  set (s1 := upd_current _ s). assert (E1 : proc j s1 = proc j s).
  { unfold s1, upd_current. rewrite Hc. by apply proc_upd_ne. }
  assert (R1 : is_status RUNNING (proc c s1) = true).
  { unfold s1, upd_current. rewrite Hc. apply is_status_true. apply is_status_true in Hrun.
    rewrite proc_upd_eq by (apply lookup_lt_is_Some; unfold proc in Hrun; by destruct (process_list s !! c)).
    by destruct (is_status RUNNING (proc c s)). }
  assert (C1 : current_process s1 = Some c) by (unfold s1, upd_current; by rewrite Hc).
  clearbody s1. destruct policy as [e|]; [|apply (preempt_selects fr c j s1); try done; by rewrite E1].
  apply (preempt_selects fr c j); try done.
  - apply is_status_true. rewrite thermal_status. by apply is_status_true.
  - by rewrite thermal_status, E1.
Qed.

Lemma selects_next op c j s : current_process s = Some c → c ≠ j → (c < MAX_PROCESSES)%nat → (j < MAX_PROCESSES)%nat →
  selects op s = true → status (proc j s) = READY → throttled (proc j (kexec op s).2) = false →
  ∃ i, current_process (kexec op s).2 = Some i ∧ (i < MAX_PROCESSES)%nat ∧ (distance c i ≤ distance c j)%nat.
Proof.
  intros Hc Hne Hcl Hjl Hsel Hr Ht. destruct op; try (unfold selects in Hsel; by destruct (current_process s)).
  - by apply schedule_selects.
  - by apply timer_selects.
Qed.

Lemma in_line_runs j ops : ∀ c s, current_process s = Some c → (c < MAX_PROCESSES)%nat → (j < MAX_PROCESSES)%nat →
  in_line j ops s → (distance c j < selections ops s)%nat →
  ∃ pre post, ops = pre ++ post ∧ current_process (krun pre s) = Some j.
Proof.
  induction ops as [|op ops IH]; intros c s Hc Hcl Hjl Hin Hd; simpl in Hd; [lia|].
  destruct (decide (c = j)) as [->|Hne]; [by exists [], (op :: ops)|].
  destruct Hin as (Hr & Ht & Hsw & Hin); [congruence|].
  assert (Hgo : ∀ i, current_process (kexec op s).2 = Some i → (i < MAX_PROCESSES)%nat →
    (distance i j < selections ops (kexec op s).2)%nat →
    ∃ pre post, op :: ops = pre ++ post ∧ current_process (krun pre s) = Some j).
  { intros i Hi Hil Hdi. destruct (IH i _ Hi Hil Hjl Hin Hdi) as (pre & post & -> & H). by exists (op :: pre), post. }
  destruct (selects op s) eqn:Hsel.
  - destruct (selects_next op c j s) as (i & Hi & Hil & Hle); [done..|].
    destruct (decide (i = j)) as [->|Hij]; [by exists [op], ops|].
    apply (Hgo i); [done|done|]. pose proof (distance_decreases c i j Hcl Hil Hjl Hij Hle). lia.
  - destruct Hsw as [?|Hsw]; [done|]. apply (Hgo c); [congruence|done|lia].
Qed.

(** C12 (liveness): round robin.  In a run of operations of the process subsystem, whatever
    they do to the table, in which control passes from process to process only through the
    scheduler (no [exit], [wait4] or [vfork] hands it over directly), a process that stays
    ready and is not throttled becomes the current process before the scheduler has run
    [MAX_PROCESSES] times. *)
Theorem scheduler_bounded_wait j ops c s :
  current_process s = Some c → (c < MAX_PROCESSES)%nat → (j < MAX_PROCESSES)%nat →
  in_line j ops s → (MAX_PROCESSES ≤ selections ops s)%nat →
  ∃ pre post, ops = pre ++ post ∧ current_process (krun pre s) = Some j.
Proof.
  intros Hc Hcl Hjl Hin Hn. apply (in_line_runs j ops c); try done. pose proof (distance_lt c j). lia.
Qed.
End fair.
