(* ===== verification/ExitProps.v ===== *)
(** * The end of a process

    What [exit] and [wait4] do together, and where they go wrong. *)

From stdpp Require Import gmultiset.
From S2P Require Import Prelude CString ProcessData Process Lifecycle Scheduler ProcessInv ProcessOps.
From S2P Require Import LifecycleOps ProcessProps SchedulerProps.

#[local] Strategy 100 [select_loop scan_order proc].

Lemma find_idx_alter {A} (f : A → bool) g i l : (∀ x, f (g x) = f x) →
  find_idx f (alter g i l) = find_idx f l.
Proof.
  intros Hf. revert i. induction l as [|x l IH]; intros i; [done|].
  destruct i as [|i]; simpl; [by rewrite Hf|]. by rewrite <- (IH i).
Qed.

Section exit.
  Context {M : Type} `{!Machine M} `{!MachineSpec M}.
  Implicit Types s : kernel M.

(** A process without [vfork] parent, thread group and address to clear. *)
Record plain_process (p : process_t) : Prop := {
  pp_vfork : vfork_parent_pid p = 0;
  pp_tid : clear_child_tid p = 0;
  pp_thread : i_is_thread (p_ids p) = false
}.

Notation release := syscall_release_fd_table_entries.

Lemma release_proc c j s : (c < length (process_list s))%nat →
  proc j (release c s) = if decide (c = j) then
    set_fd_table ((λ _, FdEntry FD_FREE (-1)) <$> fd_table (proc j s)) (proc j s) else proc j s.
Proof.
  intros Hc. unfold syscall_release_fd_table_entries. cbv zeta.
  destruct (decide (c = j)) as [<-|]; [by rewrite proc_upd_eq|by rewrite proc_upd_ne].
Qed.

Lemma find_pid_release t c s : find_process_by_pid t (release c s) = find_process_by_pid t s.
Proof. apply find_idx_alter. done. Qed.

(** [exit] of a plain process: its files are closed, then the parent decides. *)
Lemma exit_plain code s c : (c < length (process_list s))%nat → current_process s = Some c →
  plain_process (proc c s) →
  process_exit_and_wake_parent code s =
  match find_process_by_pid (parent_pid (proc c s)) s with
  | Some i =>
      if is_status WAITING (proc i (release c s))
         && wait_pid_matches (wait_target_pid (proc i (release c s))) (pid (proc c s))
      then exit_to_waiter c i (raw_status code) (release c s)
      else exit_to_zombie c (Some i) (raw_status code) (release c s)
  | None => exit_to_zombie c None (raw_status code) (release c s)
  end.
Proof.
  intros Hlt Hc [Hv Ht Hth]. unfold process_exit_and_wake_parent. rewrite Hc. cbv zeta.
  assert (Ev : process_complete_vfork c s = s) by (unfold process_complete_vfork; by rewrite Hv).
  rewrite Ev, Ht. cbn [negb Z.eqb]. rewrite (release_proc c c s Hlt), decide_True by done.
  change (i_is_thread (p_ids (set_fd_table ((λ _, FdEntry FD_FREE (-1)) <$> fd_table (proc c s)) (proc c s))))
    with (i_is_thread (p_ids (proc c s))). rewrite Hth.
  change (parent_pid (set_fd_table ((λ _, FdEntry FD_FREE (-1)) <$> fd_table (proc c s)) (proc c s)))
    with (parent_pid (proc c s)). rewrite find_pid_release.
  by destruct (find_process_by_pid _ s).
Qed.

(** The parent found is not the process itself. *)
Lemma parent_other s c i : kwf s → current_process s = Some c →
  find_process_by_pid (parent_pid (proc c s)) s = Some i →
  i ≠ c ∧ (i < length (process_list s))%nat ∧ status (proc i s) ≠ DEAD.
Proof.
  intros Hwf Hc (Hi & Hd & Hpid)%find_pid_spec. split; [|done]. intros ->.
  destruct (kwf_current_lt c s Hwf Hc) as (Hlt & Hdc & _).
  pose proof (kw_parent _ (proj1 Hwf) c _ (lookup_proc _ _ Hlt) Hdc). lia.
Qed.

(** The table after [exit_to_zombie] with a live parent. *)
Lemma exit_to_zombie_proc s c i raw : (c < length (process_list s))%nat →
  (i < length (process_list s))%nat → i ≠ c → status (proc i s) ≠ DEAD → status (proc i s) ≠ ZOMBIE →
  ∃ s', exit_to_zombie c (Some i) raw s = (SwitchTo i, s') ∧ current_process s' = Some i ∧
    length (process_list s') = length (process_list s) ∧
    (∃ q, proc c s' = set_p4_table 0 q ∧ status q = ZOMBIE ∧ exit_status q = raw ∧
       p_ids q = p_ids (proc c s)) ∧
    (status (proc i s) = READY → proc i s' = set_wait (-1) 0 (set_status RUNNING (proc i s))) ∧
    p_ids (proc i s') = p_ids (proc i s) ∧
    ∀ j, j ≠ c → j ≠ i → proc j s' = proc j s.
Proof.
  intros Hc Hi Hne Hd Hz. unfold exit_to_zombie, enter_process. cbv zeta.
  set (s1 := upd c (set_exit_status raw) (upd c (set_status ZOMBIE) s)).
  assert (Hl1 : length (process_list s1) = length (process_list s)) by (unfold s1; by rewrite !upd_length).
  assert (E1 : ∀ j, j ≠ c → proc j s1 = proc j s) by (intros j Hj; unfold s1; by rewrite !proc_upd_ne).
  assert (Ec : proc c s1 = set_exit_status raw (set_status ZOMBIE (proc c s)))
    by (unfold s1; by rewrite !proc_upd_eq by (rewrite ?upd_length; done)).
  rewrite E1 by done. rewrite (proj2 (is_status_false DEAD _)), (proj2 (is_status_false ZOMBIE _)) by done.
  cbn [orb]. eexists. split; [done|].
  set (s2 := on_machine (switch_page_table (p4_table (proc i (set_current i s1)))) (set_current i s1)).
  assert (Hl2 : length (process_list s2) = length (process_list s1)) by done.
  set (s3 := release_process_memory c s2).
  destruct (release_memory_frame c s2) as [Ec3 El3]. fold s3 in Ec3, El3.
  assert (E3 : ∀ j, proc j s3 = if decide (c = j) then set_p4_table 0 (proc j s1) else proc j s1).
  { intros j. unfold s3. by rewrite release_memory_proc by congruence. }
  assert (Ei : proc i s3 = proc i s) by (rewrite E3, decide_False by done; by apply E1).
  rewrite Ei. set (s4 := if _ || _ then _ else s3).
  assert (E4 : ∀ j, j ≠ i → proc j s4 = proc j s3)
    by (intros j Hj; unfold s4; destruct (_ || _); [by rewrite proc_upd_ne|done]).
  set (s5 := on_machine _ _). assert (E5 : ∀ j, proc j s5 = proc j s4) by done. rewrite !E5.
  assert (Hl5 : process_list s5 = process_list s4 ∧ current_process s5 = current_process s4) by done.
  rewrite (proj1 Hl5), (proj2 Hl5). clearbody s5.
  assert (Hi3 : (i < length (process_list s3))%nat) by (rewrite El3, Hl2, Hl1; exact Hi).
  split_and!.
  - unfold s4. simpl. destruct (_ || _); exact Ec3.
  - simpl. unfold s4. destruct (_ || _); rewrite ?upd_length; congruence.
  - eexists. split; [|split_and!; [..|]].
    + transitivity (proc c s3); [apply E4; done|]. by rewrite E3, decide_True, Ec by done.
    + done.
    + done.
    + done.
  - intros Hr. unfold s4. rewrite (proj2 (is_status_true READY _)) by done. cbn [orb].
    rewrite proc_upd_eq by exact Hi3. by rewrite Ei.
  - unfold s4. destruct (_ || _); [rewrite proc_upd_eq by exact Hi3|]; by rewrite Ei.
  - intros j Hjc Hji. rewrite E5. transitivity (proc j s3); [by apply E4|]. rewrite E3, decide_False by done. by apply E1.
Qed.

(** The registers of a [wait4] for one process, with an address for its status or 0. *)
Definition wait4_regs (target status_ptr : Z) : syscall_regs :=
  Regs 61 0 status_ptr target 0 0 0 0 0 0 0 0 0 0 0 0.

(** Such a [wait4] passes the checks of its arguments. *)
Lemma wait4_args target ptr : 0 < target < 2 ^ 32 →
  s64 (rdi (wait4_regs target ptr)) = target ∧
  flag (rdx (wait4_regs target ptr)) (0xFFFFFFFFFFFFFFFF .^ WAIT_NOHANG) = false ∧
  (target =? 0) || (target <? -1) = false.
Proof.
  intros Ht. split_and!; [|done|].
  - unfold s64, wait4_regs. simpl. rewrite (proj2 (Z.ltb_lt _ _)); [done|lia].
  - by rewrite (proj2 (Z.eqb_neq target 0)), (proj2 (Z.ltb_ge target (-1))) by lia.
Qed.

(** What becomes of a status [v] for the process [i] at [ptr]: whether it can be stored, and
    the machine afterwards. *)
Definition deliver (i : nat) (ptr v : Z) s : bool * M :=
  if ptr =? 0 then (true, machine s)
  else let (ok, m) := vmm_prepare_user_write (p4_table (proc i s)) ptr 4 (machine s) in
       (ok, if ok then store_u32 ptr v m else m).

Lemma wait4_reaps s i c target ptr : current_process s = Some i → 0 < target < 2 ^ 32 →
  find_idx (λ p, waited (pid (proc i s)) target p && is_status ZOMBIE p) (process_list s) = Some c →
  sys_wait4 (wait4_regs target ptr) s =
    let (ok, m) := deliver i ptr (u32 (exit_status (proc c s))) s in
    if ok then (Return (pid (proc c s)), upd c (λ _, zero_process) (on_machine (λ _, m) s))
    else (Return (- LINUX_EFAULT), on_machine (λ _, m) s).
Proof.
  intros Hi Ht Hf. unfold sys_wait4. rewrite Hi. cbv zeta.
  destruct (wait4_args target ptr Ht) as (-> & -> & ->).
  pose proof (wait_scan_find (pid (proc i s)) target (process_list s) 0 false None) as Hs.
  rewrite Hf in Hs. destruct Hs as (h & f & ->). unfold deliver, write_process_u32. cbn [rsi wait4_regs].
  change (0 + c)%nat with c. destruct (ptr =? 0); cbn [negb]; [by destruct s|].
  by destruct (vmm_prepare_user_write _ _ _ _) as [[] m].
Qed.

Lemma wait4_echild s i target ptr : current_process s = Some i → 0 < target < 2 ^ 32 →
  (∀ p, p ∈ process_list s → waited (pid (proc i s)) target p = false) →
  sys_wait4 (wait4_regs target ptr) s = (Return (- LINUX_ECHILD), s).
Proof.
  intros Hi Ht Hnone. unfold sys_wait4. rewrite Hi. cbv zeta.
  destruct (wait4_args target ptr Ht) as (-> & -> & ->).
  pose proof (wait_scan_find (pid (proc i s)) target (process_list s) 0 false None) as Hs.
  assert (Hzn : find_idx (λ p, waited (pid (proc i s)) target p && is_status ZOMBIE p) (process_list s) = None).
  { apply find_idx_None. intros j p Hj. rewrite Hnone; [done|]. by eapply list_elem_of_lookup_2. }
  rewrite Hzn in Hs. rewrite Hs.
  assert (Hex : existsb (waited (pid (proc i s)) target) (process_list s) = false).
  { apply Bool.not_true_is_false. intros (p & Hp & Hwp)%existsb_exists.
    rewrite Hnone in Hwp; [done|]. by apply list_elem_of_In. }
  by rewrite Hex.
Qed.

Lemma waited_pid parent target p : 0 < target → waited parent target p = true → pid p = target.
Proof.
  intros Ht Hw. unfold waited, wait_pid_matches in Hw. apply andb_true_iff in Hw as [_ Hm].
  apply orb_true_iff in Hm as [Hm|Hm]; apply Z.eqb_eq in Hm; [lia|done].
Qed.

(** In a well-formed table the search for one's own child finds it. *)
Lemma find_child s i c p : ktable s → process_list s !! c = Some p →
  waited (pid (proc i s)) (pid p) p = true → status p = ZOMBIE →
  find_idx (λ q, waited (pid (proc i s)) (pid p) q && is_status ZOMBIE q) (process_list s) = Some c.
Proof.
  intros Ht Hp Hw Hz. apply find_idx_Some. exists p. split; [done|].
  rewrite Hw, (proj2 (is_status_true ZOMBIE p)) by done. split; [done|]. intros j q Hj Hq.
  destruct (waited (pid (proc i s)) (pid p) q) eqn:Hwq; [|done]. exfalso.
  pose proof (kw_pid _ Ht c p Hp ltac:(by rewrite Hz)) as Hpos.
  pose proof (waited_pid _ _ _ (proj1 Hpos) Hwq) as Hpq.
  pose proof (kw_uniq _ Ht j c q p Hq Hp (waited_not_dead _ _ _ Hwq) ltac:(by rewrite Hz) Hpq). lia.
Qed.

(** The child of [i] in slot [c] has ended: one [wait4] gets it, a second does not. *)
Lemma wait_once s i c ptr ptr' : kwf s → current_process s = Some i → i ≠ c → (c < length (process_list s))%nat →
  status (proc c s) = ZOMBIE → parent_pid (proc c s) = pid (proc i s) → 0 < pid (proc c s) < 2 ^ 32 →
  let (ok, m) := deliver i ptr (u32 (exit_status (proc c s))) s in
  if ok then
    ∃ s2, sys_wait4 (wait4_regs (pid (proc c s)) ptr) s = (Return (pid (proc c s)), s2) ∧
      machine s2 = m ∧ proc c s2 = zero_process ∧ (∀ j, j ≠ c → proc j s2 = proc j s) ∧
      sys_wait4 (wait4_regs (pid (proc c s)) ptr') s2 = (Return (- LINUX_ECHILD), s2)
  else sys_wait4 (wait4_regs (pid (proc c s)) ptr) s = (Return (- LINUX_EFAULT), on_machine (λ _, m) s).
Proof.
  intros Hwf Hcur Hne Hlt Hz Hpar Hpid.
  pose proof (lookup_proc c s Hlt) as Hlk.
  assert (Hw : waited (pid (proc i s)) (pid (proc c s)) (proc c s) = true).
  { unfold waited, wait_pid_matches. rewrite (proj2 (is_status_false DEAD (proc c s))) by congruence.
    rewrite Z.eqb_refl, orb_true_r, andb_true_r. by apply Z.eqb_eq. }
  rewrite (wait4_reaps s i c _ _ Hcur Hpid (find_child s i c _ (proj1 Hwf) Hlk Hw Hz)).
  destruct (deliver _ _ _ s) as [[] m]; [|done]. eexists. split_and!; [done|done| | |].
  - by rewrite proc_upd_eq.
  - intros j Hj. by rewrite proc_upd_ne.
  - set (s2 := upd c _ _). assert (Ei : proc i s2 = proc i s) by (unfold s2; by rewrite proc_upd_ne).
    apply (wait4_echild s2 i); [done|done|]. rewrite Ei. intros p [j Hj]%list_elem_of_lookup.
    destruct (waited _ _ p) eqn:Hwp; [|done]. exfalso.
    pose proof (waited_not_dead _ _ _ Hwp) as Hpd. pose proof (waited_pid _ _ _ (proj1 Hpid) Hwp) as Hpq.
    apply upd_lookup_inv in Hj as [(p0 & _ & _ & ->)|[Hjc Hj]]; [done|].
    apply Hjc, (kw_uniq _ (proj1 Hwf) j c p _ Hj Hlk Hpd); [congruence|congruence].
Qed.

Lemma raw_status_u32 code : u32 (raw_status code) = (code .& 0xFF) .<< 8.
Proof.
  unfold raw_status, u32. apply Z.mod_small. change 0xFF with (Z.ones 8).
  rewrite Z.land_ones, Z.shiftl_mul_pow2 by lia. pose proof (Z.mod_pos_bound code (2 ^ 8) ltac:(lia)). lia.
Qed.

(** C10 (functional): the exit status reaches the parent, once.  A process that exits while its
    ready parent is not running becomes a zombie and control passes to the parent; the
    parent's [wait4] for it, with any address [ptr] for the status, stores
    [(code & 0xFF) << 8] there (nothing for a null address), returns the child's identifier
    and frees its slot, and a second [wait4] returns -ECHILD.  If the address cannot be
    written, [wait4] returns -EFAULT and the child stays. *)
Theorem exit_then_wait code s c i ptr ptr' :
  kwf s → current_process s = Some c → plain_process (proc c s) → pid (proc c s) < 2 ^ 32 →
  find_process_by_pid (parent_pid (proc c s)) s = Some i → status (proc i s) = READY →
  ∃ s1, process_exit_and_wake_parent code s = (SwitchTo i, s1) ∧
    current_process s1 = Some i ∧ status (proc i s1) = RUNNING ∧ status (proc c s1) = ZOMBIE ∧
    let (ok, m) := deliver i ptr ((code .& 0xFF) .<< 8) s1 in
    if ok then
      ∃ s2, sys_wait4 (wait4_regs (pid (proc c s)) ptr) s1 = (Return (pid (proc c s)), s2) ∧
        machine s2 = m ∧ proc c s2 = zero_process ∧ (∀ j, j ≠ c → proc j s2 = proc j s1) ∧
        sys_wait4 (wait4_regs (pid (proc c s)) ptr') s2 = (Return (- LINUX_ECHILD), s2)
    else sys_wait4 (wait4_regs (pid (proc c s)) ptr) s1 = (Return (- LINUX_EFAULT), on_machine (λ _, m) s1).
Proof.
  intros Hwf Hc Hpl Hpid Hf Hr. destruct (kwf_current_lt c s Hwf Hc) as (Hlt & Hd & _).
  destruct (parent_other s c i Hwf Hc Hf) as (Hne & Hi & _).
  pose proof (kw_pid _ (proj1 Hwf) c _ (lookup_proc _ _ Hlt) Hd) as Hpos.
  pose proof (exit_wf code s Hwf) as Hwf1. revert Hwf1.
  rewrite (exit_plain code s c) by done. rewrite Hf.
  assert (Ei : proc i (release c s) = proc i s) by (by rewrite release_proc, decide_False).
  rewrite Ei, (proj2 (is_status_false WAITING _)) by congruence. cbn [andb].
  assert (Hlr : length (process_list (release c s)) = length (process_list s)) by (simpl; apply length_alter).
  destruct (exit_to_zombie_proc (release c s) c i (raw_status code)) as
    (s1 & -> & Hc1 & Hl1 & (q & Eq & Hqz & Hqe & Hqi) & Hi1 & Hii & Hj1); [congruence..|rewrite Ei; congruence|rewrite Ei; congruence|].
  intros Hwf1. specialize (Hwf1 ltac:(done)). simpl in Hwf1.
  assert (Hqi' : p_ids (proc c s1) = p_ids (proc c s)) by (rewrite Eq; simpl; rewrite Hqi, release_proc, decide_True by done; done).
  exists s1. split_and!; [done|done|rewrite Hi1 by congruence; done|by rewrite Eq|].
  assert (Epid : pid (proc c s1) = pid (proc c s)) by (unfold pid; by rewrite Hqi').
  rewrite <- raw_status_u32. replace (raw_status code) with (exit_status (proc c s1)) by (by rewrite Eq).
  rewrite <- Epid. apply wait_once; [done|done|done|congruence|by rewrite Eq| |rewrite Epid; lia].
  unfold parent_pid, pid. rewrite Hqi', Hii, Ei. symmetry. by apply find_pid_spec in Hf as (_ & _ & ?).
Qed.

(** The table after [exit_to_waiter]. *)
Lemma exit_to_waiter_proc s c i raw : (c < length (process_list s))%nat →
  (i < length (process_list s))%nat → i ≠ c →
  let ptr := wait_status_ptr (proc i s) in
  let ok := (ptr =? 0) || (vmm_prepare_user_write (p4_table (proc i s)) ptr 4 (machine s)).1 in
  ∃ s', exit_to_waiter c i raw s = (SwitchTo i, s') ∧ current_process s' = Some i ∧
    proc c s' = zero_process ∧
    proc i s' = end_wait RUNNING (if ok then pid (proc c s) else u64 (- LINUX_EFAULT)) (proc i s) ∧
    ∀ j, j ≠ c → j ≠ i → proc j s' = proc j s.
Proof.
  intros Hc Hi Hne. cbv zeta. unfold exit_to_waiter, enter_process. cbv zeta.
  set (err := if negb _ then _ else _).
  assert (Herr : ∃ s1, err = (negb ((wait_status_ptr (proc i s) =? 0) ||
      (vmm_prepare_user_write (p4_table (proc i s)) (wait_status_ptr (proc i s)) 4 (machine s)).1), s1) ∧
    process_list s1 = process_list s).
  { unfold err. destruct (wait_status_ptr (proc i s) =? 0); cbn [negb orb]; [by exists s|].
    destruct (vmm_prepare_user_write _ _ _ _) as [ok m]. eexists. split; [done|]. by destruct ok. }
  destruct Herr as (s1 & -> & El). set (ok := _ || _).
  set (s2 := on_machine (switch_page_table (p4_table (proc i s))) s1).
  assert (Ep : ∀ j, proc j s2 = proc j s) by (intros j; unfold proc; simpl; by rewrite El).
  assert (Hl2 : length (process_list s2) = length (process_list s)) by (simpl; by rewrite El).
  set (s3 := release_process_memory c s2).
  destruct (release_memory_frame c s2) as [_ El3]. fold s3 in El3.
  assert (E3 : ∀ j, j ≠ c → proc j s3 = proc j s).
  { intros j Hj. unfold s3. by rewrite release_memory_proc, decide_False by congruence. }
  assert (Ev : (if negb ok then u64 (- LINUX_EFAULT) else pid (proc c s)) =
    (if ok then pid (proc c s) else u64 (- LINUX_EFAULT))) by (by destruct ok).
  rewrite Ev. set (f := end_wait RUNNING _). set (s4 := upd c (λ _, zero_process) (upd i f s3)).
  eexists. split; [done|]. split; [done|]. set (s5 := on_machine _ _).
  assert (Es : ∀ j, proc j s5 = proc j s4) by done. rewrite !Es. unfold s4. split_and!.
  - rewrite proc_upd_eq; [done|]. rewrite upd_length. congruence.
  - rewrite proc_upd_ne by done. rewrite proc_upd_eq by congruence. by rewrite E3.
  - intros j Hjc Hji. rewrite Es. unfold s4. rewrite !proc_upd_ne by done. by apply E3.
Qed.

(** C32 (functional): a parent that waits for the exiting process is woken by it: it continues
    with the child's identifier in [rax] (-EFAULT when the address for the status is not
    writable), is no longer waiting, and the child's slot is free at once; no other
    process changes. *)
Theorem wait_then_exit code s c i :
  kwf s → current_process s = Some c → plain_process (proc c s) →
  find_process_by_pid (parent_pid (proc c s)) s = Some i → status (proc i s) = WAITING →
  wait_target_pid (proc i s) = -1 ∨ wait_target_pid (proc i s) = pid (proc c s) →
  let ptr := wait_status_ptr (proc i s) in
  let writable := (vmm_prepare_user_write (p4_table (proc i s)) ptr 4 (machine (release c s))).1 in
  ∃ s1, process_exit_and_wake_parent code s = (SwitchTo i, s1) ∧ current_process s1 = Some i ∧
    proc c s1 = zero_process ∧ status (proc i s1) = RUNNING ∧
    rax (regs (proc i s1)) = (if (ptr =? 0) || writable then pid (proc c s) else u64 (- LINUX_EFAULT)) ∧
    wait_target_pid (proc i s1) = -1 ∧
    ∀ j, j ≠ c → j ≠ i → proc j s1 = proc j s.
Proof.
  intros Hwf Hc Hpl Hf Hw Ht. cbv zeta. destruct (kwf_current_lt c s Hwf Hc) as (Hlt & _).
  destruct (parent_other s c i Hwf Hc Hf) as (Hne & Hi & _).
  rewrite (exit_plain code s c) by done. rewrite Hf.
  assert (Ei : proc i (release c s) = proc i s) by (by rewrite release_proc, decide_False).
  rewrite Ei, (proj2 (is_status_true WAITING _)) by done. cbn [andb].
  assert (Hm : wait_pid_matches (wait_target_pid (proc i s)) (pid (proc c s)) = true).
  { unfold wait_pid_matches. apply orb_true_iff. rewrite !Z.eqb_eq. done. }
  rewrite Hm. assert (Hlr : length (process_list (release c s)) = length (process_list s))
    by (simpl; apply length_alter).
  destruct (exit_to_waiter_proc (release c s) c i (raw_status code)) as (s1 & -> & Hc1 & Ec & Eip & Hj);
    [congruence..|].
  exists s1. split_and!; try done.
  - by rewrite Eip.
  - rewrite Eip, Ei, release_proc, decide_True by done. done.
  - by rewrite Eip.
  - intros j Hjc Hji. rewrite Hj by done. by rewrite release_proc, decide_False.
Qed.

(** C33 (error): an orphan's exit stops the machine.  When the parent of the exiting process
    has ended and been reaped, [exit] halts, whatever other processes are ready to run. *)
Theorem orphan_exit_halts code s c :
  kwf s → current_process s = Some c → plain_process (proc c s) →
  find_process_by_pid (parent_pid (proc c s)) s = None →
  (process_exit_and_wake_parent code s).1 = Halt.
Proof.
  intros Hwf Hc Hpl Hf. destruct (kwf_current_lt c s Hwf Hc) as (Hlt & _).
  by rewrite (exit_plain code s c), Hf.
Qed.

(** C34 (error): the exit of a child corrupts a preempted parent.  A parent that the timer
    interrupted in user code is entered again through [sysret], which overwrites its
    registers [rcx] and [r11] with the instruction pointer and the flags. *)
Theorem exit_clobbers_preempted_parent code s c i fr p :
  kwf s → current_process s = Some c → plain_process (proc c s) →
  find_process_by_pid (parent_pid (proc c s)) s = Some i → status (proc i s) = READY →
  regs (proc i s) = regs (process_save_interrupt_context fr p) →
  ∃ s1, process_exit_and_wake_parent code s = (SwitchTo i, s1) ∧
    u_rip (switch_to_process (proc i s1)) = u_rip (fr_user fr) ∧
    u_rcx (switch_to_process (proc i s1)) = u_rip (fr_user fr) ∧
    u_r11 (switch_to_process (proc i s1)) = u_rflags (fr_user fr).
Proof.
  intros Hwf Hc Hpl Hf Hr Hregs. destruct (kwf_current_lt c s Hwf Hc) as (Hlt & _).
  destruct (parent_other s c i Hwf Hc Hf) as (Hne & Hi & _).
  rewrite (exit_plain code s c) by done. rewrite Hf.
  assert (Ei : proc i (release c s) = proc i s) by (by rewrite release_proc, decide_False).
  rewrite Ei, (proj2 (is_status_false WAITING _)) by congruence. cbn [andb].
  assert (Hlr : length (process_list (release c s)) = length (process_list s)) by (simpl; apply length_alter).
  destruct (exit_to_zombie_proc (release c s) c i (raw_status code)) as
    (s1 & -> & _ & _ & _ & Hi1 & _); [congruence..|rewrite Ei; congruence|rewrite Ei; congruence|].
  exists s1. split; [done|]. rewrite Hi1, Ei by congruence. unfold switch_to_process. simpl.
  by rewrite Hregs.
Qed.

End exit.

(** ** A small machine *)

(** Address spaces are numbers, handed out in order; user stores are recorded. *)
Record demo_machine := Demo { next_space : Z; stored : list (Z * Z) }.

Definition user_addressb (a : Z) : bool := (0x10000000000 <=? a) && (a <? 0x800000000000).

#[local] Instance demo_Machine : Machine demo_machine := {|
  vmm_copy_p4 _ m := (next_space m, Demo (next_space m + 4096) (stored m));
  vmm_create_user_space _ m := (next_space m, Demo (next_space m + 4096) (stored m));
  vmm_destroy_user_space _ m := m;
  vmm_prepare_user_write _ a _ m := (user_addressb a, m);
  switch_page_table _ m := m;
  process_load_fs_base _ m := m;
  store_u32 a v m := Demo (next_space m) ((a, v) :: stored m);
  retain_fd_entry_refs _ m := m;
  release_file_handle _ m := m;
  release_pipe_ref _ _ m := m;
  close_socket_ref _ m := m;
  release_eventfd_ref _ m := m;
  exec_snapshot _ _ _ := None;
  exec_open _ _ := None;
  exec_load path _ _ _ _ m :=
    (if bool_decide (path = lit "bad") then inl (- LINUX_EINVAL) else inr (ExecImage 0x400000 0x7000 0x402345), m);
  input_clear_events m := m
|}.

Definition demo_boot : recorded demo_machine := Recorded (Demo 0x2000 []) (Some {[+ 0x1000 +]}).
Definition demo_start : kernel (recorded demo_machine) := init_process 0x1000 (boot demo_boot).

Lemma demo_alive : alive demo_boot 0x1000.
Proof. exists {[+ 0x1000 +]}. split; [done|right; multiset_solver]. Qed.

Definition demo_stored (s : kernel (recorded demo_machine)) : list (Z * Z) := stored (rec_machine (machine s)).

Definition sample_regs : syscall_regs := Regs 57 0 0 0 0 0 0 0 0 0 0 0 0 0x400100 0x202 0x7000.
Definition sample_frame (rip : Z) : process_interrupt_frame :=
  Frame (UserContext 1 2 3 4 5 6 7 8 9 10 11 12 13 0xAAAA 0xBBBB 0x7000 rip 0x202) 0x2B.

Lemma demo_run_wf ops : safe_run ops demo_start = true →
  Z.of_nat (length ops) < 2 ^ 32 - 3 →
  reachable 0x1000 demo_boot (length ops) (krun ops demo_start) ∧ kwf (krun ops demo_start).
Proof.
  intros Hs Hn. assert (Hr : reachable 0x1000 demo_boot (length ops) (krun ops demo_start)).
  { apply (safe_reachable _ _ ops 0); [constructor|done..]. }
  split; [done|]. eapply reachable_wf; [exact demo_alive|done..].
Qed.

(** After a fork; with the child running; with the parent preempted by the timer; with the
    parent waiting. *)
Definition ops_forked : list kop := [OpFork sample_regs].
Definition ops_child : list kop := [OpFork sample_regs; OpSchedule sample_regs].
Definition ops_preempted : list kop := [OpFork sample_regs; OpTimer (Some (sample_frame 0x400200)) None].
Definition ops_waiting : list kop :=
  [OpFork sample_regs; OpWait4 (Regs 61 0 0 (2 ^ 64 - 1) 0 0 0 0 0 0 0 0 0 0 0 0)].
(** The child forks and exits, the parent reaps it and gives way to the grandchild. *)
Definition ops_orphan : list kop :=
  [OpFork sample_regs; OpSchedule sample_regs; OpFork sample_regs; OpExit 0;
   OpWait4 (Regs 61 0 0 2 0 0 0 0 0 0 0 0 0 0 0 0); OpSchedule sample_regs].

Ltac demo_wf := refine (proj2 (demo_run_wf _ _ _));
  [vm_compute; reflexivity|apply (bool_decide_unpack _); vm_compute; exact I].
Ltac demo_plain := split; vm_compute; reflexivity.

Lemma process_table_invariant_witness :
  ∃ c p, current_process (krun ops_child demo_start) = Some c ∧
    process_list (krun ops_child demo_start) !! c = Some p ∧ status p ≠ DEAD ∧ status p ≠ ZOMBIE.
Proof.
  refine (proj2 (proj2 (proj2 (process_table_invariant 0x1000 demo_boot 2 (krun ops_child demo_start) _ _ _)))).
  - exact demo_alive.
  - apply (demo_run_wf ops_child); [vm_compute; reflexivity|
      apply (bool_decide_unpack _); vm_compute; exact I].
  - apply (bool_decide_unpack _). vm_compute. exact I.
Defined.

(** Two children of the first process: the timer passes the younger one over once. *)
Definition two_children : kernel (recorded demo_machine) := krun [OpFork sample_regs; OpFork sample_regs] demo_start.
Definition ticks : list kop := replicate MAX_PROCESSES (OpTimer (Some (sample_frame 0x400200)) None).

Lemma scheduler_bounded_wait_witness :
  current_process (krun (take 1 ticks) two_children) = Some 1%nat ∧
  ∃ pre post, ticks = pre ++ post ∧ current_process (krun pre two_children) = Some 2%nat.
Proof.
  split; [vm_compute; reflexivity|].
  apply (scheduler_bounded_wait 2 ticks 0 two_children).
  - vm_compute. reflexivity.
  - apply (bool_decide_unpack _). vm_compute. exact I.
  - apply (bool_decide_unpack _). vm_compute. exact I.
  - intros _. split; [vm_compute; reflexivity|]. split; [vm_compute; reflexivity|]. split; [left; vm_compute; reflexivity|].
    intros _. split; [vm_compute; reflexivity|]. split; [vm_compute; reflexivity|]. split; [left; vm_compute; reflexivity|].
    intros H. destruct H. vm_compute. reflexivity.
  - apply (bool_decide_unpack _). vm_compute. exact I.
Defined.

Lemma sys_fork_spec_witness :
  (sys_fork sample_regs demo_start).1 = Return 2 ∧
  let '(o, s') := sys_fork sample_regs demo_start in current_process s' = Some 0%nat.
Proof.
  split; [vm_compute; reflexivity|].
  pose proof (sys_fork_spec sample_regs demo_start 0 (proc 0 demo_start)) as H.
  destruct (sys_fork sample_regs demo_start) as [o s']. refine (proj1 (proj2 (H _ _ _))).
  - apply boot_wf, demo_alive.
  - reflexivity.
  - vm_compute. reflexivity.
Defined.

(** The status 0x700 arrives at an address of the parent. *)
Lemma exit_then_wait_witness :
  ∃ s1, process_exit_and_wake_parent 7 (krun ops_child demo_start) = (SwitchTo 0, s1) ∧
    ∃ s2, sys_wait4 (wait4_regs 2 0x10000000010) s1 = (Return 2, s2) ∧
      demo_stored s2 = (0x10000000010, 0x700) :: demo_stored s1.
Proof.
  destruct (exit_then_wait 7 (krun ops_child demo_start) 1 0 0x10000000010 0) as (s1 & H1 & _ & _ & _ & H2).
  - demo_wf.
  - vm_compute. reflexivity.
  - demo_plain.
  - apply (bool_decide_unpack _). vm_compute. exact I.
  - vm_compute. reflexivity.
  - vm_compute. reflexivity.
  - exists s1. split; [exact H1|]. change (pid (proc 1 (krun ops_child demo_start))) with 2 in H2.
    destruct H2 as (s2 & H2 & H3 & _). exists s2. split; [exact H2|].
    unfold demo_stored. rewrite H3. reflexivity.
Defined.

Lemma wait_then_exit_witness :
  ∃ s1, process_exit_and_wake_parent 7 (krun ops_waiting demo_start) = (SwitchTo 0, s1) ∧
    rax (regs (proc 0 s1)) = pid (proc 1 (krun ops_waiting demo_start)).
Proof.
  destruct (wait_then_exit 7 (krun ops_waiting demo_start) 1 0) as (s1 & H1 & _ & _ & _ & H2 & _).
  - demo_wf.
  - vm_compute. reflexivity.
  - demo_plain.
  - vm_compute. reflexivity.
  - vm_compute. reflexivity.
  - left. vm_compute. reflexivity.
  - exists s1. exact (conj H1 H2).
Defined.

(** The first process is ready, and the machine stops. *)
Lemma orphan_exit_halts_witness :
  status (proc 0 (krun ops_orphan demo_start)) = READY ∧
  (process_exit_and_wake_parent 0 (krun ops_orphan demo_start)).1 = Halt.
Proof.
  split; [vm_compute; reflexivity|].
  apply (orphan_exit_halts 0 (krun ops_orphan demo_start) 2).
  - demo_wf.
  - vm_compute. reflexivity.
  - demo_plain.
  - vm_compute. reflexivity.
Defined.

(** The parent had 0xAAAA in [rcx]; it comes back with its instruction pointer there. *)
Lemma exit_clobbers_preempted_parent_witness :
  ∃ s1, process_exit_and_wake_parent 0 (krun ops_preempted demo_start) = (SwitchTo 0, s1) ∧
    u_rcx (switch_to_process (proc 0 s1)) = 0x400200.
Proof.
  destruct (exit_clobbers_preempted_parent 0 (krun ops_preempted demo_start) 1 0
    (sample_frame 0x400200) (proc 0 demo_start)) as (s1 & H1 & _ & H2 & _).
  - demo_wf.
  - vm_compute. reflexivity.
  - demo_plain.
  - vm_compute. reflexivity.
  - vm_compute. reflexivity.
  - vm_compute. reflexivity.
  - exists s1. exact (conj H1 H2).
Defined.
