(* ===== verification/PreemptProps.v ===== *)
(** * A preempted process keeps its registers

    Whatever the other processes do, the registers saved for a process when the timer takes
    the processor away from it are those it finds when the timer gives it back. *)

From S2P Require Import Prelude CString ProcessData Process Lifecycle Scheduler ProcessInv ProcessOps.
From S2P Require Import LifecycleOps ProcessProps ExitProps.

#[local] Strategy 100 [select_loop scan_order proc].

(** The saved registers of a process. *)
Definition saved (p : process_t) : syscall_regs * option (Z * Z) := (regs p, interrupted p).

Section preempt.
  Context {M : Type} `{!Machine M}.
  Implicit Types s : kernel M.

(** While [j] waits for the processor: after each operation it is ready and another process
    is the current one. *)
Fixpoint off_cpu (j : nat) (ops : list kop) s : Prop :=
  match ops with
  | [] => True
  | op :: ops' =>
      let s' := (kexec op s).2 in
      status (proc j s') = READY ∧ current_process s' ≠ Some j ∧ off_cpu j ops' s'
  end.

(** ** Steps *)

Lemma saved_upd i f j s : (∀ p, saved (f p) = saved p) → saved (proc j (upd i f s)) = saved (proc j s).
Proof.
  intros Hf. unfold proc. rewrite upd_lookup. destruct (decide (i = j)); [|done].
  destruct (process_list s !! j); [apply Hf|done].
Qed.

Lemma saved_upd_ne i f j s : i ≠ j → saved (proc j (upd i f s)) = saved (proc j s).
Proof. intros Hne. by rewrite proc_upd_ne. Qed.

Lemma saved_select c r l j s : process_select_next_ready (Some c) (process_list s) = (r, l) →
  saved (proc j (set_list l s)) = saved (proc j s).
Proof.
  intros Hsel. destruct (select_loop_spec _ _ _ _ _ (select_spec _ _ _ _ Hsel)) as ([Hl Hs] & _ & _).
  unfold proc. simpl. destruct (process_list s !! j) as [p|] eqn:Hj.
  - destruct (Hs j p Hj) as (p' & -> & [-> | (_ & ph & ->)]); done.
  - apply lookup_ge_None in Hj. rewrite <- Hl in Hj. apply lookup_ge_None in Hj as ->. done.
Qed.

(** Peels the steps off a state: edits of other entries, edits that keep the registers, and
    changes of the rest of the kernel. *)
Ltac peel :=
  repeat lazymatch goal with
    | |- saved (proc ?j ?s) = saved (proc ?j ?s) => reflexivity
    | |- saved (proc ?j (on_machine ?f ?s)) = _ => change (saved (proc j (on_machine f s))) with (saved (proc j s))
    | |- saved (proc ?j (set_current ?i ?s)) = _ => change (saved (proc j (set_current i s))) with (saved (proc j s))
    | |- saved (proc ?j (bump_pid ?s)) = _ => change (saved (proc j (bump_pid s))) with (saved (proc j s))
    | |- saved (proc ?j (set_list ?l ?s)) = _ => etransitivity; [eapply saved_select; eassumption|]
    | |- saved (proc ?j (upd ?i ?f ?s)) = _ =>
        etransitivity; [first [apply saved_upd_ne; congruence|apply saved_upd; intros ?; reflexivity]|]
    end.

(** Nothing happens to the registers of [j], unless it gets the processor or is no longer
    ready. *)
Definition kept (j : nat) s s' : Prop :=
  saved (proc j s') = saved (proc j s) ∨ current_process s' = Some j ∨ status (proc j s') ≠ READY.

Lemma kept_schedule r j s : current_process s ≠ Some j → kept j s (schedule r s).2.
Proof.
  intros Hc. unfold schedule, enter_process. destruct (current_process s) as [c|] eqn:Ec; [|by left].
  assert (Hne : c ≠ j) by congruence. cbv zeta. set (s2 := if is_status RUNNING _ then _ else _).
  assert (E2 : saved (proc j s2) = saved (proc j s)) by (unfold s2; destruct (is_status _ _); peel).
  destruct (process_select_next_ready (Some c) (process_list s2)) as [next l] eqn:Hsel.
  assert (E3 : saved (proc j (set_list l s2)) = saved (proc j s)) by (rewrite <- E2; peel).
  left. rewrite <- E3. destruct next as [next|]; [|simpl snd; peel].
  destruct (next =? c)%nat; simpl snd; peel.
Qed.

Lemma saved_thermal e j s : saved (proc j (process_update_thermal_policy e s)) = saved (proc j s).
Proof.
  unfold proc. simpl. rewrite list_lookup_fmap. destruct (process_list s !! j) as [p|]; [|done]. simpl.
  by destruct (_ || _).
Qed.

Lemma kept_preempt fr j s : current_process s ≠ Some j → kept j s (process_preempt_from_interrupt fr s).2.
Proof.
  intros Hc. unfold process_preempt_from_interrupt. destruct fr as [fr|]; [|by left].
  destruct (current_process s) as [c|] eqn:Ec; [|by left]. assert (Hne : c ≠ j) by congruence.
  destruct (_ || _); [by left|]. cbv zeta. set (s2 := upd c (set_status READY) _).
  assert (E2 : saved (proc j s2) = saved (proc j s)) by (unfold s2; peel).
  destruct (process_select_next_ready (Some c) (process_list s2)) as [next l] eqn:Hsel.
  assert (E3 : saved (proc j (set_list l s2)) = saved (proc j s)) by (rewrite <- E2; peel).
  left. rewrite <- E3. destruct next as [next|]; [|simpl snd; peel].
  destruct (next =? c)%nat; simpl snd; peel.
Qed.

Lemma saved_upd_current f j s : current_process s ≠ Some j → saved (proc j (upd_current f s)) = saved (proc j s).
Proof. intros Hc. unfold upd_current. destruct (current_process s); [|done]. apply saved_upd_ne. congruence. Qed.

Lemma upd_current_current f s : current_process (upd_current f s) = current_process s.
Proof. unfold upd_current. destruct (current_process s) eqn:E; exact E. Qed.

Lemma kept_trans j s1 s2 s3 : saved (proc j s2) = saved (proc j s1) → kept j s2 s3 → kept j s1 s3.
Proof. unfold kept. by intros ->. Qed.

Lemma kept_timer fr policy j s : current_process s ≠ Some j → kept j s (timer_handler fr policy s).2.
Proof.
  intros Hc. unfold timer_handler. cbv zeta. set (s1 := upd_current _ s).
  assert (E1 : saved (proc j s1) = saved (proc j s)) by (by apply saved_upd_current).
  assert (C1 : current_process s1 ≠ Some j) by (unfold s1; by rewrite upd_current_current).
  clearbody s1. apply (kept_trans _ _ s1); [done|]. destruct policy as [e|]; [|by apply kept_preempt].
  apply (kept_trans _ _ (process_update_thermal_policy e s1)); [apply saved_thermal|by apply kept_preempt].
Qed.

Lemma dead_not_ready j s child : status (proc j s) = READY →
  find_idx (is_status DEAD) (process_list s) = Some child → child ≠ j.
Proof. intros Hr [_ Hd]%find_dead ->. congruence. Qed.

Lemma kept_fork r j s : status (proc j s) = READY → kept j s (sys_fork r s).2.
Proof.
  intros Hr. left. unfold sys_fork. destruct (find_idx _ _) as [child|] eqn:Hf; [|done].
  assert (Hne : child ≠ j) by (by eapply dead_not_ready). cbv zeta.
  destruct (get_current_process _) as [parent|]; [|simpl snd; by apply saved_upd_ne].
  destruct (vmm_copy_p4 _ _) as [p4 m].
  destruct (p4 =? 0); simpl snd; (etransitivity; [by apply saved_upd_ne|]); by apply (saved_upd_ne child).
Qed.

Lemma kept_clone r j s : status (proc j s) = READY → current_process s ≠ Some j → kept j s (sys_clone r s).2.
Proof.
  intros Hr Hc. unfold sys_clone, enter_process. destruct (negb _); [by apply kept_fork|].
  destruct (current_process s) as [parent|] eqn:Ec; [|by left]. assert (Hp : parent ≠ j) by congruence.
  destruct (_ && _); [by left|]. destruct (_ && _); [by left|].
  destruct (find_idx _ _) as [child|] eqn:Hf; [|by left].
  assert (Hne : child ≠ j) by (by eapply dead_not_ready). left. cbv zeta.
  destruct (flag _ LINUX_CLONE_VFORK), (flag _ LINUX_CLONE_PARENT_SETTID), (flag _ LINUX_CLONE_CHILD_SETTID);
    simpl snd; peel.
Qed.

Lemma saved_list j s s' : process_list s' = process_list s → saved (proc j s') = saved (proc j s).
Proof. unfold proc. by intros ->. Qed.

Lemma saved_write_u32 p4 a v j s : saved (proc j (write_process_u32 p4 a v s).2) = saved (proc j s).
Proof. apply saved_list, write_u32_frame. Qed.

Lemma kept_wait4 r j s : status (proc j s) = READY → current_process s ≠ Some j → kept j s (sys_wait4 r s).2.
Proof.
  intros Hr Hc. left. unfold sys_wait4, enter_process. cbv zeta.
  destruct (current_process s) as [c|] eqn:Ec; [|done]. assert (Hne : c ≠ j) by congruence.
  destruct (flag _ _); [done|]. destruct (_ || _); [done|].
  pose proof (wait_scan_find (pid (proc c s)) (s64 (rdi r)) (process_list s) 0 false None) as Hscan.
  destruct (find_idx _ (process_list s)) as [k|] eqn:Hf.
  - destruct Hscan as (has' & fr' & ->). simpl (0 + k)%nat.
    apply find_idx_Some in Hf as (p & Hp & [_ Hk]%andb_true_iff & _). apply is_status_true in Hk.
    assert (Hkj : k ≠ j) by (intros ->; rewrite (proc_lookup _ _ _ Hp) in Hr; congruence).
    destruct (negb _); [|by apply saved_upd_ne].
    pose proof (saved_write_u32 (p4_table (proc c s)) (rsi r) (u32 (exit_status (proc k s))) j s) as Hw.
    destruct (write_process_u32 _ _ _ s) as [ok s']. simpl in Hw. destruct ok; [|done].
    etransitivity; [by apply saved_upd_ne|done].
  - rewrite Hscan. destruct (negb _); [done|]. destruct (flag _ _); [done|].
    destruct (find_idx (λ p, waited _ _ p && is_status READY p) (process_list s)) as [k|]; [|done].
    cbn [fmap option_fmap option_map snd]. peel.
Qed.

(** ** The end of a process, and a new program *)

Lemma saved_vfork c j s : saved (proc j (process_complete_vfork c s)) = saved (proc j s).
Proof.
  unfold process_complete_vfork. cbv zeta. destruct (_ =? 0); [done|]. destruct (find_idx _ _) as [i|]; [|peel].
  destruct (is_status WAITING _); peel.
Qed.

Lemma saved_release_as a i j s : saved (proc j (process_release_address_space a i s)) = saved (proc j s).
Proof. apply saved_list, release_as_list. Qed.

Lemma saved_release_memory i j s : saved (proc j (release_process_memory i s)) = saved (proc j s).
Proof.
  unfold release_process_memory. destruct (_ =? 0); [done|]. rewrite saved_release_as. peel.
Qed.

Lemma saved_release_fds i j s : saved (proc j (syscall_release_fd_table_entries i s)) = saved (proc j s).
Proof. unfold syscall_release_fd_table_entries. peel. Qed.

Lemma kept_exit_thread c j s : c ≠ j → kept j s (exit_thread c s).2.
Proof.
  intros Hne. left. unfold exit_thread, enter_process. cbv zeta.
  destruct (match find_idx _ _ with Some i => Some i | None => _ end) as [n|]; simpl snd; peel; apply saved_release_memory.
Qed.

Lemma kept_exit_to_waiter c i raw j s : c ≠ j → kept j s (exit_to_waiter c i raw s).2.
Proof.
  intros Hne. unfold exit_to_waiter, enter_process. cbv zeta.
  set (err := if negb _ then _ else _).
  assert (El : process_list err.2 = process_list s).
  { unfold err. destruct (negb _); [|done]. destruct (vmm_prepare_user_write _ _ _ _) as [ok m]. by destruct ok. }
  destruct err as [e s1]. simpl in El. destruct (decide (i = j)) as [->|Hij]; [right; by left|left].
  simpl snd. peel. rewrite saved_release_memory. peel. by apply saved_list.
Qed.

Lemma kept_exit_to_zombie c parent raw j s : kept j s (exit_to_zombie c parent raw s).2.
Proof.
  left. unfold exit_to_zombie, enter_process. cbv zeta. destruct parent as [i|]; [|simpl snd; peel].
  destruct (_ || _); [simpl snd; peel|]. destruct (_ || _); simpl snd; peel; rewrite saved_release_memory; peel.
Qed.

Lemma kept_exit code j s : current_process s ≠ Some j → kept j s (syscall_kill_current_process code s).2.
Proof.
  intros Hc. unfold syscall_kill_current_process. destruct (get_current_process s); [|by left].
  destruct (negb _); [|by left]. unfold process_exit_and_wake_parent.
  destruct (current_process s) as [c|]; [|by left]. assert (Hne : c ≠ j) by congruence. cbv zeta.
  set (s1 := process_complete_vfork c s). set (s2 := if negb _ then _ else s1).
  set (s3 := syscall_release_fd_table_entries c s2). apply (kept_trans _ _ s3).
  { unfold s3. rewrite saved_release_fds. unfold s2. destruct (negb _); [rewrite saved_write_u32|]; apply saved_vfork. }
  destruct (i_is_thread _); [by apply kept_exit_thread|].
  destruct (find_process_by_pid _ s3) as [i|]; [|apply kept_exit_to_zombie].
  destruct (_ && _); [by apply kept_exit_to_waiter|apply kept_exit_to_zombie].
Qed.

Lemma kept_exec path argv envp j s : current_process s ≠ Some j → kept j s (exec_initrd_program path argv envp s).2.
Proof.
  intros Hc. left. unfold exec_initrd_program. destruct path as [[|ch path]|]; [done| |done].
  destruct (exec_snapshot _ _ _); [done|]. destruct (current_process s) as [c|]; [|done]. assert (Hne : c ≠ j) by congruence.
  cbv zeta. destruct (_ =? 0); [done|]. destruct (exec_open _ _); [done|].
  destruct (vmm_create_user_space _ _) as [new m]. destruct (_ =? 0); [done|].
  destruct (exec_load _ _ _ _ _ _) as [[rc|image] m2]; [done|]. unfold exec_commit. cbv zeta. simpl snd. peel.
  rewrite saved_vfork. peel. rewrite saved_release_as. peel.
Qed.

(** ** Killing *)

Lemma proc_list i s s' : process_list s' = process_list s → proc i s' = proc i s.
Proof. unfold proc. by intros ->. Qed.

(** Memory and descriptors of another process. *)
Lemma proc_release_other i j s : i ≠ j →
  proc j (release_process_memory i (syscall_release_fd_table_entries i s)) = proc j s.
Proof.
  intros Hne. unfold release_process_memory, syscall_release_fd_table_entries.
  destruct (_ =? 0); [by rewrite proc_upd_ne|].
  rewrite (proc_list j _ _ (proj1 (release_as_list _ _ _))). by rewrite !proc_upd_ne.
Qed.

(** Only a waiting process is woken. *)
Lemma proc_wake child raw j s : status (proc j s) ≠ WAITING → proc j (wake_parent_if_waiting child raw s).2 = proc j s.
Proof.
  intros Hw. unfold wake_parent_if_waiting. cbv zeta. destruct (find_process_by_pid _ s) as [i|]; [|done].
  destruct (is_status WAITING (proc i s)) eqn:Hi; [|done]. apply is_status_true in Hi.
  assert (Hne : i ≠ j) by (intros ->; congruence). cbn [negb]. destruct (negb (wait_pid_matches _ _)); [done|].
  destruct (negb _); [|by apply proc_upd_ne].
  destruct (vmm_prepare_user_write _ _ _ _) as [ok m]. destruct ok; [|exact (proc_upd_ne i j _ (on_machine (λ _, m) s) Hne)].
  cbn [negb]. set (s1 := match get_current_process _ with Some _ => _ | None => _ end). cbn [snd].
  rewrite proc_upd_ne by done. apply proc_list. unfold s1. destruct (get_current_process _); [|done].
  by destruct (negb _).
Qed.

Lemma kept_kill r j s : status (proc j s) = READY → kept j s (sys_process_kill r s).2.
Proof.
  intros Hr. unfold sys_process_kill. cbv zeta. destruct (find_process_by_pid _ s) as [i|] eqn:Hf; [|by left].
  destruct (_ || _); [by left|]. destruct (_ && _); [by left|]. destruct (is_status ZOMBIE _); [by left|].
  apply find_pid_spec in Hf as (Hi & _).
  set (s1 := release_process_memory i _). set (s2 := upd i (set_status ZOMBIE) (upd i (set_exit_status _) s1)).
  destruct (wake_parent_if_waiting i (raw_status (rsi r .& 0xFF)) s2) as [woken s3] eqn:Ew.
  pose proof (λ k, proc_wake i (raw_status (rsi r .& 0xFF)) k s2) as Hw. rewrite Ew in Hw. cbn [snd] in Hw |- *.
  destruct (decide (i = j)) as [->|Hne].
  - right. right. assert (Hl : (j < length (process_list s1))%nat).
    { unfold s1. rewrite (proj2 (release_memory_frame _ _)). unfold syscall_release_fd_table_entries. by rewrite upd_length. }
    assert (Hz : status (proc j s2) = ZOMBIE) by (unfold s2; by rewrite proc_upd_eq by (by rewrite upd_length)).
    destruct woken; [|rewrite Hw by congruence; congruence]. unfold proc. rewrite upd_lookup, decide_True by done.
    by destruct (process_list s3 !! j).
  - left. assert (E2 : proc j s2 = proc j s).
    { unfold s2. rewrite !proc_upd_ne by done. by apply proc_release_other. }
    assert (E3 : proc j s3 = proc j s) by (rewrite Hw, E2; [done|rewrite E2; congruence]).
    destruct woken; [rewrite proc_upd_ne by done|]; by rewrite E3.
Qed.

Lemma terminate_one_kept uid except i j s s0 :
  saved (proc j s) = saved (proc j s0) ∨ status (proc j s) = DEAD →
  saved (proc j (terminate_one uid except i s)) = saved (proc j s0) ∨ status (proc j (terminate_one uid except i s)) = DEAD.
Proof.
  intros H. unfold terminate_one. destruct (_ || _); [done|]. cbv zeta. destruct (decide (i = j)) as [->|Hne].
  - right. unfold proc. rewrite upd_lookup, decide_True by done. by destruct (process_list _ !! j).
  - rewrite proc_upd_ne, proc_release_other by done. done.
Qed.

Lemma kept_terminate uid except j s : kept j s (syscall_terminate_uid_processes uid except s).
Proof.
  assert (H : ∀ l s', saved (proc j s') = saved (proc j s) ∨ status (proc j s') = DEAD →
    let s2 := foldl (λ s i, terminate_one uid except i s) s' l in
    saved (proc j s2) = saved (proc j s) ∨ status (proc j s2) = DEAD).
  { induction l as [|i l IH]; intros s' Hs; [done|]. apply IH. by apply terminate_one_kept. }
  destruct (H (seq 0 MAX_PROCESSES) s) as [E|E]; [by left|by left|]. right. right.
  unfold syscall_terminate_uid_processes. congruence.
Qed.

Lemma kexec_kept op j s : status (proc j s) = READY → current_process s ≠ Some j → kept j s (kexec op s).2.
Proof.
  intros Hr Hc. destruct op; cbn [kexec snd].
  - by apply kept_schedule.
  - by apply kept_timer.
  - by apply kept_fork.
  - by apply kept_clone.
  - by apply kept_wait4.
  - by apply kept_exec.
  - by apply kept_exit.
  - by apply kept_kill.
  - left. unfold sys_process_pause. destruct (find_process_by_pid _ s); [|done].
    destruct (_ || _); [done|]. destruct (is_status READY _); [simpl snd; peel|]. by destruct (is_status PAUSED _).
  - left. unfold sys_process_resume. destruct (find_process_by_pid _ s); [|done].
    destruct (is_status PAUSED _); [simpl snd; peel|done].
  - destruct (get_current_process s); [apply kept_terminate|by left].
  - left. apply saved_thermal.
  - left. by apply saved_upd_current.
  - left. by apply saved_upd_current.
  - left. by apply saved_upd_current.
  - left. by apply saved_upd_current.
Qed.

Lemma off_cpu_saved j ops s : status (proc j s) = READY → current_process s ≠ Some j → off_cpu j ops s →
  saved (proc j (krun ops s)) = saved (proc j s) ∧ current_process (krun ops s) ≠ Some j.
Proof.
  revert s. induction ops as [|op ops IH]; intros s Hr Hc Ho; [done|]. destruct Ho as (Hr' & Hc' & Ho).
  destruct (kexec_kept op j s Hr Hc) as [E|[?|?]]; [|done..].
  destruct (IH _ Hr' Hc' Ho) as [E' ?]. split; [|done]. by rewrite <- E.
Qed.

(** ** Preemption *)

(** What the timer does when it switches from [c] to [n]. *)
Lemma preempt_switch fr s c n fr' s' :
  current_process s = Some c → process_preempt_from_interrupt (Some fr) s = (fr', s') →
  current_process s' = Some n → n ≠ c →
  fr' = Some (process_restore_interrupt_context (proc n s) fr) ∧
  ((c < length (process_list s))%nat →
   saved (proc c s') = saved (process_save_interrupt_context fr (proc c s)) ∧ status (proc c s') = READY).
Proof.
  intros Hc. unfold process_preempt_from_interrupt. rewrite Hc.
  destruct (_ || _); [intros [= <- <-]; congruence|]. cbv zeta.
  set (s2 := upd c (set_status READY) (upd c (process_save_interrupt_context fr) s)).
  destruct (process_select_next_ready (Some c) (process_list s2)) as [next l] eqn:Hsel.
  destruct next as [k|]; [|intros [= <- <-]; simpl; congruence].
  destruct (Nat.eqb_spec k c) as [->|Hk]; [intros [= <- <-]; simpl; congruence|].
  intros [= <- <-] [= <-] Hne. pose proof (saved_select _ _ _ k s2 Hsel) as Ek. split.
  - f_equal. unfold process_restore_interrupt_context. injection Ek as -> ->. unfold s2. by rewrite !proc_upd_ne.
  - intros Hlt. assert (E2 : proc c s2 = set_status READY (process_save_interrupt_context fr (proc c s))).
    { unfold s2. rewrite proc_upd_eq by (by rewrite upd_length). by rewrite proc_upd_eq. }
    change (saved (proc c (upd k (set_status RUNNING) (set_current k (set_list l s2)))) =
      saved (process_save_interrupt_context fr (proc c s)) ∧
      status (proc c (upd k (set_status RUNNING) (set_current k (set_list l s2)))) = READY).
    rewrite !proc_upd_ne by done. change (proc c (set_current k (set_list l s2))) with (proc c (set_list l s2)).
    rewrite (saved_select _ _ _ c s2 Hsel), E2. split; [done|].
    rewrite (view_status l s2 c (proj1 (select_view _ _ _ _ Hsel))), E2. done.
Qed.

(** The same for the timer interrupt, which also counts the tick and may update the thermal
    policy. *)
Lemma timer_switch fr policy s c n fr' s' :
  current_process s = Some c → timer_handler (Some fr) policy s = (fr', s') →
  current_process s' = Some n → n ≠ c →
  (∃ p, saved p = saved (proc n s) ∧ fr' = Some (process_restore_interrupt_context p fr)) ∧
  ((c < length (process_list s))%nat →
   saved (proc c s') = saved (process_save_interrupt_context fr (proc c s)) ∧ status (proc c s') = READY).
Proof.
  intros Hc. unfold timer_handler. cbv zeta. set (s1 := upd_current _ s).
  set (s2 := match policy with Some e => process_update_thermal_policy e s1 | None => s1 end).
  intros Ht Hn Hne. assert (E1 : ∀ k, saved (proc k s1) = saved (proc k s)).
  { intros k. unfold s1, upd_current. rewrite Hc. apply saved_upd. intros p. by destruct (is_status RUNNING p). }
  assert (E2 : ∀ k, saved (proc k s2) = saved (proc k s)).
  { intros k. rewrite <- E1. unfold s2. destruct policy; [apply saved_thermal|done]. }
  assert (C2 : current_process s2 = Some c).
  { unfold s2. destruct policy; simpl; unfold s1; by rewrite upd_current_current. }
  assert (L2 : length (process_list s2) = length (process_list s)).
  { unfold s2, s1, upd_current. rewrite Hc. destruct policy; simpl; by rewrite ?length_fmap, length_alter. }
  destruct (preempt_switch fr s2 c n fr' s' C2 Ht Hn Hne) as [-> H]. split.
  - exists (proc n s2). done.
  - rewrite <- L2. intros [Hs Hst]%H. split; [|done]. rewrite Hs. done.
Qed.

(** The registers a program finds: those of the frame, with interrupts enabled. *)
Definition resumed (fr fr' : process_interrupt_frame) : process_interrupt_frame :=
  let u := fr_user fr in
  Frame (UserContext (u_rax u) (u_rdx u) (u_rsi u) (u_rdi u) (u_r10 u) (u_r8 u) (u_r9 u) (u_r15 u) (u_r14 u)
           (u_r13 u) (u_r12 u) (u_rbx u) (u_rbp u) (u_rcx u) (u_r11 u) (u_rsp u) (u_rip u) (u_rflags u .| 0x200))
    (fr_cs fr').

(** C31 (roundtrip): preemption is transparent.  A process [c] is interrupted by the timer
    with the registers [fr], and another process gets the processor.  Then anything happens
    (system calls of other processes, new and ended processes, further interrupts), as long
    as [c] stays ready and is not the current process.  When a timer interrupt gives [c] the
    processor back, it has exactly the registers of [fr] (with interrupts enabled). *)
Theorem preempt_resume_exact fr fr2 policy policy2 ops s c :
  current_process s = Some c → (c < length (process_list s))%nat →
  let s1 := (timer_handler (Some fr) policy s).2 in
  is_Some (current_process s1) → current_process s1 ≠ Some c →
  off_cpu c ops s1 →
  let '(fr3, s3) := timer_handler (Some fr2) policy2 (krun ops s1) in
  current_process s3 = Some c → fr3 = Some (resumed fr fr2).
Proof.
  intros Hc Hlt s1 [n Hn] Hne Ho. unfold s1 in *. destruct (timer_handler (Some fr) policy s) as [fr1 s1'] eqn:E1.
  cbn [snd] in *. destruct (timer_switch fr policy s c n fr1 s1' Hc E1 Hn) as [_ H1]; [congruence|].
  destruct (H1 Hlt) as [Hs Hr]. destruct (off_cpu_saved c ops s1' Hr Hne Ho) as [Hs2 Hc2].
  destruct (timer_handler (Some fr2) policy2 (krun ops s1')) as [fr3 s3] eqn:E3. intros Hc3.
  destruct (current_process (krun ops s1')) as [d|] eqn:Hd; cycle 1.
  { exfalso. revert E3. unfold timer_handler, process_preempt_from_interrupt, upd_current. rewrite Hd.
    destruct policy2; simpl; rewrite Hd; intros E%(f_equal snd); simpl in E; subst s3; simpl in Hc3; congruence. }
  destruct (timer_switch fr2 policy2 _ d c fr3 s3 Hd E3 Hc3) as [(p & Hp & ->) _]; [congruence|].
  rewrite Hs2, Hs in Hp. f_equal. unfold process_restore_interrupt_context. injection Hp as -> ->. done.
Qed.
End preempt.

#[local] Existing Instance demo_Machine.

(** The child forks a third process while its parent is preempted, the third one runs and
    the timer comes round to the parent. *)
Definition ops_between : list kop :=
  [OpFork sample_regs; OpSetCwd (Some (lit "/tmp")); OpTimer (Some (sample_frame 0x400300)) (Some true);
   OpBecomeRoot].

Definition preempted : kernel (recorded demo_machine) :=
  (timer_handler (Some (sample_frame 0x400200)) None (krun ops_forked demo_start)).2.

Lemma preempt_resume_exact_witness :
  current_process (krun ops_between preempted) = Some 2%nat ∧
  (timer_handler (Some (sample_frame 0x400400)) None (krun ops_between preempted)).1 =
    Some (resumed (sample_frame 0x400200) (sample_frame 0x400400)).
Proof.
  split; [vm_compute; reflexivity|]. unfold preempted.
  pose proof (preempt_resume_exact (sample_frame 0x400200) (sample_frame 0x400400) None None ops_between
    (krun ops_forked demo_start) 0) as H.
  assert (E : current_process (timer_handler (Some (sample_frame 0x400400)) None
    (krun ops_between (timer_handler (Some (sample_frame 0x400200)) None (krun ops_forked demo_start)).2)).2 = Some 0%nat)
    by (vm_compute; reflexivity).
  cbv zeta in H |- *. revert H E.
  destruct (timer_handler (Some (sample_frame 0x400400)) None (krun ops_between _)) as [fr3 s3]. cbn [fst snd].
  intros H E. refine (H _ _ _ _ _ E).
  - vm_compute. reflexivity.
  - apply (bool_decide_unpack _). vm_compute. exact I.
  - eexists. vm_compute. reflexivity.
  - vm_compute. discriminate.
  - repeat (split; [vm_compute; reflexivity|split; [vm_compute; discriminate|]]). exact I.
Defined.
