(* ===== verification/Input.v ===== *)
(** * Input queues ([kernel/input.c])

    Two ring buffers: input events for the graphical clients and characters for
    the terminal.  Both drop what does not fit.  They refine bounded FIFO queues. *)

From S2P Require Import Prelude.

Definition INPUT_EVENT_QUEUE_SIZE : Z := 128.
Definition INPUT_TTY_QUEUE_SIZE : Z := 1024.
Definition AOS_KEY_POINTER : Z := 0x100.

Record aos_input_event := InputEvent {
  ev_key : Z; ev_ascii : Z; ev_pressed : Z; ev_modifiers : Z; ev_source : Z;
  ev_pointer_x : Z; ev_pointer_y : Z; ev_pointer_dx : Z; ev_pointer_dy : Z;
  ev_pointer_buttons : Z
}.

Definition zero_event : aos_input_event := InputEvent 0 0 0 0 0 0 0 0 0 0.

#[export] Instance event_inhabited : Inhabited aos_input_event := populate zero_event.

(** ** Ring buffers *)

(** A static array with its head (next free cell) and tail (oldest element). *)
Record ring (A : Type) := Ring { r_buf : list A; r_head : Z; r_tail : Z }.
Arguments Ring {A} _ _ _.
Arguments r_buf {A} _.
Arguments r_head {A} _.
Arguments r_tail {A} _.

Section ring_ops.
  Context {A : Type} `{!Inhabited A}.
  Variable N : Z.
  Implicit Types (r : ring A) (x : A).

(** [next = (head + 1) % N; if (next != tail) { queue[head] = x; head = next; }] *)
Definition ring_push x r : ring A :=
  let next := u32 (r_head r + 1) mod N in
  if negb (next =? r_tail r)
  then Ring (<[Z.to_nat (r_head r) := x]> (r_buf r)) next (r_tail r)
  else r.

(** [queue[tail]], and [tail = (tail + 1) % N], when the ring is not empty. *)
Definition ring_pop r : option A * ring A :=
  if r_head r =? r_tail r then (None, r)
  else (Some (r_buf r !!! Z.to_nat (r_tail r)),
        Ring (r_buf r) (r_head r) (u32 (r_tail r + 1) mod N)).

Definition ring_reset r : ring A := Ring (r_buf r) 0 0.

(** The queue a ring stands for, oldest element first. *)
Definition ring_len r : Z := (r_head r - r_tail r) mod N.
Definition contents r : list A :=
  (λ k, r_buf r !!! Z.to_nat ((r_tail r + k) mod N)) <$> seqZ 0 (ring_len r).

Record ring_wf r : Prop := {
  rw_len : length (r_buf r) = Z.to_nat N;
  rw_head : 0 ≤ r_head r < N;
  rw_tail : 0 ≤ r_tail r < N
}.
End ring_ops.

(** ** The static state and the operations *)

Record input := Input { event_queue : ring aos_input_event; tty_queue : ring Z }.

Definition input_boot : input :=
  Input (Ring (replicate (Z.to_nat INPUT_EVENT_QUEUE_SIZE) zero_event) 0 0)
        (Ring (replicate (Z.to_nat INPUT_TTY_QUEUE_SIZE) 0) 0 0).

Definition input_init (s : input) : input :=
  Input (ring_reset (event_queue s)) (ring_reset (tty_queue s)).

Definition input_queue_event (e : aos_input_event) (s : input) : input :=
  Input (ring_push INPUT_EVENT_QUEUE_SIZE e (event_queue s)) (tty_queue s).

Definition input_queue_tty_byte (ascii : Z) (s : input) : input :=
  Input (event_queue s) (ring_push INPUT_TTY_QUEUE_SIZE ascii (tty_queue s)).

(** A 32-bit signed addition; overflow is undefined in C. *)
Definition add_int32 (a b : Z) : ub Z :=
  if (- 2 ^ 31 <=? a + b) && (a + b <? 2 ^ 31) then Ok (a + b) else UB.

(** [previous->pointer_dx += event->pointer_dx], and the other members *)
Definition coalesce (prev e : aos_input_event) : ub aos_input_event :=
  match add_int32 (ev_pointer_dx prev) (ev_pointer_dx e),
        add_int32 (ev_pointer_dy prev) (ev_pointer_dy e) with
  | Ok dx, Ok dy =>
      Ok (InputEvent (ev_key prev) (ev_ascii prev) (ev_pressed prev) (ev_modifiers prev)
            (ev_source prev) (ev_pointer_x e) (ev_pointer_y e) dx dy (ev_pointer_buttons prev))
  | _, _ => UB
  end.

Definition can_coalesce (prev e : aos_input_event) : bool :=
  negb (negb (ev_key prev =? AOS_KEY_POINTER) || negb (ev_source prev =? ev_source e)
        || negb (ev_pointer_buttons prev =? ev_pointer_buttons e)).

Definition input_coalesce_pointer (e : aos_input_event) (s : input) : ub (bool * input) :=
  let r := event_queue s in
  if r_head r =? r_tail r then Ok (false, s) else
  let previous_index :=
    u32 (r_head r + INPUT_EVENT_QUEUE_SIZE - 1) mod INPUT_EVENT_QUEUE_SIZE in
  let previous := r_buf r !!! Z.to_nat previous_index in
  if negb (can_coalesce previous e) then Ok (false, s) else
  match coalesce previous e with
  | UB => UB
  | Ok p => Ok (true, Input (Ring (<[Z.to_nat previous_index := p]> (r_buf r))
                               (r_head r) (r_tail r)) (tty_queue s))
  end.

Definition key_event (source key ascii pressed modifiers : Z) : aos_input_event :=
  InputEvent key ascii (if negb (pressed =? 0) then 1 else 0) modifiers source 0 0 0 0 0.

Definition input_push_key (source key ascii pressed modifiers : Z) (s : input) : input :=
  let e := key_event source key ascii pressed modifiers in
  let s := input_queue_event e s in
  if negb (ev_pressed e =? 0) && negb (ascii =? 0) then input_queue_tty_byte ascii s else s.

Definition input_push_char (source ascii : Z) (s : input) : input :=
  input_push_key source (u8 ascii) ascii 1 0 s.

Definition pointer_event (source x y dx dy buttons : Z) : aos_input_event :=
  InputEvent AOS_KEY_POINTER 0 (if negb (buttons =? 0) then 1 else 0) 0 source x y dx dy buttons.

Definition input_push_pointer (source x y dx dy buttons : Z) (s : input) : ub input :=
  let e := pointer_event source x y dx dy buttons in
  match input_coalesce_pointer e s with
  | UB => UB
  | Ok (true, s) => Ok s
  | Ok (false, s) => Ok (input_queue_event e s)
  end.

(** The event stored through [out], [None] for the return value 0. *)
Definition input_pop_event (out : outptr) (s : input) : option aos_input_event * input :=
  if is_null out then (None, s) else
  let (r, q) := ring_pop INPUT_EVENT_QUEUE_SIZE (event_queue s) in
  (r, Input q (tty_queue s)).

Definition input_clear_events (s : input) : input :=
  Input (Ring (r_buf (event_queue s)) (r_head (event_queue s)) (r_head (event_queue s)))
        (tty_queue s).

(** 0 when nothing is pending. *)
Definition input_read_tty_byte (s : input) : Z * input :=
  let (c, q) := ring_pop INPUT_TTY_QUEUE_SIZE (tty_queue s) in
  (default 0 c, Input (event_queue s) q).

Definition input_tty_pending (s : input) : Z :=
  let r := tty_queue s in
  if r_tail r <=? r_head r then u32 (r_head r - r_tail r)
  else u32 (INPUT_TTY_QUEUE_SIZE - r_tail r + r_head r).

(** ** Rings are bounded queues *)

Section ring_lemmas.
  Context {A : Type} `{!Inhabited A}.
  Variable N : Z.
  Hypothesis (HN : 1 < N < 2 ^ 32).
  Implicit Types (r : ring A) (x : A).

Lemma next_index i : 0 ≤ i < N → u32 (i + 1) mod N = if decide (i + 1 = N) then 0 else i + 1.
Proof.
  intros Hi. rewrite u32_small by lia. case_decide as E; [by rewrite E, Z.mod_same by lia|].
  apply Z.mod_small. lia.
Qed.

Lemma ring_len_range r : 0 ≤ ring_len N r < N.
Proof. apply Z.mod_pos_bound. lia. Qed.

Lemma ring_len_cases r : ring_wf N r →
  ring_len N r = if decide (r_tail r ≤ r_head r) then r_head r - r_tail r
                 else N - r_tail r + r_head r.
Proof.
  intros [_ Hh Ht]. unfold ring_len. case_decide.
  - apply Z.mod_small. lia.
  - symmetry. apply (Z.mod_unique _ _ (-1)); lia.
Qed.

Lemma length_contents r : length (contents N r) = Z.to_nat (ring_len N r).
Proof. unfold contents. by rewrite length_fmap, length_seqZ. Qed.

Lemma contents_lookup r k :
  0 ≤ k < ring_len N r →
  contents N r !! Z.to_nat k = Some (r_buf r !!! Z.to_nat ((r_tail r + k) mod N)).
Proof.
  intros Hk. unfold contents. rewrite list_lookup_fmap, lookup_seqZ_lt by lia. simpl.
  by rewrite Z2Nat.id, Z.add_0_l by lia.
Qed.

Lemma empty_contents r : r_head r = r_tail r → contents N r = [].
Proof. intros Heq. unfold contents, ring_len. by rewrite Heq, Z.sub_diag, Z.mod_0_l by lia. Qed.

Lemma ring_len_zero r : ring_wf N r → ring_len N r = 0 ↔ r_head r = r_tail r.
Proof.
  intros Hwf. rewrite ring_len_cases by done. destruct Hwf as [_ Hh Ht]. case_decide; lia.
Qed.

(** The last element. *)
Lemma head_pred_mod r : ring_wf N r → 0 < ring_len N r →
  (r_head r + N - 1) mod N = (r_tail r + (ring_len N r - 1)) mod N.
Proof.
  intros Hwf Hl. rewrite ring_len_cases in * by done. destruct Hwf as [_ Hh Ht]. case_decide.
  - replace (r_head r + N - 1) with (r_head r - 1 + 1 * N) by lia.
    rewrite Z.mod_add by lia. f_equal. lia.
  - f_equal. lia.
Qed.

Lemma index_inj r j k :
  0 ≤ j < N → 0 ≤ k < N → (r_tail r + j) mod N = (r_tail r + k) mod N → j = k.
Proof.
  intros Hj Hk Heq.
  assert (Hd : (j - k) mod N = 0).
  { replace (j - k) with ((r_tail r + j) - (r_tail r + k)) by lia.
    by rewrite Zminus_mod, Heq, Z.sub_diag, Z.mod_0_l by lia. }
  apply Z.mod_divide in Hd as [q Hq]; [|lia]. assert (q = 0) by nia. lia.
Qed.

Lemma head_mod r : ring_wf N r → r_head r = (r_tail r + ring_len N r) mod N.
Proof.
  intros Hwf. rewrite ring_len_cases by done. destruct Hwf as [_ Hh Ht]. case_decide.
  - rewrite Z.mod_small; lia.
  - replace (r_tail r + (N - r_tail r + r_head r)) with (r_head r + 1 * N) by lia.
    rewrite Z.mod_add, Z.mod_small; lia.
Qed.

Lemma contents_ext r l :
  length l = Z.to_nat (ring_len N r) →
  (∀ k, 0 ≤ k < ring_len N r →
     l !! Z.to_nat k = Some (r_buf r !!! Z.to_nat ((r_tail r + k) mod N))) →
  contents N r = l.
Proof.
  intros Hlen Hl. apply list_eq_same_length with (Z.to_nat (ring_len N r)); [done|by rewrite length_contents|].
  intros i x y Hi Hx Hy. pose proof (ring_len_range r).
  specialize (Hl (Z.of_nat i) ltac:(lia)). rewrite Nat2Z.id in Hl.
  pose proof (contents_lookup r (Z.of_nat i) ltac:(lia)) as Hc. rewrite Nat2Z.id in Hc. congruence.
Qed.

(** A push appends, unless [N - 1] elements are queued. *)
Lemma ring_push_spec x r :
  ring_wf N r →
  ring_wf N (ring_push N x r) ∧
  contents N (ring_push N x r) =
    if decide (Z.of_nat (length (contents N r)) = N - 1) then contents N r
    else contents N r ++ [x].
Proof.
  intros Hwf. pose proof Hwf as [Hb Hh Ht]. pose proof (ring_len_range r) as Hlr.
  rewrite length_contents, Z2Nat.id by lia. unfold ring_push. rewrite next_index by done.
  pose proof (ring_len_cases r Hwf) as Hlc.
  destruct (Z.eqb_spec (if decide (r_head r + 1 = N) then 0 else r_head r + 1) (r_tail r)) as [E|E]; cbn [negb].
  - split; [done|]. rewrite decide_True; [done|]. repeat case_decide; lia.
  - set (r' := Ring _ _ _).
    assert (Hwf' : ring_wf N r').
    { split; simpl; [by rewrite length_insert| |done]. case_decide; lia. }
    assert (Hlen : ring_len N r' = ring_len N r + 1).
    { rewrite (ring_len_cases r'), Hlc by done. simpl. repeat case_decide; lia. }
    split; [done|]. rewrite decide_False by (repeat case_decide; lia).
    apply contents_ext.
    + rewrite length_app, length_contents, Hlen. simpl. lia.
    + intros k Hk. rewrite Hlen in Hk. simpl.
      destruct (decide (k = ring_len N r)) as [->|Hne].
      * rewrite lookup_app_r, length_contents, Nat.sub_diag by (rewrite length_contents; lia).
        simpl. rewrite <- head_mod by done. by rewrite list_lookup_total_insert_eq by lia.
      * rewrite lookup_app_l by (rewrite length_contents; lia).
        rewrite contents_lookup by lia. f_equal. symmetry. apply list_lookup_total_insert_ne.
        pose proof (Z.mod_pos_bound (r_tail r + k) N ltac:(lia)).
        intros Heq%Z2Nat.inj; [|lia|lia]. rewrite (head_mod r Hwf) in Heq.
        apply index_inj in Heq; lia.
Qed.

(** A pop takes the oldest element. *)
Lemma ring_pop_spec r :
  ring_wf N r →
  ring_wf N (ring_pop N r).2 ∧
  (ring_pop N r).1 = head (contents N r) ∧
  contents N (ring_pop N r).2 = tail (contents N r).
Proof.
  intros Hwf. pose proof Hwf as [Hb Hh Ht]. pose proof (ring_len_range r) as Hlr.
  pose proof (ring_len_cases r Hwf) as Hlc. unfold ring_pop.
  destruct (Z.eqb_spec (r_head r) (r_tail r)) as [E|E]; cbn [fst snd].
  - by rewrite empty_contents.
  - rewrite next_index by done. set (r' := Ring _ _ _).
    assert (Hpos : 0 < ring_len N r).
    { assert (ring_len N r ≠ 0) by (by rewrite ring_len_zero). lia. }
    assert (Hwf' : ring_wf N r') by (split; simpl; [done|done|]; repeat case_decide; lia).
    assert (Hlen : ring_len N r' = ring_len N r - 1).
    { rewrite (ring_len_cases r'), Hlc by done. simpl. repeat case_decide; lia. }
    pose proof (contents_lookup r 0 ltac:(lia)) as H0.
    rewrite Z.add_0_r, (Z.mod_small (r_tail r)) in H0 by lia.
    destruct (contents N r) as [|x l] eqn:Hc; [done|]. simpl in H0. injection H0 as Hx.
    split_and!; [done|simpl; congruence|]. simpl. apply contents_ext.
    + pose proof (length_contents r) as Hl. rewrite Hc in Hl. simpl in Hl. rewrite Hlen. lia.
    + intros k Hk. rewrite Hlen in Hk.
      pose proof (contents_lookup r (k + 1) ltac:(lia)) as Hk1.
      rewrite Hc in Hk1. replace (Z.to_nat (k + 1)) with (S (Z.to_nat k)) in Hk1 by lia.
      simpl in Hk1. rewrite Hk1. do 3 f_equal. simpl. clear Hlc. case_decide as Hd.
      * replace (r_tail r + (k + 1)) with (0 + k + 1 * N) by lia. by rewrite Z.mod_add by lia.
      * f_equal. lia.
Qed.

(** Replacing the newest element. *)
Lemma ring_set_last r x i :
  ring_wf N r → 0 < ring_len N r → i = (r_head r + N - 1) mod N →
  let r' := Ring (<[Z.to_nat i := x]> (r_buf r)) (r_head r) (r_tail r) in
  ring_wf N r' ∧ last (contents N r) = Some (r_buf r !!! Z.to_nat i) ∧
  contents N r' = take (length (contents N r) - 1) (contents N r) ++ [x].
Proof.
  intros Hwf Hpos Hi. rewrite head_pred_mod in Hi by done. subst i. intros r'.
  pose proof Hwf as [Hb Hh Ht]. pose proof (ring_len_range r) as Hlr.
  assert (Hlen : ring_len N r' = ring_len N r) by done.
  split_and!.
  - split; simpl; [by rewrite length_insert|done|done].
  - rewrite last_lookup, length_contents.
    replace (pred (Z.to_nat (ring_len N r))) with (Z.to_nat (ring_len N r - 1)) by lia.
    apply contents_lookup. lia.
  - apply contents_ext.
    + rewrite Hlen, length_app, length_take, length_contents. simpl. lia.
    + intros k Hk. rewrite Hlen in Hk. simpl.
      pose proof (Z.mod_pos_bound (r_tail r + k) N ltac:(lia)).
      pose proof (Z.mod_pos_bound (r_tail r + (ring_len N r - 1)) N ltac:(lia)).
      destruct (decide (k = ring_len N r - 1)) as [->|Hne].
      * rewrite lookup_app_r, length_take, length_contents by (rewrite length_take, length_contents; lia).
        replace (_ - _)%nat with 0%nat by lia. simpl.
        by rewrite list_lookup_total_insert_eq by lia.
      * rewrite lookup_app_l by (rewrite length_take, length_contents; lia).
        rewrite length_contents, lookup_take_lt, contents_lookup by lia. f_equal. symmetry.
        apply list_lookup_total_insert_ne. intros Heq%Z2Nat.inj; [|lia|lia].
        apply index_inj in Heq; lia.
Qed.
End ring_lemmas.

(** ** The contract: two bounded FIFO queues *)

Record queues := Queues { q_events : list aos_input_event; q_tty : list Z }.

Definition EVENT_CAPACITY : Z := INPUT_EVENT_QUEUE_SIZE - 1.
Definition TTY_CAPACITY : Z := INPUT_TTY_QUEUE_SIZE - 1.

Definition enqueue {A} (cap : Z) (x : A) (l : list A) : list A :=
  if decide (Z.of_nat (length l) = cap) then l else l ++ [x].

Inductive input_op :=
| OpInit
| OpKey (source key ascii pressed modifiers : Z)
| OpChar (source ascii : Z)
| OpPointer (source x y dx dy buttons : Z)
| OpPop (out : outptr)
| OpClear
| OpReadTty
| OpPending.

Inductive input_result := RUnit | REvent (e : option aos_input_event) | RNum (n : Z).

Definition run_input (op : input_op) (s : input) : ub (input_result * input) :=
  match op with
  | OpInit => Ok (RUnit, input_init s)
  | OpKey source key ascii pressed modifiers =>
      Ok (RUnit, input_push_key source key ascii pressed modifiers s)
  | OpChar source ascii => Ok (RUnit, input_push_char source ascii s)
  | OpPointer source x y dx dy buttons =>
      match input_push_pointer source x y dx dy buttons s with
      | Ok s' => Ok (RUnit, s')
      | UB => UB
      end
  | OpPop out => let (e, s') := input_pop_event out s in Ok (REvent e, s')
  | OpClear => Ok (RUnit, input_clear_events s)
  | OpReadTty => let (c, s') := input_read_tty_byte s in Ok (RNum c, s')
  | OpPending => Ok (RNum (input_tty_pending s), s)
  end.

Definition spec_key (e : aos_input_event) (ascii : Z) (q : queues) : queues :=
  Queues (enqueue EVENT_CAPACITY e (q_events q))
    (if negb (ev_pressed e =? 0) && negb (ascii =? 0)
     then enqueue TTY_CAPACITY ascii (q_tty q) else q_tty q).

(** A pointer event merges into the newest event when that one is a pointer event of
    the same source with the same buttons. *)
Definition spec_pointer (e : aos_input_event) (q : queues) : ub queues :=
  match last (q_events q) with
  | Some prev =>
      if can_coalesce prev e
      then match coalesce prev e with
           | Ok p => Ok (Queues (take (length (q_events q) - 1) (q_events q) ++ [p]) (q_tty q))
           | UB => UB
           end
      else Ok (Queues (enqueue EVENT_CAPACITY e (q_events q)) (q_tty q))
  | None => Ok (Queues (enqueue EVENT_CAPACITY e (q_events q)) (q_tty q))
  end.

Definition spec_input (op : input_op) (q : queues) : ub (input_result * queues) :=
  match op with
  | OpInit => Ok (RUnit, Queues [] [])
  | OpKey source key ascii pressed modifiers =>
      Ok (RUnit, spec_key (key_event source key ascii pressed modifiers) ascii q)
  | OpChar source ascii => Ok (RUnit, spec_key (key_event source (u8 ascii) ascii 1 0) ascii q)
  | OpPointer source x y dx dy buttons =>
      match spec_pointer (pointer_event source x y dx dy buttons) q with
      | Ok q' => Ok (RUnit, q')
      | UB => UB
      end
  | OpPop PtrNull => Ok (REvent None, q)
  | OpPop PtrValid => Ok (REvent (head (q_events q)), Queues (tail (q_events q)) (q_tty q))
  | OpClear => Ok (RUnit, Queues [] (q_tty q))
  | OpReadTty => Ok (RNum (default 0 (head (q_tty q))), Queues (q_events q) (tail (q_tty q)))
  | OpPending => Ok (RNum (Z.of_nat (length (q_tty q))), q)
  end.

(** A sequence of calls, with the results in order. *)
Fixpoint run_all {S} (run : input_op → S → ub (input_result * S)) (ops : list input_op) (s : S)
    : ub (list input_result * S) :=
  match ops with
  | [] => Ok ([], s)
  | op :: ops' =>
      match run op s with
      | UB => UB
      | Ok (r, s') =>
          match run_all run ops' s' with
          | UB => UB
          | Ok (rs, s'') => Ok (r :: rs, s'')
          end
      end
  end.

Record input_wf (s : input) : Prop := {
  iw_events : ring_wf INPUT_EVENT_QUEUE_SIZE (event_queue s);
  iw_tty : ring_wf INPUT_TTY_QUEUE_SIZE (tty_queue s)
}.

Definition abs (s : input) : queues :=
  Queues (contents INPUT_EVENT_QUEUE_SIZE (event_queue s))
    (contents INPUT_TTY_QUEUE_SIZE (tty_queue s)).

(** Outcome [a] of the code against outcome [b] of the contract. *)
Definition refines (a : ub (input_result * input)) (b : ub (input_result * queues)) : Prop :=
  match a, b with
  | Ok (r, s'), Ok (r', q') => r = r' ∧ input_wf s' ∧ abs s' = q'
  | UB, UB => True
  | _, _ => False
  end.

Lemma input_boot_wf : input_wf input_boot.
Proof. split; split; vm_compute; try done; split; congruence. Qed.

Lemma push_event e s : input_wf s →
  input_wf (input_queue_event e s) ∧
  abs (input_queue_event e s) =
    Queues (enqueue EVENT_CAPACITY e (q_events (abs s))) (q_tty (abs s)).
Proof.
  intros [H1 H2]. destruct (ring_push_spec INPUT_EVENT_QUEUE_SIZE ltac:(unfold INPUT_EVENT_QUEUE_SIZE; lia)
    e (event_queue s) H1) as [Hw Hc].
  split; [by split|]. unfold abs. simpl. by rewrite Hc.
Qed.

Lemma push_tty c s : input_wf s →
  input_wf (input_queue_tty_byte c s) ∧
  abs (input_queue_tty_byte c s) =
    Queues (q_events (abs s)) (enqueue TTY_CAPACITY c (q_tty (abs s))).
Proof.
  intros [H1 H2]. destruct (ring_push_spec INPUT_TTY_QUEUE_SIZE ltac:(unfold INPUT_TTY_QUEUE_SIZE; lia)
    c (tty_queue s) H2) as [Hw Hc].
  split; [by split|]. unfold abs. simpl. by rewrite Hc.
Qed.

Lemma push_key_refines source key ascii pressed modifiers s : input_wf s →
  input_wf (input_push_key source key ascii pressed modifiers s) ∧
  abs (input_push_key source key ascii pressed modifiers s) =
    spec_key (key_event source key ascii pressed modifiers) ascii (abs s).
Proof.
  intros Hwf. unfold input_push_key, spec_key. set (e := key_event _ _ _ _ _).
  destruct (push_event e s Hwf) as [H1 H2]. destruct (_ && _); [|done].
  destruct (push_tty ascii _ H1) as [H3 H4]. split; [done|]. by rewrite H4, H2.
Qed.

Lemma push_pointer_refines e s : input_wf s →
  match (match input_coalesce_pointer e s with
         | UB => UB | Ok (true, s') => Ok s' | Ok (false, s') => Ok (input_queue_event e s')
         end), spec_pointer e (abs s) with
  | Ok s', Ok q' => input_wf s' ∧ abs s' = q'
  | UB, UB => True
  | _, _ => False
  end.
Proof.
  intros Hwf. pose proof Hwf as [H1 H2]. unfold input_coalesce_pointer, spec_pointer.
  set (r := event_queue s) in *.
  assert (HN : 1 < INPUT_EVENT_QUEUE_SIZE < 2 ^ 32) by (unfold INPUT_EVENT_QUEUE_SIZE; lia).
  pose proof (ring_len_range INPUT_EVENT_QUEUE_SIZE HN r) as Hlr.
  pose proof (ring_len_zero INPUT_EVENT_QUEUE_SIZE HN r H1) as Hz.
  destruct (Z.eqb_spec (r_head r) (r_tail r)) as [E|E].
  { assert (Hnil : q_events (abs s) = []) by (by apply empty_contents). rewrite Hnil.
    destruct (push_event e s Hwf) as [P1 P2]. rewrite Hnil in P2. by split. }
  destruct (rw_head _ _ H1) as [Hh1 Hh2].
  rewrite u32_small by (unfold INPUT_EVENT_QUEUE_SIZE in *; lia). set (i := (r_head r + INPUT_EVENT_QUEUE_SIZE - 1) mod INPUT_EVENT_QUEUE_SIZE).
  destruct (ring_set_last INPUT_EVENT_QUEUE_SIZE HN r zero_event i H1 ltac:(lia) eq_refl) as (_ & Hlast & _).
  set (prev := r_buf r !!! Z.to_nat i) in *.
  change (contents INPUT_EVENT_QUEUE_SIZE r) with (q_events (abs s)) in Hlast. rewrite Hlast.
  destruct (can_coalesce prev e); cbn [negb]; [|by apply push_event].
  destruct (coalesce prev e) as [p|]; [|done].
  destruct (ring_set_last INPUT_EVENT_QUEUE_SIZE HN r p i H1 ltac:(lia) eq_refl) as (Hw & _ & Hc).
  split; [by split|]. unfold abs. fold r. cbn [q_events q_tty event_queue tty_queue]. by rewrite Hc.
Qed.

Lemma clear_refines s : input_wf s →
  input_wf (input_clear_events s) ∧ abs (input_clear_events s) = Queues [] (q_tty (abs s)).
Proof.
  intros [[B1 B2 B3] H2]. split; [by split|]. unfold abs. simpl. by rewrite empty_contents.
Qed.

Lemma init_refines s : input_wf s → input_wf (input_init s) ∧ abs (input_init s) = Queues [] [].
Proof.
  intros [[B1 B2 B3] [C1 C2 C3]]. split; [|unfold abs; simpl; by rewrite !empty_contents].
  split; (split; simpl; [done|unfold INPUT_EVENT_QUEUE_SIZE, INPUT_TTY_QUEUE_SIZE in *; lia..]).
Qed.

Lemma pending_refines s : input_wf s →
  input_tty_pending s = Z.of_nat (length (q_tty (abs s))).
Proof.
  intros [_ H2]. pose proof H2 as [B1 B2 B3].
  assert (HN : 1 < INPUT_TTY_QUEUE_SIZE < 2 ^ 32) by (unfold INPUT_TTY_QUEUE_SIZE; lia).
  unfold input_tty_pending, abs. cbn [q_tty].
  rewrite length_contents, ring_len_cases by done.
  destruct (Z.leb_spec (r_tail (tty_queue s)) (r_head (tty_queue s))).
  - rewrite decide_True, u32_small by lia. lia.
  - rewrite decide_False, u32_small by lia. lia.
Qed.

Lemma run_input_refines op s : input_wf s → refines (run_input op s) (spec_input op (abs s)).
Proof.
  intros Hwf. pose proof Hwf as [H1 H2]. destruct op; simpl.
  - split; [done|]. by apply init_refines.
  - split; [done|]. by apply push_key_refines.
  - split; [done|]. by apply push_key_refines.
  - unfold input_push_pointer. pose proof (push_pointer_refines (pointer_event source x y dx dy buttons) s Hwf) as H.
    destruct (input_coalesce_pointer _ _) as [[[] s1]|], (spec_pointer _ _); by simpl in *.
  - destruct out; simpl; [done|]. unfold input_pop_event. simpl.
    destruct (ring_pop_spec INPUT_EVENT_QUEUE_SIZE ltac:(unfold INPUT_EVENT_QUEUE_SIZE; lia) _ H1) as (Hw & Hr & Hc).
    destruct (ring_pop _ _) as [e q]. simpl in *. split_and!; [congruence|by split|].
    unfold abs. simpl. by rewrite Hc.
  - split; [done|]. by apply clear_refines.
  - unfold input_read_tty_byte.
    destruct (ring_pop_spec INPUT_TTY_QUEUE_SIZE ltac:(unfold INPUT_TTY_QUEUE_SIZE; lia) _ H2) as (Hw & Hr & Hc).
    destruct (ring_pop _ _) as [c q]. simpl in *. split_and!; [congruence|by split|].
    unfold abs. simpl. by rewrite Hc.
  - split_and!; [|done|done]. f_equal. by apply pending_refines.
Qed.

(** C19 (refinement): from the boot state, every sequence of calls of the input component
    returns what two bounded FIFO queues return (127 events, 1023 characters, the
    newest pointer event merged), and it is undefined exactly when the merged pointer
    motion overflows 32 bits. *)
Theorem input_refines ops :
  match run_all run_input ops input_boot, run_all spec_input ops (Queues [] []) with
  | Ok (rs, s), Ok (rs', q) => rs = rs' ∧ input_wf s ∧ abs s = q
  | UB, UB => True
  | _, _ => False
  end.
Proof.
  pose proof input_boot_wf as Hwf. change (Queues [] []) with (abs input_boot).
  revert Hwf. generalize input_boot. induction ops as [|op ops IH]; intros s Hwf; simpl; [done|].
  pose proof (run_input_refines op s Hwf) as Hop. unfold refines in Hop.
  destruct (run_input op s) as [[r s']|], (spec_input op (abs s)) as [[r' q']|]; try done.
  destruct Hop as (-> & Hwf' & <-). specialize (IH s' Hwf').
  destruct (run_all run_input ops s') as [[rs s'']|], (run_all spec_input ops (abs s')) as [[rs' q'']|];
    try done. by destruct IH as (-> & ? & ?).
Qed.
