(* ===== verification/Tty.v ===== *)
(** * Terminal ([kernel/tty.c])

    Reading lines from the input queue, and writing a byte stream with private
    escape commands (colour, reset, clear) to the serial port and the screen.  The
    serial port and the screen are outputs: the bytes sent with [outb], and the
    calls of [vga_clear] and [vga_write].  Characters are bytes. *)

From S2P Require Import Prelude Input.

Definition TTY_ESC : Z := 0x1B.
Definition TTY_CMD_COLOR : Z := 0x43.
Definition TTY_CMD_RESET : Z := 0x52.
Definition TTY_CMD_CLEAR : Z := 0x4C.
Definition DEFAULT_COLOR : Z := 0x0F.
Definition OUT_SIZE : nat := 128.

(** A call of the screen driver. *)
Inductive screen_call := VgaClear (color : Z) | VgaWrite (text : list Z) (color : Z).

(** [tty_output_color] and the calls made so far. *)
Record console := Console { tty_output_color : Z; screen : list screen_call }.

Definition tty_init (s : console) : console := Console DEFAULT_COLOR (screen s).

Definition set_color (c : Z) (s : console) : console := Console c (screen s).
Definition emit (call : screen_call) (s : console) : console :=
  Console (tty_output_color s) (screen s ++ [call]).

Definition tty_keyboard_input (c : Z) (s : input) : input := input_push_char 1 c s.
Definition tty_read_byte (s : input) : Z * input := input_read_tty_byte s.
Definition tty_pending (s : input) : Z := input_tty_pending s.

(** ** Reading *)

Definition is_newline (c : Z) : bool := (c =? 10) || (c =? 13).

(** The read loop.  [wait] is [keyboard_handler_main] followed by halting until an
    interrupt: what the queues hold after it.  [got] are the bytes stored so far;
    [None] when the fuel runs out, that is, while the C code keeps waiting. *)
Fixpoint tty_read_loop (fuel : nat) (wait : input → input) (len : nat) (got : list Z)
    (s : input) : option (list Z * input) :=
  match fuel with
  | O => None
  | S fuel' =>
      if (length got <? len)%nat then
        let (c, s) := tty_read_byte s in
        if c =? 0 then
          if (length got =? 0)%nat then tty_read_loop fuel' wait len got (wait s)
          else Some (got, s)
        else
          let got := got ++ [c] in
          if is_newline c then Some (got, s) else tty_read_loop fuel' wait len got s
      else Some (got, s)
  end.

(** The bytes stored in [buf]; the return value is their number. *)
Definition tty_read (fuel : nat) (wait : input → input) (buf : outptr) (len : nat) (s : input)
    : option (list Z * input) :=
  if is_null buf || (len =? 0)%nat then Some ([], s) else tty_read_loop fuel wait len [] s.

(** ** Writing *)

(** The bytes [tty_serial_write] sends. *)
Fixpoint tty_serial_write (buf : list Z) : list Z :=
  match buf with
  | [] => []
  | c :: rest =>
      if c =? 0 then []
      else if c =? TTY_ESC then
        match rest with
        | [] => c :: tty_serial_write rest
        | cmd :: rest =>
            if cmd =? TTY_CMD_COLOR then
              match rest with
              | [] => []
              | _ :: rest => tty_serial_write rest
              end
            else if (cmd =? TTY_CMD_RESET) || (cmd =? TTY_CMD_CLEAR) then tty_serial_write rest
            else c :: tty_serial_write rest
        end
      else c :: tty_serial_write rest
  end.

(** The inner loop of [tty_console_write]: fills [out] from [buf] and returns what is
    left of [buf]. *)
Fixpoint console_fill (buf out : list Z) (s : console) : list Z * list Z * console :=
  match buf with
  | [] => ([], out, s)
  | c :: rest =>
      if negb (length out + 1 <? OUT_SIZE)%nat then (buf, out, s)
      else if c =? 0 then (rest, out, s)
      else if c =? TTY_ESC then
        match rest with
        | [] => (rest, out ++ [c], s)
        | cmd :: rest =>
            if cmd =? TTY_CMD_COLOR then
              match rest with
              | [] => (rest, out, s)
              | color :: rest => console_fill rest out (set_color color s)
              end
            else if cmd =? TTY_CMD_RESET then console_fill rest out (set_color DEFAULT_COLOR s)
            else if cmd =? TTY_CMD_CLEAR then
              console_fill rest out
                (set_color DEFAULT_COLOR (emit (VgaClear (tty_output_color s)) s))
            else console_fill rest (out ++ [c; cmd]) s
        end
      else console_fill rest (out ++ [c]) s
  end.

(** The outer loop; each round consumes input, so [length buf] rounds are enough.  The
    terminator is stored at [out[out_len]], which must be inside the array. *)
Fixpoint console_rounds (fuel : nat) (buf : list Z) (s : console) : ub console :=
  match buf with
  | [] => Ok s
  | _ =>
      match fuel with
      | O => Ok s
      | S fuel' =>
          let '(rest, out, s) := console_fill buf [] s in
          if (0 <? length out)%nat
          then if (length out <? OUT_SIZE)%nat
               then console_rounds fuel' rest (emit (VgaWrite out (tty_output_color s)) s)
               else UB
          else console_rounds fuel' rest s
      end
  end.

Definition tty_console_write (buf : list Z) (s : console) : ub console :=
  console_rounds (length buf) buf s.

(** Returns the count, the bytes for the serial port and the new screen state; [None]
    for [buf] is [NULL]. *)
Definition tty_write (buf : option (list Z)) (s : console) : ub (Z * list Z * console) :=
  match buf with
  | None => Ok (0, [], s)
  | Some bytes =>
      if (length bytes =? 0)%nat then Ok (0, [], s) else
      let bytes := take 4096 bytes in
      match tty_console_write bytes s with
      | UB => UB
      | Ok s' => Ok (Z.of_nat (length bytes), tty_serial_write bytes, s')
      end
  end.

(** ** What the stream shows *)

(** The printable part of a stream in which every escape is a known command. *)
Fixpoint visible (buf : list Z) : list Z :=
  match buf with
  | [] => []
  | c :: rest =>
      if c =? 0 then visible rest
      else if c =? TTY_ESC then
        match rest with
        | [] => [c]
        | cmd :: rest =>
            if cmd =? TTY_CMD_COLOR then match rest with [] => [] | _ :: rest => visible rest end
            else if (cmd =? TTY_CMD_RESET) || (cmd =? TTY_CMD_CLEAR) then visible rest
            else c :: cmd :: visible rest
        end
      else c :: visible rest
  end.

(** Every escape starts a known command (or ends the stream). *)
Fixpoint known_escapes (buf : list Z) : bool :=
  match buf with
  | [] => true
  | c :: rest =>
      if c =? TTY_ESC then
        match rest with
        | [] => true
        | cmd :: rest =>
            if cmd =? TTY_CMD_COLOR then
              match rest with [] => true | _ :: rest => known_escapes rest end
            else ((cmd =? TTY_CMD_RESET) || (cmd =? TTY_CMD_CLEAR)) && known_escapes rest
        end
      else known_escapes rest
  end.

(** The text of the [vga_write] calls. *)
Definition call_text (c : screen_call) : list Z :=
  match c with VgaClear _ => [] | VgaWrite t _ => t end.
Definition shown (l : list screen_call) : list Z := mjoin (call_text <$> l).

Lemma shown_app l k : shown (l ++ k) = shown l ++ shown k.
Proof. unfold shown. by rewrite fmap_app, join_app. Qed.

(** Induction on streams, two or three bytes at a time. *)
Lemma stream_ind (P : list Z → Prop) :
  (∀ buf, (∀ rest, (length rest < length buf)%nat → P rest) → P buf) → ∀ buf, P buf.
Proof.
  intros H buf. remember (length buf) as n eqn:Hn. revert buf Hn.
  induction n as [n IH] using lt_wf_ind. intros buf ->. apply H. intros rest Hr.
  by eapply IH.
Qed.

Record filled (buf out : list Z) (s : console) (res : list Z * list Z * console) : Prop := {
  fl_shorter : buf ≠ [] → (length out + 1 < OUT_SIZE)%nat → (length res.1.1 < length buf)%nat;
  fl_known : known_escapes res.1.1 = true;
  fl_text : out ++ visible buf = res.1.2 ++ visible res.1.1;
  fl_bound : (length out < OUT_SIZE)%nat → (length res.1.2 < OUT_SIZE)%nat;
  fl_shown : shown (screen res.2) = shown (screen s);
  fl_le : (length res.1.1 ≤ length buf)%nat
}.

Lemma console_fill_spec buf : ∀ out s,
  known_escapes buf = true → filled buf out s (console_fill buf out s).
Proof.
  induction buf as [buf IH] using stream_ind. intros out s Hk.
  destruct buf as [|c rest]; [by split; simpl|]. simpl in Hk |- *.
  destruct (Nat.ltb_spec (length out + 1) OUT_SIZE) as [Hl|Hl]; cbn [negb]; cycle 1.
  { split; simpl; try done; lia. }
  destruct (c =? 0) eqn:E0.
  { apply Z.eqb_eq in E0 as ->. split; simpl; try done; lia. }
  destruct (c =? TTY_ESC) eqn:E1.
  - destruct rest as [|cmd rest].
    { split; simpl; try done; try lia.
      - by rewrite E0, E1, app_nil_r.
      - rewrite length_app. simpl. lia. }
    destruct (cmd =? TTY_CMD_COLOR) eqn:E2.
    { destruct rest as [|color rest].
      - split; simpl; try done; try lia. by rewrite E0, E1, E2.
      - destruct (IH rest ltac:(simpl; lia) out (set_color color s) Hk) as [F1 F2 F3 F4 F5 F6].
        split; try done; simpl in *; try lia. by rewrite E0, E1, E2. }
    apply andb_true_iff in Hk as [Hc Hk].
    destruct (cmd =? TTY_CMD_RESET) eqn:E3.
    { destruct (IH rest ltac:(simpl; lia) out (set_color DEFAULT_COLOR s) Hk) as [F1 F2 F3 F4 F5 F6].
      split; try done; simpl in *; try lia. by rewrite E0, E1, E2, E3. }
    simpl in Hc. rewrite Hc.
    destruct (IH rest ltac:(simpl; lia) out
      (set_color DEFAULT_COLOR (emit (VgaClear (tty_output_color s)) s)) Hk) as [F1 F2 F3 F4 F5 F6].
    split; try done; simpl in *; try lia; [by rewrite E0, E1, E2, E3, Hc|].
    rewrite F5, shown_app. apply app_nil_r.
  - destruct (IH rest ltac:(simpl; lia) (out ++ [c]) s Hk) as [F1 F2 F3 F4 F5 F6].
    split; try done; simpl in *; try lia.
    + by rewrite E0, E1, <- F3, <- app_assoc.
    + intros _. apply F4. rewrite length_app. simpl. lia.
Qed.

Lemma console_rounds_spec fuel buf s :
  (length buf ≤ fuel)%nat → known_escapes buf = true →
  ∃ s', console_rounds fuel buf s = Ok s' ∧
    shown (screen s') = shown (screen s) ++ visible buf.
Proof.
  revert buf s. induction fuel as [|fuel IH]; intros buf s Hlen Hk.
  { destruct buf; [|simpl in Hlen; lia]. exists s. split; [done|]. by rewrite app_nil_r. }
  destruct buf as [|c buf]; [exists s; split; [done|]; by rewrite app_nil_r|].
  cbn [console_rounds].
  destruct (console_fill_spec (c :: buf) [] s Hk) as [F1 F2 F3 F4 F5 F6].
  destruct (console_fill _ _ _) as [[rest out] s1]. cbn [fst snd] in *. cbn [app] in F3.
  specialize (F1 ltac:(done) ltac:(unfold OUT_SIZE; simpl; lia)).
  rewrite (proj2 (Nat.ltb_lt (length out) OUT_SIZE)) by (apply F4; unfold OUT_SIZE; simpl; lia).
  destruct (Nat.ltb_spec 0 (length out)) as [Ho|Ho].
  - destruct (IH rest (emit (VgaWrite out (tty_output_color s1)) s1)) as (s' & Hs' & Hsh); [lia|done|].
    exists s'. split; [done|]. rewrite Hsh. cbn [emit screen]. rewrite shown_app, F5, F3, <- app_assoc.
    unfold shown at 2. simpl. by rewrite app_nil_r.
  - destruct (IH rest s1) as (s' & Hs' & Hsh); [lia|done|].
    exists s'. split; [done|]. rewrite Hsh, F5, F3. destruct out; [done|simpl in Ho; lia].
Qed.

(** A byte that is neither NUL nor the escape. *)
Definition plain (c : Z) : bool := negb (c =? 0) && negb (c =? TTY_ESC).

Lemma plain_tests c : plain c = true → (c =? 0) = false ∧ (c =? TTY_ESC) = false.
Proof. unfold plain. intros [H1 H2]%andb_true_iff. by apply negb_true_iff in H1, H2. Qed.

(** Plain text goes into [out] as long as there is room. *)
Lemma console_fill_plain text rest out s :
  Forall (λ c, plain c = true) text → (length out + length text < OUT_SIZE)%nat →
  console_fill (text ++ rest) out s = console_fill rest (out ++ text) s.
Proof.
  revert out. induction text as [|c text IH]; intros out Hp Hl; [by rewrite app_nil_r|].
  apply Forall_cons in Hp as [[H0 H1]%plain_tests Hp]. simpl in Hl |- *.
  rewrite (proj2 (Nat.ltb_lt _ _)) by lia. cbn [negb]. rewrite H0, H1, IH; [|done|].
  - by rewrite <- app_assoc.
  - rewrite length_app. simpl. lia.
Qed.

Lemma known_plain text rest : Forall (λ c, plain c = true) text →
  known_escapes (text ++ rest) = known_escapes rest.
Proof.
  induction text as [|c text IH]; intros Hp; simpl; [done|].
  apply Forall_cons in Hp as [[H0 H1]%plain_tests Hp]. rewrite H1. by apply IH.
Qed.

Lemma serial_plain text rest : Forall (λ c, plain c = true) text →
  tty_serial_write (text ++ rest) = text ++ tty_serial_write rest.
Proof.
  induction text as [|c text IH]; intros Hp; simpl; [done|].
  apply Forall_cons in Hp as [[H0 H1]%plain_tests Hp]. rewrite H0, H1. by rewrite IH.
Qed.

Lemma visible_plain text rest : Forall (λ c, plain c = true) text →
  visible (text ++ rest) = text ++ visible rest.
Proof.
  induction text as [|c text IH]; intros Hp; simpl; [done|].
  apply Forall_cons in Hp as [[H0 H1]%plain_tests Hp]. rewrite H0, H1. by rewrite IH.
Qed.

Definition unknown_command (cmd : Z) : bool :=
  negb ((cmd =? TTY_CMD_COLOR) || (cmd =? TTY_CMD_RESET) || (cmd =? TTY_CMD_CLEAR)).

Lemma unknown_tests cmd : unknown_command cmd = true →
  (cmd =? TTY_CMD_COLOR) = false ∧ (cmd =? TTY_CMD_RESET) = false ∧
  (cmd =? TTY_CMD_CLEAR) = false.
Proof.
  unfold unknown_command. intros H%negb_true_iff. by repeat apply orb_false_iff in H as [H ?].
Qed.

(** A line of at most [n] characters at the front of the queue. *)
Fixpoint take_line (n : nat) (l : list Z) : list Z :=
  match n, l with
  | S n', c :: l' => if is_newline c then [c] else c :: take_line n' l'
  | _, _ => []
  end.

Lemma read_byte_abs s : input_wf s →
  input_wf (tty_read_byte s).2 ∧ (tty_read_byte s).1 = default 0 (head (q_tty (abs s))) ∧
  abs (tty_read_byte s).2 = Queues (q_events (abs s)) (tail (q_tty (abs s))).
Proof.
  intros Hwf. pose proof (run_input_refines OpReadTty s Hwf) as H. simpl in H.
  unfold tty_read_byte. destruct (input_read_tty_byte s) as [c s']. simpl in H.
  destruct H as (H1 & H2 & H3). by injection H1 as ->.
Qed.

Lemma tty_read_loop_line fuel wait len got s :
  input_wf s → Forall (λ c, c ≠ 0) (q_tty (abs s)) →
  (got ≠ [] ∨ q_tty (abs s) ≠ []) → (length got ≤ len)%nat → (len - length got < fuel)%nat →
  ∃ s', tty_read_loop fuel wait len got s =
          Some (got ++ take_line (len - length got) (q_tty (abs s)), s') ∧ input_wf s' ∧
    abs s' = Queues (q_events (abs s))
               (drop (length (take_line (len - length got) (q_tty (abs s)))) (q_tty (abs s))).
Proof.
  revert got s. induction fuel as [|fuel IH]; intros got s Hwf Hnz Hne Hlen Hfuel; [lia|].
  cbn [tty_read_loop]. destruct (Nat.ltb_spec (length got) len) as [Hl|Hl]; cycle 1.
  { replace (len - length got)%nat with 0%nat by lia. exists s. simpl.
    rewrite app_nil_r. done. }
  destruct (read_byte_abs s Hwf) as (Hw1 & Hc & Ha). destruct (tty_read_byte s) as [c s1].
  cbn [fst snd] in *. destruct (q_tty (abs s)) as [|x q] eqn:Hq.
  - simpl in Hc, Ha. subst c. destruct Hne as [Hne|Hne]; [|done].
    destruct got as [|g got]; [done|]. cbn [length Nat.eqb Z.eqb]. exists s1.
    destruct (len - _)%nat; simpl; by rewrite app_nil_r.
  - simpl in Hc, Ha. subst c. apply Forall_cons in Hnz as [Hx Hnz].
    rewrite (proj2 (Z.eqb_neq x 0) Hx).
    destruct (len - length got)%nat as [|k] eqn:Hk; [lia|]. cbn [take_line].
    destruct (is_newline x) eqn:Hnl; [by exists s1|].
    destruct (IH (got ++ [x]) s1) as (s' & Hr & Hw' & Ha'); try done.
    + rewrite Ha. done.
    + left. by destruct got.
    + rewrite length_app. simpl. lia.
    + rewrite length_app. simpl. lia.
    + rewrite Hr. exists s'. rewrite Ha in *. cbn [q_events q_tty] in *.
      replace (len - length (got ++ [x]))%nat with k in * by (rewrite length_app; simpl; lia).
      by rewrite <- app_assoc.
Qed.

(** ** Properties *)

(** C26 (functional): when every escape of the first 4096 bytes is a known command,
    [tty_write] returns the clipped count, stays inside its buffer, and the text it
    passes to the screen is the printable text of the stream, in order, whatever the
    chunks it is cut into. *)
Theorem tty_write_shows bytes s :
  bytes ≠ [] → known_escapes (take 4096 bytes) = true →
  ∃ s', tty_write (Some bytes) s =
          Ok (Z.min (Z.of_nat (length bytes)) 4096, tty_serial_write (take 4096 bytes), s') ∧
    shown (screen s') = shown (screen s) ++ visible (take 4096 bytes).
Proof.
  intros Hne Hk. unfold tty_write, tty_console_write.
  rewrite (proj2 (Nat.eqb_neq _ _)) by (by destruct bytes).
  destruct (console_rounds_spec (length (take 4096 bytes)) (take 4096 bytes) s) as (s' & Hr & Hs);
    [done|done|]. rewrite Hr. exists s'. split; [|done]. do 3 f_equal. rewrite length_take. lia.
Qed.

Lemma tty_write_shows_witness :
  ∃ s', tty_write (Some [TTY_ESC; TTY_CMD_COLOR; 4; 72; 105; TTY_ESC; TTY_CMD_RESET; 33])
          (Console DEFAULT_COLOR []) = Ok (8, [72; 105; 33], s') ∧
    shown (screen s') = [72; 105; 33].
Proof.
  exact (tty_write_shows [TTY_ESC; TTY_CMD_COLOR; 4; 72; 105; TTY_ESC; TTY_CMD_RESET; 33]
    (Console DEFAULT_COLOR []) ltac:(discriminate) eq_refl).
Defined.

(** an escape with an unknown command after 126 plain characters fills
    [out] to its last byte, and the terminator is stored one byte past the array. *)
Theorem tty_console_write_overflows text cmd rest s :
  Forall (λ c, plain c = true) text → length text = 126%nat → unknown_command cmd = true →
  tty_console_write (text ++ TTY_ESC :: cmd :: rest) s = UB.
Proof.
  intros Hp Hlen Hu. unfold tty_console_write.
  destruct (unknown_tests cmd Hu) as (U1 & U2 & U3).
  assert (Hfill : ∃ rest', console_fill (text ++ TTY_ESC :: cmd :: rest) [] s =
    (rest', text ++ [TTY_ESC; cmd], s)).
  { rewrite console_fill_plain by (done || (unfold OUT_SIZE; simpl; lia)). cbn [app].
    cbn [console_fill]. rewrite Hlen. cbn [Nat.add Nat.ltb Nat.leb OUT_SIZE negb].
    rewrite U1, U2, U3. cbn [Z.eqb TTY_ESC Pos.eqb].
    destruct rest as [|r rest]; [by exists []|]. exists (r :: rest). cbn [console_fill].
    rewrite length_app, Hlen. done. }
  destruct Hfill as [rest' Hf].
  destruct text as [|c text]; [done|]. cbn [app length] in *. cbn [console_rounds].
  rewrite Hf. cbn [length] in *. rewrite (proj2 (Nat.ltb_lt 0 _)) by lia.
  rewrite (length_app text [TTY_ESC; cmd]).
  match goal with |- context [(?n <? OUT_SIZE)%nat] => destruct (Nat.ltb_spec n OUT_SIZE) end;
    [unfold OUT_SIZE in *; simpl in *; lia|done].
Qed.

Lemma tty_console_write_overflows_witness :
  tty_console_write (replicate 126 65 ++ [TTY_ESC; 0x5B]) (Console DEFAULT_COLOR []) = UB.
Proof.
  apply (tty_console_write_overflows (replicate 126 65) 0x5B []).
  - apply Forall_replicate. reflexivity.
  - reflexivity.
  - reflexivity.
Defined.

(** Colours are applied when a chunk is flushed.  A short text written
    between a colour command and a reset in one call is drawn in the default colour,
    not in the requested one. *)
Theorem tty_color_applied_late text color s :
  Forall (λ c, plain c = true) text → (0 < length text ≤ 126)%nat →
  tty_console_write
    ([TTY_ESC; TTY_CMD_COLOR; color] ++ text ++ [TTY_ESC; TTY_CMD_RESET]) s =
  Ok (Console DEFAULT_COLOR (screen s ++ [VgaWrite text DEFAULT_COLOR])).
Proof.
  intros Hp Hlen. unfold tty_console_write. cbn [app length]. cbn [console_rounds].
  assert (Hf : console_fill (TTY_ESC :: TTY_CMD_COLOR :: color :: text ++ [TTY_ESC; TTY_CMD_RESET]) [] s =
    ([], text, set_color DEFAULT_COLOR (set_color color s))).
  { cbn -[OUT_SIZE app]. rewrite console_fill_plain by (done || (unfold OUT_SIZE; simpl; lia)).
    cbn [app]. cbn [console_fill].
    rewrite (proj2 (Nat.ltb_lt _ OUT_SIZE)) by (unfold OUT_SIZE; lia). done. }
  rewrite Hf. rewrite (proj2 (Nat.ltb_lt 0 _)) by lia.
  by rewrite (proj2 (Nat.ltb_lt _ OUT_SIZE)) by (unfold OUT_SIZE; lia).
Qed.

Lemma tty_color_applied_late_witness :
  tty_console_write [TTY_ESC; TTY_CMD_COLOR; 4; 72; 105; TTY_ESC; TTY_CMD_RESET]
    (Console DEFAULT_COLOR []) = Ok (Console DEFAULT_COLOR [VgaWrite [72; 105] DEFAULT_COLOR]).
Proof.
  apply (tty_color_applied_late [72; 105] 4 (Console DEFAULT_COLOR [])).
  - repeat constructor.
  - simpl. lia.
Defined.

(** After an escape that is not a command the serial port loses the next
    character, which the screen shows. *)
Theorem tty_serial_drops text cmd rest :
  Forall (λ c, plain c = true) text → unknown_command cmd = true →
  tty_serial_write (text ++ TTY_ESC :: cmd :: rest) = text ++ TTY_ESC :: tty_serial_write rest ∧
  visible (text ++ TTY_ESC :: cmd :: rest) = text ++ TTY_ESC :: cmd :: visible rest.
Proof.
  intros Hp Hu. destruct (unknown_tests cmd Hu) as (U1 & U2 & U3).
  rewrite serial_plain, visible_plain by done. cbn [tty_serial_write visible].
  rewrite U1, U2, U3. done.
Qed.

Lemma tty_serial_drops_witness :
  tty_serial_write [TTY_ESC; 0x5B; 72] = [TTY_ESC; 72] ∧
  visible [TTY_ESC; 0x5B; 72] = [TTY_ESC; 0x5B; 72].
Proof. exact (tty_serial_drops [] 0x5B [72] (Forall_nil_2 _) eq_refl). Defined.

(** with characters pending, [tty_read] returns without waiting: the
    characters up to and including the first newline, at most [len] of them, and they
    leave the queue.  With none pending it waits. *)
Theorem tty_read_line fuel wait len s :
  input_wf s → Forall (λ c, c ≠ 0) (q_tty (abs s)) → (0 < len < fuel)%nat →
  (q_tty (abs s) ≠ [] →
     let line := take_line len (q_tty (abs s)) in
     ∃ s', tty_read fuel wait PtrValid len s = Some (line, s') ∧ input_wf s' ∧
       abs s' = Queues (q_events (abs s)) (drop (length line) (q_tty (abs s)))) ∧
  (q_tty (abs s) = [] →
     ∃ s1, abs s1 = abs s ∧
       tty_read (S fuel) wait PtrValid len s = tty_read fuel wait PtrValid len (wait s1)).
Proof.
  intros Hwf Hnz Hlen. unfold tty_read. cbn [is_null orb].
  rewrite (proj2 (Nat.eqb_neq len 0)) by lia. split.
  - intros Hne. destruct (tty_read_loop_line fuel wait len [] s) as (s' & Hr & Hw & Ha);
      [done|done|by right|simpl; lia|simpl; lia|].
    cbn [length app] in Hr, Ha. rewrite Nat.sub_0_r in Hr, Ha. by exists s'.
  - intros Hq. destruct (read_byte_abs s Hwf) as (_ & Hc & Ha). cbn [tty_read_loop].
    rewrite (proj2 (Nat.ltb_lt (length []) len)) by (simpl; lia).
    destruct (tty_read_byte s) as [c s1]. cbn [fst snd] in *. rewrite Hq in Hc, Ha. subst c.
    exists s1. split; [|done]. rewrite Ha.
    transitivity (Queues (q_events (abs s)) (q_tty (abs s))); [by rewrite Hq|done].
Qed.

Lemma tty_read_line_witness :
  let s := tty_keyboard_input 10 (tty_keyboard_input 65 input_boot) in
  ∃ s', tty_read 9 (λ s, s) PtrValid 8 s = Some ([65; 10], s').
Proof.
  intros s.
  assert (Hwf : input_wf s).
  { do 2 apply (push_key_refines 1). exact input_boot_wf. }
  assert (Hq : q_tty (abs s) = [65; 10]) by (vm_compute; reflexivity).
  assert (Hnz : Forall (λ c, c ≠ 0) (q_tty (abs s))) by (rewrite Hq; repeat constructor; lia).
  destruct (proj1 (tty_read_line 9 (λ s, s) 8 s Hwf Hnz ltac:(lia))) as (s' & Hr & _).
  - rewrite Hq. discriminate.
  - exists s'. rewrite Hr, Hq. reflexivity.
Defined.
