(* ===== verification/Fd.v ===== *)
(** * File descriptors ([kernel/syscall.c], [syscall/ipc.c], [syscall/network.c])

    The objects that descriptors refer to (open files, pipes, event counters and
    sockets), their reference counts, and the operations that create, copy, pass and
    close descriptors.  A pointer to an object is its index. *)

From S2P Require Import Prelude CString VfsNode ProcessData Lifecycle.

Definition MAX_FILE_HANDLES : nat := 16.
Definition MAX_PIPE_OBJECTS : nat := 8.
Definition MAX_EVENTFD_OBJECTS : nat := 32.
Definition MAX_SOCKET_OBJECTS : nat := 32.
Definition SOCKET_ANCILLARY_FD_MAX : Z := 4.
Definition PIPE_SIZE : Z := 16384.
Definition LINUX_EBADF : Z := 9.
Definition LINUX_EMFILE : Z := 24.
Definition LINUX_EPIPE : Z := 32.
Definition LINUX_EFD_SEMAPHORE : Z := 1.
Definition LINUX_EFD_NONBLOCK : Z := 0x800.
Definition LINUX_EFD_CLOEXEC : Z := 0x80000.
Definition LINUX_AF_UNIX : Z := 1.
Definition LINUX_AF_INET : Z := 2.
Definition LINUX_AF_INET6 : Z := 10.
Definition LINUX_SOCK_STREAM : Z := 1.
Definition LINUX_SOCK_DGRAM : Z := 2.
Definition LINUX_SOCK_SEQPACKET : Z := 5.
Definition LINUX_SOCK_TYPE_MASK : Z := 0xF.
Definition LINUX_SOCK_NONBLOCK : Z := 0x800.
Definition LINUX_SOCK_CLOEXEC : Z := 0x80000.
Definition LINUX_IPPROTO_TCP : Z := 6.
Definition SOCKET_TCP_PORT_FIRST : Z := 40002.
Definition SOCKET_TCP_PORT_LAST : Z := 60000.

#[export] Instance fd_kind_eq_dec : EqDecision fd_kind.
Proof. solve_decision. Defined.

Definition is_kind (k : fd_kind) (e : fd_entry) : bool := bool_decide (kind e = k).

(** ** Objects ([syscall/syscall_internal.h]) *)

Record file_handle := FileHandle {
  fh_in_use : bool; fh_flock_mode : Z; fh_refcount : Z; fh_offset : Z; fh_open_flags : Z;
  fh_node : vfs_node
}.

Record pipe_object := Pipe {
  pi_in_use : bool; read_refs : Z; write_refs : Z; read_pos : Z; write_pos : Z; pi_size : Z;
  pi_buffer : arr
}.

Record eventfd_object := Eventfd {
  ev_in_use : bool; ev_semaphore : bool; ev_nonblocking : bool; ev_refcount : Z; ev_counter : Z
}.

Inductive socket_state := SOCK_FREE | SOCK_CREATED | SOCK_CONNECTED | SOCK_CLOSED | SOCK_LISTENING.

(** The members that creating, passing and closing sockets use; the connection's own
    (addresses, windows, buffers) belong to the network state. *)
Record socket_object := Socket {
  so_in_use : bool; so_state : socket_state; so_family : Z; so_type : Z; so_protocol : Z;
  so_local_port : Z; so_refcount : Z; so_peer_index : Z;
  rx_ancillary_fd_count : Z; rx_ancillary_fds : list fd_entry
}.

Definition zero_node : vfs_node := VfsNode NODE_NONE BACKEND_NONE 0 0 0 0 0 [] U_none.
Definition zero_handle : file_handle := FileHandle false 0 0 0 0 zero_node.
Definition zero_pipe : pipe_object := Pipe false 0 0 0 0 0 (arr_fill 0).
Definition zero_eventfd : eventfd_object := Eventfd false false false 0 0.
Definition zero_socket : socket_object :=
  Socket false SOCK_FREE 0 0 0 0 0 0 0 (replicate 4 (FdEntry FD_FREE 0)).

(** What the descriptors use of the network code: clearing the other members of a socket,
    setting them up for a new one, and the TCP close handshake. *)
Class Network (X : Type) := {
  net_clear : nat → X → X;
  net_setup : nat → Z → X → X;
  socket_send_fin_close : nat → socket_object → X → socket_object * X
}.

Record objects (X : Type) := Objects {
  g_file_handles : list file_handle;
  g_pipe_objects : list pipe_object;
  g_eventfd_objects : list eventfd_object;
  g_socket_objects : list socket_object;
  g_socket_next_port : Z;
  net : X
}.
Arguments Objects {X} _ _ _ _ _ _.
Arguments g_file_handles {X} _.
Arguments g_pipe_objects {X} _.
Arguments g_eventfd_objects {X} _.
Arguments g_socket_objects {X} _.
Arguments g_socket_next_port {X} _.
Arguments net {X} _.

Definition fh_set_refcount (n : Z) (h : file_handle) : file_handle :=
  FileHandle (fh_in_use h) (fh_flock_mode h) n (fh_offset h) (fh_open_flags h) (fh_node h).
Definition pi_set_refs (r w : Z) (p : pipe_object) : pipe_object :=
  Pipe (pi_in_use p) r w (read_pos p) (write_pos p) (pi_size p) (pi_buffer p).
Definition ev_set_refcount (n : Z) (e : eventfd_object) : eventfd_object :=
  Eventfd (ev_in_use e) (ev_semaphore e) (ev_nonblocking e) n (ev_counter e).
Definition so_set_refcount (n : Z) (s : socket_object) : socket_object :=
  Socket (so_in_use s) (so_state s) (so_family s) (so_type s) (so_protocol s) (so_local_port s) n
    (so_peer_index s) (rx_ancillary_fd_count s) (rx_ancillary_fds s).
Definition so_set_state (st : socket_state) (s : socket_object) : socket_object :=
  Socket (so_in_use s) st (so_family s) (so_type s) (so_protocol s) (so_local_port s) (so_refcount s)
    (so_peer_index s) (rx_ancillary_fd_count s) (rx_ancillary_fds s).
Definition so_set_fds (n : Z) (l : list fd_entry) (s : socket_object) : socket_object :=
  Socket (so_in_use s) (so_state s) (so_family s) (so_type s) (so_protocol s) (so_local_port s)
    (so_refcount s) (so_peer_index s) n l.

(** [get_*_by_index]: the index as a natural number when it is in range and the object is
    in use. *)
Definition by_index {O} (in_use : O → bool) (l : list O) (i : Z) : option nat :=
  if (i <? 0) || (Z.of_nat (length l) <=? i) then None
  else match l !! Z.to_nat i with
       | Some o => if in_use o then Some (Z.to_nat i) else None
       | None => None
       end.

Section fd.
  Context {X : Type} `{!Network X}.
  Implicit Types o : objects X.

Definition upd_file (i : nat) (f : file_handle → file_handle) o : objects X :=
  Objects (alter f i (g_file_handles o)) (g_pipe_objects o) (g_eventfd_objects o) (g_socket_objects o)
    (g_socket_next_port o) (net o).
Definition upd_pipe (i : nat) (f : pipe_object → pipe_object) o : objects X :=
  Objects (g_file_handles o) (alter f i (g_pipe_objects o)) (g_eventfd_objects o) (g_socket_objects o)
    (g_socket_next_port o) (net o).
Definition upd_eventfd (i : nat) (f : eventfd_object → eventfd_object) o : objects X :=
  Objects (g_file_handles o) (g_pipe_objects o) (alter f i (g_eventfd_objects o)) (g_socket_objects o)
    (g_socket_next_port o) (net o).
Definition upd_socket (i : nat) (f : socket_object → socket_object) o : objects X :=
  Objects (g_file_handles o) (g_pipe_objects o) (g_eventfd_objects o) (alter f i (g_socket_objects o))
    (g_socket_next_port o) (net o).
Definition set_net (x : X) o : objects X :=
  Objects (g_file_handles o) (g_pipe_objects o) (g_eventfd_objects o) (g_socket_objects o)
    (g_socket_next_port o) x.

Definition get_file_handle_by_index (i : Z) o : option nat := by_index fh_in_use (g_file_handles o) i.
Definition get_pipe_object_by_index (i : Z) o : option nat := by_index pi_in_use (g_pipe_objects o) i.
Definition get_eventfd_object_by_index (i : Z) o : option nat := by_index ev_in_use (g_eventfd_objects o) i.
Definition get_socket_by_index (i : Z) o : option nat := by_index so_in_use (g_socket_objects o) i.

Definition file_ (i : nat) o : file_handle := default zero_handle (g_file_handles o !! i).
Definition pipe (i : nat) o : pipe_object := default zero_pipe (g_pipe_objects o !! i).
Definition eventfd (i : nat) o : eventfd_object := default zero_eventfd (g_eventfd_objects o !! i).
Definition socket (i : nat) o : socket_object := default zero_socket (g_socket_objects o !! i).

(** ** Reference counts *)

(** [if (refcount > 0) refcount--;] *)
Definition dec (n : Z) : Z := if 0 <? n then n - 1 else n.

Definition release_file_handle (handle_index : Z) o : objects X :=
  match get_file_handle_by_index handle_index o with
  | None => o
  | Some i => upd_file i (λ h, let n := dec (fh_refcount h) in
                if n =? 0 then zero_handle else fh_set_refcount n h) o
  end.

Definition release_pipe_ref (pipe_index : Z) (k : fd_kind) o : objects X :=
  match get_pipe_object_by_index pipe_index o with
  | None => o
  | Some i =>
      upd_pipe i (λ p,
        let r := if bool_decide (k = FD_PIPE_READER) then dec (read_refs p) else read_refs p in
        let w := if bool_decide (k = FD_PIPE_WRITER) then dec (write_refs p) else write_refs p in
        if (r =? 0) && (w =? 0) then zero_pipe else pi_set_refs r w p) o
  end.

Definition release_eventfd_ref (eventfd_index : Z) o : objects X :=
  match get_eventfd_object_by_index eventfd_index o with
  | None => o
  | Some i => upd_eventfd i (λ e, let n := dec (ev_refcount e) in
                if n =? 0 then zero_eventfd else ev_set_refcount n e) o
  end.

Definition retain_fd_entry_refs (e : fd_entry) o : objects X :=
  match kind e with
  | FD_VNODE =>
      match get_file_handle_by_index (handle_index e) o with
      | Some i => upd_file i (λ h, fh_set_refcount (u32 (fh_refcount h + 1)) h) o
      | None => o
      end
  | FD_PIPE_READER =>
      match get_pipe_object_by_index (handle_index e) o with
      | Some i => upd_pipe i (λ p, pi_set_refs (u32 (read_refs p + 1)) (write_refs p) p) o
      | None => o
      end
  | FD_PIPE_WRITER =>
      match get_pipe_object_by_index (handle_index e) o with
      | Some i => upd_pipe i (λ p, pi_set_refs (read_refs p) (u32 (write_refs p + 1)) p) o
      | None => o
      end
  | FD_SOCKET =>
      match get_socket_by_index (handle_index e) o with
      | Some i => upd_socket i (λ s, so_set_refcount (u32 (so_refcount s + 1)) s) o
      | None => o
      end
  | FD_EVENTFD =>
      match get_eventfd_object_by_index (handle_index e) o with
      | Some i => upd_eventfd i (λ v, ev_set_refcount (u32 (ev_refcount v + 1)) v) o
      | None => o
      end
  | _ => o
  end.

(** Releasing a socket releases the descriptors queued in it, which may be sockets: the
    functions [release_socket_ref], [close_socket_ref] and [release_fd_entry_refs] call
    each other.  [rel] is the call of [release_fd_entry_refs] for a queued entry; [None]
    is lack of fuel. *)
Definition release_socket_ref (rel : fd_entry → objects X → option (objects X)) (socket_index : Z) o
    : option (objects X) :=
  match get_socket_by_index socket_index o with
  | None => Some o
  | Some i =>
      let s := socket i o in
      let n := dec (so_refcount s) in
      if n =? 0 then
        let count := Z.min (rx_ancillary_fd_count s) SOCKET_ANCILLARY_FD_MAX in
        let pending := take (Z.to_nat count) (rx_ancillary_fds s) in
        let o := set_net (net_clear i (net o)) (upd_socket i (λ _, zero_socket) o) in
        foldl (λ acc e, acc ≫= rel e) (Some o) pending
      else Some (upd_socket i (so_set_refcount n) o)
  end.

(** The last reference to socket [i] goes: its connection is closed. *)
Definition mark_closed (i : nat) o : objects X :=
  let s := socket i o in
  if so_refcount s <=? 1 then
    if so_family s =? LINUX_AF_UNIX then
      let o := match get_socket_by_index (so_peer_index s) o with
               | Some p => upd_socket p (so_set_state SOCK_CLOSED) o
               | None => o
               end in
      upd_socket i (so_set_state SOCK_CLOSED) o
    else match so_state s with
         | SOCK_CONNECTED =>
             let (s, x) := socket_send_fin_close i s (net o) in
             set_net x (upd_socket i (λ _, s) o)
         | _ => upd_socket i (so_set_state SOCK_CLOSED) o
         end
  else o.

Definition close_socket_with (rel : fd_entry → objects X → option (objects X)) (socket_index : Z) o
    : option (objects X) :=
  match get_socket_by_index socket_index o with
  | None => Some o
  | Some i => release_socket_ref rel socket_index (mark_closed i o)
  end.

Fixpoint release_refs (fuel : nat) (e : fd_entry) o : option (objects X) :=
  match fuel with
  | O => None
  | S fuel' =>
      match kind e with
      | FD_VNODE => Some (release_file_handle (handle_index e) o)
      | FD_PIPE_READER | FD_PIPE_WRITER => Some (release_pipe_ref (handle_index e) (kind e) o)
      | FD_SOCKET => close_socket_with (release_refs fuel') (handle_index e) o
      | FD_EVENTFD => Some (release_eventfd_ref (handle_index e) o)
      | _ => Some o
      end
  end.

(** Each nested call ends a socket, so one level per socket and one more are enough
    ([release_refs_total] in [FdInv]). *)
Definition release_fuel o : nat := S (length (g_socket_objects o)).

Definition close_socket_ref (socket_index : Z) o : objects X :=
  default o (close_socket_with (release_refs (release_fuel o)) socket_index o).

(** The effect of [release_fd_entry_refs] on the objects; the entry becomes free. *)
Definition release_fd_entry_refs (e : fd_entry) o : objects X :=
  default o (release_refs (S (release_fuel o)) e o).

(** ** Descriptor tables

    The current table ([None] without a current process) and the objects. *)

Record fdst := Fdst { ft : option (list fd_entry); fo : objects X }.

Definition FREE_ENTRY : fd_entry := FdEntry FD_FREE (-1).

Definition set_entry (fd : nat) (e : fd_entry) (st : fdst) : fdst :=
  Fdst ((λ t, <[fd := e]> t) <$> ft st) (fo st).
Definition on_objects (f : objects X → objects X) (st : fdst) : fdst := Fdst (ft st) (f (fo st)).

(** The first free descriptor from [start_fd] on; [None] is -1. *)
Definition allocate_fd_slot (start_fd : Z) (st : fdst) : option nat :=
  match ft st with
  | None => None
  | Some t =>
      Z.to_nat <$> scan (Z.to_nat (Z.of_nat PROCESS_FD_MAX - start_fd)) start_fd
        (λ fd, match t !! Z.to_nat fd with Some e => is_kind FD_FREE e | None => false end)
  end.

(** The index of an open descriptor. *)
Definition get_fd_entry (fd : Z) (st : fdst) : option fd_entry :=
  match ft st with
  | None => None
  | Some t =>
      if Z.of_nat PROCESS_FD_MAX <=? fd then None else
      match t !! Z.to_nat fd with
      | Some e => if is_kind FD_FREE e then None else Some e
      | None => None
      end
  end.

Definition close_fd_internal (fd : Z) (st : fdst) : fdst :=
  match get_fd_entry fd st with
  | None => st
  | Some e => set_entry (Z.to_nat fd) FREE_ENTRY (on_objects (release_fd_entry_refs e) st)
  end.

Definition sys_close (r : syscall_regs) (st : fdst) : Z * fdst :=
  match get_fd_entry (rdi r) st with
  | None => (- LINUX_EBADF, st)
  | Some _ => (0, close_fd_internal (rdi r) st)
  end.

Definition install_vnode_fd (node : vfs_node) (open_flags : Z) (st : fdst) : Z * fdst :=
  match find_idx (λ h, negb (fh_in_use h)) (g_file_handles (fo st)) with
  | None => (- LINUX_EMFILE, st)
  | Some h =>
      match allocate_fd_slot 3 st with
      | None => (- LINUX_EMFILE, st)
      | Some fd =>
          let st := on_objects (upd_file h (λ _, FileHandle true 0 1 0 open_flags node)) st in
          (Z.of_nat fd, set_entry fd (FdEntry FD_VNODE (Z.of_nat h)) st)
      end
  end.

(** [k] is one of the device kinds. *)
Definition install_device_fd (k : fd_kind) (device_id : Z) (st : fdst) : Z * fdst :=
  match allocate_fd_slot 3 st with
  | None => (- LINUX_EMFILE, st)
  | Some fd => (Z.of_nat fd, set_entry fd (FdEntry k device_id) st)
  end.

Definition allocate_socket_port o : Z * objects X :=
  let port := g_socket_next_port o in
  let next := u16 (port + 1) in
  let next := if (next <? SOCKET_TCP_PORT_FIRST) || (SOCKET_TCP_PORT_LAST <? next)
              then SOCKET_TCP_PORT_FIRST else next in
  (port, Objects (g_file_handles o) (g_pipe_objects o) (g_eventfd_objects o) (g_socket_objects o) next
           (net o)).

Definition sock_flags_bad (type : Z) : bool :=
  flag type (Z.lnot (LINUX_SOCK_TYPE_MASK .| LINUX_SOCK_NONBLOCK .| LINUX_SOCK_CLOEXEC)).

Definition unix_type_bad (base_type : Z) : bool :=
  negb (base_type =? LINUX_SOCK_STREAM) && negb (base_type =? LINUX_SOCK_DGRAM)
  && negb (base_type =? LINUX_SOCK_SEQPACKET).

Definition install_socket_fd (family type protocol : Z) (st : fdst) : Z * fdst :=
  let base_type := type .& LINUX_SOCK_TYPE_MASK in
  let unix := family =? LINUX_AF_UNIX in
  if (negb unix && negb (family =? LINUX_AF_INET) && negb (family =? LINUX_AF_INET6))
     || (if unix then unix_type_bad base_type else negb (base_type =? LINUX_SOCK_STREAM))
     || sock_flags_bad type
  then (- LINUX_EINVAL, st)
  else if (unix && negb (protocol =? 0))
          || (negb unix && negb (protocol =? 0) && negb (protocol =? LINUX_IPPROTO_TCP))
  then (- LINUX_EINVAL, st)
  else
    match find_idx (λ s, negb (so_in_use s)) (g_socket_objects (fo st)) with
    | None => (- LINUX_EMFILE, st)
    | Some i =>
        match allocate_fd_slot 3 st with
        | None => (- LINUX_EMFILE, st)
        | Some fd =>
            let (port, o) := allocate_socket_port (fo st) in
            let o := upd_socket i (λ _, Socket true SOCK_CREATED family base_type
                       (if unix then 0 else LINUX_IPPROTO_TCP) port 1 (-1) 0
                       (replicate 4 (FdEntry FD_FREE 0))) o in
            let o := set_net (net_setup i family (net_clear i (net o))) o in
            (Z.of_nat fd, set_entry fd (FdEntry FD_SOCKET (Z.of_nat i)) (Fdst (ft st) o))
        end
    end.

(** The first two free sockets. *)
Definition two_free_sockets (l : list socket_object) : option (nat * nat) :=
  match find_idx (λ s, negb (so_in_use s)) l with
  | None => None
  | Some i =>
      match find_idx (λ s, negb (so_in_use s)) (drop (S i) l) with
      | None => None
      | Some j => Some (i, (S i + j)%nat)
      end
  end.

(** [(int)x] *)
Definition s32 (x : Z) : Z := let y := u32 x in if y <? 2 ^ 31 then y else y - 2 ^ 32.

(** The result, the two descriptors stored in the caller's array, and the state. *)
Definition sys_socketpair (r : syscall_regs) (st : fdst) : Z * option (nat * nat) * fdst :=
  let type := s32 (rsi r) in
  let base_type := type .& LINUX_SOCK_TYPE_MASK in
  match ft st with
  | None => (- LINUX_EFAULT, None, st)
  | Some _ =>
      if r10 r =? 0 then (- LINUX_EFAULT, None, st)
      else if negb (s32 (rdi r) =? LINUX_AF_UNIX) || negb (s32 (rdx r) =? 0) || sock_flags_bad type
              || unix_type_bad base_type
      then (- LINUX_EINVAL, None, st)
      else
        match two_free_sockets (g_socket_objects (fo st)) with
        | None => (- LINUX_EMFILE, None, st)
        | Some (i, j) =>
            match allocate_fd_slot 3 st with
            | None => (- LINUX_EMFILE, None, st)
            | Some fd1 =>
                match allocate_fd_slot (Z.of_nat fd1 + 1) st with
                | None => (- LINUX_EMFILE, None, st)
                | Some fd2 =>
                    let pair peer := Socket true SOCK_CONNECTED LINUX_AF_UNIX base_type 0 0 1
                                       (Z.of_nat peer) 0 (replicate 4 (FdEntry FD_FREE 0)) in
                    let o := set_net (net_clear j (net_clear i (net (fo st)))) (fo st) in
                    let o := upd_socket j (λ _, pair i) (upd_socket i (λ _, pair j) o) in
                    let st := set_entry fd1 (FdEntry FD_SOCKET (Z.of_nat i)) (Fdst (ft st) o) in
                    (0, Some (fd1, fd2), set_entry fd2 (FdEntry FD_SOCKET (Z.of_nat j)) st)
                end
            end
        end
  end.

(** The end of [dup_fd_common]: [table[target] = *old_entry] and its reference. *)
Definition copy_entry (old_entry : fd_entry) (target : nat) (st : fdst) : Z * fdst :=
  let st := set_entry target old_entry st in
  let st := on_objects (retain_fd_entry_refs old_entry) st in
  if is_kind FD_VNODE old_entry then
    match get_file_handle_by_index (handle_index old_entry) (fo st) with
    | None => (- LINUX_EBADF, set_entry target FREE_ENTRY st)
    | Some _ => (Z.of_nat target, st)
    end
  else (Z.of_nat target, st).

Definition dup_fd_common (oldfd requested_newfd : Z) (overwrite : bool) (st : fdst) : Z * fdst :=
  match get_fd_entry oldfd st with
  | None => (- LINUX_EBADF, st)
  | Some old_entry =>
      if 0 <=? requested_newfd then
        if Z.of_nat PROCESS_FD_MAX <=? requested_newfd then (- LINUX_EBADF, st)
        else if requested_newfd =? oldfd then (requested_newfd, st)
        else if overwrite
        then copy_entry old_entry (Z.to_nat requested_newfd) (close_fd_internal requested_newfd st)
        else if match get_fd_entry requested_newfd st with Some _ => true | None => false end
        then (- LINUX_EMFILE, st)
        else copy_entry old_entry (Z.to_nat requested_newfd) st
      else match allocate_fd_slot 0 st with
           | None => (- LINUX_EMFILE, st)
           | Some target => copy_entry old_entry target st
           end
  end.

Definition sys_dup (r : syscall_regs) (st : fdst) : Z * fdst := dup_fd_common (rdi r) (-1) false st.
Definition sys_dup2 (r : syscall_regs) (st : fdst) : Z * fdst :=
  dup_fd_common (rdi r) (s64 (rsi r)) true st.

Definition sys_eventfd2 (r : syscall_regs) (st : fdst) : Z * fdst :=
  let initial_value := u32 (rdi r) in
  let flags := u32 (rsi r) in
  if flag flags (Z.lnot (LINUX_EFD_SEMAPHORE .| LINUX_EFD_NONBLOCK .| LINUX_EFD_CLOEXEC))
  then (- LINUX_EINVAL, st)
  else match ft st with
  | None => (- LINUX_EMFILE, st)
  | Some _ =>
      match find_idx (λ e, negb (ev_in_use e)) (g_eventfd_objects (fo st)) with
      | None => (- LINUX_EMFILE, st)
      | Some i =>
          match allocate_fd_slot 3 st with
          | None => (- LINUX_EMFILE, st)
          | Some fd =>
              let st := on_objects (upd_eventfd i (λ _,
                          Eventfd true (flag flags LINUX_EFD_SEMAPHORE)
                            (flag flags LINUX_EFD_NONBLOCK) 1 initial_value)) st in
              (Z.of_nat fd, set_entry fd (FdEntry FD_EVENTFD (Z.of_nat i)) st)
          end
      end
  end.

(** The result, the descriptors stored in the caller's array, and the state. *)
Definition sys_pipe (r : syscall_regs) (st : fdst) : Z * option (nat * nat) * fdst :=
  match ft st with
  | None => (- LINUX_EFAULT, None, st)
  | Some _ =>
      if rdi r =? 0 then (- LINUX_EFAULT, None, st) else
      match find_idx (λ p, negb (pi_in_use p)) (g_pipe_objects (fo st)) with
      | None => (- LINUX_EMFILE, None, st)
      | Some i =>
          match allocate_fd_slot 3 st with
          | None => (- LINUX_EMFILE, None, st)
          | Some read_fd =>
              match allocate_fd_slot (Z.of_nat read_fd + 1) st with
              | None => (- LINUX_EMFILE, None, st)
              | Some write_fd =>
                  let st := on_objects (upd_pipe i (λ _, Pipe true 1 1 0 0 0 (arr_fill 0))) st in
                  let st := set_entry read_fd (FdEntry FD_PIPE_READER (Z.of_nat i)) st in
                  (0, Some (read_fd, write_fd), set_entry write_fd (FdEntry FD_PIPE_WRITER (Z.of_nat i)) st)
              end
          end
      end
  end.

Definition sys_pipe2 (r : syscall_regs) (st : fdst) : Z * option (nat * nat) * fdst :=
  if flag (rsi r) (0xFFFFFFFFFFFFFFFF .^ (LINUX_SOCK_NONBLOCK .| LINUX_SOCK_CLOEXEC))
  then (- LINUX_EINVAL, None, st)
  else sys_pipe r st.

(** ** Passing descriptors over a UNIX socket *)

(** The entries of the descriptors in an [SCM_RIGHTS] message ([socket_parse_rights]);
    [None] is [-EBADF]. *)
Fixpoint collect_rights (fds : list Z) (st : fdst) : option (list fd_entry) :=
  match fds with
  | [] => Some []
  | fd :: fds' =>
      if fd <? 0 then None else
      match get_fd_entry fd st with
      | None => None
      | Some e => (λ l, e :: l) <$> collect_rights fds' st
      end
  end.

(** The end of [sys_sendmsg]: the entries are queued in the peer of socket [i] and
    retained.  [rights] has at most four entries. *)
Definition attach_rights (i : nat) (rights : list fd_entry) o : Z * objects X :=
  match rights with
  | [] => (0, o)
  | _ =>
      match get_socket_by_index (so_peer_index (socket i o)) o with
      | None => (- LINUX_EPIPE, o)
      | Some peer =>
          let o := foldl (λ o '(k, e), retain_fd_entry_refs e
                     (upd_socket peer (λ s, so_set_fds (rx_ancillary_fd_count s)
                                              (<[k := e]> (rx_ancillary_fds s)) s) o))
                     o (imap pair rights) in
          (0, upd_socket peer (λ s, so_set_fds (Z.of_nat (length rights)) (rx_ancillary_fds s) s) o)
      end
  end.

(** The free descriptors of a table, in order. *)
Definition free_fds (t : list fd_entry) : list nat :=
  List.filter (λ fd, match t !! fd with Some e => is_kind FD_FREE e | None => false end)
    (seq 0 PROCESS_FD_MAX).

(** [sock->rx_ancillary_fds[k]] becomes free. *)
Definition clear_queued (i k : nat) o : objects X :=
  upd_socket i (λ s, so_set_fds (rx_ancillary_fd_count s) (<[k := FREE_ENTRY]> (rx_ancillary_fds s)) s) o.

Definition queued (i k : nat) o : fd_entry :=
  default (FdEntry FD_FREE 0) (rx_ancillary_fds (socket i o) !! k).

(** The end of [sys_recvmsg] for socket [i]: the queued entries move to the first free
    descriptors, or are dropped when there is no room for them or for the control
    message ([control_fits]).  The result is the descriptors installed. *)
Definition deliver_rights (i : nat) (control_fits : bool) (st : fdst) : option (list nat) * fdst :=
  let count := Z.to_nat (rx_ancillary_fd_count (socket i (fo st))) in
  if (count =? 0)%nat then (None, st) else
  let installed := take count (match ft st with Some t => free_fds t | None => [] end) in
  let finish st := on_objects (upd_socket i (λ s, so_set_fds 0 (rx_ancillary_fds s) s)) st in
  if negb control_fits || negb (length installed =? count)%nat
  then (None, finish (on_objects (λ o,
          foldl (λ o k, clear_queued i k (release_fd_entry_refs (queued i k o) o)) o (seq 0 count)) st))
  else (Some installed,
        finish (foldl (λ st '(k, fd),
                  on_objects (clear_queued i k) (set_entry fd (queued i k (fo st)) st))
                  st (imap pair installed))).

(** [get_socket_for_fd] *)
Definition get_socket_for_fd (fd : Z) (st : fdst) : option nat :=
  match get_fd_entry fd st with
  | Some e => if is_kind FD_SOCKET e then get_socket_by_index (handle_index e) (fo st) else None
  | None => None
  end.

(** [sys_sendmsg] with an [SCM_RIGHTS] message of the descriptors [fds].  [bad] is the error
    that the checks of the message header find, if any.  [send] is the loop over the data:
    it changes the network state and can change the state of the connection, and either
    returns from the call ([inl]) or ends with the number of bytes sent ([inr]). *)
Definition sys_sendmsg (fd : Z) (bad : option Z) (fds : list Z)
    (send : socket_state → X → (Z + Z) * socket_state * X) (st : fdst)
    : Z * fdst :=
  match get_socket_for_fd fd st, bad with
  | None, _ => (- LINUX_EBADF, st)
  | Some _, Some e => (e, st)
  | Some i, None =>
      if SOCKET_ANCILLARY_FD_MAX <? Z.of_nat (length fds) then (- LINUX_EINVAL, st) else
      match collect_rights fds st with
      | None => (- LINUX_EBADF, st)
      | Some rights =>
          let some := match rights with [] => false | _ => true end in
          let s := socket i (fo st) in
          if some && negb (so_family s =? LINUX_AF_UNIX) then (- LINUX_EINVAL, st)
          else if some && match get_socket_by_index (so_peer_index s) (fo st) with
                          | None => true
                          | Some p => negb (rx_ancillary_fd_count (socket p (fo st)) =? 0)
                          end
          then (- LINUX_EAGAIN, st)
          else
            let '(sent, state, x) := send (so_state s) (net (fo st)) in
            let st := on_objects (λ o, set_net x (upd_socket i (so_set_state state) o)) st in
            match sent with
            | inl result => (result, st)
            | inr sent =>
                let (result, o) := attach_rights i rights (fo st) in
                (if result <? 0 then result else sent, Fdst (ft st) o)
            end
      end
  end.

(** [sys_recvmsg]; [bad] and [recv] are as above.  The result, the descriptors installed,
    and the state. *)
Definition sys_recvmsg (fd : Z) (bad : option Z) (control_fits : bool)
    (recv : socket_state → X → (Z + Z) * socket_state * X) (st : fdst)
    : Z * option (list nat) * fdst :=
  match get_socket_for_fd fd st, bad with
  | None, _ => (- LINUX_EBADF, None, st)
  | Some _, Some e => (e, None, st)
  | Some i, None =>
      let '(received, state, x) := recv (so_state (socket i (fo st))) (net (fo st)) in
      let st := on_objects (λ o, set_net x (upd_socket i (so_set_state state) o)) st in
      match received with
      | inl result => (result, None, st)
      | inr received =>
          let (installed, st) := deliver_rights i control_fits st in
          (received, installed, st)
      end
  end.

End fd.

(** ** Data through pipes and event counters *)

(** The loop of [sys_read] on a pipe; the pipe's size bounds the rounds. *)
Fixpoint pipe_read_loop (fuel : nat) (len : Z) (p : pipe_object) : list Z * pipe_object :=
  match fuel with
  | O => ([], p)
  | S fuel' =>
      if (0 <? len) && (0 <? pi_size p) then
        let b := arr_get (pi_buffer p) (read_pos p) in
        let p := Pipe (pi_in_use p) (read_refs p) (write_refs p) (u32 (read_pos p + 1) mod PIPE_SIZE)
                   (write_pos p) (pi_size p - 1) (pi_buffer p) in
        let (out, p) := pipe_read_loop fuel' (len - 1) p in
        (b :: out, p)
      else ([], p)
  end.

Definition pipe_read (len : Z) (p : pipe_object) : list Z * pipe_object :=
  pipe_read_loop (Z.to_nat (pi_size p)) len p.

(** The loop of [sys_write] on a pipe: how many bytes were taken. *)
Fixpoint pipe_write (bytes : list Z) (p : pipe_object) : Z * pipe_object :=
  match bytes with
  | [] => (0, p)
  | b :: bytes' =>
      if pi_size p <? PIPE_SIZE then
        let p := Pipe (pi_in_use p) (read_refs p) (write_refs p) (read_pos p)
                   (u32 (write_pos p + 1) mod PIPE_SIZE) (pi_size p + 1)
                   (arr_set (pi_buffer p) (write_pos p) b) in
        let (n, p) := pipe_write bytes' p in
        (n + 1, p)
      else (0, p)
  end.

(** [sys_read] and [sys_write] on an event counter that does not block: the value read,
    and the new object; [None] is the case where the caller has to wait. *)
Definition eventfd_read (e : eventfd_object) : option (Z * eventfd_object) :=
  if ev_counter e =? 0 then None else
  let value := if ev_semaphore e then 1 else ev_counter e in
  Some (value, Eventfd (ev_in_use e) (ev_semaphore e) (ev_nonblocking e) (ev_refcount e)
                 (ev_counter e - value)).

Definition UINT64_MAX : Z := 2 ^ 64 - 1.

(** [inr] is an error code. *)
Definition eventfd_write (value : Z) (e : eventfd_object) : option (eventfd_object + Z) :=
  if value =? UINT64_MAX then Some (inr (- LINUX_EINVAL))
  else if UINT64_MAX - 1 - value <? ev_counter e then None
  else Some (inl (Eventfd (ev_in_use e) (ev_semaphore e) (ev_nonblocking e) (ev_refcount e)
                    (u64 (ev_counter e + value)))).
