(* ===== verification/FdInv.v ===== *)
(** * Reference counts of descriptors

    The count kept in every file, pipe, event counter and socket is the number of
    descriptors that refer to it, those queued in sockets included.  [fd_inv] states
    it; here are the effects of retaining, releasing and creating on it. *)

From S2P Require Import Prelude CString VfsNode ProcessData Lifecycle Fd.

(** The kinds whose entries own a reference. *)
Definition counted (k : fd_kind) : bool :=
  match k with
  | FD_VNODE | FD_PIPE_READER | FD_PIPE_WRITER | FD_SOCKET | FD_EVENTFD => true
  | _ => false
  end.

(** The references to object [i] of kind [k] in a list of entries. *)
Definition refs (l : list fd_entry) (k : fd_kind) (i : Z) : Z :=
  countb (λ e, is_kind k e && (handle_index e =? i)) l.

(** The count stored in entry [i] of an array of objects, 0 when there is no object. *)
Definition held {O} (in_use : O → bool) (cnt : O → Z) (l : list O) (i : Z) : Z :=
  match by_index in_use l i with
  | Some n => match l !! n with Some x => cnt x | None => 0 end
  | None => 0
  end.

(** What matters of a socket here. *)
Record core := Core { c_used : bool; c_refs : Z; c_count : Z; c_fds : list fd_entry }.

Definition core_of (s : socket_object) : core :=
  Core (so_in_use s) (so_refcount s) (rx_ancillary_fd_count s) (rx_ancillary_fds s).

(** The entries queued in a socket. *)
Definition queue (c : core) : list fd_entry :=
  if c_used c then take (Z.to_nat (c_count c)) (c_fds c) else [].

Definition core_wf (c : core) : Prop :=
  length (c_fds c) = 4%nat ∧ 0 ≤ c_count c ≤ 4 ∧ (c_used c = true → 0 < c_refs c).

(** The TCP handshake changes neither the references nor the queue of a socket. *)
Class NetworkSpec (X : Type) `{!Network X} := {
  fin_close_core i s x s' x' : socket_send_fin_close i s x = (s', x') → core_of s' = core_of s
}.

(** ** Arrays of objects *)

Section arrays.
  Context {O : Type} (in_use : O → bool) (cnt : O → Z).

Lemma by_index_Some l i n :
  by_index in_use l i = Some n ↔ i = Z.of_nat n ∧ ∃ x, l !! n = Some x ∧ in_use x = true.
Proof.
  unfold by_index. split.
  - destruct (orb _ _) eqn:Hr; [done|]. apply orb_false_iff in Hr as [H1 H2]. bool_to_prop.
    destruct (l !! Z.to_nat i) as [x|] eqn:Hx; [|done]. destruct (in_use x) eqn:Hu; [|done].
    intros [= <-]. split; [lia|]. by exists x.
  - intros (-> & x & Hx & Hu). pose proof (lookup_lt_Some _ _ _ Hx).
    rewrite (proj2 (Z.ltb_ge _ _)), (proj2 (Z.leb_gt _ _)) by lia. simpl. by rewrite Nat2Z.id, Hx, Hu.
Qed.

Lemma held_use l n x : l !! n = Some x → in_use x = true → held in_use cnt l (Z.of_nat n) = cnt x.
Proof.
  intros Hx Hu. unfold held. rewrite (proj2 (by_index_Some l (Z.of_nat n) n)); [by rewrite Hx|].
  split; [done|]. by exists x.
Qed.

Lemma held_free l n x : l !! n = Some x → in_use x = false → held in_use cnt l (Z.of_nat n) = 0.
Proof.
  intros Hx Hu. unfold held. destruct (by_index _ _ _) as [m|] eqn:Hb; [|done].
  apply by_index_Some in Hb as (E & y & Hy & Hyu). apply Nat2Z.inj in E as <-. congruence.
Qed.

(** A positive count comes from an object. *)
Lemma held_pos l i :
  0 < held in_use cnt l i →
  ∃ n x, i = Z.of_nat n ∧ l !! n = Some x ∧ in_use x = true ∧ by_index in_use l i = Some n
         ∧ held in_use cnt l i = cnt x.
Proof.
  intros Hp. unfold held in *. destruct (by_index _ _ _) as [n|] eqn:Hb; [|lia].
  pose proof Hb as (-> & x & Hx & Hu)%by_index_Some. exists n, x. by rewrite Hx.
Qed.

Lemma held_alter f l n x i :
  l !! n = Some x →
  held in_use cnt (alter f n l) i =
    if decide (i = Z.of_nat n) then (if in_use (f x) then cnt (f x) else 0) else held in_use cnt l i.
Proof.
  intros Hx. assert (Hn : alter f n l !! n = Some (f x)) by (by rewrite list_lookup_alter_eq, Hx).
  case_decide as Hi.
  - subst. destruct (in_use (f x)) eqn:Hu; [by apply held_use|by eapply held_free].
  - unfold held, by_index. rewrite length_alter.
    destruct (orb _ _) eqn:Hr; [done|]. apply orb_false_iff in Hr as [H1 H2]. bool_to_prop.
    rewrite !list_lookup_alter_ne by lia. destruct (l !! Z.to_nat i) as [y|] eqn:Hy; [|done].
    destruct (in_use y); [|done]. by rewrite !list_lookup_alter_ne by lia.
Qed.

End arrays.

(** Only what [f] keeps of the objects matters. *)
Lemma held_fmap {O P} (f : O → P) (u : P → bool) (cnt : P → Z) l i :
  held u cnt (f <$> l) i = held (λ x, u (f x)) (λ x, cnt (f x)) l i.
Proof.
  unfold held, by_index. rewrite length_fmap. destruct (orb _ _); [done|]. rewrite list_lookup_fmap.
  destruct (l !! Z.to_nat i) as [x|] eqn:Hx; simpl; [|done]. destruct (u (f x)); [|done].
  by rewrite list_lookup_fmap, Hx.
Qed.

(** ** Counting entries *)

Lemma refs_app l l' k i : refs (l ++ l') k i = refs l k i + refs l' k i.
Proof. apply countb_app. Qed.

Lemma refs_cons e l k i : refs (e :: l) k i = Z.b2z (is_kind k e && (handle_index e =? i)) + refs l k i.
Proof. done. Qed.

Lemma refs_range l k i : 0 ≤ refs l k i ≤ Z.of_nat (length l).
Proof. apply countb_bounds. Qed.

(** An entry of a kind that is not counted. *)
Lemma refs_plain e l k i : counted (kind e) = false → counted k = true → refs (e :: l) k i = refs l k i.
Proof.
  intros He Hk. rewrite refs_cons. unfold is_kind. rewrite bool_decide_false; [done|].
  intros <-. congruence.
Qed.

(** Replacing one entry of a table. *)
Lemma refs_insert t fd e e' k i :
  t !! fd = Some e → refs (e :: <[fd := e']> t) k i = refs (e' :: t) k i.
Proof.
  intros Ht. pose proof (lookup_lt_Some _ _ _ Ht). rewrite insert_take_drop by done.
  rewrite <- (take_drop_middle t fd e Ht) at 3.
  rewrite !refs_cons, !refs_app, !refs_cons. lia.
Qed.

(** Replacing one of the lists that are joined. *)
Lemma refs_concat_insert (view : nat → list fd_entry → list fd_entry) qs n q q' k i :
  qs !! n = Some q →
  refs (concat (imap view (<[n := q']> qs))) k i + refs (view n q) k i
  = refs (concat (imap view qs)) k i + refs (view n q') k i.
Proof.
  intros Hq. pose proof (lookup_lt_Some _ _ _ Hq). rewrite insert_take_drop by done.
  rewrite <- (take_drop_middle qs n q Hq) at 3.
  rewrite !imap_app, !imap_cons, !concat_app. cbn [concat]. rewrite !refs_app.
  rewrite length_take_le, Nat.add_0_r by lia. lia.
Qed.

(** ** The invariant *)

Section inv.
  Context {X : Type} `{!Network X, !NetworkSpec X}.
  Implicit Types (o : objects X) (T : list fd_entry).

  (** How the queue of each socket is counted.  While a socket's queue is being emptied an
      entry there may have given up its reference; otherwise queues count as they are. *)
  Context (view : nat → list fd_entry → list fd_entry).
  Context (view_length : ∀ n l, (length (view n l) ≤ length l)%nat).

Definition cores o : list core := core_of <$> g_socket_objects o.
Definition queues o : list (list fd_entry) := queue <$> cores o.

(** The entries queued in all sockets. *)
Definition in_flight o : list fd_entry := concat (imap view (queues o)).

(** The count an object keeps for a kind of entry. *)
Definition stored o (k : fd_kind) (i : Z) : Z :=
  match k with
  | FD_VNODE => held fh_in_use fh_refcount (g_file_handles o) i
  | FD_PIPE_READER => held pi_in_use read_refs (g_pipe_objects o) i
  | FD_PIPE_WRITER => held pi_in_use write_refs (g_pipe_objects o) i
  | FD_SOCKET => held c_used c_refs (cores o) i
  | FD_EVENTFD => held ev_in_use ev_refcount (g_eventfd_objects o) i
  | _ => 0
  end.

(** The positions in a pipe's ring buffer fit together. *)
Definition ring_ok (p : pipe_object) : Prop :=
  0 ≤ read_pos p < PIPE_SIZE ∧ 0 ≤ pi_size p ≤ PIPE_SIZE ∧
  write_pos p = (read_pos p + pi_size p) mod PIPE_SIZE.

(** An object in use has a reference. *)
Record objects_wf o : Prop := {
  ow_files : length (g_file_handles o) = MAX_FILE_HANDLES;
  ow_pipes : length (g_pipe_objects o) = MAX_PIPE_OBJECTS;
  ow_events : length (g_eventfd_objects o) = MAX_EVENTFD_OBJECTS;
  ow_sockets : length (cores o) = MAX_SOCKET_OBJECTS;
  ow_file n h : g_file_handles o !! n = Some h → fh_in_use h = true → 0 < fh_refcount h;
  ow_pipe n p : g_pipe_objects o !! n = Some p → pi_in_use p = true →
    (0 ≤ read_refs p ∧ 0 ≤ write_refs p ∧ 0 < read_refs p + write_refs p) ∧ ring_ok p;
  ow_event n e : g_eventfd_objects o !! n = Some e → ev_in_use e = true → 0 < ev_refcount e;
  ow_core n c : cores o !! n = Some c → core_wf c
}.

(** [T] are the entries of all descriptor tables. *)
Definition fd_inv T o : Prop :=
  objects_wf o ∧ ∀ k i, counted k = true → refs (T ++ in_flight o) k i = stored o k i.

Lemma fd_inv_refs T T' o :
  (∀ k i, counted k = true → refs T' k i = refs T k i) → fd_inv T o → fd_inv T' o.
Proof.
  intros HT [Hwf Hinv]. split; [done|]. intros k i Hk.
  rewrite <- Hinv, !refs_app, HT by done. done.
Qed.

(** A change that keeps every count. *)
Lemma fd_inv_same T o o' :
  g_file_handles o' = g_file_handles o → g_pipe_objects o' = g_pipe_objects o →
  g_eventfd_objects o' = g_eventfd_objects o → cores o' = cores o → fd_inv T o → fd_inv T o'.
Proof.
  intros H1 H2 H3 H4 [[W1 W2 W3 W4 W5 W6 W7 W8] Hinv]. split.
  - split; rewrite ?H1, ?H2, ?H3, ?H4; done.
  - intros k i Hk. specialize (Hinv k i Hk). unfold in_flight, queues, stored in *.
    by rewrite H1, H2, H3, H4.
Qed.

(** Queues hold four entries at most. *)
Lemma in_flight_small o : objects_wf o → (length (in_flight o) ≤ 128)%nat.
Proof.
  intros Hwf. assert (Hlen : length (imap view (queues o)) = 32%nat).
  { rewrite length_imap. unfold queues. rewrite length_fmap. apply Hwf. }
  assert (Hq : Forall (λ l, (length l ≤ 4)%nat) (imap view (queues o))).
  { apply Forall_lookup. intros n l Hl. rewrite list_lookup_imap in Hl.
    apply fmap_Some in Hl as (q & Hq & ->). unfold queues in Hq. rewrite list_lookup_fmap in Hq.
    apply fmap_Some in Hq as (c & Hc & ->). destruct (ow_core _ Hwf n c Hc) as (Hf & Hr & _).
    pose proof (view_length n (queue c)). unfold queue in *.
    destruct (c_used c); simpl in *; [rewrite length_take in *|]; lia. }
  unfold in_flight. change 128%nat with (4 * 32)%nat. rewrite <- Hlen. clear Hlen.
  induction Hq as [|l ls Hl _ IH]; cbn [concat length]; [lia|]. rewrite length_app. lia.
Qed.

(** A list refers to its entries. *)
Lemma refs_elem l e : e ∈ l → 0 < refs l (kind e) (handle_index e).
Proof.
  intros [n Hn]%list_elem_of_lookup. rewrite <- (take_drop_middle _ _ _ Hn), refs_app, refs_cons.
  unfold is_kind at 1. rewrite bool_decide_true, Z.eqb_refl by done. simpl.
  pose proof (refs_range (take n l) (kind e) (handle_index e)).
  pose proof (refs_range (drop (S n) l) (kind e) (handle_index e)). lia.
Qed.

(** An entry of a table refers to a live object: no descriptor dangles. *)
Lemma stored_pos T o e :
  fd_inv T o → counted (kind e) = true → e ∈ T ++ in_flight o → 0 < stored o (kind e) (handle_index e).
Proof. intros [_ Hinv] Hk He. rewrite <- Hinv by done. by apply refs_elem. Qed.

Lemma stored_small T o k i :
  fd_inv T o → counted k = true → Z.of_nat (length T) < 2 ^ 31 → stored o k i < 2 ^ 32 - 1.
Proof.
  intros Hinv Hk HT. pose proof (in_flight_small o (proj1 Hinv)).
  rewrite <- (proj2 Hinv) by done. pose proof (refs_range (T ++ in_flight o) k i) as Hr.
  rewrite length_app in Hr. lia.
Qed.

(** The indicator of one object. *)
Definition at_ (e : fd_entry) (k : fd_kind) (i : Z) : Z := Z.b2z (is_kind k e && (handle_index e =? i)).

(** The indicator, by cases. *)
Lemma at_same e : at_ e (kind e) (handle_index e) = 1.
Proof. unfold at_, is_kind. by rewrite bool_decide_true, Z.eqb_refl. Qed.
Lemma at_kind e k i : k ≠ kind e → at_ e k i = 0.
Proof. intros H. unfold at_, is_kind. by rewrite bool_decide_false. Qed.
Lemma at_index e i : at_ e (kind e) i = if decide (i = handle_index e) then 1 else 0.
Proof.
  unfold at_, is_kind. rewrite bool_decide_true by done. case_decide as Hd; simpl.
  - by rewrite Hd, Z.eqb_refl.
  - by rewrite (proj2 (Z.eqb_neq _ _)) by congruence.
Qed.

(** ** Updating one object *)

Lemma alter_inv {O} (f : O → O) n (l : list O) m y :
  alter f n l !! m = Some y → (∃ x, m = n ∧ l !! n = Some x ∧ y = f x) ∨ l !! m = Some y.
Proof.
  intros Hy. destruct (decide (m = n)) as [->|Hne].
  - left. rewrite list_lookup_alter_eq in Hy. apply fmap_Some in Hy as (x & Hx & ->). by exists x.
  - right. by rewrite list_lookup_alter_ne in Hy.
Qed.

Lemma upd_file_wf o n f h :
  objects_wf o → g_file_handles o !! n = Some h → (fh_in_use (f h) = true → 0 < fh_refcount (f h)) →
  objects_wf (upd_file n f o).
Proof.
  intros [W1 W2 W3 W4 W5 W6 W7 W8] Hh Hf. split; try done; simpl; [by rewrite length_alter|].
  intros m y [(x & -> & Hx & ->)|Hy]%alter_inv Hu; [|by eapply W5]. simplify_eq. by apply Hf.
Qed.

Lemma upd_file_stored o n f h k i :
  g_file_handles o !! n = Some h →
  stored (upd_file n f o) k i =
    match k with
    | FD_VNODE => if decide (i = Z.of_nat n) then (if fh_in_use (f h) then fh_refcount (f h) else 0)
                  else stored o k i
    | _ => stored o k i
    end.
Proof. intros Hh. destruct k; try done. by apply held_alter. Qed.

Lemma upd_event_wf o n f h :
  objects_wf o → g_eventfd_objects o !! n = Some h → (ev_in_use (f h) = true → 0 < ev_refcount (f h)) →
  objects_wf (upd_eventfd n f o).
Proof.
  intros [W1 W2 W3 W4 W5 W6 W7 W8] Hh Hf. split; try done; simpl; [by rewrite length_alter|].
  intros m y [(x & -> & Hx & ->)|Hy]%alter_inv Hu; [|by eapply W7]. simplify_eq. by apply Hf.
Qed.

Lemma upd_event_stored o n f h k i :
  g_eventfd_objects o !! n = Some h →
  stored (upd_eventfd n f o) k i =
    match k with
    | FD_EVENTFD => if decide (i = Z.of_nat n) then (if ev_in_use (f h) then ev_refcount (f h) else 0)
                    else stored o k i
    | _ => stored o k i
    end.
Proof. intros Hh. destruct k; try done. by apply held_alter. Qed.

Lemma upd_pipe_wf o n f p :
  objects_wf o → g_pipe_objects o !! n = Some p →
  (pi_in_use (f p) = true →
   (0 ≤ read_refs (f p) ∧ 0 ≤ write_refs (f p) ∧ 0 < read_refs (f p) + write_refs (f p)) ∧ ring_ok (f p)) →
  objects_wf (upd_pipe n f o).
Proof.
  intros [W1 W2 W3 W4 W5 W6 W7 W8] Hh Hf. split; try done; simpl; [by rewrite length_alter|].
  intros m y [(x & -> & Hx & ->)|Hy]%alter_inv Hu; [|by eapply W6]. simplify_eq. by apply Hf.
Qed.

Lemma upd_pipe_stored o n f p k i :
  g_pipe_objects o !! n = Some p →
  stored (upd_pipe n f o) k i =
    match k with
    | FD_PIPE_READER => if decide (i = Z.of_nat n) then (if pi_in_use (f p) then read_refs (f p) else 0)
                        else stored o k i
    | FD_PIPE_WRITER => if decide (i = Z.of_nat n) then (if pi_in_use (f p) then write_refs (f p) else 0)
                        else stored o k i
    | _ => stored o k i
    end.
Proof. intros Hh. destruct k; try done; by apply held_alter. Qed.

Lemma cores_upd o n f s :
  g_socket_objects o !! n = Some s → cores (upd_socket n f o) = <[n := core_of (f s)]> (cores o).
Proof.
  intros Hs. unfold cores. simpl. apply list_eq. intros m. rewrite list_lookup_fmap.
  destruct (decide (m = n)) as [->|Hne].
  - rewrite list_lookup_alter_eq, Hs. simpl. rewrite list_lookup_insert_eq; [done|].
    rewrite length_fmap. by eapply lookup_lt_Some.
  - by rewrite list_lookup_alter_ne, list_lookup_insert_ne, list_lookup_fmap by done.
Qed.

Lemma cores_lookup o n s : g_socket_objects o !! n = Some s → cores o !! n = Some (core_of s).
Proof. intros Hs. unfold cores. by rewrite list_lookup_fmap, Hs. Qed.

Lemma upd_socket_wf o n f s :
  objects_wf o → g_socket_objects o !! n = Some s → core_wf (core_of (f s)) →
  objects_wf (upd_socket n f o).
Proof.
  intros [W1 W2 W3 W4 W5 W6 W7 W8] Hs Hf. split; try done; rewrite (cores_upd _ _ _ s) by done.
  - by rewrite length_insert.
  - intros m c [(-> & <- & _)|[_ Hc]]%list_lookup_insert_Some; [done|by eapply W8].
Qed.

Lemma stored_socket o i : stored o FD_SOCKET i = held so_in_use so_refcount (g_socket_objects o) i.
Proof. simpl. unfold cores. by rewrite held_fmap. Qed.

Lemma upd_socket_stored o n f s k i :
  g_socket_objects o !! n = Some s →
  stored (upd_socket n f o) k i =
    match k with
    | FD_SOCKET => if decide (i = Z.of_nat n) then (if so_in_use (f s) then so_refcount (f s) else 0)
                   else stored o k i
    | _ => stored o k i
    end.
Proof.
  intros Hs. destruct k; try done. rewrite !stored_socket. by apply held_alter.
Qed.

Lemma queues_upd o n f s :
  g_socket_objects o !! n = Some s → queues (upd_socket n f o) = <[n := queue (core_of (f s))]> (queues o).
Proof. intros Hs. unfold queues. by rewrite (cores_upd _ _ _ s), list_fmap_insert by done. Qed.

Lemma queues_lookup o n s : g_socket_objects o !! n = Some s → queues o !! n = Some (queue (core_of s)).
Proof. intros Hs. unfold queues. by rewrite list_lookup_fmap, (cores_lookup _ _ _ Hs). Qed.

Lemma upd_socket_flight o n f s k i :
  g_socket_objects o !! n = Some s →
  refs (in_flight (upd_socket n f o)) k i + refs (view n (queue (core_of s))) k i
  = refs (in_flight o) k i + refs (view n (queue (core_of (f s)))) k i.
Proof.
  intros Hs. unfold in_flight. rewrite (queues_upd _ _ _ s) by done.
  apply refs_concat_insert. by apply queues_lookup.
Qed.

(** An update of a socket that keeps its core. *)
Lemma cores_upd_same o n f :
  (∀ s, g_socket_objects o !! n = Some s → core_of (f s) = core_of s) → cores (upd_socket n f o) = cores o.
Proof.
  intros Hf. destruct (g_socket_objects o !! n) as [s|] eqn:Hs.
  - rewrite (cores_upd _ _ _ s), Hf by done. apply list_insert_id. by apply cores_lookup.
  - unfold cores. simpl. f_equal. apply list_eq. intros m. destruct (decide (m = n)) as [->|].
    + by rewrite list_lookup_alter_eq, Hs.
    + by rewrite list_lookup_alter_ne.
Qed.

(** ** Changing one count *)

Definition file_refs (h : file_handle) : Z := if fh_in_use h then fh_refcount h else 0.
Definition event_refs (e : eventfd_object) : Z := if ev_in_use e then ev_refcount e else 0.
Definition reader_refs (p : pipe_object) : Z := if pi_in_use p then read_refs p else 0.
Definition writer_refs (p : pipe_object) : Z := if pi_in_use p then write_refs p else 0.
Definition socket_refs (s : socket_object) : Z := if so_in_use s then so_refcount s else 0.

(** [o'] is [o] with [d] references more for the entries of the list, and the same queues. *)
Record bump o o' (ds : list (fd_entry * Z)) : Prop := {
  bu_wf : objects_wf o';
  bu_queues : queues o' = queues o;
  bu_stored k i : counted k = true →
    stored o' k i = stored o k i + foldr (λ '(e, d) z, d * at_ e k i + z) 0 ds
}.

Lemma held_cnt {O} (in_use : O → bool) cnt (l : list O) n x :
  l !! n = Some x → held in_use cnt l (Z.of_nat n) = if in_use x then cnt x else 0.
Proof. intros Hx. destruct (in_use x) eqn:Hu; [by apply held_use|by eapply held_free]. Qed.

(** The kinds that do not change, and the index of the one that does. *)
Ltac bump_kinds :=
  match goal with
  | |- context [match ?k with FD_FREE => _ | _ => _ end] =>
      destruct k; simpl; rewrite ?at_kind by done; try lia
  end.

Lemma bump_file o n h f :
  objects_wf o → g_file_handles o !! n = Some h → (fh_in_use (f h) = true → 0 < fh_refcount (f h)) →
  bump o (upd_file n f o) [(FdEntry FD_VNODE (Z.of_nat n), file_refs (f h) - file_refs h)].
Proof.
  intros Hwf Hh Hf. split; [by eapply upd_file_wf|done|]. intros k i _.
  rewrite (upd_file_stored _ _ _ h) by done. bump_kinds.
  rewrite (at_index (FdEntry FD_VNODE _)). cbn [handle_index]. case_decide; [|lia]. subst.
  rewrite (held_cnt _ _ _ _ h) by done. unfold file_refs. lia.
Qed.

Lemma bump_event o n h f :
  objects_wf o → g_eventfd_objects o !! n = Some h → (ev_in_use (f h) = true → 0 < ev_refcount (f h)) →
  bump o (upd_eventfd n f o) [(FdEntry FD_EVENTFD (Z.of_nat n), event_refs (f h) - event_refs h)].
Proof.
  intros Hwf Hh Hf. split; [by eapply upd_event_wf|done|]. intros k i _.
  rewrite (upd_event_stored _ _ _ h) by done. bump_kinds.
  rewrite (at_index (FdEntry FD_EVENTFD _)). cbn [handle_index]. case_decide; [|lia]. subst.
  rewrite (held_cnt _ _ _ _ h) by done. unfold event_refs. lia.
Qed.

Lemma bump_pipe o n p f :
  objects_wf o → g_pipe_objects o !! n = Some p →
  (pi_in_use (f p) = true →
   (0 ≤ read_refs (f p) ∧ 0 ≤ write_refs (f p) ∧ 0 < read_refs (f p) + write_refs (f p)) ∧ ring_ok (f p)) →
  bump o (upd_pipe n f o) [(FdEntry FD_PIPE_READER (Z.of_nat n), reader_refs (f p) - reader_refs p);
                           (FdEntry FD_PIPE_WRITER (Z.of_nat n), writer_refs (f p) - writer_refs p)].
Proof.
  intros Hwf Hh Hf. split; [by eapply upd_pipe_wf|done|]. intros k i _.
  rewrite (upd_pipe_stored _ _ _ p) by done. bump_kinds.
  - rewrite (at_kind (FdEntry FD_PIPE_WRITER _)), (at_index (FdEntry FD_PIPE_READER _)) by done.
    cbn [handle_index]. case_decide; [|lia]. subst.
    rewrite (held_cnt _ _ _ _ p) by done. unfold reader_refs. lia.
  - rewrite (at_index (FdEntry FD_PIPE_WRITER _)).
    cbn [handle_index]. case_decide; [|lia]. subst.
    rewrite (held_cnt _ _ _ _ p) by done. unfold writer_refs. lia.
Qed.

(** A socket whose queue stays as it is. *)
Lemma bump_socket o n s f :
  objects_wf o → g_socket_objects o !! n = Some s → core_wf (core_of (f s)) →
  queue (core_of (f s)) = queue (core_of s) →
  bump o (upd_socket n f o) [(FdEntry FD_SOCKET (Z.of_nat n), socket_refs (f s) - socket_refs s)].
Proof.
  intros Hwf Hs Hf Hq. split; [by eapply upd_socket_wf| |].
  - rewrite (queues_upd _ _ _ s), Hq by done. apply list_insert_id. by apply queues_lookup.
  - intros k i _. rewrite (upd_socket_stored _ _ _ s) by done. bump_kinds.
    rewrite (at_index (FdEntry FD_SOCKET _)). cbn [handle_index]. case_decide; [|lia]. subst.
    unfold cores. rewrite held_fmap. simpl. rewrite (held_cnt _ _ _ _ s) by done. unfold socket_refs. lia.
Qed.

Lemma fd_inv_bump T o o' ds :
  fd_inv T o → bump o o' ds → ∀ T',
  (∀ k i, counted k = true → refs T' k i = refs T k i + foldr (λ '(e, d) z, d * at_ e k i + z) 0 ds) →
  fd_inv T' o'.
Proof.
  intros [_ Hinv] [Hwf Hfl Hst] T' HT. split; [done|]. intros k i Hk.
  specialize (Hinv k i Hk). unfold in_flight in *. rewrite Hst, Hfl, refs_app, HT by done.
  rewrite refs_app in Hinv. lia.
Qed.

(** One reference more or less. *)
Lemma bump_add T o o' e : fd_inv T o → bump o o' [(e, 1)] → fd_inv (e :: T) o'.
Proof.
  intros Hinv Hb. eapply fd_inv_bump; [done..|]. intros k i _. rewrite refs_cons. simpl. unfold at_. lia.
Qed.

Lemma bump_drop T o o' e : fd_inv (e :: T) o → bump o o' [(e, -1)] → fd_inv T o'.
Proof.
  intros Hinv Hb. eapply fd_inv_bump; [done..|]. intros k i _. rewrite refs_cons. simpl. unfold at_. lia.
Qed.

(** A change of no references can be left out. *)
Lemma bump_zero_l o o' e d ds : bump o o' ((e, d) :: ds) → d = 0 → bump o o' ds.
Proof. intros [H1 H2 H3] ->. split; [done..|]. intros k i Hk. rewrite H3 by done. simpl. lia. Qed.

Lemma bump_zero_r o o' e d e' d' : bump o o' [(e, d); (e', d')] → d' = 0 → bump o o' [(e, d)].
Proof. intros [H1 H2 H3] ->. split; [done..|]. intros k i Hk. rewrite H3 by done. simpl. lia. Qed.

Lemma bump_eq o o' e d d' : bump o o' [(e, d)] → d = d' → bump o o' [(e, d')].
Proof. by intros ? <-. Qed.

(** The objects agree on all counts and queues. *)
Definition same_counts o o' : Prop :=
  g_file_handles o' = g_file_handles o ∧ g_pipe_objects o' = g_pipe_objects o
  ∧ g_eventfd_objects o' = g_eventfd_objects o ∧ cores o' = cores o.

Lemma bump_same_r o o1 o2 ds : bump o o1 ds → same_counts o1 o2 → bump o o2 ds.
Proof.
  intros [[W1 W2 W3 W4 W5 W6 W7 W8] Hf Hs] (H1 & H2 & H3 & H4). split.
  - split; rewrite ?H1, ?H2, ?H3, ?H4; done.
  - unfold queues in *. by rewrite H4.
  - intros k i Hk. rewrite <- Hs by done. unfold stored. by rewrite H1, H2, H3, H4.
Qed.

Lemma bump_trans o o1 o2 ds ds' : bump o o1 ds → bump o1 o2 ds' → bump o o2 (ds ++ ds').
Proof.
  intros [W1 F1 S1] [W2 F2 S2]. split; [done|by rewrite F2|]. intros k i Hk.
  rewrite S2, S1, foldr_app by done.
  set (z := foldr _ 0 ds'). clearbody z. clear.
  assert (H : ∀ l a, foldr (λ '(e, d) z, d * at_ e k i + z) a l
                     = foldr (λ '(e, d) z, d * at_ e k i + z) 0 l + a).
  { induction l as [|[e d] l IH]; intros a; simpl; [lia|]. rewrite IH. lia. }
  rewrite (H ds z). lia.
Qed.

(** A fresh socket has an empty queue. *)
Lemma bump_new_socket o n s s' :
  objects_wf o → g_socket_objects o !! n = Some s → so_in_use s = false →
  so_in_use s' = true → so_refcount s' = 1 → rx_ancillary_fd_count s' = 0 →
  length (rx_ancillary_fds s') = 4%nat →
  bump o (upd_socket n (λ _, s') o) [(FdEntry FD_SOCKET (Z.of_nat n), 1)].
Proof.
  intros Hwf Hs Hu Hu' Hr' Hc' Hl'. eapply bump_eq; [apply (bump_socket _ n s); [done..| |]|].
  - split; [done|]. simpl. rewrite Hc', Hr'. split; [lia|done].
  - unfold queue. simpl. rewrite Hu, Hu', Hc'. by rewrite take_0.
  - unfold socket_refs. rewrite Hu, Hu', Hr'. done.
Qed.

(** ** Retaining *)

Lemma retain_inv T o e :
  fd_inv T o → (counted (kind e) = true → e ∈ T ++ in_flight o) → Z.of_nat (length T) < 2 ^ 31 →
  fd_inv (e :: T) (retain_fd_entry_refs e o).
Proof.
  intros Hinv Hin HT. destruct (counted (kind e)) eqn:Hk.
  2:{ apply (fd_inv_refs T); [intros; by apply refs_plain|]. unfold retain_fd_entry_refs.
      destruct (kind e); done. }
  pose proof (stored_pos T o e Hinv Hk (Hin eq_refl)) as Hpos.
  pose proof (stored_small T o (kind e) (handle_index e) Hinv Hk HT) as Hsmall.
  pose proof (proj1 Hinv) as Hwf. destruct e as [k j]. cbn [kind handle_index] in *.
  apply (bump_add T o); [done|].
  unfold retain_fd_entry_refs. cbn [kind handle_index].
  destruct k; try done; cbn [stored] in *; unfold cores in *; rewrite ?held_fmap in *;
    destruct (held_pos _ _ _ _ Hpos) as (n & x & -> & Hx & Hu & Hb & Hh); rewrite Hh in *.
  - unfold get_file_handle_by_index. rewrite Hb. eapply bump_eq; [apply bump_file; [done..|]|].
    + simpl. rewrite u32_small; lia.
    + unfold file_refs. simpl. rewrite Hu, u32_small; lia.
  - unfold get_pipe_object_by_index. rewrite Hb. pose proof (ow_pipe _ Hwf n x Hx Hu) as [Hp Hr].
    eapply bump_eq; [eapply bump_zero_r; [apply bump_pipe; [done..|]|]|].
    + intros _. split; [simpl; rewrite u32_small; lia|exact Hr].
    + unfold writer_refs. simpl. rewrite Hu. lia.
    + unfold reader_refs. simpl. rewrite Hu, u32_small; lia.
  - unfold get_pipe_object_by_index. rewrite Hb. pose proof (ow_pipe _ Hwf n x Hx Hu) as [Hp Hr].
    eapply bump_eq; [eapply bump_zero_l; [apply bump_pipe; [done..|]|]|].
    + intros _. split; [simpl; rewrite u32_small; lia|exact Hr].
    + unfold reader_refs. simpl. rewrite Hu. lia.
    + unfold writer_refs. simpl. rewrite Hu, u32_small; lia.
  - unfold get_socket_by_index. change (by_index so_in_use (g_socket_objects o) (Z.of_nat n) = Some n) in Hb.
    rewrite Hb. pose proof (ow_core _ Hwf n _ (cores_lookup _ _ _ Hx)) as (Hc1 & Hc2 & Hc3).
    cbn [c_used c_refs core_of] in *.
    eapply bump_eq; [apply bump_socket; [done..| |done]|].
    + split; [done|]. split; [done|]. simpl. rewrite u32_small; lia.
    + unfold socket_refs. simpl. rewrite Hu, u32_small; lia.
  - unfold get_eventfd_object_by_index. rewrite Hb. eapply bump_eq; [apply bump_event; [done..|]|].
    + simpl. rewrite u32_small; lia.
    + unfold event_refs. simpl. rewrite Hu, u32_small; lia.
Qed.

(** ** Releasing *)

Lemma dec_pos n : 0 < n → dec n = n - 1.
Proof. intros H. unfold dec. by rewrite (proj2 (Z.ltb_lt _ _) H). Qed.

(** Files, pipes and event counters. *)
Lemma release_object_inv T o e o' :
  fd_inv (e :: T) o → counted (kind e) = true → kind e ≠ FD_SOCKET →
  release_refs 1 e o = Some o' → fd_inv T o' ∧ cores o' = cores o.
Proof.
  intros Hinv Hk Hs. pose proof (proj1 Hinv) as Hwf.
  pose proof (stored_pos (e :: T) o e Hinv Hk ltac:(left)) as Hpos. destruct e as [k j].
  cbn [release_refs kind handle_index] in *. intros Ho.
  enough (bump o o' [(FdEntry k j, -1)] ∧ cores o' = cores o) as [Hb Hc]
    by (split; [by eapply bump_drop|done]). 
  destruct k; try done; injection Ho as <-; cbn [stored] in *;
    destruct (held_pos _ _ _ _ Hpos) as (n & x & -> & Hx & Hu & Hb & Hh); rewrite Hh in *.
  - unfold release_file_handle, get_file_handle_by_index. rewrite Hb. split; [|done].
    eapply bump_eq; [apply bump_file; [done..|]|]; cbv beta zeta; rewrite dec_pos by done;
      destruct (Z.eqb_spec (fh_refcount x - 1) 0); unfold file_refs; simpl; rewrite ?Hu; try done; lia.
  - unfold release_pipe_ref, get_pipe_object_by_index. rewrite Hb. split; [|done].
    pose proof (ow_pipe _ Hwf n x Hx Hu) as [Hp Hr]. rewrite bool_decide_true, bool_decide_false by done.
    eapply bump_eq; [eapply bump_zero_r; [apply bump_pipe; [done..|]|]|];
      cbv beta zeta; rewrite dec_pos by done; unfold writer_refs, reader_refs;
      destruct (Z.eqb_spec (read_refs x - 1) 0), (Z.eqb_spec (write_refs x) 0); simpl; rewrite ?Hu; try done;
      first [lia|intros _; split; [lia|exact Hr]].
  - unfold release_pipe_ref, get_pipe_object_by_index. rewrite Hb. split; [|done].
    pose proof (ow_pipe _ Hwf n x Hx Hu) as [Hp Hr]. rewrite bool_decide_false, bool_decide_true by done.
    eapply bump_eq; [eapply bump_zero_l; [apply bump_pipe; [done..|]|]|];
      cbv beta zeta; rewrite dec_pos by done; unfold writer_refs, reader_refs;
      destruct (Z.eqb_spec (read_refs x) 0), (Z.eqb_spec (write_refs x - 1) 0); simpl; rewrite ?Hu; try done;
      first [lia|intros _; split; [lia|exact Hr]].
  - unfold release_eventfd_ref, get_eventfd_object_by_index. rewrite Hb. split; [|done].
    eapply bump_eq; [apply bump_event; [done..|]|]; cbv beta zeta; rewrite dec_pos by done;
      destruct (Z.eqb_spec (ev_refcount x - 1) 0); unfold event_refs; simpl; rewrite ?Hu; try done; lia.
Qed.

(** The sockets in use. *)
Definition n_used o : Z := countb c_used (cores o).

Lemma countb_insert_core cs n c c' :
  cs !! n = Some c → countb c_used (<[n := c']> cs) = countb c_used cs - Z.b2z (c_used c) + Z.b2z (c_used c').
Proof.
  intros Hc. pose proof (lookup_lt_Some _ _ _ Hc). rewrite insert_take_drop by done.
  rewrite <- (take_drop_middle cs n c Hc) at 3. rewrite !countb_app. simpl. lia.
Qed.

(** Ending a socket hands its queue over. *)
Lemma end_socket_inv T o n s x :
  (∀ l, view n l = l) → fd_inv (FdEntry FD_SOCKET (Z.of_nat n) :: T) o →
  g_socket_objects o !! n = Some s → so_in_use s = true → so_refcount s = 1 →
  let o' := set_net x (upd_socket n (λ _, zero_socket) o) in
  fd_inv (queue (core_of s) ++ T) o' ∧ n_used o' = n_used o - 1.
Proof.
  intros Hview [Hwf Hinv] Hs Hu Hr o'. split.
  - apply (fd_inv_same _ (upd_socket n (λ _, zero_socket) o)); [done..|]. split.
    + apply (upd_socket_wf _ _ _ s); [done..|]. split; [done|]. split; simpl; [lia|done].
    + intros k i Hk. specialize (Hinv k i Hk).
      pose proof (upd_socket_flight o n (λ _, zero_socket) s k i Hs) as Hf.
      cbv beta in Hf. rewrite !Hview in Hf. change (refs (queue (core_of zero_socket)) k i) with 0 in Hf.
      rewrite (upd_socket_stored _ _ _ s) by done.
      cbn [app] in Hinv. rewrite refs_cons, refs_app in Hinv. rewrite !refs_app.
      destruct (decide (k = FD_SOCKET)) as [->|Hne].
      * rewrite stored_socket in Hinv |- *. case_decide as Hi.
        -- subst i. rewrite (held_use _ _ _ _ s) in Hinv by done. rewrite Z.eqb_refl in Hinv.
           change (is_kind FD_SOCKET {| kind := FD_SOCKET; handle_index := Z.of_nat n |}) with true in Hinv.
           simpl in Hinv |- *. lia.
        -- cbn [handle_index] in Hinv. rewrite (proj2 (Z.eqb_neq (Z.of_nat n) i)), andb_false_r in Hinv by congruence.
           simpl in Hinv. lia.
      * replace (is_kind k (FdEntry FD_SOCKET (Z.of_nat n))) with false in Hinv
          by (unfold is_kind; rewrite bool_decide_false; [done|simpl; congruence]).
        simpl in Hinv. destruct k; simpl in *; try lia. done.
  - unfold n_used. change (cores o') with (cores (upd_socket n (λ _, zero_socket) o)).
    rewrite (cores_upd _ _ _ s), (countb_insert_core _ _ (core_of s)) by (done || by apply cores_lookup).
    simpl. rewrite Hu. simpl. lia.
Qed.

Lemma mark_closed_same o i s :
  g_socket_objects o !! i = Some s →
  g_file_handles (mark_closed i o) = g_file_handles o ∧ g_pipe_objects (mark_closed i o) = g_pipe_objects o
  ∧ g_eventfd_objects (mark_closed i o) = g_eventfd_objects o ∧ cores (mark_closed i o) = cores o.
Proof.
  intros Hs. assert (Hsock : socket i o = s) by (unfold socket; by rewrite Hs).
  unfold mark_closed. rewrite Hsock. destruct (so_refcount s <=? 1); [|done].
  assert (Hst : ∀ n o, cores (upd_socket n (so_set_state SOCK_CLOSED) o) = cores o)
    by (intros; by apply cores_upd_same).
  destruct (so_family s =? LINUX_AF_UNIX).
  - destruct (get_socket_by_index _ o) as [p|]; rewrite !Hst; done.
  - destruct (so_state s); try (rewrite Hst; done).
    destruct (socket_send_fin_close i s (net o)) as [s' x'] eqn:Hf. split_and!; try done.
    change (cores (upd_socket i (λ _, s') o) = cores o). apply cores_upd_same.
    intros y Hy. simplify_eq. by eapply fin_close_core.
Qed.

(** A socket whose queue is not counted as it is cannot end: a table refers to it. *)
Definition guarded T : Prop := ∀ n, (∀ l, view n l = l) ∨ FdEntry FD_SOCKET (Z.of_nat n) ∈ T.

(** The sockets that [T] refers to stay, with their queues. *)
Definition qcore (c : core) : bool * Z * list fd_entry := (c_used c, c_count c, c_fds c).

Definition kept T o o' : Prop :=
  ∀ n, FdEntry FD_SOCKET (Z.of_nat n) ∈ T → qcore <$> cores o' !! n = qcore <$> cores o !! n.

(** A socket that another entry refers to does not end with this one. *)
Lemma last_ref T o n s :
  fd_inv (FdEntry FD_SOCKET (Z.of_nat n) :: T) o → g_socket_objects o !! n = Some s →
  so_in_use s = true → so_refcount s = 1 → FdEntry FD_SOCKET (Z.of_nat n) ∉ T.
Proof.
  intros Hinv Hs Hu Hr Hin. pose proof (proj2 Hinv FD_SOCKET (Z.of_nat n) eq_refl) as Hcnt.
  rewrite stored_socket in Hcnt. rewrite (held_use _ _ _ _ s) in Hcnt by done. cbn [app] in Hcnt.
  rewrite refs_cons, refs_app in Hcnt.
  pose proof (refs_elem T (FdEntry FD_SOCKET (Z.of_nat n)) Hin).
  pose proof (refs_range (in_flight o) FD_SOCKET (Z.of_nat n)).
  change (Z.b2z _) with (at_ (FdEntry FD_SOCKET (Z.of_nat n)) FD_SOCKET (Z.of_nat n)) in Hcnt.
  pose proof (at_same (FdEntry FD_SOCKET (Z.of_nat n))) as Hone. cbn [kind handle_index] in *. lia.
Qed.

(** What a release achieves. *)
Definition released T o o' : Prop := fd_inv T o' ∧ n_used o' ≤ n_used o ∧ kept T o o'.

(** Releasing a list of entries, given that a single release works. *)
Lemma release_list_ok rel (fuel : Z) :
  (∀ e T o, guarded T → fd_inv (e :: T) o → n_used o < fuel →
     ∃ o', rel e o = Some o' ∧ released T o o') →
  ∀ l T o, guarded T → fd_inv (l ++ T) o → n_used o < fuel →
    ∃ o', foldl (λ acc e, acc ≫= rel e) (Some o) l = Some o' ∧ released T o o'.
Proof.
  intros Hrel. induction l as [|e l IH]; intros T o Hg Hinv Hn; [by exists o; split_and!|].
  destruct (Hrel e (l ++ T) o) as (o1 & E1 & H1 & N1 & K1); [|done..|].
  { intros n. destruct (Hg n); [by left|right]. apply elem_of_app. by right. }
  destruct (IH T o1 Hg H1) as (o2 & E2 & H2 & N2 & K2); [lia|].
  exists o2. simpl. rewrite E1. split; [done|]. split_and!; [done|lia|]. intros n Hin.
  rewrite K2 by done. apply K1. apply elem_of_app. by right.
Qed.

Lemma release_socket_ok rel (fuel : Z) T o n s :
  (∀ e T o, guarded T → fd_inv (e :: T) o → n_used o < fuel →
     ∃ o', rel e o = Some o' ∧ released T o o') →
  guarded T → fd_inv (FdEntry FD_SOCKET (Z.of_nat n) :: T) o → n_used o ≤ fuel →
  g_socket_objects o !! n = Some s → so_in_use s = true →
  ∃ o', release_socket_ref rel (Z.of_nat n) o = Some o' ∧ released T o o'.
Proof.
  intros Hrel Hg Hinv Hn Hs Hu. pose proof (proj1 Hinv) as Hwf.
  pose proof (ow_core _ Hwf n _ (cores_lookup _ _ _ Hs)) as (Hc1 & Hc2 & Hc3).
  cbn [core_of c_used c_refs c_count c_fds] in *. specialize (Hc3 Hu).
  unfold release_socket_ref, get_socket_by_index.
  rewrite (proj2 (by_index_Some _ _ _ n)) by eauto.
  assert (socket n o = s) as -> by (unfold socket; by rewrite Hs). cbv zeta. rewrite dec_pos by done.
  destruct (Z.eqb_spec (so_refcount s - 1) 0) as [Hz|Hz].
  - assert (Hview : ∀ l, view n l = l).
    { destruct (Hg n) as [|Hin]; [done|exfalso]. by eapply last_ref; [..|exact Hin]; [done..|lia]. }
    destruct (end_socket_inv T o n s (net_clear n (net o)) Hview Hinv Hs Hu) as [Hi Hu']; [lia|].
    destruct (release_list_ok rel fuel Hrel (queue (core_of s)) T _ Hg Hi) as (o' & E & H1 & H2 & H3); [lia|].
    exists o'. split; [|split_and!; [done|lia|]].
    2:{ intros m Hm. rewrite H3 by done. change (cores (set_net _ ?x)) with (cores x).
        rewrite (cores_upd _ _ _ s) by done. rewrite list_lookup_insert_ne; [done|]. intros <-.
        by eapply last_ref; [..|exact Hm]; [done..|lia]. }
    rewrite <- E. f_equal. unfold queue. simpl. rewrite Hu.
    unfold SOCKET_ANCILLARY_FD_MAX. by rewrite Z.min_l by lia.
  - eexists. split; [done|]. split_and!.
    + eapply bump_drop; [done|]. eapply bump_eq; [apply bump_socket; [done..| |done]|].
      * split; [done|]. split; [done|]. simpl. lia.
      * unfold socket_refs. simpl. rewrite Hu. lia.
    + unfold n_used. rewrite (cores_upd _ _ _ s), (countb_insert_core _ _ (core_of s))
        by (done || by apply cores_lookup). simpl. lia.
    + intros m _. rewrite (cores_upd _ _ _ s) by done. destruct (decide (m = n)) as [->|].
      * rewrite list_lookup_insert_eq, (cores_lookup _ _ _ Hs); [done|].
        eapply lookup_lt_Some. by apply cores_lookup.
      * by rewrite list_lookup_insert_ne.
Qed.

(** Releasing consumes the reference of the entry, and ends. *)
Lemma release_refs_ok fuel e T o :
  guarded T → fd_inv (e :: T) o → n_used o < Z.of_nat fuel →
  ∃ o', release_refs fuel e o = Some o' ∧ released T o o'.
Proof.
  revert e T o. induction fuel as [|fuel IH]; intros e T o Hg Hinv Hn.
  { pose proof (countb_bounds c_used (cores o)). unfold n_used in Hn. lia. }
  destruct (counted (kind e)) eqn:Hk.
  2:{ exists o. split; [cbn [release_refs]; by destruct (kind e)|].
      split_and!; [|lia|done]. apply (fd_inv_refs (e :: T)); [intros; by rewrite refs_plain|done]. }
  destruct (decide (kind e = FD_SOCKET)) as [Hs|Hs].
  - pose proof (stored_pos _ o e Hinv Hk ltac:(left)) as Hpos. destruct e as [k j]. simpl in Hs. subst k.
    cbn [kind handle_index] in *. rewrite stored_socket in Hpos.
    destruct (held_pos _ _ _ _ Hpos) as (n & s & -> & Hx & Hu & Hb & _).
    cbn [release_refs kind handle_index]. unfold close_socket_with, get_socket_by_index. rewrite Hb.
    destruct (mark_closed_same o n s Hx) as (E1 & E2 & E3 & E4).
    assert (Hx' : ∃ s', g_socket_objects (mark_closed n o) !! n = Some s' ∧ core_of s' = core_of s).
    { assert (H : cores (mark_closed n o) !! n = Some (core_of s)) by (rewrite E4; by apply cores_lookup).
      unfold cores in H. rewrite list_lookup_fmap in H. apply fmap_Some in H as (s' & ? & ?). by exists s'. }
    destruct Hx' as (s' & Hx' & Hc').
    assert (Hn' : n_used (mark_closed n o) = n_used o) by (unfold n_used; by rewrite E4).
    unfold released, kept. rewrite <- E4. rewrite <- Hn'. apply (release_socket_ok _ (Z.of_nat fuel) T _ n s'); [done|done| |lia|done|].
    + by apply (fd_inv_same _ o).
    + change (c_used (core_of s') = true). by rewrite Hc'.
  - assert (Hsome : ∃ o', release_refs 1 e o = Some o' ∧ release_refs (S fuel) e o = Some o').
    { cbn [release_refs]. destruct (kind e); try done; eauto. }
    destruct Hsome as (o' & H1 & H2). exists o'. rewrite H2.
    destruct (release_object_inv T o e o' Hinv Hk Hs H1) as [Hi Hc].
    split; [done|]. split_and!; [done| |]; unfold n_used, kept; rewrite Hc; [lia|done].
Qed.

(** [release_fd_entry_refs] consumes the entry's reference. *)
Lemma release_entry_ok T o e :
  guarded T → fd_inv (e :: T) o → released T o (release_fd_entry_refs e o).
Proof.
  intros Hg Hinv. unfold release_fd_entry_refs, release_fuel.
  destruct (release_refs_ok (S (S (length (g_socket_objects o)))) e T o Hg Hinv) as (o' & -> & H); [|done].
  pose proof (countb_bounds c_used (cores o)) as Hb. fold (n_used o) in Hb.
  assert (length (cores o) = length (g_socket_objects o)) by apply length_fmap. lia.
Qed.

Lemma release_entry_inv T o e : guarded T → fd_inv (e :: T) o → fd_inv T (release_fd_entry_refs e o).
Proof. intros Hg Hinv. by apply release_entry_ok. Qed.

End inv.
