(* ===== verification/FdTables.v ===== *)
(** * Descriptor tables

    Every operation on the descriptors of a process keeps the counts of [FdInv] exact.
    [R] are the entries of the tables of the other processes. *)

From S2P Require Import Prelude CString VfsNode ProcessData Lifecycle Fd FdInv.

(** Queues count as they are. *)
Definition whole (n : nat) (l : list fd_entry) : list fd_entry := l.

Lemma whole_length n l : (length (whole n l) ≤ length l)%nat.
Proof. done. Qed.

Lemma whole_eq n l : whole n l = l.
Proof. done. Qed.

Notation fd_inv := (FdInv.fd_inv whole).

Lemma whole_guarded T : guarded whole T.
Proof. intros n. by left. Qed.

Section tables.
  Context {X : Type} `{!Network X, !NetworkSpec X}.
  Implicit Types (o : objects X) (T R t : list fd_entry) (st : fdst (X := X)).

Definition st_inv R st : Prop :=
  match ft st with
  | Some t => length t = PROCESS_FD_MAX ∧ fd_inv (t ++ R) (fo st)
  | None => fd_inv R (fo st)
  end.

Lemma table_put R t o fd old e :
  t !! fd = Some old → counted (kind old) = false → fd_inv (e :: t ++ R) o → fd_inv (<[fd := e]> t ++ R) o.
Proof.
  intros Ht Hold. apply fd_inv_refs. intros k i Hk. rewrite refs_app.
  pose proof (refs_insert t fd old e k i Ht) as H. rewrite refs_plain in H by done.
  rewrite refs_cons, refs_app. rewrite refs_cons in H. lia.
Qed.

Lemma table_take R t o fd e :
  t !! fd = Some e → fd_inv (t ++ R) o → fd_inv (e :: <[fd := FREE_ENTRY]> t ++ R) o.
Proof.
  intros Ht. apply fd_inv_refs. intros k i Hk.
  pose proof (refs_insert t fd e FREE_ENTRY k i Ht) as H. rewrite (refs_plain FREE_ENTRY) in H by done.
  rewrite refs_cons, !refs_app. rewrite refs_cons in H. lia.
Qed.

Lemma is_kind_true k e : is_kind k e = true ↔ kind e = k.
Proof. apply bool_decide_eq_true. Qed.
Lemma is_kind_false k e : is_kind k e = false ↔ kind e ≠ k.
Proof. apply bool_decide_eq_false. Qed.

Lemma allocate_Some a st fd :
  0 ≤ a → allocate_fd_slot a st = Some fd →
  ∃ t e, ft st = Some t ∧ t !! fd = Some e ∧ kind e = FD_FREE ∧ a ≤ Z.of_nat fd < Z.of_nat PROCESS_FD_MAX.
Proof.
  intros Ha. unfold allocate_fd_slot. destruct (ft st) as [t|]; [|done].
  intros (x & (Hr & Hp & _)%scan_Some & ->)%fmap_Some.
  destruct (t !! Z.to_nat x) as [e|] eqn:He; [|done]. apply is_kind_true in Hp.
  exists t, e. split_and!; [done..| |]; lia.
Qed.

Lemma get_fd_entry_Some fd st e :
  get_fd_entry fd st = Some e → ∃ t, ft st = Some t ∧ t !! Z.to_nat fd = Some e ∧ kind e ≠ FD_FREE.
Proof.
  unfold get_fd_entry. destruct (ft st) as [t|]; [|done]. case_match; [done|].
  destruct (t !! Z.to_nat fd) as [e'|] eqn:He; [|done]. destruct (is_kind FD_FREE e') eqn:Hf; [done|].
  intros [= <-]. exists t. split_and!; [done..|]. by apply is_kind_false.
Qed.

(** A new object and a descriptor for it. *)
Lemma install_inv R st fd e o' :
  st_inv R st → allocate_fd_slot 3 st = Some fd → bump (fo st) o' [(e, 1)] →
  st_inv R (set_entry fd e (Fdst (ft st) o')).
Proof.
  unfold st_inv. intros Hst Ha Hb. destruct (allocate_Some 3 st fd ltac:(lia) Ha) as (t & old & Ht & Hl & Hk & _).
  simpl. rewrite Ht in *. simpl. destruct Hst as [Hlen Hinv]. split; [by rewrite length_insert|].
  eapply table_put; [done|by rewrite Hk|]. by eapply bump_add.
Qed.

Lemma close_inv R st fd : st_inv R st → st_inv R (close_fd_internal fd st).
Proof.
  unfold st_inv, close_fd_internal. intros Hst. destruct (get_fd_entry fd st) as [e|] eqn:He; [|done].
  apply get_fd_entry_Some in He as (t & Ht & Hl & _). simpl. rewrite Ht in *. simpl.
  destruct Hst as [Hlen Hinv]. split; [by rewrite length_insert|].
  by apply release_entry_inv, table_take; [apply whole_guarded|..].
Qed.

Lemma sys_close_inv R r st : st_inv R st → st_inv R (sys_close r st).2.
Proof. intros Hst. unfold sys_close. case_match; [by apply close_inv|done]. Qed.

(** A free object of an array, as the creating calls find it. *)
Lemma find_free {O} (u : O → bool) l i :
  find_idx (λ x, negb (u x)) l = Some i → ∃ x, l !! i = Some x ∧ u x = false.
Proof. intros (x & Hx & Hu & _)%find_idx_Some. exists x. split; [done|]. by apply negb_true_iff. Qed.

Lemma st_inv_wf R st : st_inv R st → objects_wf (fo st).
Proof. unfold st_inv. destruct (ft st); intros H; apply H. Qed.

Lemma install_vnode_inv R node flags st : st_inv R st → st_inv R (install_vnode_fd node flags st).2.
Proof.
  intros Hst. unfold install_vnode_fd. destruct (find_idx _ _) as [h|] eqn:Hf; [|done].
  destruct (allocate_fd_slot 3 st) as [fd|] eqn:Ha; [|done]. simpl.
  apply find_free in Hf as (x & Hx & Hu).
  apply (install_inv R st fd (FdEntry FD_VNODE (Z.of_nat h))
    (upd_file h (λ _, FileHandle true 0 1 0 flags node) (fo st))); [done..|].
  eapply bump_eq; [apply (bump_file _ h x); [by eapply st_inv_wf|done|done]|].
  unfold file_refs. simpl. by rewrite Hu.
Qed.

Lemma eventfd2_inv R r st : st_inv R st → st_inv R (sys_eventfd2 r st).2.
Proof.
  intros Hst. unfold sys_eventfd2. case_match; [done|]. destruct (ft st) as [t|] eqn:Ht; [|done].
  destruct (find_idx _ _) as [h|] eqn:Hf; [|done].
  destruct (allocate_fd_slot 3 st) as [fd|] eqn:Ha; [|done]. simpl.
  apply find_free in Hf as (x & Hx & Hu).
  eapply (install_inv R st fd (FdEntry FD_EVENTFD (Z.of_nat h))); [done..|].
  eapply bump_eq; [apply (bump_event _ h x); [by eapply st_inv_wf|done|done]|].
  unfold event_refs. simpl. by rewrite Hu.
Qed.

Lemma install_device_inv R k d st : counted k = false → st_inv R st → st_inv R (install_device_fd k d st).2.
Proof.
  intros Hk Hst. unfold install_device_fd. destruct (allocate_fd_slot 3 st) as [fd|] eqn:Ha; [|done].
  apply allocate_Some in Ha as (t & old & Ht & Hl & Hold & _); [|lia]. unfold st_inv in *. simpl.
  rewrite Ht in *. simpl. destruct Hst as [Hlen Hinv]. split; [by rewrite length_insert|].
  eapply table_put; [done|by rewrite Hold|]. eapply fd_inv_refs; [|done].
  intros. by rewrite refs_plain.
Qed.

(** Two new references in two free entries of the table. *)
Lemma install_two_inv R st fd1 fd2 e1 e2 o' :
  st_inv R st → allocate_fd_slot 3 st = Some fd1 → allocate_fd_slot (Z.of_nat fd1 + 1) st = Some fd2 →
  bump (fo st) o' [(e1, 1); (e2, 1)] →
  st_inv R (set_entry fd2 e2 (set_entry fd1 e1 (Fdst (ft st) o'))).
Proof.
  unfold st_inv. intros Hst Ha1 Ha2 Hb.
  destruct (allocate_Some 3 st fd1 ltac:(lia) Ha1) as (t & old1 & Ht & Hl1 & Hk1 & _).
  destruct (allocate_Some (Z.of_nat fd1 + 1) st fd2 ltac:(lia) Ha2) as (t' & old2 & Ht' & Hl2 & Hk2 & Hr).
  simpl. rewrite Ht in *. injection Ht' as <-. simpl. destruct Hst as [Hlen Hinv].
  split; [by rewrite !length_insert|].
  eapply table_put; [by rewrite list_lookup_insert_ne by lia|by rewrite Hk2|].
  assert (Hswap : fd_inv (e1 :: t ++ e2 :: R) o').
  { eapply fd_inv_bump; [exact Hinv|done|]. intros k i _. rewrite refs_cons, !refs_app, refs_cons.
    simpl. unfold at_. lia. }
  pose proof (table_put (e2 :: R) t o' fd1 old1 e1 Hl1 ltac:(by rewrite Hk1) Hswap) as H.
  eapply fd_inv_refs; [|exact H].
  intros k i _. rewrite refs_cons, !refs_app, refs_cons. lia.
Qed.

Lemma sys_pipe_inv R r st : st_inv R st → st_inv R (sys_pipe r st).2.
Proof.
  intros Hst. unfold sys_pipe. destruct (ft st) as [t|] eqn:Ht; [|done]. case_match; [done|].
  destruct (find_idx _ _) as [n|] eqn:Hf; [|done].
  destruct (allocate_fd_slot 3 st) as [fd1|] eqn:Ha1; [|done].
  destruct (allocate_fd_slot (Z.of_nat fd1 + 1) st) as [fd2|] eqn:Ha2; [|done]. cbn [snd].
  apply find_free in Hf as (x & Hx & Hu). apply (install_two_inv R st fd1 fd2 _ _ _ Hst Ha1 Ha2).
  assert (Hb := bump_pipe (fo st) n x (λ _, Pipe true 1 1 0 0 0 (arr_fill 0)) (st_inv_wf R st Hst) Hx).
  unfold reader_refs, writer_refs in Hb. rewrite Hu in Hb. apply Hb. intros _. split; [simpl; lia|].
  split_and!; simpl; unfold PIPE_SIZE; done || lia.
Qed.

Lemma sys_pipe2_inv R r st : st_inv R st → st_inv R (sys_pipe2 r st).2.
Proof. intros Hst. unfold sys_pipe2. case_match; [done|by apply sys_pipe_inv]. Qed.

Lemma install_socket_inv R family type protocol st :
  st_inv R st → st_inv R (install_socket_fd family type protocol st).2.
Proof.
  intros Hst. unfold install_socket_fd. cbv zeta. destruct (orb _ (sock_flags_bad type)); [done|].
  destruct (orb (andb _ (negb (protocol =? 0))) _); [done|].
  destruct (find_idx _ _) as [n|] eqn:Hf; [|done].
  destruct (allocate_fd_slot 3 st) as [fd|] eqn:Ha; [|done].
  destruct (allocate_socket_port (fo st)) as [port o1] eqn:Hp. cbn [snd].
  apply find_free in Hf as (x & Hx & Hu). apply (install_inv R st fd); [done..|].
  assert (Ho1 : same_counts (fo st) o1 ∧ g_socket_objects o1 = g_socket_objects (fo st)).
  { unfold allocate_socket_port in Hp. injection Hp as _ <-. done. }
  destruct Ho1 as [Ho1 Hsock].
  match goal with |- bump _ (set_net _ ?o2) _ => apply (bump_same_r _ o2); [|by split_and!] end.
  change ([(FdEntry FD_SOCKET (Z.of_nat n), 1)]) with ([] ++ [(FdEntry FD_SOCKET (Z.of_nat n), 1)]).
  assert (Hb0 : bump (fo st) o1 []).
  { apply (bump_same_r _ (fo st)); [|done]. split; [by eapply st_inv_wf|done|]. intros. simpl. lia. }
  eapply bump_trans; [done|].
  apply (bump_new_socket _ n x); try done; [apply Hb0|by rewrite Hsock].
Qed.

Lemma two_free_Some l i j :
  two_free_sockets l = Some (i, j) → i ≠ j ∧
  ∃ s s', l !! i = Some s ∧ so_in_use s = false ∧ l !! j = Some s' ∧ so_in_use s' = false.
Proof.
  unfold two_free_sockets. destruct (find_idx _ l) as [a|] eqn:Ha; [|done].
  destruct (find_idx _ (drop (S a) l)) as [b|] eqn:Hb; [|done]. intros [= <- <-].
  apply find_free in Ha as (s & Hs & Hu), Hb as (s' & Hs' & Hu'). rewrite lookup_drop in Hs'.
  split; [lia|]. by exists s, s'.
Qed.

Lemma socketpair_inv R r st : st_inv R st → st_inv R (sys_socketpair r st).2.
Proof.
  intros Hst. unfold sys_socketpair. cbv zeta. destruct (ft st) as [t|] eqn:Ht; [|done].
  case_match; [done|]. case_match; [done|].
  destruct (two_free_sockets _) as [[i j]|] eqn:Hf; [|done].
  destruct (allocate_fd_slot 3 st) as [fd1|] eqn:Ha1; [|done].
  destruct (allocate_fd_slot (Z.of_nat fd1 + 1) st) as [fd2|] eqn:Ha2; [|done]. cbn [snd].
  apply two_free_Some in Hf as (Hij & s & s' & Hs & Hu & Hs' & Hu').
  rewrite <- Ht. apply (install_two_inv R st fd1 fd2 _ _ _ Hst Ha1 Ha2).
  set (pair_ peer := Socket true SOCK_CONNECTED LINUX_AF_UNIX (s32 (rsi r) .& LINUX_SOCK_TYPE_MASK)
                       0 0 1 (Z.of_nat peer) 0 (replicate 4 (FdEntry FD_FREE 0))).
  assert (H1 : bump (fo st) (upd_socket i (λ _, pair_ j) (fo st)) [(FdEntry FD_SOCKET (Z.of_nat i), 1)])
    by (apply (bump_new_socket _ i s); try done; by eapply st_inv_wf).
  assert (H2 : bump (upd_socket i (λ _, pair_ j) (fo st))
    (upd_socket j (λ _, pair_ i) (upd_socket i (λ _, pair_ j) (fo st))) [(FdEntry FD_SOCKET (Z.of_nat j), 1)]).
  { apply (bump_new_socket _ j s'); try done; [by eapply bu_wf|]. simpl. by rewrite list_lookup_alter_ne. }
  eapply bump_same_r; [exact (bump_trans _ _ _ _ _ H1 H2)|split_and!; done].
Qed.

(** ** Copying a descriptor *)

Lemma copy_to_inv R st t target x e :
  st_inv R st → ft st = Some t → t !! target = Some x → counted (kind x) = false → e ∈ t →
  Z.of_nat (length R) < 2 ^ 30 →
  st_inv R (on_objects (retain_fd_entry_refs e) (set_entry target e st)).
Proof.
  unfold st_inv. intros Hst Ht Hx Hk He HR. simpl. rewrite Ht in *. simpl. destruct Hst as [Hlen Hinv].
  split; [by rewrite length_insert|]. eapply table_put; [done..|].
  apply retain_inv; [apply whole_length|done| |].
  - intros _. rewrite <- app_assoc. apply elem_of_app. by left.
  - rewrite length_app, Hlen. unfold PROCESS_FD_MAX. lia.
Qed.

(** After a successful copy the handle is there. *)
Lemma copied_handle R st t target e :
  st_inv R st → ft st = Some t → t !! target = Some e → kind e = FD_VNODE →
  is_Some (get_file_handle_by_index (handle_index e) (fo st)).
Proof.
  unfold st_inv. intros Hst Ht He Hk. rewrite Ht in Hst. destruct Hst as [_ Hinv].
  assert (Hpos : 0 < stored (fo st) (kind e) (handle_index e)).
  { eapply stored_pos; [exact Hinv|by rewrite Hk|]. apply elem_of_app. left. apply elem_of_app. left.
    by eapply list_elem_of_lookup_2. }
  rewrite Hk in Hpos. simpl in Hpos. apply held_pos in Hpos as (n & h & _ & _ & _ & Hb & _).
  unfold get_file_handle_by_index. rewrite Hb. by eexists.
Qed.

Lemma copy_entry_inv R st t target x e :
  st_inv R st → ft st = Some t → t !! target = Some x → kind x = FD_FREE → e ∈ t →
  Z.of_nat (length R) < 2 ^ 30 → st_inv R (copy_entry e target st).2.
Proof.
  intros Hst Ht Hx Hfree Hin HR. unfold copy_entry. cbv zeta.
  assert (Hnew : st_inv R (on_objects (retain_fd_entry_refs e) (set_entry target e st)))
    by (eapply copy_to_inv; [done..|by rewrite Hfree|done|done]).
  destruct (is_kind FD_VNODE e) eqn:Hv; [|done]. apply is_kind_true in Hv.
  destruct (copied_handle R _ (<[target := e]> t) target e Hnew) as [h ->]; [| |done|done].
  - simpl. by rewrite Ht.
  - apply list_lookup_insert_eq. by eapply lookup_lt_Some.
Qed.

Lemma close_free R st t fd :
  st_inv R st → ft st = Some t → 0 ≤ fd < Z.of_nat PROCESS_FD_MAX →
  ∃ t' x, ft (close_fd_internal fd st) = Some t' ∧ t' !! Z.to_nat fd = Some x ∧ kind x = FD_FREE
    ∧ ∀ j e, j ≠ Z.to_nat fd → t !! j = Some e → t' !! j = Some e.
Proof.
  unfold st_inv. intros Hst Ht Hfd. rewrite Ht in Hst. destruct Hst as [Hlen _].
  destruct (lookup_lt_is_Some_2 t (Z.to_nat fd)) as [x Hx]; [unfold PROCESS_FD_MAX in *; lia|].
  unfold close_fd_internal. destruct (get_fd_entry fd st) as [e|] eqn:He.
  - exists (<[Z.to_nat fd := FREE_ENTRY]> t), FREE_ENTRY. simpl. rewrite Ht. simpl. split_and!; try done.
    + apply list_lookup_insert_eq. by eapply lookup_lt_Some.
    + intros j e' Hj. by rewrite list_lookup_insert_ne.
  - exists t, x. split_and!; try done. unfold get_fd_entry in He. rewrite Ht in He.
    rewrite (proj2 (Z.leb_gt _ _)), Hx in He by lia. destruct (is_kind FD_FREE x) eqn:Hk; [|done].
    by apply is_kind_true.
Qed.

Lemma dup_inv R oldfd newfd ow st :
  0 ≤ oldfd → Z.of_nat (length R) < 2 ^ 30 → st_inv R st → st_inv R (dup_fd_common oldfd newfd ow st).2.
Proof.
  intros Hold HR Hst. unfold dup_fd_common. destruct (get_fd_entry oldfd st) as [e|] eqn:He; [|done].
  apply get_fd_entry_Some in He as (t & Ht & Hl & Hk).
  destruct (Z.leb_spec 0 newfd) as [Hnn|_].
  - destruct (Z.leb_spec (Z.of_nat PROCESS_FD_MAX) newfd) as [|Hlt]; [done|].
    destruct (Z.eqb_spec newfd oldfd) as [|Hne]; [done|]. destruct ow.
    + destruct (close_free R st t newfd Hst Ht) as (t' & x & Ht' & Hx & Hfree & Hkeep); [lia|].
      eapply copy_entry_inv; [by apply close_inv|done..| |done].
      eapply list_elem_of_lookup_2, Hkeep; [|done]. lia.
    + destruct (get_fd_entry newfd st) as [e'|] eqn:He'; [done|].
      destruct (lookup_lt_is_Some_2 t (Z.to_nat newfd)) as [x Hx].
      { unfold st_inv in Hst. rewrite Ht in Hst. unfold PROCESS_FD_MAX in *. destruct Hst. lia. }
      eapply copy_entry_inv; [done..| |by eapply list_elem_of_lookup_2|done].
      unfold get_fd_entry in He'. rewrite Ht, (proj2 (Z.leb_gt _ _)), Hx in He' by lia.
      destruct (is_kind FD_FREE x) eqn:Hkx; [|done]. by apply is_kind_true.
  - destruct (allocate_fd_slot 0 st) as [target|] eqn:Ha; [|done].
    apply allocate_Some in Ha as (t' & x & Ht' & Hx & Hfree & _); [|lia]. simplify_eq.
    eapply copy_entry_inv; [done..|by eapply list_elem_of_lookup_2|done].
Qed.

(** ** Passing descriptors *)

(** Retaining changes no queue. *)
Lemma retain_kept e o n : qcore <$> cores (retain_fd_entry_refs e o) !! n = qcore <$> cores o !! n.
Proof.
  unfold retain_fd_entry_refs. destruct (kind e); try done; try (by case_match).
  destruct (get_socket_by_index _ o) as [m|] eqn:Hm; [|done].
  apply by_index_Some in Hm as (_ & s & Hs & _). rewrite (cores_upd _ _ _ s) by done.
  destruct (decide (n = m)) as [->|]; [|by rewrite list_lookup_insert_ne].
  rewrite list_lookup_insert_eq, (cores_lookup _ _ _ Hs); [done|].
  eapply lookup_lt_Some. by apply cores_lookup.
Qed.

(** A socket in use with an empty queue and the given array. *)
Definition idle_at o (n : nat) (fds : list fd_entry) : Prop :=
  qcore <$> cores o !! n = Some (true, 0, fds).

Lemma idle_socket o n fds :
  idle_at o n fds → ∃ s, g_socket_objects o !! n = Some s ∧ so_in_use s = true
    ∧ rx_ancillary_fd_count s = 0 ∧ rx_ancillary_fds s = fds.
Proof.
  unfold idle_at, cores. rewrite list_lookup_fmap. destruct (g_socket_objects o !! n) as [s|]; [|done].
  simpl. intros [= H1 H2 H3]. by exists s.
Qed.

(** The array of an idle socket may change: it is not counted. *)
Lemma idle_store T o n fds fds' :
  fd_inv T o → idle_at o n fds → length fds' = length fds →
  let o' := upd_socket n (λ s, so_set_fds (rx_ancillary_fd_count s) fds' s) o in
  fd_inv T o' ∧ idle_at o' n fds'.
Proof.
  intros Hinv Hidle Hlen o'. destruct (idle_socket o n fds Hidle) as (s & Hs & Hu & Hc & Hf).
  pose proof (ow_core _ (proj1 Hinv) n _ (cores_lookup _ _ _ Hs)) as (W1 & W2 & W3).
  simpl in W1, W2, W3. split.
  - eapply fd_inv_bump; [exact Hinv|apply (bump_socket _ n s); try done; [by apply Hinv|..]|].
    + split; simpl; [congruence|done].
    + unfold queue. simpl. rewrite Hu, Hc. done.
    + intros k i _. unfold socket_refs. simpl. lia.
  - unfold idle_at, o'. rewrite (cores_upd _ _ _ s), list_lookup_insert_eq by
      (done || (eapply lookup_lt_Some; by apply cores_lookup)).
    cbn [fmap option_fmap option_map]. unfold qcore. simpl. by rewrite Hu, Hc.
Qed.

(** Queueing entries one by one, from position [j] on. *)
Lemma attach_loop peer rights : ∀ j T o fds,
  fd_inv T o → idle_at o peer fds → length fds = 4%nat → (j + length rights ≤ 4)%nat →
  Forall (λ e, counted (kind e) = true → e ∈ T) rights → Z.of_nat (length T + length rights) < 2 ^ 31 →
  let o' := foldl (λ o '(k, e), retain_fd_entry_refs e
              (upd_socket peer (λ s, so_set_fds (rx_ancillary_fd_count s)
                                       (<[k := e]> (rx_ancillary_fds s)) s) o))
              o (imap (λ k e, ((j + k)%nat, e)) rights) in
  ∃ T', fd_inv T' o' ∧ (∀ k i, refs T' k i = refs rights k i + refs T k i)
    ∧ idle_at o' peer (take j fds ++ rights ++ drop (j + length rights) fds).
Proof.
  induction rights as [|e rights IH]; intros j T o fds Hinv Hidle Hlen Hj Hin HT o'.
  { exists T. split_and!; [done|done|]. cbn [app length] in *. rewrite Nat.add_0_r, take_drop. done. }
  apply Forall_cons in Hin as [He Hin]. cbn [length] in *.
  destruct (idle_socket o peer fds Hidle) as (s & Hs & _ & _ & Hf).
  destruct (idle_store T o peer fds (<[j := e]> fds) Hinv Hidle) as [Hinv1 Hidle1]; [apply length_insert|].
  assert (Hupd : upd_socket peer (λ s, so_set_fds (rx_ancillary_fd_count s) (<[j := e]> (rx_ancillary_fds s)) s) o
    = upd_socket peer (λ s, so_set_fds (rx_ancillary_fd_count s) (<[j := e]> fds) s) o).
  { unfold upd_socket. f_equal. apply list_eq. intros m. destruct (decide (m = peer)) as [->|].
    - rewrite !list_lookup_alter_eq, Hs. simpl. by rewrite Hf.
    - by rewrite !list_lookup_alter_ne. }
  set (o1 := upd_socket peer (λ s, so_set_fds (rx_ancillary_fd_count s) (<[j := e]> fds) s) o) in *.
  destruct (IH (S j) (e :: T) (retain_fd_entry_refs e o1) (<[j := e]> fds)) as (T' & H1 & H2 & H3).
  - apply retain_inv; [apply whole_length|done| |lia]. intros Hk. apply elem_of_app. left. by apply He.
  - unfold idle_at. rewrite retain_kept. exact Hidle1.
  - by rewrite length_insert.
  - lia.
  - eapply Forall_impl; [exact Hin|]. intros x Hx Hk. right. by apply Hx.
  - cbn [length]. lia.
  - assert (Ho : o' = foldl (λ o '(k, e), retain_fd_entry_refs e
              (upd_socket peer (λ s, so_set_fds (rx_ancillary_fd_count s)
                                       (<[k := e]> (rx_ancillary_fds s)) s) o))
              (retain_fd_entry_refs e o1) (imap (λ k e, ((S j + k)%nat, e)) rights)).
    { unfold o'. rewrite imap_cons. cbn [foldl]. rewrite Nat.add_0_r, Hupd. f_equal.
      apply imap_ext. intros k x _. simpl. f_equal. lia. }
    rewrite Ho. exists T'. split_and!; [exact H1| |].
    + intros k i. rewrite H2, !refs_cons. lia.
    + replace (take j fds ++ (e :: rights) ++ drop (j + S (length rights)) fds)
        with (take (S j) (<[j := e]> fds) ++ rights ++ drop (S j + length rights) (<[j := e]> fds)); [exact H3|].
      rewrite (take_S_r _ j e) by (apply list_lookup_insert_eq; lia).
      rewrite take_insert_ge, drop_insert_lt by lia. rewrite <- app_assoc.
      by replace (S j + length rights)%nat with (j + S (length rights))%nat by lia.
Qed.

(** Queued descriptors keep their references until they are received or dropped. *)
Lemma attach_inv T o i rights :
  fd_inv T o → (length rights ≤ 4)%nat → Forall (λ e, counted (kind e) = true → e ∈ T) rights →
  Z.of_nat (length T) < 2 ^ 30 →
  (∀ peer, get_socket_by_index (so_peer_index (socket i o)) o = Some peer →
     rx_ancillary_fd_count (socket peer o) = 0) →
  fd_inv T (attach_rights i rights o).2.
Proof.
  intros Hinv Hlen Hin HT Hpeer. unfold attach_rights. destruct rights as [|e rights]; [done|].
  destruct (get_socket_by_index _ o) as [peer|] eqn:Hp; [|done]. specialize (Hpeer peer eq_refl).
  apply by_index_Some in Hp as (_ & s & Hs & Hu). set (l := e :: rights) in *. clearbody l. cbn [snd].
  unfold socket in Hpeer. rewrite Hs in Hpeer. simpl in Hpeer.
  pose proof (ow_core _ (proj1 Hinv) peer _ (cores_lookup _ _ _ Hs)) as (W1 & _). simpl in W1.
  assert (Hidle : idle_at o peer (rx_ancillary_fds s)).
  { unfold idle_at. rewrite (cores_lookup _ _ _ Hs). simpl. unfold qcore. simpl. by rewrite Hu, Hpeer. }
  destruct (attach_loop peer l 0 T o (rx_ancillary_fds s)) as (T' & H1 & H2 & H3); [done..|lia|].
  rewrite take_0 in H3. cbn [Nat.add app] in H1, H3.
  change (imap (λ k e, (k, e)) l) with (imap pair l) in H1, H3.
  revert H1 H3. generalize (foldl (λ o '(k, e), retain_fd_entry_refs e
    (upd_socket peer (λ s, so_set_fds (rx_ancillary_fd_count s) (<[k := e]> (rx_ancillary_fds s)) s) o))
    o (imap pair l)) as o1. intros o1 H1 H3.
  destruct (idle_socket o1 peer _ H3) as (s1 & Hs1 & Hu1 & Hc1 & Hf1).
  pose proof (ow_core _ (proj1 H1) peer _ (cores_lookup _ _ _ Hs1)) as (V1 & _ & V3). simpl in V1, V3.
  split.
  - apply (upd_socket_wf _ _ _ s1); [apply H1|done|]. split; [done|].
    split; [change (0 ≤ Z.of_nat (length l) ≤ 4); lia|done].
  - intros k j Hk. pose proof (proj2 H1 k j Hk) as Hcnt.
    pose proof (upd_socket_flight whole o1 peer
      (λ s, so_set_fds (Z.of_nat (length l)) (rx_ancillary_fds s) s) s1 k j Hs1) as Hfl.
    rewrite (upd_socket_stored _ _ _ s1) by done.
    rewrite !whole_eq in Hfl. unfold queue in Hfl. simpl in Hfl. rewrite Hu1, Hc1, Nat2Z.id, Hf1 in Hfl.
    rewrite take_app_length, take_0 in Hfl.
    change (refs [] k j) with 0 in Hfl.
    rewrite refs_app in Hcnt |- *. rewrite H2 in Hcnt.
    assert (Hst : stored o1 FD_SOCKET (Z.of_nat peer) = so_refcount s1)
      by (rewrite stored_socket; by apply held_use).
    destruct k; try done; try (simpl stored in *; lia).
    case_decide; [|lia]. subst. simpl. rewrite Hu1. lia.
Qed.

(** Entry [k] of the queue of socket [i] does not count. *)
Definition masked (i k n : nat) (l : list fd_entry) : list fd_entry :=
  if decide (n = i) then <[k := FREE_ENTRY]> l else l.

Lemma masked_length i k n l : (length (masked i k n l) ≤ length l)%nat.
Proof. unfold masked. case_decide; [by rewrite length_insert|done]. Qed.

Lemma masked_guarded i k T : FdEntry FD_SOCKET (Z.of_nat i) ∈ T → guarded (masked i k) T.
Proof. intros Hin n. unfold masked. destruct (decide (n = i)) as [->|]; [by right|by left]. Qed.

Lemma masked_imap i k qs q :
  qs !! i = Some q → imap (masked i k) qs = imap whole (<[i := <[k := FREE_ENTRY]> q]> qs).
Proof.
  intros Hq. apply list_eq. intros n. rewrite !list_lookup_imap. unfold masked, whole.
  destruct (decide (n = i)) as [->|].
  - by rewrite Hq, list_lookup_insert_eq by (by eapply lookup_lt_Some).
  - by rewrite list_lookup_insert_ne.
Qed.

(** Its reference is taken out of the queue, *)
Lemma mask_out T o i k s e :
  fd_inv T o → g_socket_objects o !! i = Some s → queue (core_of s) !! k = Some e →
  FdInv.fd_inv (masked i k) (e :: T) o.
Proof.
  intros Hinv Hs He. split; [apply Hinv|]. intros k' j Hk'. rewrite <- (proj2 Hinv k' j Hk').
  cbn [app]. rewrite refs_cons, !refs_app. unfold in_flight.
  pose proof (queues_lookup _ _ _ Hs) as Hq. rewrite (masked_imap _ _ _ _ Hq).
  pose proof (refs_concat_insert whole (queues o) i _ (<[k := FREE_ENTRY]> (queue (core_of s))) k' j Hq) as Hc.
  rewrite !whole_eq in Hc. pose proof (refs_insert _ k e FREE_ENTRY k' j He) as Hr.
  rewrite (refs_plain FREE_ENTRY), refs_cons in Hr by done. lia.
Qed.

(** and the entry is then free. *)
Lemma mask_clear T o i k s :
  FdInv.fd_inv (masked i k) T o → g_socket_objects o !! i = Some s →
  (k < Z.to_nat (rx_ancillary_fd_count s))%nat → fd_inv T (clear_queued i k o).
Proof.
  intros [Hwf Hinv] Hs Hk. pose proof (ow_core _ Hwf i _ (cores_lookup _ _ _ Hs)) as (V1 & V2 & V3).
  simpl in V1, V2, V3. split.
  - apply (upd_socket_wf _ _ _ s); [done..|]. split; simpl; [by rewrite length_insert|done].
  - intros k' j Hk'. specialize (Hinv k' j Hk').
    replace (stored (clear_queued i k o) k' j) with (stored o k' j).
    2:{ unfold clear_queued. rewrite (upd_socket_stored _ _ _ s) by done. destruct k'; try done.
        case_decide; [|done]. subst. rewrite stored_socket, (held_cnt _ _ _ _ s) by done. done. }
    rewrite <- Hinv. unfold in_flight, clear_queued.
    rewrite (masked_imap _ _ _ _ (queues_lookup _ _ _ Hs)), (queues_upd _ _ _ s) by done.
    unfold queue. simpl. destruct (so_in_use s); [|done]. by rewrite take_insert_lt by lia.
Qed.

(** One entry of a queue is dropped while a table refers to the socket. *)
Lemma drop_queued_inv T o i k s :
  fd_inv T o → FdEntry FD_SOCKET (Z.of_nat i) ∈ T → g_socket_objects o !! i = Some s →
  so_in_use s = true → (k < Z.to_nat (rx_ancillary_fd_count s))%nat →
  let o' := clear_queued i k (release_fd_entry_refs (queued i k o) o) in
  fd_inv T o' ∧ ∃ s', g_socket_objects o' !! i = Some s' ∧ so_in_use s' = true
    ∧ rx_ancillary_fd_count s' = rx_ancillary_fd_count s
    ∧ rx_ancillary_fds s' = <[k := FREE_ENTRY]> (rx_ancillary_fds s).
Proof.
  intros Hinv Hin Hs Hu Hk o'.
  pose proof (ow_core _ (proj1 Hinv) i _ (cores_lookup _ _ _ Hs)) as (W1 & W2 & _). simpl in W1, W2.
  assert (He : queue (core_of s) !! k = Some (queued i k o)).
  { unfold queue, queued, socket. simpl. rewrite Hs, Hu, lookup_take_lt by done. simpl.
    by destruct (lookup_lt_is_Some_2 (rx_ancillary_fds s) k ltac:(lia)) as [x ->]. }
  destruct (release_entry_ok (masked i k) T o (queued i k o) (masked_guarded i k T Hin))
    as (Hinv1 & _ & Hkept); [by eapply mask_out|].
  unfold o'. revert Hinv1 Hkept. generalize (release_fd_entry_refs (queued i k o) o) as o1.
  intros o1 Hinv1 Hkept. specialize (Hkept i Hin). rewrite (cores_lookup _ _ _ Hs) in Hkept.
  unfold cores in Hkept. rewrite list_lookup_fmap in Hkept.
  destruct (g_socket_objects o1 !! i) as [s1|] eqn:Hs1; [|done]. simpl in Hkept.
  injection Hkept as Eu Ec Ef. split.
  - apply (mask_clear _ _ _ _ s1); [done..|]. by rewrite Ec.
  - unfold clear_queued. simpl. rewrite list_lookup_alter_eq, Hs1. simpl. eexists. split; [done|].
    simpl. by rewrite Eu, Ec, Ef.
Qed.

(** The first [j] entries of the array own nothing any more. *)
Definition cleared (s : socket_object) (j : nat) : Prop :=
  ∀ k x, (k < j)%nat → rx_ancillary_fds s !! k = Some x → counted (kind x) = false.

Lemma cleared_next s s' j :
  rx_ancillary_fds s' = <[j := FREE_ENTRY]> (rx_ancillary_fds s) → cleared s j → cleared s' (S j).
Proof.
  intros Hf Hc k x Hk Hx. rewrite Hf in Hx. destruct (decide (k = j)) as [->|].
  - apply list_lookup_insert_Some in Hx as [(_ & <- & _)|[? _]]; done.
  - rewrite list_lookup_insert_ne in Hx by done. apply (Hc k); [lia|done].
Qed.

(** The queue is empty again. *)
Lemma finish_inv T o i s :
  fd_inv T o → g_socket_objects o !! i = Some s → so_in_use s = true →
  cleared s (Z.to_nat (rx_ancillary_fd_count s)) →
  fd_inv T (upd_socket i (λ s, so_set_fds 0 (rx_ancillary_fds s) s) o).
Proof.
  intros [Hwf Hinv] Hs Hu Hc. pose proof (ow_core _ Hwf i _ (cores_lookup _ _ _ Hs)) as (V1 & V2 & V3).
  simpl in V1, V2, V3. split.
  - apply (upd_socket_wf _ _ _ s); [done..|]. split; [done|]. split; simpl; [lia|done].
  - intros k j Hk. specialize (Hinv k j Hk).
    pose proof (upd_socket_flight whole o i (λ s, so_set_fds 0 (rx_ancillary_fds s) s) s k j Hs) as Hfl.
    rewrite !whole_eq in Hfl. unfold queue in Hfl. simpl in Hfl. rewrite Hu, take_0 in Hfl.
    change (refs [] k j) with 0 in Hfl.
    assert (Hz : refs (take (Z.to_nat (rx_ancillary_fd_count s)) (rx_ancillary_fds s)) k j = 0).
    { apply countb_zero. intros x [n Hn]%list_elem_of_lookup. apply lookup_take_Some in Hn as [Hn Hlt].
      specialize (Hc n x Hlt Hn). unfold is_kind. rewrite bool_decide_false; [done|]. intros <-. congruence. }
    rewrite (upd_socket_stored _ _ _ s) by done. rewrite refs_app in Hinv |- *.
    destruct k; try done; try lia. case_decide; [|lia]. subst. simpl. rewrite Hu.
    rewrite stored_socket, (held_use _ _ _ _ s) in Hinv by done. lia.
Qed.

(** Dropping the whole queue. *)
Lemma drop_loop T i n : ∀ j o s,
  fd_inv T o → FdEntry FD_SOCKET (Z.of_nat i) ∈ T → g_socket_objects o !! i = Some s →
  so_in_use s = true → (j + n = Z.to_nat (rx_ancillary_fd_count s))%nat → cleared s j →
  let o' := foldl (λ o k, clear_queued i k (release_fd_entry_refs (queued i k o) o)) o (seq j n) in
  fd_inv T (upd_socket i (λ s, so_set_fds 0 (rx_ancillary_fds s) s) o').
Proof.
  induction n as [|n IH]; intros j o s Hinv Hin Hs Hu Hj Hc.
  { simpl. apply (finish_inv T o i s); [done..|]. by replace (Z.to_nat _) with j by lia. }
  cbn [seq foldl].
  destruct (drop_queued_inv T o i j s Hinv Hin Hs Hu) as (Hinv' & s' & Hs' & Hu' & Hc' & Hf'); [lia|].
  apply (IH (S j) _ s'); [done..|rewrite Hc'; lia|by eapply cleared_next].
Qed.

(** Moving entries into free descriptors. *)
Lemma move_loop R i fds : ∀ j st t s,
  st_inv R st → ft st = Some t → g_socket_objects (fo st) !! i = Some s → so_in_use s = true →
  (j + length fds = Z.to_nat (rx_ancillary_fd_count s))%nat → cleared s j → NoDup fds →
  Forall (λ fd, ∃ x, t !! fd = Some x ∧ kind x = FD_FREE) fds →
  let st' := foldl (λ st '(k, fd), on_objects (clear_queued i k) (set_entry fd (queued i k (fo st)) st))
               st (imap (λ k fd, ((j + k)%nat, fd)) fds) in
  st_inv R (on_objects (upd_socket i (λ s, so_set_fds 0 (rx_ancillary_fds s) s)) st').
Proof.
  induction fds as [|fd fds IH]; intros j st t s Hst Ht Hs Hu Hj Hc Hnd Hfree.
  { simpl. unfold st_inv in *. simpl. rewrite Ht in *. destruct Hst as [Hlen Hinv]. split; [done|].
    eapply finish_inv; [done..|]. simpl in Hj. by replace (Z.to_nat _) with j by lia. }
  apply NoDup_cons in Hnd as [Hfd Hnd]. apply Forall_cons in Hfree as [(x & Hx & Hk) Hfree].
  cbn [length] in Hj. unfold st_inv in Hst. rewrite Ht in Hst. destruct Hst as [Hlen Hinv].
  pose proof (ow_core _ (proj1 Hinv) i _ (cores_lookup _ _ _ Hs)) as (W1 & W2 & _). simpl in W1, W2.
  assert (He : queue (core_of s) !! j = Some (queued i j (fo st))).
  { unfold queue, queued, socket. simpl. rewrite Hs, Hu, lookup_take_lt by lia. simpl.
    by destruct (lookup_lt_is_Some_2 (rx_ancillary_fds s) j ltac:(lia)) as [y ->]. }
  pose proof (mask_out _ _ _ _ _ _ Hinv Hs He) as Hout.
  rewrite imap_cons. cbn [foldl]. rewrite Nat.add_0_r.
  set (e := queued i j (fo st)) in *. set (st1 := on_objects (clear_queued i j) (set_entry fd e st)).
  assert (Hs1 : ∃ s1, g_socket_objects (fo st1) !! i = Some s1 ∧ so_in_use s1 = true
    ∧ rx_ancillary_fd_count s1 = rx_ancillary_fd_count s
    ∧ rx_ancillary_fds s1 = <[j := FREE_ENTRY]> (rx_ancillary_fds s)).
  { simpl. rewrite list_lookup_alter_eq, Hs. by eexists. }
  destruct Hs1 as (s1 & Hs1 & Hu1 & Hc1 & Hf1).
  assert (Hst1 : st_inv R st1).
  { unfold st_inv. simpl. rewrite Ht. simpl. split; [by rewrite length_insert|].
    apply (mask_clear _ _ _ _ s); [|done|lia]. eapply FdInv.fd_inv_refs; [|exact Hout].
    intros k n Hkn. pose proof (refs_insert t fd x e k n Hx) as Hr.
    rewrite refs_plain in Hr by (done || by rewrite Hk). rewrite refs_cons in Hr.
    rewrite refs_cons, !refs_app. lia. }
  replace (imap _ fds) with (imap (λ k fd, ((S j + k)%nat, fd)) fds)
    by (apply imap_ext; intros; simpl; f_equal; lia).
  apply (IH (S j) st1 (<[fd := e]> t) s1); try done; [simpl; by rewrite Ht|rewrite Hc1; lia
    |by eapply cleared_next|].
  apply Forall_forall. intros fd' Hin. rewrite Forall_forall in Hfree.
  rewrite list_lookup_insert_ne by (intros ->; done). by apply Hfree.
Qed.

Lemma sublist_filter {A} (p : A → bool) (l : list A) : List.filter p l `sublist_of` l.
Proof. induction l as [|x l IH]; simpl; [done|]. case_match; by constructor. Qed.

(** The free descriptors are distinct and free. *)
Lemma free_fds_ok t n :
  NoDup (take n (free_fds t)) ∧
  Forall (λ fd, ∃ x, t !! fd = Some x ∧ kind x = FD_FREE) (take n (free_fds t)).
Proof.
  unfold free_fds. pose proof (NoDup_seq 0 PROCESS_FD_MAX) as Hseq. revert Hseq.
  generalize (seq 0 PROCESS_FD_MAX) as l. intros l Hl. split.
  - eapply sublist_NoDup; [exact Hl|]. etrans; [apply sublist_take|apply sublist_filter].
  - apply Forall_take, Forall_forall. intros fd [_ Hf]%list_elem_of_In%List.filter_In.
    destruct (t !! fd) as [x|]; [|done]. exists x. split; [done|]. by apply is_kind_true.
Qed.

Lemma deliver_inv R i fits st t s :
  st_inv R st → ft st = Some t → FdEntry FD_SOCKET (Z.of_nat i) ∈ t →
  g_socket_objects (fo st) !! i = Some s → so_in_use s = true →
  st_inv R (deliver_rights i fits st).2.
Proof.
  intros Hst Ht Hin Hs Hu. unfold deliver_rights. cbv zeta.
  assert (socket i (fo st) = s) as -> by (unfold socket; by rewrite Hs). rewrite Ht.
  destruct (Nat.eqb_spec (Z.to_nat (rx_ancillary_fd_count s)) 0); [done|].
  assert (Hc0 : cleared s 0) by (intros k x Hk; lia).
  destruct (free_fds_ok t (Z.to_nat (rx_ancillary_fd_count s))) as [Hnd Hfree]. revert Hnd Hfree.
  generalize (take (Z.to_nat (rx_ancillary_fd_count s)) (free_fds t)) as fds. intros fds Hnd Hfree.
  destruct (_ || _) eqn:Hor; cbn [snd].
  - unfold st_inv in *. simpl. rewrite Ht in *. destruct Hst as [Hlen Hinv]. split; [done|].
    apply (drop_loop (t ++ R) i (Z.to_nat (rx_ancillary_fd_count s)) 0 (fo st) s); try done.
    apply elem_of_app. by left.
  - apply orb_false_iff in Hor as [_ Hlen]. apply negb_false_iff, Nat.eqb_eq in Hlen.
    by apply (move_loop R i fds 0 st t s).
Qed.

End tables.
