(* ===== verification/FdKernel.v ===== *)
(** * Descriptors of the whole kernel

    The processes of [kernel/process.c] and the objects of [kernel/syscall.c] together:
    every system call that creates, copies, passes or closes descriptors and every
    process operation ([fork], [clone], [exit], [kill], ...) keeps the reference counts
    of all objects equal to the descriptors that refer to them. *)

From stdpp Require Import gmultiset.
From S2P Require Import Prelude CString VfsNode ProcessData Process Lifecycle Scheduler ProcessInv ProcessOps.
From S2P Require Import LifecycleOps ProcessProps Fd FdInv FdTables.

#[local] Strategy 100 [select_loop scan_order proc].

(** ** The machine *)

(** Memory management, user memory and registers. *)
Class Hardware (Y : Type) := {
  hw_copy_p4 : Z → Y → Z * Y;
  hw_create_user_space : Z → Y → Z * Y;
  hw_destroy_user_space : Z → Y → Y;
  hw_prepare_user_write : Z → Z → Z → Y → bool * Y;
  hw_switch_page_table : Z → Y → Y;
  hw_load_fs_base : Z → Y → Y;
  hw_store_u32 : Z → Z → Y → Y;
  hw_exec_snapshot : Z → Z → Y → option Z;
  hw_exec_open : cstr → Y → option Z;
  hw_exec_load : cstr → Z → Z → process_t → Z → Y → (Z + exec_image) * Y;
  hw_input_clear_events : Y → Y
}.

Record sys (Y X : Type) := Sys { hw : Y; objs : objects X }.
Arguments Sys {Y X} _ _.
Arguments hw {Y X} _.
Arguments objs {Y X} _.

Definition on_hw {Y X} (f : Y → Y) (m : sys Y X) : sys Y X := Sys (f (hw m)) (objs m).
Definition on_objs {Y X} (f : objects X → objects X) (m : sys Y X) : sys Y X := Sys (hw m) (f (objs m)).

(** The descriptor operations that the process code calls are those of [Fd]. *)
#[export] Instance sys_Machine {Y X} `{!Hardware Y, !Network X} : Machine (sys Y X) := {|
  vmm_copy_p4 a m := let (b, y) := hw_copy_p4 a (hw m) in (b, Sys y (objs m));
  vmm_create_user_space a m := let (b, y) := hw_create_user_space a (hw m) in (b, Sys y (objs m));
  vmm_destroy_user_space a := on_hw (hw_destroy_user_space a);
  vmm_prepare_user_write p a n m := let (b, y) := hw_prepare_user_write p a n (hw m) in (b, Sys y (objs m));
  switch_page_table a := on_hw (hw_switch_page_table a);
  process_load_fs_base a := on_hw (hw_load_fs_base a);
  store_u32 a v := on_hw (hw_store_u32 a v);
  ProcessData.retain_fd_entry_refs e := on_objs (Fd.retain_fd_entry_refs e);
  ProcessData.release_file_handle i := on_objs (Fd.release_file_handle i);
  ProcessData.release_pipe_ref i k := on_objs (Fd.release_pipe_ref i k);
  ProcessData.close_socket_ref i := on_objs (Fd.close_socket_ref i);
  ProcessData.release_eventfd_ref i := on_objs (Fd.release_eventfd_ref i);
  exec_snapshot argv envp m := hw_exec_snapshot argv envp (hw m);
  exec_open path m := hw_exec_open path (hw m);
  exec_load path argv envp p p4 m :=
    let (res, y) := hw_exec_load path argv envp p p4 (hw m) in (res, Sys y (objs m));
  input_clear_events := on_hw hw_input_clear_events
|}.

(** The hardware shows its ledger of address spaces, as a machine does. *)
Class HardwareSpec (Y : Type) `{!Hardware Y} := {
  hw_ledger : Y → ledger_t;
  hw_ledger_copy p4 m a m' : hw_copy_p4 p4 m = (a, m') → hw_ledger m' = handed_out a (hw_ledger m);
  hw_ledger_create p4 m a m' : hw_create_user_space p4 m = (a, m') → hw_ledger m' = handed_out a (hw_ledger m);
  hw_ledger_destroy a m : hw_ledger (hw_destroy_user_space a m) = given_back a (hw_ledger m);
  hw_ledger_load path argv envp p p4 m res m' :
    hw_exec_load path argv envp p p4 m = (res, m') → hw_ledger m' = hw_ledger m;
  hw_ledger_prepare p4 a n m ok m' : hw_prepare_user_write p4 a n m = (ok, m') → hw_ledger m' = hw_ledger m;
  hw_ledger_input m : hw_ledger (hw_input_clear_events m) = hw_ledger m;
  hw_ledger_switch p4 m : hw_ledger (hw_switch_page_table p4 m) = hw_ledger m;
  hw_ledger_fs f m : hw_ledger (hw_load_fs_base f m) = hw_ledger m;
  hw_ledger_store a v m : hw_ledger (hw_store_u32 a v m) = hw_ledger m
}.

(** An address space that is in use. *)
Definition hw_alive {Y} `{!Hardware Y, !HardwareSpec Y} (y : Y) (a : Z) : Prop :=
  ∃ S, hw_ledger y = Some S ∧ (a = 0 ∨ a ∈ S).

(** Any hardware keeps a ledger when its calls are recorded. *)
#[export] Instance recorded_Hardware {Y} `{!Hardware Y} : Hardware (recorded Y) := {|
  hw_copy_p4 p4 r := let (a, y) := hw_copy_p4 p4 (rec_machine r) in (a, Recorded y (handed_out a (rec_ledger r)));
  hw_create_user_space p4 r :=
    let (a, y) := hw_create_user_space p4 (rec_machine r) in (a, Recorded y (handed_out a (rec_ledger r)));
  hw_destroy_user_space a r :=
    Recorded (hw_destroy_user_space a (rec_machine r)) (given_back a (rec_ledger r));
  hw_prepare_user_write p4 a n r :=
    let (ok, y) := hw_prepare_user_write p4 a n (rec_machine r) in (ok, Recorded y (rec_ledger r));
  hw_switch_page_table p4 := on_recorded (hw_switch_page_table p4);
  hw_load_fs_base f := on_recorded (hw_load_fs_base f);
  hw_store_u32 a v := on_recorded (hw_store_u32 a v);
  hw_exec_snapshot argv envp r := hw_exec_snapshot argv envp (rec_machine r);
  hw_exec_open path r := hw_exec_open path (rec_machine r);
  hw_exec_load path argv envp p p4 r :=
    let (res, y) := hw_exec_load path argv envp p p4 (rec_machine r) in (res, Recorded y (rec_ledger r));
  hw_input_clear_events := on_recorded hw_input_clear_events
|}.

#[export] Program Instance recorded_HardwareSpec {Y} `{!Hardware Y} : HardwareSpec (recorded Y) :=
  {| hw_ledger := rec_ledger |}.
Next Obligation. intros Y ? p4 m a m'. simpl. destruct (hw_copy_p4 _ _). by intros [= <- <-]. Qed.
Next Obligation. intros Y ? p4 m a m'. simpl. destruct (hw_create_user_space _ _). by intros [= <- <-]. Qed.
Next Obligation. done. Qed.
Next Obligation.
  intros Y ? path argv envp p p4 m res m'. simpl. destruct (hw_exec_load _ _ _ _ _ _). by intros [= <- <-].
Qed.
Next Obligation. intros Y ? p4 a n m ok m'. simpl. destruct (hw_prepare_user_write _ _ _ _). by intros [= <- <-]. Qed.
Solve Obligations with done.

#[export] Program Instance sys_MachineSpec {Y X} `{!Hardware Y, !HardwareSpec Y, !Network X} :
  MachineSpec (sys Y X) := {| ledger m := hw_ledger (hw m) |}.
Next Obligation.
  intros Y X ??? p4 m a m'. simpl. destruct (hw_copy_p4 p4 (hw m)) as [b y] eqn:E. intros [= <- <-].
  exact (hw_ledger_copy _ _ _ _ E).
Qed.
Next Obligation.
  intros Y X ??? p4 m a m'. simpl. destruct (hw_create_user_space p4 (hw m)) as [b y] eqn:E. intros [= <- <-].
  exact (hw_ledger_create _ _ _ _ E).
Qed.
Next Obligation. intros. apply hw_ledger_destroy. Qed.
Next Obligation.
  intros Y X ??? path argv envp p p4 m res m'. simpl.
  destruct (hw_exec_load path argv envp p p4 (hw m)) as [res' y] eqn:E. intros [= <- <-].
  exact (hw_ledger_load _ _ _ _ _ _ _ _ E).
Qed.
Next Obligation.
  intros Y X ??? p4 a n m ok m'. simpl. destruct (hw_prepare_user_write p4 a n (hw m)) as [b' y] eqn:E.
  intros [= <- <-]. exact (hw_ledger_prepare _ _ _ _ _ _ E).
Qed.
Next Obligation. intros. apply hw_ledger_input. Qed.
Next Obligation. intros. apply hw_ledger_switch. Qed.
Next Obligation. intros. apply hw_ledger_fs. Qed.
Next Obligation. intros. apply hw_ledger_store. Qed.
Solve Obligations with done.

(** ** The invariant *)

Definition plain (t : list fd_entry) : Prop := Forall (λ e, counted (kind e) = false) t.

Definition stopped (p : process_t) : bool := is_status DEAD p || is_status ZOMBIE p.

(** The entries of all descriptor tables. *)
Definition all_fds (l : list process_t) : list fd_entry := concat (fd_table <$> l).

Lemma plain_refs t k i : plain t → counted k = true → refs t k i = 0.
Proof. intros Ht Hk. induction Ht as [|e t He _ IH]; [done|]. by rewrite refs_plain. Qed.

Lemma plain_free (t : list fd_entry) : plain ((λ _, FdEntry FD_FREE (-1)) <$> t).
Proof. apply Forall_forall. intros e (x & -> & _)%list_elem_of_fmap. done. Qed.

Lemma plain_zero : plain (fd_table zero_process).
Proof. apply Forall_replicate. done. Qed.

(** The table of one process and those of the others. *)
Lemma all_fds_split l i p k j :
  l !! i = Some p → refs (all_fds l) k j = refs (fd_table p ++ all_fds (delete i l)) k j.
Proof.
  intros Hp. unfold all_fds. rewrite <- (take_drop_middle l i p Hp) at 1. rewrite delete_take_drop.
  rewrite !fmap_app, fmap_cons, !concat_app. cbn [concat]. rewrite !refs_app. lia.
Qed.

Lemma all_fds_delete_length l i p :
  l !! i = Some p → length (all_fds l) = (length (fd_table p) + length (all_fds (delete i l)))%nat.
Proof.
  intros Hp. unfold all_fds. rewrite <- (take_drop_middle l i p Hp) at 1. rewrite delete_take_drop.
  rewrite !fmap_app, fmap_cons, !concat_app. cbn [concat]. rewrite !length_app. lia.
Qed.

Lemma delete_alter (f : process_t → process_t) (l : list process_t) (i : nat) : delete i (alter f i l) = delete i l.
Proof. rewrite !delete_take_drop, take_alter_ge, drop_alter_lt by lia. done. Qed.

Lemma all_fds_elem l i p e : l !! i = Some p → e ∈ fd_table p → e ∈ all_fds l.
Proof.
  intros Hp He. unfold all_fds. rewrite <- (take_drop_middle l i p Hp), fmap_app, fmap_cons, concat_app.
  apply elem_of_app. right. apply elem_of_app. by left.
Qed.

Lemma all_fds_length l n : (∀ i p, l !! i = Some p → length (fd_table p) = n) →
  length (all_fds l) = (n * length l)%nat.
Proof.
  induction l as [|p l IH]; intros Hl; [simpl; lia|]. unfold all_fds in *. rewrite fmap_cons. cbn [concat length].
  rewrite length_app, IH, (Hl 0%nat p eq_refl) by (intros i q Hq; by apply (Hl (S i))). lia.
Qed.

(** Equal tables, entry by entry. *)
Lemma all_fds_same l l' : length l' = length l →
  (∀ i p, l !! i = Some p → ∃ p', l' !! i = Some p' ∧ fd_table p' = fd_table p) → all_fds l' = all_fds l.
Proof.
  intros Hlen H. unfold all_fds. f_equal. apply list_eq. intros i. rewrite !list_lookup_fmap.
  destruct (l !! i) as [p|] eqn:Hp.
  - destruct (H i p Hp) as (p' & -> & Hf). simpl. by rewrite Hf.
  - apply lookup_ge_None in Hp. rewrite <- Hlen in Hp. by apply lookup_ge_None in Hp as ->.
Qed.

Section kernel.
  Context {Y X : Type} `{!Hardware Y, !HardwareSpec Y, !Network X, !NetworkSpec X}.
  Implicit Types s : kernel (sys Y X).

(** Stopped processes refer to nothing; neither does process [c], when one is named. *)
Record kfd (c : option nat) s : Prop := {
  kf_count : length (process_list s) = MAX_PROCESSES;
  kf_len i p : process_list s !! i = Some p → length (fd_table p) = PROCESS_FD_MAX;
  kf_plain i p : process_list s !! i = Some p → stopped p = true ∨ c = Some i → plain (fd_table p);
  kf_inv : fd_inv (all_fds (process_list s)) (objs (machine s))
}.

Lemma kfd_weaken c s : kfd c s → kfd None s.
Proof. intros [H1 H2 H3 H4]. split; try done. intros i p Hp [Hs|?]; [eauto|done]. Qed.

Lemma kfd_name i s : kfd None s → plain (fd_table (proc i s)) → kfd (Some i) s.
Proof.
  intros [H1 H2 H3 H4] Hi. split; try done. intros j p Hp [Hs|[= <-]]; [by eauto|].
  by rewrite (proc_lookup _ _ _ Hp) in Hi.
Qed.

Lemma kfd_stopped i s : kfd None s → stopped (proc i s) = true → kfd (Some i) s.
Proof.
  intros Hs Hst. apply kfd_name; [done|]. unfold proc in *. destruct (process_list s !! i) as [p|] eqn:Hp.
  - apply (kf_plain _ _ Hs i p Hp). by left.
  - apply plain_zero.
Qed.

Lemma all_fds_small c s : kfd c s → Z.of_nat (length (all_fds (process_list s))) < 2 ^ 29.
Proof.
  intros Hs. rewrite (all_fds_length _ _ (kf_len _ _ Hs)), (kf_count _ _ Hs).
  unfold PROCESS_FD_MAX, MAX_PROCESSES. lia.
Qed.

(** ** Steps *)

(** A step that changes neither tables nor objects; a process that stops had stopped. *)
Lemma kfd_same c s s' :
  length (process_list s') = length (process_list s) →
  (∀ i p, process_list s !! i = Some p → ∃ p', process_list s' !! i = Some p' ∧
     fd_table p' = fd_table p ∧ (stopped p' = true → stopped p = true)) →
  objs (machine s') = objs (machine s) → kfd c s → kfd c s'.
Proof.
  intros Hlen Hp Ho [H1 H2 H3 H4].
  assert (Hback : ∀ i p', process_list s' !! i = Some p' → ∃ p, process_list s !! i = Some p ∧
    fd_table p' = fd_table p ∧ (stopped p' = true → stopped p = true)).
  { intros i p' Hp'. destruct (process_list s !! i) as [p|] eqn:Hi.
    - destruct (Hp i p Hi) as (p0 & Hp0 & Ht & Hst). simplify_eq. eauto.
    - apply lookup_ge_None in Hi. rewrite <- Hlen in Hi. apply lookup_ge_None in Hi. congruence. }
  split.
  - congruence.
  - intros i p' (p & Hi & -> & _)%Hback. eauto.
  - intros i p' (p & Hi & -> & Hst)%Hback Hor. apply (H3 i p Hi). naive_solver.
  - rewrite Ho, (all_fds_same (process_list s)); [done|done|]. intros i p Hi.
    destruct (Hp i p Hi) as (p' & ? & ? & _). eauto.
Qed.

(** An edit of one process that keeps its table. *)
Definition keeps (f : process_t → process_t) : Prop :=
  ∀ p, fd_table (f p) = fd_table p ∧ (stopped (f p) = true → stopped p = true).

Lemma kfd_upd c i f s : keeps f → kfd c s → kfd c (upd i f s).
Proof.
  intros Hf. apply kfd_same; [by rewrite upd_length| |done]. intros j p Hp. rewrite upd_lookup, Hp.
  destruct (decide (i = j)); eauto.
Qed.

Lemma kfd_hw c f s : (∀ m, objs (f m) = objs m) → kfd c s → kfd c (on_machine f s).
Proof. intros Hf. apply kfd_same; [done|eauto|apply Hf]. Qed.

Lemma kfd_set_current c i s : kfd c s → kfd c (set_current i s).
Proof. intros [????]. by split. Qed.

Lemma kfd_bump c s : kfd c s → kfd c (bump_pid s).
Proof. intros [????]. by split. Qed.

Lemma kfd_upd_current c f s : keeps f → kfd c s → kfd c (upd_current f s).
Proof. intros Hf Hs. unfold upd_current. destruct (current_process s); [by apply kfd_upd|done]. Qed.

Lemma kfd_select c l l' r s :
  process_select_next_ready c (process_list s) = (r, l') → l = l' → ∀ d, kfd d s → kfd d (set_list l s).
Proof.
  intros Hs -> d. unfold process_select_next_ready in Hs.
  destruct (select_loop_spec _ _ _ _ _ Hs) as ([Hlen Hsame] & _).
  apply kfd_same; [done| |done]. intros i p Hp. destruct (Hsame i p Hp) as (p' & Hp' & Hor). exists p'.
  split; [done|]. destruct Hor as [->|(_ & ph & ->)]; done.
Qed.

(** A process that refers to nothing is replaced by one that refers to nothing. *)
Lemma kfd_plain i f s :
  (∀ p, length (fd_table p) = PROCESS_FD_MAX → plain (fd_table p) →
     length (fd_table (f p)) = PROCESS_FD_MAX ∧ plain (fd_table (f p))) →
  kfd (Some i) s → kfd (Some i) (upd i f s).
Proof.
  intros Hf [H1 H2 H3 H4]. split.
  - by rewrite upd_length.
  - intros j q [(p & -> & Hp & ->)|[_ Hq]]%upd_lookup_inv; [|eauto]. apply Hf; [eauto|]. apply (H3 i p Hp). auto.
  - intros j q [(p & -> & Hp & ->)|[_ Hq]]%upd_lookup_inv Hor; [|by eapply H3]. apply Hf; [eauto|].
    apply (H3 i p Hp). auto.
  - change (machine (upd i f s)) with (machine s). eapply fd_inv_refs; [|exact H4]. intros k j Hk.
    destruct (process_list s !! i) as [p|] eqn:Hp.
    + rewrite (all_fds_split (process_list s) i p) by done.
      rewrite (all_fds_split _ i (f p)) by (rewrite upd_lookup, decide_True, Hp; done).
      change (process_list (upd i f s)) with (alter f i (process_list s)). rewrite delete_alter, !refs_app.
      assert (Ht : plain (fd_table p)) by (apply (H3 i p Hp); auto).
      assert (Ht' : plain (fd_table (f p))) by (apply Hf; eauto).
      by rewrite (plain_refs (fd_table p)), (plain_refs (fd_table (f p))).
    + f_equal. f_equal. apply list_eq. intros j'. rewrite upd_lookup. case_decide; [|done]. subst. by rewrite Hp.
Qed.

Lemma kfd_clear i s : kfd (Some i) s → kfd (Some i) (upd i (λ _, zero_process) s).
Proof. apply kfd_plain. intros _ _ _. split; [done|apply plain_zero]. Qed.

Lemma kfd_stop i f s : (∀ p, fd_table (f p) = fd_table p) → kfd (Some i) s → kfd (Some i) (upd i f s).
Proof. intros Hf. apply kfd_plain. intros p. by rewrite Hf. Qed.

(** A process that referred to nothing gets table [t], whose entries have been retained. *)
Lemma kfd_give i q s o :
  kfd (Some i) s → (i < length (process_list s))%nat → length (fd_table q) = PROCESS_FD_MAX →
  stopped q = false → fd_inv (fd_table q ++ all_fds (process_list s)) o →
  kfd None (upd i (λ _, q) (on_machine (on_objs (λ _, o)) s)).
Proof.
  intros [H1 H2 H3 H4] Hi Hq Hst Hinv. split.
  - by rewrite upd_length.
  - intros j p' [(p & -> & Hp & ->)|[_ Hp']]%upd_lookup_inv; [done|]. by eapply H2.
  - intros j p' [(p & -> & Hp & ->)|[_ Hp']]%upd_lookup_inv [Hs|Hn]; [congruence|done| |done].
    eapply H3; [done|by left].
  - eapply fd_inv_refs; [|exact Hinv]. intros k j Hk. assert (Hp := lookup_proc _ _ Hi).
    rewrite refs_app, (all_fds_split (process_list s) i _ k j Hp).
    rewrite (all_fds_split _ i q) by (rewrite upd_lookup, decide_True; [by simpl; rewrite Hp|done]).
    change (process_list (upd i (λ _, q) (on_machine (on_objs (λ _, o)) s)))
      with (alter (λ _, q) i (process_list s)). rewrite delete_alter, !refs_app.
    rewrite (plain_refs (fd_table (proc i s))); [lia| |done]. apply (H3 i _ Hp). by right.
Qed.

(** Retaining the entries of a table. *)
Lemma retain_table_inv t : ∀ T o, fd_inv T o → (∀ e, e ∈ t → counted (kind e) = true → e ∈ T) →
  Z.of_nat (length T + length t) < 2 ^ 31 →
  ∃ o', (∀ m : sys Y X, objs m = o → syscall_retain_fd_table_entries t m = Sys (hw m) o') ∧ fd_inv (t ++ T) o'.
Proof.
  induction t as [|e t IH]; intros T o Hinv Hin Hlen; [by exists o; split; [intros [] <-|]|].
  assert (Hstep : ∃ o1, (∀ m : sys Y X, objs m = o →
    match kind e with FD_FREE => m | _ => ProcessData.retain_fd_entry_refs e m end = Sys (hw m) o1) ∧ fd_inv (e :: T) o1).
  { pose proof (retain_inv whole whole_length T o e Hinv) as Hr.
    exists (retain_fd_entry_refs e o). split.
    - intros [h o0] <-. by destruct e as [[] i].
    - apply Hr; [|cbn [length] in Hlen; lia]. intros Hk. apply elem_of_app. left. apply Hin; [left|done]. }
  destruct Hstep as (o1 & Ho1 & Hinv1). destruct (IH (e :: T) o1 Hinv1) as (o' & Ho' & Hinv').
  { intros e' He' Hk. right. apply Hin; [by right|done]. }
  { cbn [length] in *. lia. }
  exists o'. split.
  - intros m Hm. unfold syscall_retain_fd_table_entries. cbn [foldl]. rewrite (Ho1 m Hm).
    exact (Ho' (Sys (hw m) o1) eq_refl).
  - eapply fd_inv_refs; [|exact Hinv']. intros k i _. change ((e :: t) ++ T) with (e :: (t ++ T)).
    rewrite !refs_cons, !refs_app, !refs_cons. lia.
Qed.

(** Releasing the entries of a table. *)
Lemma release_fd_entry_eq e (m : sys Y X) :
  release_fd_entry e m = Sys (hw m) (release_fd_entry_refs e (objs m)).
Proof. destruct e as [[] i], m; reflexivity. Qed.

Lemma release_table_inv t : ∀ T (m : sys Y X), fd_inv (t ++ T) (objs m) →
  fd_inv T (objs (foldl (λ m e, release_fd_entry e m) m t)).
Proof.
  induction t as [|e t IH]; intros T m Hinv; [done|]. cbn [foldl]. apply IH.
  rewrite release_fd_entry_eq. simpl. by apply release_entry_inv; [apply whole_guarded|].
Qed.

Lemma kfd_release c i s : kfd c s → kfd (Some i) (syscall_release_fd_table_entries i s).
Proof.
  intros Hs. assert (Hs' := Hs). destruct Hs as [H1 H2 H3 H4]. unfold syscall_release_fd_table_entries. cbv zeta.
  destruct (process_list s !! i) as [p|] eqn:Hp.
  2:{ assert (Hpr : proc i s = zero_process) by (unfold proc; by rewrite Hp). rewrite Hpr.
      apply kfd_plain; [intros p Hl _; split; [rewrite <- Hl; apply length_fmap|apply plain_free]|].
      apply kfd_name; [|change (plain (fd_table (proc i s))); rewrite Hpr; apply plain_zero].
      apply kfd_weaken in Hs'. revert Hs'. apply kfd_same; [done|eauto|]. done. }
  rewrite (proc_lookup _ _ _ Hp).
  split.
  - by rewrite upd_length.
  - intros j q [(p' & -> & Hp' & ->)|[_ Hq]]%upd_lookup_inv; [simpl; rewrite length_fmap|]; eauto.
  - intros j q [(p' & -> & Hp' & ->)|[Hne Hq]]%upd_lookup_inv [Hst|Hj]; try apply plain_free; [|congruence].
    eapply H3; [done|by left].
  - assert (Hinv : fd_inv (all_fds (delete i (process_list s)))
      (objs (foldl (λ m e, release_fd_entry e m) (machine s) (fd_table p)))).
    { apply release_table_inv. eapply fd_inv_refs; [|exact H4]. intros k j _. symmetry. by apply all_fds_split. }
    eapply fd_inv_refs; [|exact Hinv]. intros k j Hk.
    erewrite all_fds_split; [|rewrite upd_lookup, decide_True by done; simpl; by rewrite Hp].
    simpl process_list. rewrite delete_alter, refs_app.
    rewrite plain_refs; [done|apply plain_free|done].
Qed.

(** ** Handlers *)

Ltac keeps_tac :=
  let p := fresh in intros p; split; [reflexivity|first [exact id|let H := fresh in intros H; discriminate H]].

(** Steps that touch neither tables nor objects. *)
Ltac quiet_steps :=
  repeat first
    [ assumption
    | apply kfd_hw; [intros ?; reflexivity|]
    | apply kfd_upd; [keeps_tac|]
    | apply kfd_set_current
    | apply kfd_bump ].

Lemma schedule_kfd c r s : kfd c s → kfd c (schedule r s).2.
Proof.
  intros Hs. unfold schedule. destruct (current_process s) as [i|]; [|done]. cbv zeta.
  set (s1 := upd i (set_interrupted None) (upd i (set_regs r) s)).
  assert (H1 : kfd c s1) by (unfold s1; quiet_steps).
  set (s2 := if is_status RUNNING (proc i s1) then upd i (set_status READY) s1 else s1).
  assert (H2 : kfd c s2) by (unfold s2; destruct (is_status _ _); quiet_steps).
  destruct (process_select_next_ready (Some i) (process_list s2)) as [next l] eqn:Hsel.
  pose proof (kfd_select _ l l next s2 Hsel eq_refl c H2) as H3.
  destruct next as [next|]; [|simpl; quiet_steps]. destruct (next =? i)%nat; cbn [snd]; quiet_steps.
Qed.

Lemma preempt_kfd c fr s : kfd c s → kfd c (process_preempt_from_interrupt fr s).2.
Proof.
  intros Hs. unfold process_preempt_from_interrupt. destruct fr as [fr|]; [|done].
  destruct (current_process s) as [i|]; [|done]. destruct (_ || _); [done|]. cbv zeta.
  set (s2 := upd i (set_status READY) (upd i (process_save_interrupt_context fr) s)).
  assert (H2 : kfd c s2) by (unfold s2; quiet_steps).
  destruct (process_select_next_ready (Some i) (process_list s2)) as [next l] eqn:Hsel.
  pose proof (kfd_select _ l l next s2 Hsel eq_refl c H2) as H3.
  destruct next as [next|]; [|simpl; quiet_steps]. destruct (next =? i)%nat; cbn [snd]; quiet_steps.
Qed.

Lemma thermal_kfd c e s : kfd c s → kfd c (process_update_thermal_policy e s).
Proof.
  apply kfd_same; [apply length_fmap| |done]. intros i p Hp. simpl. rewrite list_lookup_fmap, Hp.
  eexists. split; [done|]. by destruct (_ || _).
Qed.

Lemma timer_kfd c fr policy s : kfd c s → kfd c (timer_handler fr policy s).2.
Proof.
  intros Hs. unfold timer_handler. apply preempt_kfd.
  set (s1 := upd_current _ s). assert (H1 : kfd c s1).
  { apply kfd_upd_current; [|done]. intros p. by destruct (is_status RUNNING p). }
  destruct policy; [by apply thermal_kfd|done].
Qed.

Lemma prepare_objs p a n (m m' : sys Y X) ok : vmm_prepare_user_write p a n m = (ok, m') → objs m' = objs m.
Proof. simpl. destruct (hw_prepare_user_write _ _ _ _). by intros [= <- <-]. Qed.

Lemma kfd_set_machine c m s : objs m = objs (machine s) → kfd c s → kfd c (on_machine (λ _, m) s).
Proof. intros Hm. by apply kfd_same; [|eauto|]. Qed.

Lemma write_u32_kfd c p4 a v s : kfd c s → kfd c (write_process_u32 p4 a v s).2.
Proof.
  intros Hs. unfold write_process_u32. destruct (a =? 0); [done|].
  destruct (vmm_prepare_user_write p4 a 4 (machine s)) as [ok m] eqn:Hp.
  assert (H1 : kfd c (on_machine (λ _, m) s)) by (apply kfd_set_machine; [by eapply prepare_objs|done]).
  destruct ok; [|done]. cbn [snd]. quiet_steps.
Qed.

Lemma vfork_kfd c i s : kfd c s → kfd c (process_complete_vfork i s).
Proof.
  intros Hs. unfold process_complete_vfork. cbv zeta. destruct (_ =? 0); [done|].
  destruct (find_idx _ _) as [j|]; [|quiet_steps]. destruct (is_status WAITING _); quiet_steps.
Qed.

Lemma release_as_kfd c a i s : kfd c s → kfd c (process_release_address_space a i s).
Proof.
  intros Hs. unfold process_release_address_space. destruct (a =? 0); [done|].
  destruct (existsb _ _); [done|]. quiet_steps.
Qed.

Lemma release_memory_kfd c i s : kfd c s → kfd c (release_process_memory i s).
Proof.
  intros Hs. unfold release_process_memory. destruct (_ =? 0); [done|]. apply release_as_kfd. quiet_steps.
Qed.

Lemma wait4_kfd r s : kfd None s → kfd None (sys_wait4 r s).2.
Proof.
  intros Hs. unfold sys_wait4. cbv zeta. destruct (current_process s) as [i|]; [|done].
  destruct (flag _ _); [done|]. destruct (_ || _); [done|].
  pose proof (wait_scan_find (pid (proc i s)) (s64 (rdi r)) (process_list s) 0 false None) as Hscan.
  destruct (find_idx _ (process_list s)) as [k|] eqn:Hf.
  - destruct Hscan as (has' & fr' & ->). simpl (0 + k)%nat.
    apply find_idx_Some in Hf as (p & Hp & [_ Hk]%andb_true_iff & _).
    assert (Hk' : kfd (Some k) s).
    { apply kfd_stopped; [done|]. rewrite (proc_lookup _ _ _ Hp). unfold stopped. by rewrite Hk, orb_true_r. }
    destruct (negb _); [|cbn [snd]; by eapply kfd_weaken, kfd_clear].
    pose proof (write_u32_kfd _ (p4_table (proc i s)) (rsi r) (u32 (exit_status (proc k s))) s Hk') as Hw.
    destruct (write_process_u32 _ _ _ s) as [ok s']. cbn [snd] in *.
    destruct ok; cbn [snd]; [by eapply kfd_weaken, kfd_clear|by eapply kfd_weaken].
  - rewrite Hscan. destruct (negb _); [done|]. destruct (flag _ _); [done|].
    destruct ((λ k, (0 + k)%nat) <$> _) as [k|]; [|done]. cbn [snd]. quiet_steps.
Qed.

(** *** The end of a process *)

Lemma exit_thread_kfd i s : kfd (Some i) s → kfd None (exit_thread i s).2.
Proof.
  intros Hs. unfold exit_thread. cbv zeta.
  assert (H1 : kfd (Some i) (upd i (λ _, zero_process) (release_process_memory i s)))
    by (by apply kfd_clear, release_memory_kfd).
  apply kfd_weaken in H1. set (s1 := upd i _ _) in *. clearbody s1.
  destruct (match find_idx _ _ with Some _ => _ | None => _ end) as [next|]; [|done]. cbn [snd]. quiet_steps.
Qed.

Lemma exit_to_waiter_kfd i j raw s : kfd (Some i) s → kfd None (exit_to_waiter i j raw s).2.
Proof.
  intros Hs. unfold exit_to_waiter. cbv zeta.
  match goal with |- context [let '(_, _) := ?x in _] => set (x0 := x); assert (H0 : kfd (Some i) x0.2) end.
  { unfold x0. destruct (negb _); [|done].
    destruct (vmm_prepare_user_write _ _ 4 (machine s)) as [ok m] eqn:Hp. cbn [snd].
    assert (H1 : kfd (Some i) (on_machine (λ _, m) s)) by (apply kfd_set_machine; [by eapply prepare_objs|done]).
    destruct ok; quiet_steps. }
  destruct x0 as [err s0]. unfold enter_process. cbn [snd] in *. do 2 (apply kfd_hw; [intros ?; reflexivity|]).
  apply kfd_set_current. eapply kfd_weaken, kfd_clear, kfd_upd; [keeps_tac|]. apply release_memory_kfd. quiet_steps.
Qed.

Lemma exit_to_zombie_kfd i j raw s : kfd (Some i) s → kfd None (exit_to_zombie i j raw s).2.
Proof.
  intros Hs. unfold exit_to_zombie. cbv zeta.
  assert (H1 : kfd (Some i) (upd i (set_exit_status raw) (upd i (set_status ZOMBIE) s)))
    by (by do 2 (apply kfd_stop; [done|])).
  set (s1 := upd i (set_exit_status raw) _) in *. clearbody s1. apply (kfd_weaken (Some i)).
  destruct j as [j|]; [|done]. destruct (_ || _); [done|]. unfold enter_process. cbn [snd]. do 2 (apply kfd_hw; [intros ?; reflexivity|]).
  assert (H2 : kfd (Some i) (release_process_memory i
    (on_machine (switch_page_table (p4_table (proc j (set_current j s1)))) (set_current j s1))))
    by (apply release_memory_kfd; quiet_steps).
  destruct (_ || _); quiet_steps.
Qed.

Lemma exit_kfd code s : kfd None s → kfd None (process_exit_and_wake_parent code s).2.
Proof.
  intros Hs. unfold process_exit_and_wake_parent. destruct (current_process s) as [i|]; [|done]. cbv zeta.
  match goal with |- context [syscall_release_fd_table_entries i ?x] => set (s1 := x) end.
  assert (H1 : kfd None s1).
  { unfold s1. pose proof (vfork_kfd None i s Hs). destruct (negb _); [by apply write_u32_kfd|done]. }
  pose proof (kfd_release None i s1 H1) as H2. set (s2 := syscall_release_fd_table_entries i s1) in *.
  clearbody s2. destruct (i_is_thread _); [by apply exit_thread_kfd|].
  destruct (find_process_by_pid _ s2); [|by apply exit_to_zombie_kfd].
  destruct (_ && _); [by apply exit_to_waiter_kfd|by apply exit_to_zombie_kfd].
Qed.

Lemma wake_kfd c i raw s : kfd c s → kfd c (wake_parent_if_waiting i raw s).2.
Proof.
  intros Hs. unfold wake_parent_if_waiting. cbv zeta. destruct (find_process_by_pid _ s) as [j|]; [|done].
  destruct (negb _); [done|]. destruct (negb _); [done|]. destruct (negb _); cbn [snd]; [|quiet_steps].
  destruct (vmm_prepare_user_write _ _ 4 (machine s)) as [ok m] eqn:Hp.
  assert (H1 : kfd c (on_machine (λ _, m) s)) by (apply kfd_set_machine; [by eapply prepare_objs|done]).
  destruct (negb ok); cbn [snd]; [quiet_steps|]. apply kfd_upd; [keeps_tac|].
  set (s1 := on_machine (store_u32 _ _) _). assert (H2 : kfd c s1) by (unfold s1; quiet_steps).
  destruct (get_current_process s1); [|done]. destruct (negb _); [|done]. quiet_steps.
Qed.

Lemma kill_kfd r s : kfd None s → kfd None (sys_process_kill r s).2.
Proof.
  intros Hs. unfold sys_process_kill. cbv zeta. destruct (find_process_by_pid _ s) as [i|]; [|done].
  destruct (_ || _); [done|]. destruct (_ && _); [done|]. destruct (is_status ZOMBIE _); [done|].
  set (s1 := upd i (set_status ZOMBIE) _). assert (H1 : kfd (Some i) s1).
  { unfold s1. do 2 (apply kfd_stop; [done|]). by eapply release_memory_kfd, kfd_release. }
  pose proof (wake_kfd (Some i) i (raw_status (rsi r .& 0xFF)) s1 H1) as H2.
  destruct (wake_parent_if_waiting i _ s1) as [woken s2]. cbn [snd] in *. apply (kfd_weaken (Some i)).
  destruct woken; [by apply kfd_clear|done].
Qed.

Lemma terminate_kfd uid e s : kfd None s → kfd None (syscall_terminate_uid_processes uid e s).
Proof.
  unfold syscall_terminate_uid_processes. generalize (seq 0 MAX_PROCESSES). intros l. revert s.
  induction l as [|i l IH]; intros s Hs; [done|]. cbn [foldl]. apply IH. unfold terminate_one.
  case_match; [done|]. by eapply kfd_weaken, kfd_clear, release_memory_kfd, kfd_release.
Qed.

(** *** New processes *)

(** A copy of the table of process [j] in slot [i]. *)
Lemma kfd_copy_table i q s m t :
  kfd (Some i) s → (i < length (process_list s))%nat → stopped q = false → objs m = objs (machine s) →
  fd_table q = t → length t = PROCESS_FD_MAX →
  (∀ e, e ∈ t → counted (kind e) = true → e ∈ all_fds (process_list s)) →
  kfd None (upd i (λ _, q) (on_machine (λ _, syscall_retain_fd_table_entries t m) s)).
Proof.
  intros Hs Hi Hst Hm Ht Hlen Hin.
  destruct (retain_table_inv t (all_fds (process_list s)) (objs m)) as (o' & Ho' & Hinv).
  - rewrite Hm. apply Hs.
  - done.
  - pose proof (all_fds_small _ _ Hs). rewrite Hlen. unfold PROCESS_FD_MAX. lia.
  - rewrite (Ho' m eq_refl). subst t.
    apply (kfd_same None (upd i (λ _, q) (on_machine (on_objs (λ _, o')) s))); [done|eauto|done|].
    by apply kfd_give.
Qed.

(** The entries of a process's table, as the zeroed slot leaves them. *)
Lemma proc_fds_elem j s e : e ∈ fd_table (proc j s) → counted (kind e) = true → e ∈ all_fds (process_list s).
Proof.
  unfold proc. destruct (process_list s !! j) as [p|] eqn:Hp; [by intros; eapply all_fds_elem|].
  intros He Hk. pose proof plain_zero as Hz. unfold plain in Hz. rewrite Forall_forall in Hz.
  simpl in He. by rewrite (Hz e He) in Hk.
Qed.

Lemma proc_fds_length c j s : kfd c s → length (fd_table (proc j s)) = PROCESS_FD_MAX.
Proof.
  intros Hs. unfold proc. destruct (process_list s !! j) as [p|] eqn:Hp; [|done]. exact (kf_len _ _ Hs j p Hp).
Qed.

Lemma fork_kfd r s : kfd None s → kfd None (sys_fork r s).2.
Proof.
  intros Hs. unfold sys_fork. destruct (find_idx _ _) as [i|] eqn:Hf; [|done]. cbv zeta.
  destruct (find_dead _ _ Hf) as [Hlt Hd].
  set (z := Process (Ids (next_pid s) 0 0 0 0 false) _ _ _ _ _ _ _ _ _ _ _ _ _ _ _ _ _ _ _ _ _).
  set (s1 := bump_pid (upd i (λ _, z) s)).
  assert (H1 : kfd (Some i) s1).
  { unfold s1. apply kfd_bump, kfd_plain; [intros _ _ _; split; [done|apply plain_zero]|].
    apply kfd_stopped; [done|]. unfold stopped. by rewrite (proj2 (is_status_true DEAD _) Hd). }
  destruct (get_current_process s1) as [parent|] eqn:Hg; [|cbn [snd]; by eapply kfd_weaken].
  unfold get_current_process in Hg. apply bind_Some in Hg as (j & _ & Hj).
  destruct (vmm_copy_p4 (p4_table parent) (machine s1)) as [p4 m] eqn:Hcopy.
  assert (Hm : objs m = objs (machine s1)).
  { simpl in Hcopy. destruct (hw_copy_p4 _ _). by injection Hcopy as <- <-. }
  destruct (p4 =? 0); cbn [snd].
  - eapply kfd_weaken, kfd_clear, kfd_set_machine; done.
  - set (q := set_status READY _).
    change (kfd None (upd i (λ _, q) (on_machine (λ _, syscall_retain_fd_table_entries (fd_table parent) m) s1))).
    apply kfd_copy_table; [done| |done|done|done| |].
    + unfold s1. simpl. by rewrite length_alter.
    + exact (kf_len _ _ H1 j _ Hj).
    + intros e He Hk. by eapply all_fds_elem.
Qed.

Lemma clone_base_kfd r i j s : kfd None s → (i < length (process_list s))%nat →
  status (proc i s) = DEAD → kfd None (clone_base r i j s).
Proof.
  intros Hs Hlt Hd. unfold clone_base.
  set (s1 := upd j (set_shares_address_space true) s).
  assert (H0 : kfd (Some i) s).
  { apply kfd_stopped; [done|]. unfold stopped. by rewrite (proj2 (is_status_true DEAD _) Hd). }
  assert (H1 : kfd (Some i) s1) by (unfold s1; quiet_steps).
  set (q := set_status READY _).
  assert (H2 : kfd None (upd i (λ _, q) (on_machine (λ _,
    syscall_retain_fd_table_entries (fd_table (proc j s)) (machine s1)) s1))).
  { apply kfd_copy_table; [done| |done|done|done|by eapply proc_fds_length|].
    - unfold s1. by rewrite upd_length.
    - intros e He Hk. rewrite (all_fds_same (process_list s)); [by eapply proc_fds_elem| |].
      + unfold s1. by rewrite upd_length.
      + intros k p Hp. unfold s1. rewrite upd_lookup, Hp. destruct (decide (j = k)); eauto. }
  revert H2. apply kfd_same; [done|eauto|].
  simpl. unfold clone_stores. by destruct (flag _ LINUX_CLONE_PARENT_SETTID), (flag _ LINUX_CLONE_CHILD_SETTID).
Qed.

Lemma clone_kfd r s : kwf s → kfd None s → kfd None (sys_clone r s).2.
Proof.
  intros Hwf Hs. destruct (flag (rdi r) LINUX_CLONE_VM) eqn:Hvm; cycle 1.
  { unfold sys_clone. rewrite Hvm. by apply fork_kfd. }
  destruct (proj2 Hwf) as (c & p & Hc & Hp & _).
  destruct (flag (rdi r) LINUX_CLONE_PARENT_SETTID && (rdx r =? 0)) eqn:E1;
    [unfold sys_clone; by rewrite Hvm, Hc, E1|].
  destruct (flag (rdi r) LINUX_CLONE_CHILD_SETTID && (r10 r =? 0)) eqn:E2;
    [unfold sys_clone; by rewrite Hvm, Hc, E1, E2|].
  destruct (find_idx (is_status DEAD) (process_list s)) as [child|] eqn:Hf;
    [|unfold sys_clone; by rewrite Hvm, Hc, E1, E2, Hf].
  destruct (find_dead _ _ Hf) as [Hlt Hd]. assert (Hne : child ≠ c) by (by apply (current_not_dead c child s)).
  rewrite (clone_eq r child c) by done. pose proof (clone_base_kfd r child c s Hs Hlt Hd) as Hb.
  destruct (flag (rdi r) LINUX_CLONE_VFORK); [|done]. cbn [snd]. unfold clone_vfork. cbv zeta. quiet_steps.
Qed.

Lemma exec_kfd path argv envp s : kfd None s → kfd None (exec_initrd_program path argv envp s).2.
Proof.
  intros Hs. unfold exec_initrd_program. destruct path as [[|ch path]|]; [done| |done].
  destruct (exec_snapshot _ _ _); [done|]. destruct (current_process s) as [c|]; [|done]. cbv zeta.
  destruct (_ =? 0); [done|]. destruct (exec_open _ _); [done|].
  destruct (vmm_create_user_space _ _) as [new m] eqn:Hcr.
  assert (H1 : kfd None (on_machine (λ _, m) s)).
  { apply kfd_set_machine; [|done]. simpl in Hcr. destruct (hw_create_user_space _ _). by injection Hcr as _ <-. }
  destruct (new =? 0); [done|]. destruct (exec_load _ _ _ _ _ _) as [res m2] eqn:Hld.
  assert (H2 : kfd None (on_machine (λ _, m2) (on_machine (λ _, m) s))).
  { apply kfd_set_machine; [|done]. simpl in Hld. destruct (hw_exec_load _ _ _ _ _ _). by injection Hld as _ <-. }
  destruct res as [rc|image]; cbn [snd]; [quiet_steps|]. unfold exec_commit. cbv zeta. cbn [snd].
  apply kfd_hw; [intros ?; reflexivity|]. apply vfork_kfd. apply kfd_hw; [intros ?; reflexivity|].
  apply release_as_kfd. quiet_steps.
Qed.

Lemma kexec_kfd op s : kwf s → kfd None s → kfd None (kexec op s).2.
Proof.
  intros Hwf Hs. destruct op; simpl.
  - by apply schedule_kfd.
  - by apply timer_kfd.
  - by apply fork_kfd.
  - by apply clone_kfd.
  - by apply wait4_kfd.
  - by apply exec_kfd.
  - unfold syscall_kill_current_process. destruct (get_current_process s); [|done].
    destruct (negb _); [by apply exit_kfd|done].
  - by apply kill_kfd.
  - unfold sys_process_pause. repeat (case_match; try done). cbn [snd]. quiet_steps.
  - unfold sys_process_resume. repeat (case_match; try done). cbn [snd]. quiet_steps.
  - destruct (get_current_process s); [by apply terminate_kfd|done].
  - by apply thermal_kfd.
  - apply kfd_upd_current; [|done]. intros p. by destruct (throttled p).
  - apply kfd_upd_current; [keeps_tac|done].
  - apply kfd_upd_current; [keeps_tac|done].
  - apply kfd_upd_current; [keeps_tac|done].
Qed.
End kernel.
