(* ===== verification/FdSyscalls.v ===== *)
(** * Descriptor system calls of the running process

    The operations of [Fd] on the table of the current process, and reading and writing
    pipes and event counters ([sys_read] in [syscall/fs.c], [sys_write] in
    [syscall/terminal_io.c]), which may give the processor to another process. *)

From S2P Require Import Prelude CString VfsNode ProcessData Process Lifecycle Scheduler ProcessInv ProcessOps.
From S2P Require Import LifecycleOps ProcessProps Fd FdInv FdTables FdKernel.

Definition set_rcx (v : Z) (p : syscall_regs) : syscall_regs :=
  Regs (rax p) (rdx p) (rsi p) (rdi p) (r10 p) (r8 p) (r9 p) (r15 p) (r14 p) (r13 p) (r12 p)
    (rbx p) (rbp p) v (r11 p) (rsp p).

(** [if (regs->rcx >= 2) regs->rcx -= 2]: back to the [syscall] instruction. *)
Definition restart (r : syscall_regs) : syscall_regs :=
  if 2 <=? rcx r then set_rcx (rcx r - 2) r else r.

(** The end of [syscall_handler] ([syscall/dispatch.c]): the registers with which the
    program goes on. *)
Definition syscall_return (result : Z) (r : syscall_regs) : syscall_regs := set_rax (u64 result) r.

(** What a handler that may block leaves: how it ends, the caller's registers, the bytes
    stored in its buffer, and the kernel. *)
Record io_result (M : Type) := IoResult {
  io_outcome : outcome;
  io_regs : syscall_regs;
  io_bytes : list Z;
  io_kernel : kernel M
}.
Arguments IoResult {M} _ _ _ _.
Arguments io_outcome {M} _.
Arguments io_regs {M} _.
Arguments io_bytes {M} _.
Arguments io_kernel {M} _.

Section syscalls.
  Context {Y X : Type} `{!Hardware Y, !Network X}.
  Implicit Types s : kernel (sys Y X).
  Local Notation fdst := (Fd.fdst (X := X)).

(** The table of the current process and the objects. *)
Definition fd_state s : fdst := Fdst (process_get_fd_table s) (objs (machine s)).

Definition store_fd_state (st : fdst) s : kernel (sys Y X) :=
  on_machine (on_objs (λ _, fo st))
    (upd_current (λ p, match ft st with Some t => set_fd_table t p | None => p end) s).

Definition fd_call (f : fdst → Z * fdst) s : Z * kernel (sys Y X) :=
  let (result, st) := f (fd_state s) in (result, store_fd_state st s).

(** A call that also stores descriptors in user memory. *)
Definition result_only {A} (f : fdst → Z * A * fdst) (st : fdst) : Z * fdst :=
  let '(result, _, st) := f st in (result, st).

Definition get_pipe_for_fd (fd : Z) (expected_kind : fd_kind) (st : fdst) : option nat :=
  match get_fd_entry fd st with
  | Some e => if is_kind expected_kind e then get_pipe_object_by_index (handle_index e) (fo st) else None
  | None => None
  end.

Definition get_eventfd_for_fd (fd : Z) (st : fdst) : option nat :=
  match get_fd_entry fd st with
  | Some e => if is_kind FD_EVENTFD e then get_eventfd_object_by_index (handle_index e) (fo st) else None
  | None => None
  end.

Definition the_pipe (i : nat) s : pipe_object := pipe i (objs (machine s)).
Definition the_eventfd (i : nat) s : eventfd_object := eventfd i (objs (machine s)).
Definition on_pipe (i : nat) (p : pipe_object) s : kernel (sys Y X) :=
  on_machine (on_objs (upd_pipe i (λ _, p))) s.
Definition on_eventfd (i : nat) (e : eventfd_object) s : kernel (sys Y X) :=
  on_machine (on_objs (upd_eventfd i (λ _, e))) s.

(** [sys_read] of [rdx] bytes from a pipe. *)
Definition read_pipe (r : syscall_regs) s : io_result (sys Y X) :=
  match get_pipe_for_fd (rdi r) FD_PIPE_READER (fd_state s) with
  | None => IoResult (Return (- LINUX_EBADF)) r [] s
  | Some i =>
      let transfer r s :=
        let (bytes, p) := pipe_read (rdx r) (the_pipe i s) in
        IoResult (Return (Z.of_nat (length bytes))) r bytes (on_pipe i p s) in
      if (pi_size (the_pipe i s) =? 0) && (0 <? write_refs (the_pipe i s)) then
        let r := restart r in
        match schedule r s with
        | (Return _, s) => transfer r s
        | (out, s) => IoResult out r [] s
        end
      else transfer r s
  end.

(** [sys_write] of the program's [bytes], [rdx] of them, to a pipe. *)
Definition write_pipe (r : syscall_regs) (bytes : list Z) s : io_result (sys Y X) :=
  match get_pipe_for_fd (rdi r) FD_PIPE_WRITER (fd_state s) with
  | None => IoResult (Return (- LINUX_EBADF)) r [] s
  | Some i =>
      let transfer r s :=
        let (n, p) := pipe_write bytes (the_pipe i s) in
        IoResult (Return n) r [] (on_pipe i p s) in
      if (pi_size (the_pipe i s) =? PIPE_SIZE) && (0 <? read_refs (the_pipe i s)) then
        let r := restart r in
        match schedule r s with
        | (Return _, s) => transfer r s
        | (out, s) => IoResult out r [] s
        end
      else transfer r s
  end.

(** Waiting on an event counter. *)
Definition eventfd_block (nonblocking : bool) (r : syscall_regs) s : io_result (sys Y X) :=
  if nonblocking then IoResult (Return (- LINUX_EAGAIN)) r [] s
  else
    let r := restart r in
    match schedule r s with
    | (Return _, s) => IoResult (Return (- LINUX_EAGAIN)) r [] s
    | (out, s) => IoResult out r [] s
    end.

(** A 64-bit value as the bytes in memory, and back. *)
Definition u64_bytes (v : Z) : list Z := (λ i, u8 (v .>> (Z.of_nat i * 8))) <$> seq 0 8.
Definition bytes_u64 (l : list Z) : Z := foldr (λ b v, b + 256 * v) 0 (take 8 l).

Definition read_eventfd (r : syscall_regs) s : io_result (sys Y X) :=
  match get_eventfd_for_fd (rdi r) (fd_state s) with
  | None => IoResult (Return (- LINUX_EBADF)) r [] s
  | Some i =>
      if rdx r <? 8 then IoResult (Return (- LINUX_EINVAL)) r [] s else
      match eventfd_read (the_eventfd i s) with
      | None => eventfd_block (ev_nonblocking (the_eventfd i s)) r s
      | Some (value, e) => IoResult (Return 8) r (u64_bytes value) (on_eventfd i e s)
      end
  end.

Definition write_eventfd (r : syscall_regs) (bytes : list Z) s : io_result (sys Y X) :=
  match get_eventfd_for_fd (rdi r) (fd_state s) with
  | None => IoResult (Return (- LINUX_EBADF)) r [] s
  | Some i =>
      if rdx r <? 8 then IoResult (Return (- LINUX_EINVAL)) r [] s else
      match eventfd_write (bytes_u64 bytes) (the_eventfd i s) with
      | None => eventfd_block (ev_nonblocking (the_eventfd i s)) r s
      | Some (inr e) => IoResult (Return e) r [] s
      | Some (inl e) => IoResult (Return 8) r [] (on_eventfd i e s)
      end
  end.

(** ** Runs *)

Inductive fop :=
| FProcess (op : kop)
| FClose (r : syscall_regs)
| FDup (r : syscall_regs)
| FDup2 (r : syscall_regs)
| FPipe (r : syscall_regs)
| FPipe2 (r : syscall_regs)
| FEventfd2 (r : syscall_regs)
| FSocketpair (r : syscall_regs)
| FSocket (family type protocol : Z)
| FOpen (node : vfs_node) (open_flags : Z)
| FDevice (k : fd_kind) (device_id : Z)
| FSendmsg (fd : Z) (bad : option Z) (fds : list Z) (send : socket_state → X → (Z + Z) * socket_state * X)
| FRecvmsg (fd : Z) (bad : option Z) (control_fits : bool) (recv : socket_state → X → (Z + Z) * socket_state * X)
| FReadPipe (r : syscall_regs)
| FWritePipe (r : syscall_regs) (bytes : list Z)
| FReadEventfd (r : syscall_regs)
| FWriteEventfd (r : syscall_regs) (bytes : list Z).

Definition ret (x : Z * kernel (sys Y X)) : outcome * kernel (sys Y X) := (Return x.1, x.2).
Definition io (x : io_result (sys Y X)) : outcome * kernel (sys Y X) := (io_outcome x, io_kernel x).

Definition fexec (op : fop) s : outcome * kernel (sys Y X) :=
  match op with
  | FProcess op => kexec op s
  | FClose r => ret (fd_call (sys_close r) s)
  | FDup r => ret (fd_call (sys_dup r) s)
  | FDup2 r => ret (fd_call (sys_dup2 r) s)
  | FPipe r => ret (fd_call (result_only (sys_pipe r)) s)
  | FPipe2 r => ret (fd_call (result_only (sys_pipe2 r)) s)
  | FEventfd2 r => ret (fd_call (sys_eventfd2 r) s)
  | FSocketpair r => ret (fd_call (result_only (sys_socketpair r)) s)
  | FSocket family type protocol => ret (fd_call (install_socket_fd family type protocol) s)
  | FOpen node open_flags => ret (fd_call (install_vnode_fd node open_flags) s)
  | FDevice k device_id => ret (fd_call (install_device_fd k device_id) s)
  | FSendmsg fd bad fds send => ret (fd_call (sys_sendmsg fd bad fds send) s)
  | FRecvmsg fd bad fits recv => ret (fd_call (result_only (sys_recvmsg fd bad fits recv)) s)
  | FReadPipe r => io (read_pipe r s)
  | FWritePipe r bytes => io (write_pipe r bytes s)
  | FReadEventfd r => io (read_eventfd r s)
  | FWriteEventfd r bytes => io (write_eventfd r bytes s)
  end.

(** Registers hold unsigned values; [install_device_fd] is called for device kinds. *)
Definition fop_ok (op : fop) : Prop :=
  match op with
  | FDup r | FDup2 r => 0 ≤ rdi r
  | FDevice k _ => counted k = false
  | _ => True
  end.

(** The objects at boot, and the states a run reaches from there. *)
Definition no_objects (x : X) : objects X :=
  Objects (replicate MAX_FILE_HANDLES zero_handle) (replicate MAX_PIPE_OBJECTS zero_pipe)
    (replicate MAX_EVENTFD_OBJECTS zero_eventfd) (replicate MAX_SOCKET_OBJECTS zero_socket)
    SOCKET_TCP_PORT_FIRST x.

Inductive freachable (p4 : Z) (y : Y) (x : X) : nat → kernel (sys Y X) → Prop :=
| freach_boot : freachable p4 y x 0 (init_process p4 (boot (Sys y (no_objects x))))
| freach_step n s op out s' :
    freachable p4 y x n s → fop_ok op → fexec op s = (out, s') → out ≠ Halt → freachable p4 y x (S n) s'.

(** An executable run, for examples. *)
Definition frun (ops : list fop) s : kernel (sys Y X) := foldl (λ s op, (fexec op s).2) s ops.

End syscalls.
Arguments fop : clear implicits.
