(* ===== verification/FdCalls.v ===== *)
(** * The descriptors of a run

    Runs of process operations and descriptor system calls keep every reference count
    exact: no descriptor dangles, and an object lives exactly as long as a descriptor,
    in a table or queued in a socket, refers to it. *)

From S2P Require Import Prelude CString VfsNode ProcessData Process Lifecycle Scheduler ProcessInv ProcessOps.
From S2P Require Import LifecycleOps ProcessProps Fd FdInv FdTables FdKernel FdSyscalls.

#[local] Strategy 100 [select_loop scan_order proc].

(** ** Table operations are safe *)

Section safe.
  Context {X : Type} `{!Network X, !NetworkSpec X}.
  Implicit Types (o : objects X) (R t : list fd_entry) (st : fdst (X := X)).

(** An operation on a table that keeps all counts, whatever the other tables hold. *)
Definition fd_safe (f : fdst (X := X) → fdst (X := X)) : Prop :=
  ∀ R st, Z.of_nat (length R) < 2 ^ 29 → is_Some (ft st) → st_inv R st → st_inv R (f st) ∧ is_Some (ft (f st)).

Lemma set_entry_Some fd e st : is_Some (ft st) → is_Some (ft (set_entry fd e st)).
Proof. intros [t Ht]. simpl. rewrite Ht. by eexists. Qed.

(** The table is still there. *)
Ltac table_tac :=
  match goal with H : is_Some (ft _) |- _ => destruct H end;
  repeat case_match; simpl; rewrite ?fmap_is_Some; simplify_eq;
  first [eexists; eassumption|eexists; reflexivity].

Lemma close_Some fd st : is_Some (ft st) → is_Some (ft (close_fd_internal fd st)).
Proof. intros Ht. unfold close_fd_internal. case_match; [by apply set_entry_Some|done]. Qed.

Lemma copy_entry_Some e fd st : is_Some (ft st) → is_Some (ft (copy_entry e fd st).2).
Proof.
  intros Ht. unfold copy_entry. cbv zeta. assert (H := set_entry_Some fd e st Ht).
  repeat case_match; [done|by apply (set_entry_Some fd FREE_ENTRY)|done].
Qed.

Lemma close_safe r : fd_safe (λ st, (sys_close r st).2).
Proof.
  intros R st _ Ht Hst. split; [by apply sys_close_inv|]. unfold sys_close.
  case_match; [by apply close_Some|done].
Qed.

Lemma dup_safe oldfd newfd ow : 0 ≤ oldfd → fd_safe (λ st, (dup_fd_common oldfd newfd ow st).2).
Proof.
  intros Hf R st HR Ht Hst. split; [apply dup_inv; [done|lia|done]|]. unfold dup_fd_common.
  repeat case_match; try done; by auto using copy_entry_Some, close_Some.
Qed.

Lemma pipe_safe r : fd_safe (λ st, (sys_pipe r st).2).
Proof. intros R st _ Ht Hst. split; [by apply sys_pipe_inv|]. unfold sys_pipe. table_tac. Qed.

Lemma pipe2_safe r : fd_safe (λ st, (sys_pipe2 r st).2).
Proof. intros R st _ Ht Hst. split; [by apply sys_pipe2_inv|]. unfold sys_pipe2, sys_pipe. table_tac. Qed.

Lemma eventfd2_safe r : fd_safe (λ st, (sys_eventfd2 r st).2).
Proof. intros R st _ Ht Hst. split; [by apply eventfd2_inv|]. unfold sys_eventfd2. table_tac. Qed.

Lemma socketpair_safe r : fd_safe (λ st, (sys_socketpair r st).2).
Proof. intros R st _ Ht Hst. split; [by apply socketpair_inv|]. unfold sys_socketpair. cbv zeta. table_tac. Qed.

Lemma install_socket_safe family type protocol : fd_safe (λ st, (install_socket_fd family type protocol st).2).
Proof. intros R st _ Ht Hst. split; [by apply install_socket_inv|]. unfold install_socket_fd. cbv zeta. table_tac. Qed.

Lemma install_vnode_safe node flags : fd_safe (λ st, (install_vnode_fd node flags st).2).
Proof. intros R st _ Ht Hst. split; [by apply install_vnode_inv|]. unfold install_vnode_fd. cbv zeta. table_tac. Qed.

Lemma install_device_safe k d : counted k = false → fd_safe (λ st, (install_device_fd k d st).2).
Proof. intros Hk R st _ Ht Hst. split; [by apply install_device_inv|]. unfold install_device_fd. table_tac. Qed.

(** The data path of socket [i]: a change of the network and of the state of the connection. *)
Definition data_path (i : nat) (state : socket_state) (x : X) (o : objects X) : objects X :=
  set_net x (upd_socket i (so_set_state state) o).

Lemma data_path_inv R st i state x : st_inv R st → st_inv R (on_objects (data_path i state x) st).
Proof.
  assert (Hc : cores (data_path i state x (fo st)) = cores (fo st)) by (by apply cores_upd_same).
  unfold st_inv. cbn [on_objects ft fo].
  destruct (ft st); [intros [Hl Hi]; split; [done|]; revert Hi|]; by apply fd_inv_same.
Qed.

Lemma data_path_lookup i state x o j : ∃ f, g_socket_objects (data_path i state x o) !! j = f <$> g_socket_objects o !! j ∧
  ∀ s, so_in_use (f s) = so_in_use s ∧ so_peer_index (f s) = so_peer_index s ∧
       rx_ancillary_fd_count (f s) = rx_ancillary_fd_count s.
Proof.
  simpl. destruct (decide (i = j)) as [->|].
  - exists (so_set_state state). by rewrite list_lookup_alter_eq.
  - exists id. rewrite list_lookup_alter_ne by done. split; [by destruct (g_socket_objects o !! j)|done].
Qed.

Lemma data_path_socket i state x o j :
  so_peer_index (socket j (data_path i state x o)) = so_peer_index (socket j o) ∧
  rx_ancillary_fd_count (socket j (data_path i state x o)) = rx_ancillary_fd_count (socket j o).
Proof.
  destruct (data_path_lookup i state x o j) as (f & E & Hf). unfold socket. rewrite E.
  destruct (g_socket_objects o !! j) as [s|]; [|done]. split; apply Hf.
Qed.

Lemma data_path_index i state x o a : get_socket_by_index a (data_path i state x o) = get_socket_by_index a o.
Proof.
  unfold get_socket_by_index, by_index. destruct (data_path_lookup i state x o (Z.to_nat a)) as (f & -> & Hf).
  cbn [data_path set_net upd_socket g_socket_objects]. rewrite length_alter. destruct (_ || _); [done|].
  destruct (g_socket_objects o !! Z.to_nat a) as [s|]; [|done]. simpl. by destruct (Hf s) as (-> & _).
Qed.

Lemma collect_elem fds st t rights :
  ft st = Some t → collect_rights fds st = Some rights → length rights = length fds ∧ Forall (λ e, e ∈ t) rights.
Proof.
  intros Ht. revert rights. induction fds as [|fd fds IH]; intros rights; simpl.
  { intros [= <-]. by split. }
  destruct (fd <? 0); [done|]. destruct (get_fd_entry fd st) as [e|] eqn:He; [|done].
  intros (l & Hl & ->)%fmap_Some. destruct (IH l Hl) as [Hlen Hall]. simpl. split; [congruence|].
  constructor; [|done]. apply get_fd_entry_Some in He as (t' & Ht' & Hlk & _). simplify_eq.
  by eapply list_elem_of_lookup_2.
Qed.

Lemma socket_for_fd fd st i : get_socket_for_fd fd st = Some i →
  ∃ t s, ft st = Some t ∧ FdEntry FD_SOCKET (Z.of_nat i) ∈ t ∧ g_socket_objects (fo st) !! i = Some s ∧ so_in_use s = true.
Proof.
  unfold get_socket_for_fd. destruct (get_fd_entry fd st) as [e|] eqn:He; [|done].
  destruct (is_kind FD_SOCKET e) eqn:Hk; [|done]. apply is_kind_true in Hk.
  intros (Hi & s & Hs & Hu)%by_index_Some. apply get_fd_entry_Some in He as (t & Ht & Hl & _).
  exists t, s. split_and!; [done| |done..]. destruct e as [k h]. simpl in *. subst.
  by eapply list_elem_of_lookup_2.
Qed.

Lemma sendmsg_safe fd bad fds send : fd_safe (λ st, (sys_sendmsg fd bad fds send st).2).
Proof.
  intros R st HR Ht Hst. unfold sys_sendmsg. destruct (get_socket_for_fd fd st) as [i|] eqn:Hi; [|done].
  destruct bad; [done|].
  apply socket_for_fd in Hi as (t & s & Hft & Hin & Hs & Hu).
  destruct (Z.ltb_spec SOCKET_ANCILLARY_FD_MAX (Z.of_nat (length fds))) as [|Hlen]; [done|].
  destruct (collect_rights fds st) as [rights|] eqn:Hc; [|done]. cbv zeta.
  destruct (collect_elem fds st t rights Hft Hc) as [El Hall].
  destruct (_ && _); [done|]. destruct (_ && _) eqn:Hpeer; [done|]. destruct (send _ (net (fo st))) as [[sent state] x].
  change (λ o, set_net x (upd_socket i (so_set_state state) o)) with (data_path i state x).
  pose proof (data_path_inv R st i state x Hst) as Hst'. destruct sent as [|sent]; [split; [exact Hst'|exact Ht]|].
  destruct rights as [|e rights]; [split; [exact Hst'|exact Ht]|]. simpl in Hpeer.
  set (st1 := on_objects (data_path i state x) st) in *.
  assert (Hinv : st_inv R (Fdst (ft st1) (attach_rights i (e :: rights) (fo st1)).2)).
  { unfold st_inv in Hst' |- *. cbn [ft fo]. change (ft st1) with (ft st) in *. rewrite Hft in Hst' |- *.
    destruct Hst' as [Hl Hinv]. split; [done|]. apply attach_inv; [done| | | |].
    - unfold SOCKET_ANCILLARY_FD_MAX in Hlen. lia.
    - eapply Forall_impl; [exact Hall|]. intros e' He _. apply elem_of_app. by left.
    - rewrite length_app, Hl. unfold PROCESS_FD_MAX. lia.
    - intros peer Hp. unfold st1 in Hp |- *. cbn [on_objects fo] in Hp |- *.
      rewrite data_path_index, (proj1 (data_path_socket _ _ _ _ i)) in Hp. rewrite (proj2 (data_path_socket _ _ _ _ peer)).
      rewrite Hp in Hpeer. by apply negb_false_iff, Z.eqb_eq in Hpeer. }
  destruct (attach_rights i (e :: rights) (fo st1)) as [result o]. done.
Qed.

Lemma move_Some i l st :
  is_Some (ft st) →
  is_Some (ft (foldl (λ st '(k, fd), on_objects (clear_queued i k) (set_entry fd (queued i k (fo st)) st)) st l)).
Proof.
  revert st. induction l as [|[k fd] l IH]; intros st Ht; [done|]. cbn [foldl]. apply IH.
  exact (set_entry_Some fd (queued i k (fo st)) st Ht).
Qed.

Lemma deliver_Some i fits st : is_Some (ft st) → is_Some (ft (deliver_rights i fits st).2).
Proof.
  intros Ht. unfold deliver_rights. cbv zeta. generalize (imap pair (A := nat) (B := nat * nat)).
  intros g. destruct (_ =? 0)%nat; [done|]. destruct (_ || _); [done|]. by apply move_Some.
Qed.

Lemma recvmsg_safe fd bad fits recv : fd_safe (λ st, (sys_recvmsg fd bad fits recv st).2).
Proof.
  intros R st HR Ht Hst. unfold sys_recvmsg. destruct (get_socket_for_fd fd st) as [i|] eqn:Hi; [|done].
  destruct bad; [done|].
  apply socket_for_fd in Hi as (t & s & Hft & Hin & Hs & Hu). destruct (recv _ (net (fo st))) as [[n state] x].
  change (λ o, set_net x (upd_socket i (so_set_state state) o)) with (data_path i state x).
  pose proof (data_path_inv R st i state x Hst) as Hst'.
  destruct n as [|n]; [split; [exact Hst'|exact Ht]|].
  destruct (data_path_lookup i state x (fo st) i) as (f & Ef & Hf). rewrite Hs in Ef. simpl in Ef.
  set (st1 := on_objects (data_path i state x) st) in *.
  pose proof (deliver_inv R i fits st1 t (f s) Hst' Hft Hin Ef ltac:(by rewrite (proj1 (Hf s)))) as Hd.
  pose proof (deliver_Some i fits st1 Ht) as Hk.
  by destruct (deliver_rights i fits st1) as [l st'].
Qed.

End safe.

(** ** The kernel's calls *)

Section calls.
  Context {Y X : Type} `{!Hardware Y, !HardwareSpec Y, !Network X, !NetworkSpec X}.
  Implicit Types s : kernel (sys Y X).

Lemma fd_call_kfd f s : kwf s → kfd None s → fd_safe (λ st, (f st).2) → kfd None (fd_call f s).2.
Proof.
  intros Hwf Hs Hf. destruct (proj2 Hwf) as (c & p & Hc & Hp & Hd & Hz).
  assert (Hget : process_get_fd_table s = Some (fd_table p)).
  { unfold process_get_fd_table, get_current_process. rewrite Hc. cbn. by rewrite Hp. }
  set (R := all_fds (delete c (process_list s))).
  assert (Hst : st_inv R (fd_state s)).
  { unfold st_inv, fd_state. cbn [ft fo]. rewrite Hget. split; [exact (kf_len _ _ Hs c p Hp)|].
    eapply fd_inv_refs; [|exact (kf_inv _ _ Hs)]. intros k i _. symmetry. by apply all_fds_split. }
  destruct (Hf R (fd_state s)) as [Hinv [t Ht]]; [|by unfold fd_state; rewrite Hget|done|].
  { pose proof (all_fds_small _ _ Hs) as Hsmall. rewrite (all_fds_delete_length _ _ _ Hp) in Hsmall.
    unfold R. lia. }
  unfold fd_call. destruct (f (fd_state s)) as [z st]. cbn [snd] in *. unfold store_fd_state, upd_current.
  rewrite Hc. unfold st_inv in Hinv. rewrite Ht in Hinv |- *. destruct Hinv as [Hlen Hinv].
  set (s' := upd c (set_fd_table t) s).
  assert (Hc' : process_list s' !! c = Some (set_fd_table t p)) by (unfold s'; rewrite upd_lookup, decide_True, Hp; done).
  split.
  - exact (eq_trans (upd_length c (set_fd_table t) s) (kf_count _ _ Hs)).
  - intros j q [(p' & -> & Hp' & ->)|[_ Hq]]%upd_lookup_inv; [done|by eapply kf_len].
  - intros j q [(p' & -> & Hp' & ->)|[_ Hq]]%upd_lookup_inv [Hst'|?]; [|done| |done].
    + exfalso. rewrite Hp in Hp'. injection Hp' as <-. revert Hst'. unfold stopped, is_status.
      cbn [status set_fd_table]. fold (is_status DEAD p) (is_status ZOMBIE p). rewrite (proj2 (is_status_false DEAD _)), (proj2 (is_status_false ZOMBIE _)); done.
    + eapply kf_plain; [done..|by left].
  - cbn [machine on_machine on_objs objs]. eapply fd_inv_refs; [|exact Hinv]. intros k i _.
    erewrite all_fds_split by exact Hc'. unfold s'. cbn [process_list on_machine upd set_list fd_table set_fd_table].
    by rewrite delete_alter.
Qed.

Lemma fd_call_kwf f s : kwf s → kwf (fd_call f s).2.
Proof.
  intros Hwf. unfold fd_call. destruct (f (fd_state s)) as [z st]. cbn [snd]. unfold store_fd_state.
  apply kwf_machine; [done|]. apply kwf_upd_current; [|done]. intros p. by destruct (ft st).
Qed.

Lemma fd_call_pid f s : next_pid (fd_call f s).2 = next_pid s.
Proof.
  unfold fd_call. destruct (f (fd_state s)) as [z st]. cbn [snd]. unfold store_fd_state, upd_current.
  by destruct (current_process s).
Qed.

(** *** Data *)

(** Operations on the data of a pipe or event counter keep its references. *)
Definition same_refs (p q : pipe_object) : Prop :=
  pi_in_use q = pi_in_use p ∧ read_refs q = read_refs p ∧ write_refs q = write_refs p ∧
  (ring_ok p → ring_ok q).

Lemma same_refs_refl p : same_refs p p.
Proof. done. Qed.

Lemma same_refs_trans p q r : same_refs p q → same_refs q r → same_refs p r.
Proof. intros (?&?&?&?) (?&?&?&?). split_and!; [congruence..|auto]. Qed.

(** The two moves in a ring buffer. *)
Definition advance_read (p : pipe_object) : pipe_object :=
  Pipe (pi_in_use p) (read_refs p) (write_refs p) (u32 (read_pos p + 1) mod PIPE_SIZE)
    (write_pos p) (pi_size p - 1) (pi_buffer p).
Definition advance_write (b : Z) (p : pipe_object) : pipe_object :=
  Pipe (pi_in_use p) (read_refs p) (write_refs p) (read_pos p)
    (u32 (write_pos p + 1) mod PIPE_SIZE) (pi_size p + 1) (arr_set (pi_buffer p) (write_pos p) b).

Lemma ring_step n : 0 ≤ n < PIPE_SIZE → u32 (n + 1) mod PIPE_SIZE = (n + 1) mod PIPE_SIZE.
Proof. intros Hn. unfold PIPE_SIZE in *. rewrite u32_small by lia. done. Qed.

Lemma advance_read_refs p : 0 < pi_size p → same_refs p (advance_read p).
Proof.
  intros Hs. split_and!; [done..|]. intros (H1 & H2 & H3). unfold ring_ok. simpl.
  rewrite ring_step by done. split_and!.
  - apply Z.mod_pos_bound. done.
  - apply Z.mod_pos_bound. done.
  - lia.
  - lia.
  - rewrite H3, Zplus_mod_idemp_l. f_equal. lia.
Qed.

Lemma advance_write_refs b p : pi_size p < PIPE_SIZE → same_refs p (advance_write b p).
Proof.
  intros Hs. split_and!; [done..|]. intros (H1 & H2 & H3). unfold ring_ok. simpl.
  rewrite ring_step by (rewrite H3; by apply Z.mod_pos_bound). split_and!; [lia..|].
  rewrite H3, Zplus_mod_idemp_l. f_equal. lia.
Qed.

Lemma pipe_read_loop_eq n len p :
  pipe_read_loop (S n) len p =
    if (0 <? len) && (0 <? pi_size p) then
      let (out, q) := pipe_read_loop n (len - 1) (advance_read p) in
      (arr_get (pi_buffer p) (read_pos p) :: out, q)
    else ([], p).
Proof. done. Qed.

Lemma pipe_write_eq b bytes p :
  pipe_write (b :: bytes) p =
    if pi_size p <? PIPE_SIZE then
      let (n, q) := pipe_write bytes (advance_write b p) in (n + 1, q)
    else (0, p).
Proof. done. Qed.

Lemma pipe_read_loop_refs n : ∀ len p, same_refs p (pipe_read_loop n len p).2.
Proof.
  induction n as [|n IH]; intros len p; [done|]. rewrite pipe_read_loop_eq. destruct (_ && _) eqn:Hc; [|done].
  apply andb_true_iff in Hc as [_ Hs%Z.ltb_lt].
  specialize (IH (len - 1) (advance_read p)). destruct (pipe_read_loop n (len - 1) _) as [out q].
  eapply same_refs_trans; [by apply advance_read_refs|exact IH].
Qed.

Lemma pipe_read_refs len p : same_refs p (pipe_read len p).2.
Proof. apply pipe_read_loop_refs. Qed.

Lemma pipe_write_refs bytes : ∀ p, same_refs p (pipe_write bytes p).2.
Proof.
  induction bytes as [|b bytes IH]; intros p; [done|]. rewrite pipe_write_eq.
  destruct (Z.ltb_spec (pi_size p) PIPE_SIZE); [|done].
  specialize (IH (advance_write b p)). destruct (pipe_write bytes _) as [n q].
  eapply same_refs_trans; [by apply advance_write_refs|exact IH].
Qed.

(** New data in an object keeps the counts. *)
Lemma on_pipe_kfd c i q s : same_refs (the_pipe i s) q → kfd c s → kfd c (on_pipe i q s).
Proof.
  intros (E1 & E2 & E3 & E4) [H1 H2 H3 H4]. split; try done. simpl.
  destruct (g_pipe_objects (objs (machine s)) !! i) as [p|] eqn:Hp.
  - assert (Hq : the_pipe i s = p) by (unfold the_pipe, pipe; by rewrite Hp). rewrite Hq in *.
    eapply fd_inv_bump; [exact H4|apply (bump_pipe _ i p); [apply H4|done|]|].
    + rewrite E1, E2, E3. intros Hu. destruct (ow_pipe _ (proj1 H4) i p Hp Hu) as [Ho Hr]. split; [exact Ho|by apply E4].
    + intros k j _. unfold reader_refs, writer_refs. cbn [foldr]. rewrite E1, E2, E3. lia.
  - revert H4. apply fd_inv_same; try done. simpl. apply list_eq. intros j.
    destruct (decide (i = j)) as [<-|]; [by rewrite list_lookup_alter_eq, Hp|by rewrite list_lookup_alter_ne].
Qed.

Lemma on_eventfd_kfd c i q s :
  ev_in_use q = ev_in_use (the_eventfd i s) → ev_refcount q = ev_refcount (the_eventfd i s) →
  kfd c s → kfd c (on_eventfd i q s).
Proof.
  intros E1 E2 [H1 H2 H3 H4]. split; try done. simpl.
  destruct (g_eventfd_objects (objs (machine s)) !! i) as [p|] eqn:Hp.
  - assert (Hq : the_eventfd i s = p) by (unfold the_eventfd, eventfd; by rewrite Hp). rewrite Hq in *.
    eapply fd_inv_bump; [exact H4|apply (bump_event _ i p); [apply H4|done|]|].
    + rewrite E1, E2. exact (ow_event _ (proj1 H4) i p Hp).
    + intros k j _. unfold event_refs. cbn [foldr]. rewrite E1, E2. lia.
  - revert H4. apply fd_inv_same; try done. simpl. apply list_eq. intros j.
    destruct (decide (i = j)) as [<-|]; [by rewrite list_lookup_alter_eq, Hp|by rewrite list_lookup_alter_ne].
Qed.

(** A blocking call is a schedule, a change of an object's data, or both. *)
Definition io_step s s' : Prop :=
  (kwf s → kwf s') ∧ (kfd None s → kfd None s') ∧ next_pid s' = next_pid s.

Lemma schedule_pid r s : next_pid (schedule r s).2 = next_pid s.
Proof. unfold schedule. cbv zeta. repeat (case_match; simpl; try done). Qed.

Lemma io_schedule r s : io_step s (schedule r s).2.
Proof. split_and!; [apply schedule_wf|apply schedule_kfd|apply schedule_pid]. Qed.

Lemma io_pipe i q s : same_refs (the_pipe i s) q → io_step s (on_pipe i q s).
Proof. intros Hq. split_and!; [by apply kwf_machine|by apply on_pipe_kfd|done]. Qed.

Lemma io_trans s1 s2 s3 : io_step s1 s2 → io_step s2 s3 → io_step s1 s3.
Proof. intros (H1 & H2 & H3) (H4 & H5 & H6). split_and!; [auto..|congruence]. Qed.

Lemma io_refl s : io_step s s.
Proof. done. Qed.

Lemma read_pipe_step r s : io_step s (io_kernel (read_pipe r s)).
Proof.
  unfold read_pipe. destruct (get_pipe_for_fd _ _ _) as [i|]; [|done]. cbv zeta.
  assert (Ht : ∀ r s, io_step s (io_kernel (let (bytes, p) := pipe_read (rdx r) (the_pipe i s) in
    IoResult (Return (Z.of_nat (length bytes))) r bytes (on_pipe i p s)))).
  { intros r' s'. pose proof (pipe_read_refs (rdx r') (the_pipe i s')) as Hr.
    destruct (pipe_read (rdx r') (the_pipe i s')) as [bytes p]. by apply io_pipe. }
  destruct (_ && _); [|apply Ht]. pose proof (io_schedule (restart r) s) as Hs.
  destruct (schedule (restart r) s) as [[] s']; cbn [snd] in Hs; try exact Hs. eapply io_trans; [exact Hs|apply Ht].
Qed.

Lemma write_pipe_step r bytes s : io_step s (io_kernel (write_pipe r bytes s)).
Proof.
  unfold write_pipe. destruct (get_pipe_for_fd _ _ _) as [i|]; [|done]. cbv zeta.
  assert (Ht : ∀ r s, io_step s (io_kernel (let (n, p) := pipe_write bytes (the_pipe i s) in
    IoResult (Return n) r [] (on_pipe i p s)))).
  { intros r' s'. pose proof (pipe_write_refs bytes (the_pipe i s')) as Hr.
    destruct (pipe_write bytes (the_pipe i s')) as [n p]. by apply io_pipe. }
  destruct (_ && _); [|apply Ht]. pose proof (io_schedule (restart r) s) as Hs.
  destruct (schedule (restart r) s) as [[] s']; cbn [snd] in Hs; try exact Hs. eapply io_trans; [exact Hs|apply Ht].
Qed.

Lemma block_step b r s : io_step s (io_kernel (eventfd_block b r s)).
Proof.
  unfold eventfd_block. destruct b; [done|]. cbv zeta. pose proof (io_schedule (restart r) s) as Hs.
  by destruct (schedule (restart r) s) as [[] s'].
Qed.

Lemma read_eventfd_step r s : io_step s (io_kernel (read_eventfd r s)).
Proof.
  unfold read_eventfd. destruct (get_eventfd_for_fd _ _) as [i|]; [|done]. destruct (_ <? _); [done|].
  unfold eventfd_read. destruct (_ =? 0); [apply block_step|]. cbv zeta.
  split_and!; [by apply kwf_machine|by apply on_eventfd_kfd|done].
Qed.

Lemma write_eventfd_step r bytes s : io_step s (io_kernel (write_eventfd r bytes s)).
Proof.
  unfold write_eventfd. destruct (get_eventfd_for_fd _ _) as [i|]; [|done]. destruct (_ <? _); [done|].
  unfold eventfd_write. destruct (_ =? UINT64_MAX); [done|]. destruct (_ <? _); [apply block_step|].
  split_and!; [by apply kwf_machine|by apply on_eventfd_kfd|done].
Qed.

(** ** Runs *)

Lemma result_only_safe {A} (f : fdst (X := X) → Z * A * fdst) :
  fd_safe (λ st, (f st).2) → fd_safe (λ st, (result_only f st).2).
Proof.
  intros Hf R st HR Ht Hst. specialize (Hf R st HR Ht Hst). unfold result_only.
  cbv beta in Hf. destruct (f st) as [[z a] st']. exact Hf.
Qed.

Lemma fexec_inv op s : kwf s → kfd None s → pids_left s → fop_ok op → (fexec op s).1 ≠ Halt →
  kwf (fexec op s).2 ∧ kfd None (fexec op s).2.
Proof.
  intros Hwf Hs Hn Hok Hh.
  assert (Hcall : ∀ f, fd_safe (λ st, (f st).2) →
    kwf (ret (fd_call f s)).2 ∧ kfd None (ret (fd_call f s)).2).
  { intros f Hf. split; [by apply fd_call_kwf|by apply fd_call_kfd]. }
  assert (Hio : ∀ x : io_result (sys Y X), io_step s (io_kernel x) → kwf (io x).2 ∧ kfd None (io x).2).
  { intros x (H1 & H2 & _). split; [by apply H1|by apply H2]. }
  destruct op; simpl in Hok, Hh |- *.
  - split; [by apply kexec_wf|by apply kexec_kfd].
  - apply Hcall, close_safe.
  - apply (Hcall (sys_dup r)), (dup_safe (rdi r) (-1) false Hok).
  - apply (Hcall (sys_dup2 r)), (dup_safe (rdi r) (s64 (rsi r)) true Hok).
  - apply Hcall, result_only_safe, pipe_safe.
  - apply Hcall, result_only_safe, pipe2_safe.
  - apply Hcall, eventfd2_safe.
  - apply Hcall, result_only_safe, socketpair_safe.
  - apply Hcall, install_socket_safe.
  - apply Hcall, install_vnode_safe.
  - by apply Hcall, install_device_safe.
  - apply Hcall, sendmsg_safe.
  - apply Hcall, result_only_safe, recvmsg_safe.
  - apply Hio, read_pipe_step.
  - apply Hio, write_pipe_step.
  - apply Hio, read_eventfd_step.
  - apply Hio, write_eventfd_step.
Qed.

Lemma fexec_pid op s : pid_step s (fexec op s).2.
Proof.
  assert (Hcall : ∀ f, pid_step s (ret (fd_call f s)).2) by (intros f; left; apply fd_call_pid).
  assert (Hio : ∀ x : io_result (sys Y X), io_step s (io_kernel x) → pid_step s (io x).2).
  { intros x (_ & _ & H). by left. }
  destruct op; simpl; first [apply Hcall|apply kexec_pid|apply Hio].
  - apply read_pipe_step.
  - apply write_pipe_step.
  - apply read_eventfd_step.
  - apply write_eventfd_step.
Qed.

Lemma held_none {O} (in_use : O → bool) cnt l i :
  (∀ n x, l !! n = Some x → in_use x = false) → held in_use cnt l i = 0.
Proof.
  intros H. unfold held. destruct (by_index in_use l i) as [n|] eqn:E; [|done].
  apply by_index_Some in E as (_ & x & Hx & Hu). by rewrite (H n x Hx) in Hu.
Qed.

Lemma all_plain l : (∀ i p, l !! i = Some p → plain (fd_table p)) → plain (all_fds l).
Proof.
  induction l as [|p l IH]; intros Hl; [constructor|]. unfold all_fds. rewrite fmap_cons. cbn [concat].
  apply Forall_app. split; [by apply (Hl 0%nat)|]. apply IH. intros i q Hq. by apply (Hl (S i)).
Qed.

Lemma boot_kfd p4 (y : Y) (x : X) : kfd None (init_process p4 (boot (Sys y (no_objects x)))).
Proof.
  assert (Hp : ∀ i p, process_list (init_process p4 (boot (Sys y (no_objects x)))) !! i = Some p →
    length (fd_table p) = PROCESS_FD_MAX ∧ plain (fd_table p)).
  { intros i p. unfold init_process, boot. cbn [process_list]. destruct (decide (i = 0%nat)) as [->|Hne].
    - rewrite list_lookup_alter_eq. simpl. intros [= <-]. cbn [fd_table]. split; [done|]. repeat constructor.
    - rewrite list_lookup_alter_ne, list_lookup_fmap by done. intros (q & Hq & ->)%fmap_Some.
      apply lookup_replicate in Hq as [-> _]. split; [done|apply plain_zero]. }
  split; [done|apply Hp|intros i p Hi _; by eapply Hp|].
  split.
  - split; try done; cbn [objs machine init_process boot no_objects g_file_handles g_pipe_objects g_eventfd_objects].
    + intros n h [-> _]%lookup_replicate. done.
    + intros n h [-> _]%lookup_replicate. done.
    + intros n h [-> _]%lookup_replicate. done.
    + intros n c Hc. unfold cores in Hc. change (g_socket_objects _) with (replicate MAX_SOCKET_OBJECTS zero_socket) in Hc.
      rewrite list_lookup_fmap in Hc.
      apply fmap_Some in Hc as (so & [-> _]%lookup_replicate & ->). split; [done|]. split; [simpl; lia|done].
  - intros k i Hk. rewrite refs_app.
    assert (Hall : plain (all_fds (process_list (init_process p4 (boot (Sys y (no_objects x)))))))
      by (apply all_plain; intros j p Hj; by eapply Hp).
    rewrite (plain_refs _ _ _ Hall Hk).
    change (objs (machine (init_process p4 (boot (Sys y (no_objects x)))))) with (no_objects x).
    assert (Hq : in_flight whole (no_objects x) = []) by reflexivity. rewrite Hq. simpl.
    destruct k; try done; symmetry; apply held_none; intros n z Hz;
      try (apply lookup_replicate in Hz as [-> _]; done).
    unfold cores in Hz. change (g_socket_objects _) with (replicate MAX_SOCKET_OBJECTS zero_socket) in Hz.
      rewrite list_lookup_fmap in Hz.
    by apply fmap_Some in Hz as (so & [-> _]%lookup_replicate & ->).
Qed.
End calls.
