(* ===== verification/PipeSpec.v ===== *)
(** * Pipes are bounded queues

    The ring buffer of a pipe holds a sequence of bytes: writing appends what fits,
    reading takes from the front. *)

From S2P Require Import Prelude CString VfsNode ProcessData Process Lifecycle Scheduler ProcessInv ProcessOps.
From S2P Require Import LifecycleOps ProcessProps Fd FdInv FdTables FdKernel FdSyscalls FdCalls.

#[local] Strategy 100 [select_loop scan_order proc].

(** The bytes in a pipe, oldest first. *)
Definition contents (p : pipe_object) : list Z :=
  (λ j, arr_get (pi_buffer p) ((read_pos p + Z.of_nat j) mod PIPE_SIZE)) <$> seq 0 (Z.to_nat (pi_size p)).

Lemma contents_length p : length (contents p) = Z.to_nat (pi_size p).
Proof. unfold contents. by rewrite length_fmap, length_seq. Qed.

Lemma contents_read p : ring_ok p → 0 < pi_size p →
  contents p = arr_get (pi_buffer p) (read_pos p) :: contents (advance_read p).
Proof.
  intros (H1 & H2 & _) Hs. unfold contents. simpl pi_buffer. simpl pi_size. simpl read_pos.
  replace (Z.to_nat (pi_size p)) with (S (Z.to_nat (pi_size p - 1))) by lia.
  cbn [seq]. rewrite fmap_cons, Z.add_0_r, Z.mod_small by done. f_equal.
  rewrite <- fmap_S_seq, <- list_fmap_compose. apply list_fmap_ext. intros _ j _. simpl.
  f_equal. rewrite ring_step by done. rewrite Zplus_mod_idemp_l. f_equal. lia.
Qed.

Lemma ring_apart a n j : 0 ≤ j < n → n < PIPE_SIZE → (a + n) mod PIPE_SIZE ≠ (a + j) mod PIPE_SIZE.
Proof.
  intros Hj Hn E. assert (Hd : (n - j) mod PIPE_SIZE = 0).
  { replace (n - j) with ((a + n) - (a + j)) by lia. rewrite Zminus_mod, E, Z.sub_diag. done. }
  rewrite Z.mod_small in Hd by lia. lia.
Qed.

Lemma contents_write b p : ring_ok p → pi_size p < PIPE_SIZE →
  contents (advance_write b p) = contents p ++ [b].
Proof.
  intros (H1 & H2 & H3) Hs. unfold contents. simpl pi_buffer. simpl pi_size. simpl read_pos.
  replace (Z.to_nat (pi_size p + 1)) with (S (Z.to_nat (pi_size p))) by lia.
  rewrite seq_S, fmap_app. f_equal.
  - apply list_fmap_ext. intros k j Hj. apply list_elem_of_lookup_2, elem_of_seq in Hj.
    rewrite H3. apply arr_get_set_ne, ring_apart; lia.
  - simpl. f_equal. rewrite Z2Nat.id, H3 by lia. by rewrite arr_get_set_eq.
Qed.

Lemma pipe_read_loop_spec n : ∀ len p out q, ring_ok p → pi_size p ≤ Z.of_nat n →
  pipe_read_loop n len p = (out, q) →
  out = take (Z.to_nat len) (contents p) ∧ contents q = drop (Z.to_nat len) (contents p).
Proof.
  induction n as [|n IH]; intros len p out q Hr Hn.
  { intros [= <- <-]. assert (Hc : contents p = []).
    { apply length_zero_iff_nil. rewrite contents_length. destruct Hr. lia. }
    by rewrite Hc, take_nil, drop_nil. }
  rewrite pipe_read_loop_eq. destruct (Z.ltb_spec 0 len) as [Hl|Hl]; cycle 1.
  { intros [= <- <-]. by replace (Z.to_nat len) with 0%nat by lia. }
  destruct (Z.ltb_spec 0 (pi_size p)) as [Hs|Hs]; cbn [andb]; cycle 1.
  { intros [= <- <-]. assert (Hc : contents p = []).
    { apply length_zero_iff_nil. rewrite contents_length. lia. }
    by rewrite Hc, take_nil, drop_nil. }
  destruct (pipe_read_loop n (len - 1) (advance_read p)) as [out' q'] eqn:E. intros [= <- <-].
  destruct (IH (len - 1) (advance_read p) out' q') as [E1 E2].
  - by apply (advance_read_refs p Hs).
  - simpl. lia.
  - done.
  - rewrite (contents_read p Hr Hs). replace (Z.to_nat len) with (S (Z.to_nat (len - 1))) by lia.
    simpl. by rewrite E1, E2.
Qed.

Lemma pipe_read_spec len p : ring_ok p →
  let (out, q) := pipe_read len p in
  out = take (Z.to_nat len) (contents p) ∧ contents q = drop (Z.to_nat len) (contents p).
Proof.
  intros Hr. destruct (pipe_read len p) as [out q] eqn:E. eapply pipe_read_loop_spec; [done| |exact E].
  destruct Hr as (_ & ? & _). lia.
Qed.

(** How many of [n] bytes a pipe takes. *)
Definition room (p : pipe_object) (n : nat) : nat := (n `min` Z.to_nat (PIPE_SIZE - pi_size p))%nat.

Lemma pipe_write_spec bytes : ∀ p, ring_ok p →
  let (n, q) := pipe_write bytes p in
  n = Z.of_nat (room p (length bytes)) ∧ contents q = contents p ++ take (room p (length bytes)) bytes.
Proof.
  induction bytes as [|b bytes IH]; intros p Hr.
  { simpl. by rewrite app_nil_r. }
  rewrite pipe_write_eq. unfold room. destruct (Z.ltb_spec (pi_size p) PIPE_SIZE) as [Hs|Hs].
  - specialize (IH (advance_write b p) (proj2 (proj2 (proj2 (advance_write_refs b p Hs))) Hr)).
    destruct (pipe_write bytes (advance_write b p)) as [n q]. destruct IH as [-> ->].
    rewrite contents_write by done. unfold room. simpl pi_size. cbn [length].
    replace (Z.to_nat (PIPE_SIZE - pi_size p)) with (S (Z.to_nat (PIPE_SIZE - (pi_size p + 1)))) by lia.
    rewrite <- Nat.succ_min_distr. cbn [take]. split; [lia|]. by rewrite <- app_assoc.
  - replace (Z.to_nat (PIPE_SIZE - pi_size p)) with 0%nat by lia. rewrite Nat.min_0_r. simpl.
    by rewrite app_nil_r.
Qed.
