(* ===== verification/FdProps.v ===== *)
(** * Properties of descriptors and pipes

    Reference counts over all runs, the data path of pipes, and what happens to calls
    that have to wait. *)

From stdpp Require Import gmultiset.
From S2P Require Import Prelude CString VfsNode ProcessData Process Lifecycle Scheduler ProcessInv ProcessOps.
From S2P Require Import LifecycleOps ProcessProps Fd FdInv FdTables FdKernel FdSyscalls FdCalls PipeSpec.

#[local] Strategy 100 [select_loop scan_order proc].

Section props.
  Context {Y X : Type} `{!Hardware Y, !HardwareSpec Y, !Network X, !NetworkSpec X}.
  Implicit Types s : kernel (sys Y X).

Lemma freachable_inv p4 (y : Y) (x : X) n s :
  hw_alive y p4 → freachable p4 y x n s → Z.of_nat n < 2 ^ 32 - 3 →
  (kwf s ∧ kfd None s) ∧ 0 < next_pid s ≤ 2 + Z.of_nat n.
Proof.
  intros Hal Hr. induction Hr as [|n s op o s' Hr IH Hok He Hh]; intros Hn.
  { split; [split; [by apply boot_wf|apply boot_kfd]|]. change (0 < 2 ≤ 2 + Z.of_nat 0). lia. }
  destruct IH as [[Hwf Hfd] Hpid]; [lia|]. assert (Hleft : pids_left s) by (split; lia).
  split.
  - replace s' with (fexec op s).2 by (by rewrite He). apply fexec_inv; [done..|]. by rewrite He.
  - pose proof (fexec_pid op s) as Hstep. rewrite He in Hstep. simpl in Hstep.
    assert (Hu : u32 (next_pid s + 1) = next_pid s + 1) by (apply Z.mod_small; lia).
    destruct Hstep as [-> | ->]; lia.
Qed.

Lemma refs_pos l k i : 0 < refs l k i ↔ FdEntry k i ∈ l.
Proof.
  split; [|apply (refs_elem l (FdEntry k i))]. induction l as [|e l IH]; [done|]. rewrite refs_cons.
  destruct (is_kind k e) eqn:Hk; simpl; [|intros H; right; by apply IH].
  destruct (Z.eqb_spec (handle_index e) i); simpl; [|intros H; right; by apply IH].
  intros _. apply is_kind_true in Hk. destruct e; simpl in *; subst. left.
Qed.

(** Every descriptor there is: in a table, or queued in a socket. *)
Definition live_fds s : list fd_entry :=
  all_fds (process_list s) ++ in_flight whole (objs (machine s)).

(** C4 (invariant): reference counts are exact.  In every state reached by fewer than
    2^32 - 3 operations (opening, duplicating, passing, reading, writing and closing
    descriptors, [fork], [clone], [execve], exit, kill, scheduling), the count kept in every
    file, pipe end, event counter and socket is the number of descriptors that refer to it,
    in the tables of processes and in the queues of sockets.  So no descriptor dangles, an
    object is in use exactly as long as a descriptor refers to it, and a process that has
    ended refers to nothing.  (A socket that is queued in itself is such a reference: it
    stays in use for good.) *)
Theorem descriptor_counts_exact p4 (y : Y) (x : X) n s :
  hw_alive y p4 → freachable p4 y x n s → Z.of_nat n < 2 ^ 32 - 3 →
  (∀ k i, counted k = true → stored (objs (machine s)) k i = refs (live_fds s) k i) ∧
  (∀ k i, counted k = true → 0 < stored (objs (machine s)) k i ↔ FdEntry k i ∈ live_fds s) ∧
  objects_wf (objs (machine s)) ∧
  (∀ i p, process_list s !! i = Some p → status p = DEAD ∨ status p = ZOMBIE → plain (fd_table p)).
Proof.
  intros Hal Hr Hn. destruct (freachable_inv _ _ _ _ _ Hal Hr Hn) as [[_ Hs] _].
  destruct (kf_inv _ _ Hs) as [Hwf Hinv]. split_and!.
  - intros k i Hk. symmetry. by apply Hinv.
  - intros k i Hk. rewrite <- Hinv by done. apply refs_pos.
  - done.
  - intros i p Hp Hst. apply (kf_plain _ _ Hs i p Hp). left. unfold stopped.
    destruct Hst as [E|E]; [by rewrite (proj2 (is_status_true DEAD p) E)|].
    by rewrite (proj2 (is_status_true ZOMBIE p) E), orb_true_r.
Qed.

(** ** Pipes *)

Lemma pipe_for_fd fd k s i : kfd None s → get_pipe_for_fd fd k (fd_state s) = Some i →
  (i < length (g_pipe_objects (objs (machine s))))%nat ∧ ring_ok (the_pipe i s).
Proof.
  intros Hs. unfold get_pipe_for_fd. destruct (get_fd_entry _ _) as [e|]; [|done].
  destruct (is_kind k e); [|done]. intros (_ & p & Hp & Hu)%by_index_Some.
  split; [by eapply lookup_lt_Some|]. unfold the_pipe, pipe. change (fo (fd_state s)) with (objs (machine s)) in Hp.
  rewrite Hp. simpl. by eapply (ow_pipe _ (proj1 (kf_inv _ _ Hs))).
Qed.

(** The bytes in pipe [i]. *)
Definition data (i : nat) s : list Z := contents (the_pipe i s).

Lemma data_on_pipe i p s : (i < length (g_pipe_objects (objs (machine s))))%nat →
  data i (on_pipe i p s) = contents p ∧ ∀ j, j ≠ i → data j (on_pipe i p s) = data j s.
Proof.
  intros Hi. unfold data, the_pipe, pipe. simpl. split.
  - rewrite list_lookup_alter_eq. by apply lookup_lt_is_Some in Hi as [q ->].
  - intros j Hj. by rewrite list_lookup_alter_ne.
Qed.

(** C14 (refinement): a pipe is a queue of at most 16384 bytes.  A write that finds room, or no
    reader to wait for, appends as many bytes as fit and returns their number; a read that
    finds data, or no writer to wait for, returns the oldest bytes, at most as many as
    asked for, and removes them.  No other pipe changes. *)
Theorem pipe_is_queue p4 (y : Y) (x : X) n s r i :
  hw_alive y p4 → freachable p4 y x n s → Z.of_nat n < 2 ^ 32 - 3 →
  (∀ bytes, get_pipe_for_fd (rdi r) FD_PIPE_WRITER (fd_state s) = Some i →
     (length (data i s) < Z.to_nat PIPE_SIZE)%nat ∨ read_refs (the_pipe i s) = 0 →
     let k := (length bytes `min` (Z.to_nat PIPE_SIZE - length (data i s)))%nat in
     let res := write_pipe r bytes s in
     io_outcome res = Return (Z.of_nat k) ∧ data i (io_kernel res) = data i s ++ take k bytes ∧
     (∀ j, j ≠ i → data j (io_kernel res) = data j s)) ∧
  (get_pipe_for_fd (rdi r) FD_PIPE_READER (fd_state s) = Some i →
     data i s ≠ [] ∨ write_refs (the_pipe i s) = 0 →
     let res := read_pipe r s in
     io_bytes res = take (Z.to_nat (rdx r)) (data i s) ∧
     io_outcome res = Return (Z.of_nat (length (io_bytes res))) ∧
     data i (io_kernel res) = drop (Z.to_nat (rdx r)) (data i s) ∧
     (∀ j, j ≠ i → data j (io_kernel res) = data j s)).
Proof.
  intros Hal Hr Hn. destruct (freachable_inv _ _ _ _ _ Hal Hr Hn) as [[_ Hs] _]. split.
  - intros bytes Hfd Hroom. destruct (pipe_for_fd _ _ _ _ Hs Hfd) as [Hi Hring].
    unfold write_pipe. rewrite Hfd. cbv zeta. unfold data in Hroom. rewrite contents_length in Hroom.
    assert (Hsz := proj1 (proj2 Hring)).
    assert ((pi_size (the_pipe i s) =? PIPE_SIZE) && (0 <? read_refs (the_pipe i s)) = false) as ->.
    { apply andb_false_iff. destruct Hroom as [H|H]; [left; apply Z.eqb_neq|right; by rewrite H].
      intros E. rewrite E in H. lia. }
    pose proof (pipe_write_spec bytes _ Hring) as Hw. destruct (pipe_write bytes (the_pipe i s)) as [k p].
    destruct Hw as [-> Hc]. destruct (data_on_pipe i p s Hi) as [Hd Ho]. cbn [io_outcome io_kernel].
    assert (Hk : room (the_pipe i s) (length bytes) = (length bytes `min` (Z.to_nat PIPE_SIZE - length (data i s)))%nat).
    { unfold room, data. rewrite contents_length. f_equal. lia. }
    rewrite <- Hk. split_and!; [done|by rewrite Hd|done].
  - intros Hfd Hav. destruct (pipe_for_fd _ _ _ _ Hs Hfd) as [Hi Hring]. unfold read_pipe. rewrite Hfd. cbv zeta.
    assert ((pi_size (the_pipe i s) =? 0) && (0 <? write_refs (the_pipe i s)) = false) as ->.
    { apply andb_false_iff. destruct Hav as [H|H]; [left; apply Z.eqb_neq|right; by rewrite H].
      intros E. apply H, length_zero_iff_nil. unfold data. by rewrite contents_length, E. }
    pose proof (pipe_read_spec (rdx r) _ Hring) as Hw. destruct (pipe_read (rdx r) (the_pipe i s)) as [out p].
    destruct Hw as [-> Hc]. destruct (data_on_pipe i p s Hi) as [Hd Ho]. cbn [io_outcome io_kernel io_bytes].
    split_and!; [done|done|by rewrite Hd|done].
Qed.

(** ** Calls that wait *)

(** The running process gives way to another one that is ready: its registers are saved, and
    it stays ready. *)
Lemma schedule_switches r s c j p :
  kwf s → current_process s = Some c → status (proc c s) = RUNNING →
  process_list s !! j = Some p → j ≠ c → status p = READY → throttled p = false →
  ∃ k s', schedule r s = (SwitchTo k, s') ∧ k ≠ c ∧ current_process s' = Some k ∧
    status (proc c s') = READY ∧ regs (proc c s') = r ∧ objs (machine s') = objs (machine s).
Proof.
  intros Hwf Hc Hrun Hj Hne Hready Hth. destruct (kwf_current_lt c s Hwf Hc) as (Hlt & _).
  unfold schedule. rewrite Hc. cbv zeta.
  set (s1 := upd c (set_interrupted None) (upd c (set_regs r) s)).
  assert (E1 : proc c s1 = set_interrupted None (set_regs r (proc c s))).
  { unfold s1. rewrite proc_upd_eq by (by rewrite upd_length). by rewrite proc_upd_eq. }
  assert (E1r : is_status RUNNING (proc c s1) = true) by (apply is_status_true; by rewrite E1). rewrite E1r.
  set (s2 := upd c (set_status READY) s1).
  assert (E2 : proc c s2 = set_status READY (set_interrupted None (set_regs r (proc c s)))).
  { unfold s2. rewrite proc_upd_eq, E1; [done|]. unfold s1. by rewrite !upd_length. }
  assert (Hlen : length (process_list s2) = MAX_PROCESSES).
  { unfold s2, s1. rewrite !upd_length. apply Hwf. }
  assert (Hj2 : process_list s2 !! j = Some p).
  { unfold s2, s1. rewrite !upd_lookup. by rewrite !decide_False by congruence. }
  assert (Hc64 : (c < MAX_PROCESSES)%nat) by (rewrite <- (kw_len _ (proj1 Hwf)); done).
  assert (Hj64 : (j < MAX_PROCESSES)%nat) by (rewrite <- Hlen; by eapply lookup_lt_Some).
  destruct (select_before c (process_list s2) j p Hc64 Hj64 Hj2 Hready Hth) as (k & Hk & Hk64 & Hd).
  destruct (process_select_next_ready (Some c) (process_list s2)) as [next l] eqn:Hsel. simpl in Hk. subst next.
  assert (Hkc : k ≠ c).
  { intros ->. rewrite !distance_cases in Hd by done. rewrite Nat.leb_refl in Hd.
    destruct (Nat.leb_spec j c); lia. }
  rewrite (proj2 (Nat.eqb_neq _ _) Hkc). eexists k, _. split; [reflexivity|].
  destruct (select_loop_spec _ _ _ _ _ (select_spec _ _ _ _ Hsel)) as ([Hl Hsame] & _ & _).
  assert (Hp2 : process_list s2 !! c = Some (proc c s2)) by (apply lookup_proc; by rewrite Hlen).
  destruct (Hsame c _ Hp2) as (q & Hq & Hor).
  assert (Hfin : proc c (upd k (set_status RUNNING) (set_current k (set_list l s2))) = q).
  { apply proc_lookup. rewrite upd_lookup, decide_False by done. exact Hq. }
  split_and!; [done|done| | |].
  - change (status (proc c (upd k (set_status RUNNING) (set_current k (set_list l s2)))) = READY).
    rewrite Hfin. destruct Hor as [->|(_ & ph & ->)]; by rewrite E2.
  - change (regs (proc c (upd k (set_status RUNNING) (set_current k (set_list l s2)))) = r).
    rewrite Hfin. destruct Hor as [->|(_ & ph & ->)]; by rewrite E2.
  - done.
Qed.

(** Nobody else is ready: the caller goes on. *)
Lemma schedule_returns r s c :
  kwf s → current_process s = Some c → (∀ j p, j ≠ c → process_list s !! j = Some p → status p ≠ READY) →
  ∃ s', schedule r s = (Return 0, s') ∧ objs (machine s') = objs (machine s).
Proof.
  intros Hwf Hc Hno. unfold schedule. rewrite Hc. cbv zeta.
  set (s1 := upd c (set_interrupted None) (upd c (set_regs r) s)).
  set (s2 := if is_status RUNNING (proc c s1) then upd c (set_status READY) s1 else s1).
  assert (Hother : ∀ j p, j ≠ c → process_list s2 !! j = Some p → status p ≠ READY).
  { intros j p Hj. unfold s2. destruct (is_status _ _); unfold s1; rewrite !upd_lookup, !decide_False by congruence;
      by apply Hno. }
  assert (Hm : objs (machine s2) = objs (machine s)) by (unfold s2; by destruct (is_status _ _)).
  destruct (process_select_next_ready (Some c) (process_list s2)) as [next l] eqn:Hsel.
  destruct (select_view _ _ _ _ Hsel) as [_ Hready]. destruct next as [k|]; [|by eexists].
  destruct (Nat.eqb_spec k c) as [->|Hk]; [by eexists|].
  destruct (Hready k eq_refl) as (p & Hp & Hst). by destruct (Hother k p Hk Hp).
Qed.

(** reading an empty pipe that still has a writer does not report end of file
    while somebody else can run: the call gives the processor away, leaves the pipe as it
    is, and the reader, when it is entered again, executes the same system call again. *)
Theorem pipe_read_waits r s c i j p :
  kwf s → current_process s = Some c → status (proc c s) = RUNNING →
  process_list s !! j = Some p → j ≠ c → status p = READY → throttled p = false →
  get_pipe_for_fd (rdi r) FD_PIPE_READER (fd_state s) = Some i →
  pi_size (the_pipe i s) = 0 → 0 < write_refs (the_pipe i s) → 2 ≤ rcx r →
  let res := read_pipe r s in
  ∃ k, io_outcome res = SwitchTo k ∧ k ≠ c ∧ current_process (io_kernel res) = Some k ∧
    the_pipe i (io_kernel res) = the_pipe i s ∧ status (proc c (io_kernel res)) = READY ∧
    u_rip (switch_to_process (proc c (io_kernel res))) = rcx r - 2 ∧
    u_rax (switch_to_process (proc c (io_kernel res))) = rax r ∧
    u_rdi (switch_to_process (proc c (io_kernel res))) = rdi r.
Proof.
  intros Hwf Hc Hrun Hj Hne Hready Hth Hfd Hsz Hw Hrcx. unfold read_pipe. rewrite Hfd, Hsz. cbv zeta.
  rewrite (proj2 (Z.ltb_lt _ _) Hw). cbn [Z.eqb andb].
  destruct (schedule_switches (restart r) s c j p) as (k & s' & E & Hk & Hc' & Hst & Hregs & Hm); [done..|].
  rewrite E. cbn [io_outcome io_kernel]. exists k. unfold switch_to_process. rewrite Hregs.
  unfold restart. rewrite (proj2 (Z.leb_le _ _) Hrcx). unfold the_pipe. by rewrite Hm.
Qed.

Definition LINUX_SYS_READ : Z := 0.
Definition LINUX_SYS_WRITE : Z := 1.

(** C36 (error): a write to a full pipe when nobody else is ready restarts as a read.  The handler
    steps the program back to its [syscall] instruction and then returns 0 in [rax], which
    is the number of [read]. *)
Theorem full_pipe_write_restarts_as_read r bytes s c i :
  kwf s → current_process s = Some c →
  (∀ j p, j ≠ c → process_list s !! j = Some p → status p ≠ READY) →
  get_pipe_for_fd (rdi r) FD_PIPE_WRITER (fd_state s) = Some i →
  pi_size (the_pipe i s) = PIPE_SIZE → 0 < read_refs (the_pipe i s) →
  2 ≤ rcx r → rax r = LINUX_SYS_WRITE → bytes ≠ [] →
  let res := write_pipe r bytes s in
  io_outcome res = Return 0 ∧
  rcx (syscall_return 0 (io_regs res)) = rcx r - 2 ∧
  rax (syscall_return 0 (io_regs res)) = LINUX_SYS_READ ∧
  rdi (syscall_return 0 (io_regs res)) = rdi r.
Proof.
  intros Hwf Hc Hno Hfd Hsz Hr Hrcx Hrax Hb. unfold write_pipe. rewrite Hfd, Hsz. cbv zeta.
  rewrite (proj2 (Z.ltb_lt _ _) Hr), Z.eqb_refl. cbn [andb].
  destruct (schedule_returns (restart r) s c Hwf Hc Hno) as (s' & E & Hm). rewrite E.
  assert (Hp : the_pipe i s' = the_pipe i s) by (unfold the_pipe; by rewrite Hm). rewrite Hp.
  destruct bytes as [|b bytes]; [done|]. rewrite pipe_write_eq, Hsz, Z.ltb_irrefl.
  cbn [io_outcome io_regs]. unfold restart. rewrite (proj2 (Z.leb_le _ _) Hrcx). done.
Qed.
End props.

(** ** Examples *)

(** A machine with nothing but descriptors: memory management always succeeds. *)
#[local] Instance unit_Hardware : Hardware unit := {|
  hw_copy_p4 _ y := (0x2000, y);
  hw_destroy_user_space _ y := y;
  hw_create_user_space _ y := (0, y);
  hw_prepare_user_write _ a _ y := ((0x10000000000 <=? a) && (a <? 0x800000000000), y);
  hw_switch_page_table _ y := y;
  hw_load_fs_base _ y := y;
  hw_store_u32 _ _ y := y;
  hw_exec_snapshot _ _ _ := None;
  hw_exec_open _ _ := Some (- LINUX_ENOENT);
  hw_exec_load _ _ _ _ _ y := (inl (- LINUX_EINVAL), y);
  hw_input_clear_events y := y
|}.

#[local] Instance unit_Network : Network unit := {|
  net_clear _ x := x;
  net_setup _ _ x := x;
  socket_send_fin_close _ s x := (so_set_state SOCK_CLOSED s, x)
|}.

#[local] Instance unit_NetworkSpec : NetworkSpec unit.
Proof. split. by intros i s x s' x' [= <- <-]. Qed.

Definition unit_boot : recorded unit := Recorded tt (Some {[+ 0x1000 +]}).

Lemma unit_alive : hw_alive unit_boot 0x1000.
Proof. exists {[+ 0x1000 +]}. split; [done|right; multiset_solver]. Qed.

Definition unit_start : kernel (sys (recorded unit) unit) := init_process 0x1000 (boot (Sys unit_boot (no_objects tt))).

(** A run that never halts. *)
Fixpoint safe_frun (ops : list (fop unit)) (s : kernel (sys (recorded unit) unit)) : bool :=
  match ops with
  | [] => true
  | op :: ops' => match (fexec op s).1 with Halt => false | _ => safe_frun ops' (fexec op s).2 end
  end.

Lemma safe_freachable ops n s : freachable 0x1000 unit_boot tt n s → safe_frun ops s = true →
  Forall fop_ok ops → freachable 0x1000 unit_boot tt (n + length ops) (frun ops s).
Proof.
  revert n s. induction ops as [|op ops IH]; intros n s Hr Hs Hok; [by rewrite Nat.add_0_r|].
  apply Forall_cons in Hok as [Hop Hok]. simpl in Hs. cbn [length]. rewrite Nat.add_succ_r, <- Nat.add_succ_l.
  destruct (fexec op s) as [o s'] eqn:He. change (frun (op :: ops) s) with (frun ops (fexec op s).2).
  rewrite He. apply IH; [|by destruct o|done].
  apply (freach_step _ _ _ _ s op o); [done..|]. by destruct o.
Qed.

(** The system calls of the examples: [rdi], [rsi] and [rdx] are the arguments. *)
Definition call (nr rdi rsi rdx : Z) : syscall_regs := Regs nr rdx rsi rdi 0 0 0 0 0 0 0 0 0 0x400100 0x202 0x7000.

(** A pipe and a socket pair; one end of the pipe is sent over the pair; the process forks,
    and the child closes the reader and exits. *)
Definition ops_pipe : list (fop unit) :=
  [FPipe (call 22 0x5000 0 0);
   FSocketpair (Regs 53 0 1 1 0x5000 0 0 0 0 0 0 0 0 0x400100 0x202 0x7000);
   FSendmsg 5 None [4] (λ state x, (inr 0, state, x));
   FProcess (OpFork (call 57 0 0 0));
   FWritePipe (call 1 4 0x6000 3) [65; 66; 67]].

Definition piped : kernel (sys (recorded unit) unit) := Eval vm_compute in frun ops_pipe unit_start.

Lemma piped_eq : piped = frun ops_pipe unit_start.
Proof. vm_compute. reflexivity. Qed.

Lemma piped_reachable : freachable 0x1000 unit_boot tt 5 piped.
Proof.
  rewrite piped_eq. apply (safe_freachable ops_pipe 0); [constructor|vm_compute; reflexivity|].
  repeat constructor; done.
Qed.

(** Two processes with both ends of the pipe, and a third reference to its writer in flight. *)
Lemma descriptor_counts_exact_witness :
  stored (objs (machine piped)) FD_PIPE_WRITER 0 = 3 ∧
  (∀ k i, counted k = true → 0 < stored (objs (machine piped)) k i ↔ FdEntry k i ∈ live_fds piped).
Proof.
  split; [vm_compute; reflexivity|].
  apply (descriptor_counts_exact 0x1000 unit_boot tt 5 piped unit_alive piped_reachable ltac:(done)).
Defined.

Lemma pipe_is_queue_witness :
  data 0 piped = [65; 66; 67] ∧
  io_bytes (read_pipe (call 0 3 0x6000 2) piped) = take (Z.to_nat 2) (data 0 piped).
Proof.
  split; [vm_compute; reflexivity|].
  apply (pipe_is_queue 0x1000 unit_boot tt 5 piped (call 0 3 0x6000 2) 0 unit_alive piped_reachable ltac:(done)).
  - vm_compute. reflexivity.
  - left. vm_compute. discriminate.
Defined.

(** The parent reads before anybody has written; the child is ready. *)
Definition ops_waiting : list (fop unit) := [FPipe (call 22 0x5000 0 0); FProcess (OpFork (call 57 0 0 0))].
Definition waiting : kernel (sys (recorded unit) unit) := Eval vm_compute in frun ops_waiting unit_start.

Lemma waiting_wf : kwf waiting.
Proof.
  assert (waiting = frun ops_waiting unit_start) as -> by (vm_compute; reflexivity).
  eapply (freachable_inv 0x1000 unit_boot tt 2); [exact unit_alive|apply (safe_freachable ops_waiting 0)|lia].
  - constructor.
  - vm_compute. reflexivity.
  - repeat constructor; done.
Qed.

Lemma pipe_read_waits_witness :
  io_outcome (read_pipe (call 0 3 0x6000 10) waiting) = SwitchTo 1 ∧
  ∃ k, io_outcome (read_pipe (call 0 3 0x6000 10) waiting) = SwitchTo k ∧ k ≠ 0%nat.
Proof.
  split; [vm_compute; reflexivity|].
  destruct (pipe_read_waits (call 0 3 0x6000 10) waiting 0 0 1 (proc 1 waiting) waiting_wf) as (k & H1 & H2 & _);
    try (vm_compute; reflexivity).
  - discriminate.
  - vm_compute. discriminate.
  - exists k. split; [exact H1|exact H2].
Defined.

(** One process with a pipe full of zeros. *)
Definition ops_opened : list (fop unit) := [FPipe (call 22 0x5000 0 0)].
Definition opened : kernel (sys (recorded unit) unit) := Eval vm_compute in frun ops_opened unit_start.
Definition full_state : kernel (sys (recorded unit) unit) :=
  on_pipe 0 (Pipe true 1 1 0 0 PIPE_SIZE (arr_fill 0)) opened.

Lemma full_wf : kwf full_state.
Proof.
  apply kwf_machine; [done|]. assert (opened = frun ops_opened unit_start) as -> by (vm_compute; reflexivity).
  eapply (freachable_inv 0x1000 unit_boot tt 1); [exact unit_alive|apply (safe_freachable ops_opened 0)|lia].
  - constructor.
  - vm_compute. reflexivity.
  - repeat constructor; done.
Qed.

Lemma full_alone j p : j ≠ 0%nat → process_list full_state !! j = Some p → status p ≠ READY.
Proof.
  assert (Hall : forallb (λ p, negb (is_status READY p)) (tail (process_list full_state)) = true)
    by (vm_compute; reflexivity).
  revert Hall. generalize (process_list full_state). intros l Hall Hj Hp. rewrite forallb_forall in Hall.
  destruct j as [|j]; [done|]. destruct l as [|q l]; [done|].
  specialize (Hall p). apply is_status_false, negb_true_iff, Hall, list_elem_of_In.
  by eapply list_elem_of_lookup_2.
Qed.

Lemma full_pipe_write_restarts_as_read_witness :
  rax (syscall_return 0 (io_regs (write_pipe (call 1 4 0x6000 1) [65] full_state))) = LINUX_SYS_READ.
Proof.
  apply (full_pipe_write_restarts_as_read (call 1 4 0x6000 1) [65] full_state 0 0 full_wf);
    try (vm_compute; reflexivity).
  - exact full_alone.
  - vm_compute. discriminate.
  - discriminate.
Defined.
