(* ===== verification/Cpu.v ===== *)
(** * The memory manager under the processes

    [FdKernel] asks for a machine ([Hardware]): address spaces that can be created, copied,
    destroyed and loaded, and stores in user memory.  Here it is the memory manager of
    [Vmm] ([kernel/vmm.c]) with the page-table and FS registers of the processor; only the
    program loader is left open. *)

From stdpp Require Import gmultiset.
From S2P Require Import Prelude CString VfsNode Pmm Frames Vmm VmmSpec VmmProps ProcessData Process Lifecycle.
From S2P Require Import ProcessInv ProcessProps ExitProps Fd FdKernel FdSyscalls FdProps.

Section cpu.
  Context {A : Type} `{!FrameAllocator A}.
  Variables (PAGE_COW boot_p4 : Z).

Record cpu := Cpu { cpu_vm : vm (A := A); cr3 : Z; fs_register : Z }.

Definition on_vm (f : vm → vm) (c : cpu) : cpu := Cpu (f (cpu_vm c)) (cr3 c) (fs_register c).

(** ** Stores *)

(** The store of the byte [v] at the physical address [a]: physical memory is kept as
    64-bit words, lowest byte first. *)
Definition set_phys_byte (a v : Z) (m : arr) : arr :=
  let w := 8 * (a / 8) in
  let k := 8 * (a mod 8) in
  arr_set m w ((arr_get m w .& not64 (0xFF .<< k)) .| (v .<< k)).

(** The physical address of a byte, through the tables that are loaded. *)
Definition phys_byte (m : arr) (pml4 va : Z) : option Z :=
  match translate m pml4 va with
  | Some (e, _) => Some ((e .& PTE_PHYS_MASK) + va mod 4096)
  | None => None
  end.

(** Bytes at consecutive addresses; stores before a fault remain. *)
Fixpoint store_user_bytes (va : Z) (bytes : list Z) (c : cpu) : cpu :=
  match bytes with
  | [] => c
  | b :: bytes' =>
      match phys_byte (vm_mem (cpu_vm c)) (cr3 c) va with
      | None => c
      | Some p => store_user_bytes (u64 (va + 1)) bytes' (on_vm (upd_mem (set_phys_byte p b)) c)
      end
  end.

Definition bytes_u32 (v : Z) : list Z := [v .& 0xFF; (v .>> 8) .& 0xFF; (v .>> 16) .& 0xFF; (v .>> 24) .& 0xFF].

(** ** The machine *)

(** The page loop visits at most this many pages. *)
Definition prepare_fuel (length : Z) : nat := Z.to_nat (length / 4096 + 3).

(** The strings of a program, its file and the loader. *)
  Variable exec_snapshot_of : Z → Z → cpu → option Z.
  Variable exec_open_of : cstr → cpu → option Z.
  Variable exec_load_of : cstr → Z → Z → process_t → Z → cpu → (Z + exec_image) * cpu.
  Variable input_clear_of : cpu → cpu.

Definition cpu_Hardware : Hardware cpu := {|
  hw_copy_p4 p4 c :=
    let (new, s) := Vmm.vmm_copy_p4 PAGE_COW boot_p4 p4 (cpu_vm c) in (default 0 new, on_vm (λ _, s) c);
  hw_create_user_space p4 c :=
    let (new, s) := Vmm.vmm_create_user_space boot_p4 p4 (cpu_vm c) in (default 0 new, on_vm (λ _, s) c);
  hw_destroy_user_space p4 := on_vm (Vmm.vmm_destroy_user_space boot_p4 p4);
  hw_prepare_user_write p4 va n c :=
    match Vmm.vmm_prepare_user_write PAGE_COW (prepare_fuel n) p4 va n (cpu_vm c) with
    | Some (ok, s) => (ok, on_vm (λ _, s) c)
    | None => (false, c)
    end;
  hw_switch_page_table p4 c := Cpu (cpu_vm c) p4 (fs_register c);
  hw_load_fs_base v c := Cpu (cpu_vm c) (cr3 c) v;
  hw_store_u32 va v := store_user_bytes va (bytes_u32 v);
  hw_exec_snapshot := exec_snapshot_of;
  hw_exec_open := exec_open_of;
  hw_exec_load := exec_load_of;
  hw_input_clear_events := input_clear_of
|}.

End cpu.
#[global] Arguments cpu A : clear implicits.

(** ** A run on the memory manager *)

(** [demo_shared]: a root with one page that is mapped copy-on-write.  A loader that maps
    nothing; the program [bad] cannot be loaded. *)
Definition demo_load (path : cstr) (argv envp : Z) (p : process_t) (p4 : Z) (c : cpu pmm) : (Z + exec_image) * cpu pmm :=
  (if bool_decide (path = lit "bad") then inl (- LINUX_EINVAL) else inr (ExecImage 0x400000 0x7000 0x402345), c).

#[local] Instance demo_cpu_Hardware : Hardware (cpu pmm) :=
  cpu_Hardware 512 0x9000 (λ _ _ _, None) (λ _ _, None) demo_load id.
#[local] Existing Instance unit_Network.

Definition cpu_boot : sys (cpu pmm) unit := Sys (Cpu demo_shared demo_root 0) (no_objects tt).

Definition cpu_start : kernel (recorded (sys (cpu pmm) unit)) :=
  init_process demo_root (boot (Recorded cpu_boot (Some {[+ demo_root +]}))).

(** The child's [execve] fails, then succeeds; it exits with a status that its parent
    collects at the page they shared. *)
Definition cpu_ops : list kop :=
  [OpFork sample_regs; OpSchedule sample_regs; OpExecve (Some (lit "bad")) 0 0;
   OpExecve (Some (lit "bin/sh")) 0 0; OpExit 7; OpWait4 (wait4_regs 2 (demo_virt + 16))].

(** The word at an address of the first process. *)
Definition cpu_word (s : kernel (recorded (sys (cpu pmm) unit))) (va : Z) : option Z :=
  let m := vm_mem (cpu_vm (hw (rec_machine (machine s)))) in
  arr_get m <$> phys_byte m (p4_table (proc 0 s)) va.

(** The failed [execve] gives its address space back, the successful one the copy of the
    parent's, and the end of the child the last one but the parent's. *)
Lemma address_spaces_alive_witness :
  (size <$> rec_ledger (machine (krun (take 4 cpu_ops) cpu_start))) = Some 2%nat ∧
  (∃ S, rec_ledger (machine (krun cpu_ops cpu_start)) = Some S ∧ S = {[+ demo_root +]} ∧
    ∀ i p, process_list (krun cpu_ops cpu_start) !! i = Some p → p4_table p ≠ 0 → p4_table p ∈ S) ∧
  cpu_word (krun cpu_ops cpu_start) (demo_virt + 16) = Some 0x700.
Proof.
  split; [vm_compute; reflexivity|]. split; [|vm_compute; reflexivity].
  destruct (address_spaces_alive demo_root cpu_boot 6 (krun cpu_ops cpu_start)) as (S & HS & Hp).
  - apply (safe_reachable _ _ cpu_ops 0); [constructor|vm_compute; reflexivity].
  - apply (bool_decide_unpack _). vm_compute. exact I.
  - exists S. split; [exact HS|]. split; [|exact Hp].
    assert (E : Some S = Some {[+ demo_root +]}) by (rewrite <- HS; vm_compute; reflexivity).
    by injection E.
Defined.
