(* ===== verification/Memory.v ===== *)
(** * Memory system calls ([kernel/syscall/memory.c])

    The heap ([brk]) and mappings ([mmap], [munmap], [mprotect], [madvise]) of the running
    process, over the page tables of [Vmm].  Processes that share an address space share
    the heap and the cursor from which mappings are placed.  Messages are left out. *)

From S2P Require Import Prelude CString VfsNode Pmm Frames Vmm ProcessData Process Lifecycle Fd FdKernel FdSyscalls.

Definition USER_STACK_BASE : Z := 0x70000080000.
Definition USER_STACK_SIZE : Z := 65536.
Definition USER_MAP_END : Z := 0x00007FFFFFFFF000.
Definition LINUX_EIO : Z := 5.
Definition LINUX_ENOSYS : Z := 38.
Definition LINUX_PROT_READ : Z := 1.
Definition LINUX_PROT_WRITE : Z := 2.
Definition LINUX_PROT_EXEC : Z := 4.
Definition LINUX_MAP_SHARED : Z := 0x01.
Definition LINUX_MAP_PRIVATE : Z := 0x02.
Definition LINUX_MAP_FIXED : Z := 0x10.
Definition LINUX_MAP_ANONYMOUS : Z := 0x20.
Definition LINUX_MAP_32BIT : Z := 0x40.
Definition LINUX_MAP_GROWSDOWN : Z := 0x0100.
Definition LINUX_MAP_DENYWRITE : Z := 0x0800.
Definition LINUX_MAP_EXECUTABLE : Z := 0x1000.
Definition LINUX_MAP_NORESERVE : Z := 0x4000.
Definition LINUX_MAP_POPULATE : Z := 0x8000.
Definition LINUX_MAP_STACK : Z := 0x20000.
Definition LINUX_MAP_FIXED_NOREPLACE : Z := 0x100000.

(** The addresses of the loops [for (va = start; va < end; va += 4096)]; the ranges in use
    end at most at the last page, so that [va] does not wrap. *)
Definition pages (start end_ : Z) : list Z :=
  (λ i, start + 4096 * i) <$> seqZ 0 ((end_ - start + 4095) / 4096).

Definition set_heap (v : heap) (p : process_t) : process_t :=
  Process (p_ids p) (status p) (exit_status p) (p4_table p) (regs p) (interrupted p) (cwd p)
    (wait_target_pid p) (wait_status_ptr p) (fd_table p) (fs_base p) v
    (clear_child_tid p) (cpu_ticks p) (nice_value p) (signal_stack p) (p_cred p) (command p)
    (p_thermal p) (vfork_parent_pid p) (vfork_child_pid p) (ProcessData.shares_address_space p).
Definition set_clear_child_tid (v : Z) (p : process_t) : process_t :=
  Process (p_ids p) (status p) (exit_status p) (p4_table p) (regs p) (interrupted p) (cwd p)
    (wait_target_pid p) (wait_status_ptr p) (fd_table p) (fs_base p) (p_heap p)
    v (cpu_ticks p) (nice_value p) (signal_stack p) (p_cred p) (command p)
    (p_thermal p) (vfork_parent_pid p) (vfork_child_pid p) (ProcessData.shares_address_space p).

(** [shares_address_space(process, owner)] *)
Definition in_space_of (owner process : process_t) : bool :=
  negb (is_status DEAD process) && negb (p4_table process =? 0) && (p4_table process =? p4_table owner).

(** The result of [sys_brk] as a function of the heap of the owner. *)
Definition brk_fields (from to : heap) : heap :=
  Heap (brk_base from) (brk_current from) (brk_mapped_end from) (mmap_next to).

(** The heap with the most pages, and the greatest break among those. *)
Definition further (a b : heap) : bool :=
  (brk_mapped_end b <? brk_mapped_end a)
  || ((brk_mapped_end a =? brk_mapped_end b) && (brk_current b <? brk_current a)).

Section memory.
  Context {A : Type} `{!FrameAllocator A}.
  Variable PAGE_COW : Z.

(** ** Ranges of pages *)

(** [pmm_alloc_block] and [memset] of the page, then [vmm_map_page]. *)
Definition map_zeroed_page (user_p4 page_flags va : Z) (s : vm) : bool * vm :=
  match alloc_block (vm_frames s) with
  | (None, fr) => (false, Vm (vm_mem s) fr)
  | (Some phys, fr) =>
      (true, vmm_map_page user_p4 va phys page_flags (Vm (zero_frame phys (vm_mem s)) fr))
  end.

Definition map_zeroed_user_pages (user_p4 start end_ page_flags : Z) (s : vm) : bool * vm :=
  for_break (pages start end_) (map_zeroed_page user_p4 page_flags) s.

(** [phys = vmm_unmap_page(p4, va); if (phys) pmm_free_block(phys);] *)
Definition drop_page (user_p4 va : Z) (s : vm) : vm :=
  let (phys, s) := vmm_unmap_page user_p4 va s in
  if phys =? 0 then s else free_frame phys s.

Definition release_user_pages (user_p4 start end_ : Z) (s : vm) : vm :=
  foldl (λ s va, drop_page user_p4 va s) s (pages start end_).

(** [vfs_read_node(&node, offset, phys, length)]: whether it succeeds, and memory. *)
Variable vfs_read_node : vfs_node → Z → Z → Z → arr → bool * arr.

(** The file contents of the page at [va]; [false] is the error. *)
Definition read_file_page (file : option vfs_node) (offset base va phys : Z) (m : arr) : bool * arr :=
  match file with
  | None => (true, m)
  | Some node =>
      let file_offset := u64 (offset + (va - base)) in
      if file_offset <? node_size node
      then vfs_read_node node file_offset phys (Z.min (node_size node - file_offset) 4096) m
      else (true, m)
  end.

(** The page loop of [sys_mmap]: an error code when it stops. *)
Fixpoint mmap_loop (user_p4 base offset page_flags : Z) (fixed : bool) (file : option vfs_node)
    (vas : list Z) (s : vm) : option Z * vm :=
  match vas with
  | [] => (None, s)
  | va :: vas' =>
      let s := if fixed then drop_page user_p4 va s else s in
      match alloc_block (vm_frames s) with
      | (None, fr) =>
          (Some (- LINUX_ENOMEM), release_user_pages user_p4 base va (Vm (vm_mem s) fr))
      | (Some phys, fr) =>
          let (ok, m) := read_file_page file offset base va phys (zero_frame phys (vm_mem s)) in
          if negb ok
          then (Some (- LINUX_EIO),
                release_user_pages user_p4 base va (free_frame phys (Vm m fr)))
          else mmap_loop user_p4 base offset page_flags fixed file vas'
                 (vmm_map_page user_p4 va phys page_flags (Vm m fr))
      end
  end.

(** The page of [sys_mprotect] at [va]. *)
Definition protect_one (user_p4 page_flags va : Z) (s : vm) : bool * vm :=
  if negb (vmm_page_present user_p4 va s) then map_zeroed_page user_p4 page_flags va s
  else vmm_protect_page PAGE_COW user_p4 va page_flags s.

(** ** System calls *)

Context {X : Type}.
Implicit Types s : kernel (sys (vm (A := A)) X).

Definition the_vm s : vm := hw (machine s).
Definition set_vm (v : vm) s : kernel (sys (vm (A := A)) X) := on_machine (on_hw (λ _, v)) s.

Definition shared_mmap_cursor (owner : process_t) s : Z :=
  align_up_page (foldl (λ cursor p,
    if in_space_of owner p && (cursor <? mmap_next (p_heap p)) then mmap_next (p_heap p) else cursor)
    USER_MMAP_BASE (process_list s)).

Definition publish_mmap_cursor (owner : process_t) (cursor : Z) s : kernel (sys (vm (A := A)) X) :=
  set_list ((λ p,
    if in_space_of owner p && (mmap_next (p_heap p) <? cursor)
    then let h := p_heap p in set_heap (Heap (brk_base h) (brk_current h) (brk_mapped_end h) cursor) p
    else p) <$> process_list s) s.

(** [i] is the index of [owner]. *)
Definition synchronize_shared_brk (i : nat) s : kernel (sys (vm (A := A)) X) :=
  let owner := proc i s in
  let source := foldl (λ source p,
    if in_space_of owner p && further (p_heap p) source then p_heap p else source)
    (p_heap owner) (process_list s) in
  upd i (λ p, set_heap (brk_fields source (p_heap p)) p) s.

Definition publish_shared_brk (i : nat) s : kernel (sys (vm (A := A)) X) :=
  let owner := proc i s in
  set_list ((λ p, if in_space_of owner p then set_heap (brk_fields (p_heap owner) (p_heap p)) p else p)
              <$> process_list s) s.

Definition set_brk_current (v : Z) (h : heap) : heap :=
  Heap (brk_base h) v (brk_mapped_end h) (mmap_next h).
Definition set_brk_mapped_end (v : Z) (h : heap) : heap :=
  Heap (brk_base h) (brk_current h) v (mmap_next h).
Definition on_heap (f : heap → heap) (p : process_t) : process_t := set_heap (f (p_heap p)) p.

(** [sys_brk] once the heap is known: the query, and the new break. *)
Definition move_brk (i : nat) (requested : Z) s : Z * kernel (sys (vm (A := A)) X) :=
  let h := p_heap (proc i s) in
  let p4 := p4_table (proc i s) in
  if requested =? 0 then (brk_current h, s)
  else if requested <? brk_base h then (brk_current h, s)
  else
    let target := align_up_page requested in
    let finish s :=
      let s := upd i (on_heap (set_brk_current requested)) s in
      let s := publish_shared_brk i s in
      (brk_current (p_heap (proc i s)), s) in
    if brk_mapped_end h <? target then
      let (ok, v) := map_zeroed_user_pages p4 (brk_mapped_end h) target TABLE_FLAGS (the_vm s) in
      let s := set_vm v s in
      if negb ok then (brk_current h, s)
      else finish (upd i (on_heap (set_brk_mapped_end target)) s)
    else if target <? brk_mapped_end h then
      let s := set_vm (release_user_pages p4 target (brk_mapped_end h) (the_vm s)) s in
      finish (upd i (on_heap (set_brk_mapped_end target)) s)
    else finish s.

Definition sys_brk (r : syscall_regs) s : Z * kernel (sys (vm (A := A)) X) :=
  match current_process s with
  | None => (0, s)
  | Some i =>
      if p4_table (proc i s) =? 0 then (0, s) else
      let s := synchronize_shared_brk i s in
      let s := if brk_base (p_heap (proc i s)) =? 0
               then let base := align_up_page 0x450000 in
                    publish_shared_brk i (upd i (on_heap (λ h, Heap base base base (mmap_next h))) s)
               else s in
      move_brk i (rdi r) s
  end.

Definition supported_flags : Z :=
  LINUX_MAP_SHARED .| LINUX_MAP_PRIVATE .| LINUX_MAP_FIXED .| LINUX_MAP_ANONYMOUS .| LINUX_MAP_32BIT
  .| LINUX_MAP_GROWSDOWN .| LINUX_MAP_DENYWRITE .| LINUX_MAP_EXECUTABLE .| LINUX_MAP_NORESERVE
  .| LINUX_MAP_POPULATE .| LINUX_MAP_STACK .| LINUX_MAP_FIXED_NOREPLACE.

Definition prot_bad (prot : Z) : bool :=
  flag prot (not64 (LINUX_PROT_READ .| LINUX_PROT_WRITE .| LINUX_PROT_EXEC)).

Definition mmap_args_bad (prot flags offset : Z) : bool :=
  prot_bad prot || flag flags (not64 supported_flags)
  || (negb (flag flags LINUX_MAP_PRIVATE) && negb (flag flags LINUX_MAP_SHARED))
  || (flag flags LINUX_MAP_PRIVATE && flag flags LINUX_MAP_SHARED)
  || flag offset 0xFFF.

(** The file of a mapping: [inl] is an error code, [inr None] an anonymous mapping. *)
Definition mmap_file (anonymous : bool) (fd offset : Z) s : Z + option vfs_node :=
  if anonymous
  then if negb (fd =? -1) || negb (offset =? 0) then inl (- LINUX_EINVAL) else inr None
  else if fd <? 0 then inl (- LINUX_EBADF)
  else
    let st := Fdst (process_get_fd_table s) (objs (machine s)) in
    match get_fd_entry fd st with
    | None => inl (- LINUX_EBADF)
    | Some e =>
        if negb (is_kind FD_VNODE e) then inl (- LINUX_EBADF) else
        match get_file_handle_by_index (handle_index e) (fo st) with
        | None => inl (- LINUX_EBADF)
        | Some h =>
            let node := fh_node (file_ h (fo st)) in
            if bool_decide (node_type_of node = NODE_REGULAR) then inr (Some node) else inl (- LINUX_EBADF)
        end
    end.

Definition prot_page_flags (prot : Z) : Z :=
  if flag prot LINUX_PROT_WRITE then PAGE_PRESENT .| PAGE_USER .| PAGE_WRITABLE
  else PAGE_PRESENT .| PAGE_USER.

(** Where a mapping goes: [None] is an unaligned fixed address. *)
Definition mmap_base (fixed : bool) (addr : Z) (owner : process_t) s : option Z :=
  if fixed then if flag addr 0xFFF then None else Some addr
  else
    let hint := addr .& PAGE_MASK in
    let cursor := shared_mmap_cursor owner s in
    Some (if negb (addr =? 0) && (cursor <=? hint) then hint else cursor).

Definition mmap_range_bad (base end_ : Z) : bool :=
  (base <? AOS_USER_SPACE_START) || (end_ <? base) || (USER_MAP_END <? end_)
  || ((base <? USER_STACK_BASE + USER_STACK_SIZE) && (USER_STACK_BASE <? end_)).

Definition sys_mmap (r : syscall_regs) s : Z * kernel (sys (vm (A := A)) X) :=
  let addr := rdi r in
  let prot := rdx r in
  let flags := r10 r in
  let offset := r9 r in
  let fixed := flag flags LINUX_MAP_FIXED in
  match get_current_process s with
  | None => (- LINUX_EINVAL, s)
  | Some p =>
      if (p4_table p =? 0) || (rsi r =? 0) then (- LINUX_EINVAL, s)
      else if mmap_args_bad prot flags offset then (- LINUX_EINVAL, s)
      else if flag flags LINUX_MAP_FIXED_NOREPLACE then (- LINUX_ENOSYS, s)
      else match mmap_file (flag flags LINUX_MAP_ANONYMOUS) (s32 (r8 r)) offset s with
      | inl e => (e, s)
      | inr file =>
          let len := align_up_page (rsi r) in
          if len =? 0 then (- LINUX_EINVAL, s) else
          match mmap_base fixed addr p s with
          | None => (- LINUX_EINVAL, s)
          | Some base =>
              let end_ := u64 (base + len) in
              if mmap_range_bad base end_ then (- LINUX_EINVAL, s) else
              let s := if fixed then s else publish_mmap_cursor p end_ s in
              if prot =? 0 then
                (base, if fixed then set_vm (release_user_pages (p4_table p) base end_ (the_vm s)) s else s)
              else
                let (err, v) := mmap_loop (p4_table p) base offset (prot_page_flags prot) fixed file
                                  (pages base end_) (the_vm s) in
                (default base err, set_vm v s)
          end
      end
  end.

Definition sys_mprotect (r : syscall_regs) s : Z * kernel (sys (vm (A := A)) X) :=
  let address := rdi r in
  let prot := rdx r in
  match get_current_process s with
  | None => (- LINUX_EINVAL, s)
  | Some p =>
      if (p4_table p =? 0) || (rsi r =? 0) || flag address 0xFFF || prot_bad prot
      then (- LINUX_EINVAL, s)
      else
        let end_ := align_up_page (u64 (address + rsi r)) in
        if (end_ <? address) || (address <? AOS_USER_SPACE_START) || (USER_MAP_END <? end_)
        then (- LINUX_ENOMEM, s)
        else if prot =? 0
        then (0, set_vm (release_user_pages (p4_table p) address end_ (the_vm s)) s)
        else
          let (ok, v) := for_break (pages address end_) (protect_one (p4_table p) (prot_page_flags prot))
                           (the_vm s) in
          (if ok then 0 else - LINUX_ENOMEM, set_vm v s)
  end.

Definition sys_munmap (r : syscall_regs) s : Z * kernel (sys (vm (A := A)) X) :=
  let start := rdi r .& PAGE_MASK in
  let end_ := align_up_page (u64 (rdi r + rsi r)) in
  match get_current_process s with
  | None => (- LINUX_EINVAL, s)
  | Some p =>
      if (p4_table p =? 0) || (rsi r =? 0) || (end_ <? start) then (- LINUX_EINVAL, s)
      else (0, set_vm (release_user_pages (p4_table p) start end_ (the_vm s)) s)
  end.

Definition known_advice (advice : Z) : bool :=
  ((0 <=? advice) && (advice <=? 4)) || (advice =? 8) || ((10 <=? advice) && (advice <=? 23)).

Definition sys_madvise (r : syscall_regs) s : Z * kernel (sys (vm (A := A)) X) :=
  (if flag (rdi r) 0xFFF then - LINUX_EINVAL
   else if rsi r =? 0 then 0
   else if known_advice (rdx r) then 0 else - LINUX_EINVAL, s).

Definition sys_set_tid_address (r : syscall_regs) s : Z * kernel (sys (vm (A := A)) X) :=
  match get_current_process s with
  | None => (1, s)
  | Some p => (pid p, upd_current (set_clear_child_tid (rdi r)) s)
  end.

End memory.
