(* ===== verification/MemorySpec.v ===== *)
(** * Pages of an address space

    An address space together with the frames its user pages map: [space_ok].  Mapping a
    fresh page and dropping a page keep it, and change no other page. *)

From S2P Require Import Prelude CString VfsNode Pmm Frames Vmm VmmSpec VmmProps ProcessData Process Lifecycle.
From S2P Require Import Fd FdKernel FdSyscalls Memory.

(** Linear arithmetic with quotients and remainders. *)
Ltac div_lia := Z.to_euclidean_division_equations; lia.

(** User addresses. *)
Definition user (virt : Z) : Prop := AOS_USER_SPACE_START ≤ virt < USER_SPACE_END.

(** The frame an entry maps. *)
Definition phys_of_entry (e : Z) : Z := e .& PTE_PHYS_MASK.

Section space.
  Context {A : Type} `{!FrameAllocator A, !FrameAllocatorSpec A}.
  Implicit Types (s : vm (A := A)).

(** User pages map frames in use that are not page tables of the space, each page its own;
    they are small pages. *)
Record space_ok s pml4 : Prop := {
  so_wf : space_wf s pml4;
  so_data virt e r : user virt → translate (vm_mem s) pml4 virt = Some (e, r) →
    0 ≤ e < 2 ^ 52 ∧ frame (phys_of_entry e) ∧ fa_used (vm_frames s) (phys_of_entry e) ∧
    ¬ is_table s pml4 (phys_of_entry e);
  so_inj v1 v2 e1 e2 r1 r2 : user v1 → user v2 →
    translate (vm_mem s) pml4 v1 = Some (e1, r1) → translate (vm_mem s) pml4 v2 = Some (e2, r2) →
    phys_of_entry e1 = phys_of_entry e2 → page_of v1 = page_of v2;
  so_small virt t r : user virt →
    walk (vm_mem s) pml4 RIGHTS [pml4_index virt; pdpt_index virt] = Some (t, r) →
    flag (entry (vm_mem s) t (pd_index virt)) PAGE_PRESENT = true →
    flag (entry (vm_mem s) t (pd_index virt)) PAGE_HUGE = false
}.

(** A small page is mapped by its leaf entry. *)
Lemma translate_leaf s pml4 virt : space_ok s pml4 → user virt →
  translate (vm_mem s) pml4 virt =
    match walk (vm_mem s) pml4 RIGHTS [pml4_index virt; pdpt_index virt; pd_index virt] with
    | Some (pt, r) =>
        let e := entry (vm_mem s) pt (pt_index virt) in
        if flag e PAGE_PRESENT then Some (e, r .& e) else None
    | None => None
    end.
Proof.
  intros Hok Hu. unfold translate.
  change [pml4_index virt; pdpt_index virt; pd_index virt]
    with ([pml4_index virt; pdpt_index virt] ++ [pd_index virt]). rewrite walk_app.
  destruct (walk _ _ _ [pml4_index virt; pdpt_index virt]) as [[pd r]|] eqn:Hw; [|done].
  cbn [mbind option_bind walk]. unfold leaf_of.
  destruct (flag (entry (vm_mem s) pd (pd_index virt)) PAGE_PRESENT) eqn:HP; [|done].
  rewrite (so_small _ _ Hok virt pd r Hu Hw HP). done.
Qed.

(** Pages with the same indices translate alike. *)
Lemma translate_page m pml4 v w : page_of v = page_of w → translate m pml4 v = translate m pml4 w.
Proof.
  unfold page_of. intros [= E1 E2 E3 E4]. by rewrite !translate_trans, E1, E2, E3, E4.
Qed.

(** ** Writing into a frame that is not a table *)

(** Memory and allocator may change as long as the tables keep contents and frames. *)
Lemma space_wf_agree s m fr pml4 :
  space_wf s pml4 → fa_wf fr →
  (∀ t, is_table s pml4 t → fa_used fr t ∧ ∀ j, 0 ≤ j < 512 → entry m t j = entry (vm_mem s) t j) →
  space_wf (Vm m fr) pml4 ∧
  (∀ q, path_ok q → walk m pml4 RIGHTS q = walk (vm_mem s) pml4 RIGHTS q) ∧
  same_translation (vm_mem s) m pml4.
Proof.
  intros Hwf Hfr Hag.
  assert (Hent : ∀ q t r j, path_ok q → walk (vm_mem s) pml4 RIGHTS q = Some (t, r) → 0 ≤ j < 512 →
    entry m t j = entry (vm_mem s) t j).
  { intros q t r j Hq Hw Hj. destruct (Hag t) as [_ H]; [by exists q, r|by apply H]. }
  assert (Hwalk : ∀ q, path_ok q → walk m pml4 RIGHTS q = walk (vm_mem s) pml4 RIGHTS q).
  { intros q Hq. apply walk_agree. intros q1 i q2 t r -> Hw.
    eapply Hent; [by eapply path_ok_app|done|by eapply path_ok_elem]. }
  split_and!; [|done|].
  - destruct Hwf as [W1 W2 W3 W4 W5]. split; simpl.
    + done.
    + intros q t r Hq. rewrite Hwalk by done. intros Hw. split; [by eapply W2|].
      apply Hag. by exists q, r.
    + intros q q' t r r' Hq Hq'. rewrite !Hwalk by done. by apply W3.
    + intros q t r i Hq Hl Hi. rewrite Hwalk by done. intros Hw. rewrite (Hent q t r i) by done. by eapply W4.
    + intros q t r i Hq Hl Hi. rewrite Hwalk by done. intros Hw. rewrite (Hent q t r i) by done. by eapply W5.
  - intros virt. destruct (page_path virt) as [Hp3 Hi1].
    assert (Hp2 : path_ok [pml4_index virt; pdpt_index virt]) by (by apply (path_ok_app _ [pd_index virt])).
    unfold translate. rewrite Hwalk by done.
    destruct (walk (vm_mem s) pml4 RIGHTS [pml4_index virt; pdpt_index virt]) as [[pd r]|] eqn:Hw; [|done].
    apply leaf_of_agree; [eapply (Hent [_; _]); [done|done|apply index_range]|]. intros HP HH.
    eapply (Hent ([pml4_index virt; pdpt_index virt] ++ [pd_index virt])); [exact Hp3| |exact Hi1].
    by apply (leaf_pt _ _ _ [pml4_index virt; pdpt_index virt]).
Qed.

(** ** Dropping a page *)

(** Frames that are not tables keep their contents. *)
Definition same_data s (s' : vm (A := A)) pml4 : Prop :=
  ∀ t j, frame t → fa_used (vm_frames s) t → ¬ is_table s pml4 t → 0 ≤ j < 512 →
    entry (vm_mem s') t j = entry (vm_mem s) t j.

(** What [drop_page] does at a user address. *)
Record dropped s (s' : vm (A := A)) pml4 va : Prop := {
  dr_ok : space_ok s' pml4;
  dr_page : translate (vm_mem s') pml4 va = None;
  dr_others w : page_of w ≠ page_of va → translate (vm_mem s') pml4 w = translate (vm_mem s) pml4 w;
  dr_table t : is_table s' pml4 t ↔ is_table s pml4 t;
  dr_mem t j : ¬ is_table s pml4 t → frame t → 0 ≤ j < 512 → entry (vm_mem s') t j = entry (vm_mem s) t j
}.

Lemma entry_phys e : 0 ≤ e < 2 ^ 52 → e .& PAGE_MASK = phys_of_entry e.
Proof. apply masks_agree. Qed.

Lemma drop_page_ok s pml4 va : space_ok s pml4 → user va → dropped s (drop_page pml4 va s) pml4 va.
Proof.
  intros Hok Hu. pose proof (so_wf _ _ Hok) as Hwf. pose proof (translate_leaf s pml4 va Hok Hu) as Htr.
  destruct (page_path va) as [Hp3 Hi1].
  unfold drop_page. rewrite (unmap_walk s pml4 va Hwf) by apply Hu.
  destruct (walk (vm_mem s) pml4 RIGHTS [pml4_index va; pdpt_index va; pd_index va]) as [[pt r]|] eqn:Hw;
    [|by split].
  cbv zeta in Htr. set (e := entry (vm_mem s) pt (pt_index va)) in *.
  destruct (flag e PAGE_PRESENT) eqn:HP; [|by split].
  destruct (so_data _ _ Hok va e (r .& e) Hu Htr) as (He & [Hf Hfa] & Hused & Hnt).
  rewrite entry_phys by done. set (phys := phys_of_entry e) in *. rewrite (proj2 (Z.eqb_neq phys 0)) by lia.
  set (s1 := store (slot pt (pt_index va)) 0 s).
  assert (Hpt : is_table s pml4 pt) by (by exists [pml4_index va; pdpt_index va; pd_index va], r).
  pose proof (leaf_change_store s pml4 _ pt r (pt_index va) 0 Hwf Hp3 Hw) as Hc.
  assert (Hwalk : ∀ q, path_ok q → walk (vm_mem s1) pml4 RIGHTS q = walk (vm_mem s) pml4 RIGHTS q)
    by (intros q Hq; eapply (leaf_walk s); [exact Hwf|apply page_of_range|exact Hc|exact Hq]).
  assert (Htab : ∀ t, is_table s1 pml4 t ↔ is_table s pml4 t).
  { intros t. split; intros (q & r' & Hq & Hwq); exists q, r'; (split; [done|]); by rewrite Hwalk in *. }
  destruct (mapped_leaf s s pml4 va pt r 0 ltac:(by intros ?) Hwf (grows_refl _ _) Hw) as [Hwf1 Hoth _ Hg].
  fold s1 in Hwf1, Hoth, Hg.
  destruct (fa_free (vm_frames s1) phys (sw_alloc _ _ Hwf1)) as (Hfw & Hfu & _); [lia|done|].
  destruct (space_wf_agree s1 (vm_mem s1) (free_block phys (vm_frames s1)) pml4 Hwf1 Hfw) as (Hwf2 & _ & _).
  { intros t Ht. destruct (table_frame _ _ _ Hwf1 Ht) as [[_ Hta] Htu]. split; [|done].
    apply Hfu; [done|]. split; [done|]. intros [-> _]. by apply Hnt, Htab. }
  assert (Hnone : translate (vm_mem s1) pml4 va = None).
  { rewrite translate_trans. change None with (if flag 0 PAGE_PRESENT then Some (0, r .& 0) else None).
    eapply (leaf_translate s); [exact Hwf|apply page_of_range|exact Hc]. }
  assert (Hmem : ∀ t j, ¬ is_table s pml4 t → frame t → 0 ≤ j < 512 → entry (vm_mem s1) t j = entry (vm_mem s) t j).
  { intros t j Ht [_ Hta] Hj. unfold s1, entry. apply arr_get_set_ne.
    intros [Heq _]%slot_inj; [|apply (table_frame _ _ _ Hwf Hpt)|done|done|done].
    apply Ht. by rewrite <- Heq. }
  split; [|done|done|done|done]. split; [done| | |].
  - intros w e' r' Huw Htw. change (translate (vm_mem s1) pml4 w = Some (e', r')) in Htw.
    destruct (decide (page_of w = page_of va)) as [Heq|Hne]; [by rewrite (translate_page _ _ w va Heq), Hnone in Htw|].
    rewrite Hoth in Htw by done. destruct (so_data _ _ Hok w e' r' Huw Htw) as (H1 & H2 & H3 & H4).
    split_and!; [lia..|done| |].
    + apply Hfu; [apply H2|]. split; [done|]. intros [Heq _]. apply Hne.
      by eapply (so_inj _ _ Hok w va).
    + intros Ht. by apply H4, Htab.
  - intros v1 v2 e1 e2 r1 r2 Hu1 Hu2 T1 T2 Heq.
    change (translate (vm_mem s1) pml4 v1 = Some (e1, r1)) in T1.
    change (translate (vm_mem s1) pml4 v2 = Some (e2, r2)) in T2.
    assert (Hn : ∀ v e' r', translate (vm_mem s1) pml4 v = Some (e', r') → page_of v ≠ page_of va).
    { intros v e' r' Tv Hv. by rewrite (translate_page _ _ v va Hv), Hnone in Tv. }
    rewrite Hoth in T1, T2 by eauto. by eapply (so_inj _ _ Hok v1 v2).
  - intros w t r' Huw. change (vm_mem (free_frame phys s1)) with (vm_mem s1).
    assert (Hp2 : path_ok [pml4_index w; pdpt_index w])
      by (apply (path_ok_app _ [pd_index w]); apply page_path).
    rewrite Hwalk by done. intros Hww.
    assert (entry (vm_mem s1) t (pd_index w) = entry (vm_mem s) t (pd_index w)) as ->.
    { eapply (leaf_entry s); [exact Hwf|apply page_of_range|exact Hc|exact Hp2|simpl; lia|apply index_range|done]. }
    by apply (so_small _ _ Hok w t r').
Qed.

(** ** Mapping a frame at a user address *)

(** The allocator may hand out frames, and memory outside the page tables may change. *)
Lemma space_ok_agree s m fr pml4 : space_ok s pml4 → fa_wf fr →
  (∀ b, (4096 | b) → fa_used (vm_frames s) b → fa_used fr b) →
  (∀ t j, is_table s pml4 t → 0 ≤ j < 512 → entry m t j = entry (vm_mem s) t j) →
  space_ok (Vm m fr) pml4 ∧ same_translation (vm_mem s) m pml4 ∧
  ∀ t, is_table (Vm m fr) pml4 t ↔ is_table s pml4 t.
Proof.
  intros Hok Hfr Hus Hag. pose proof (so_wf _ _ Hok) as Hwf.
  destruct (space_wf_agree s m fr pml4 Hwf Hfr) as (Hwf' & Hwalk & Hsame).
  { intros t Ht. split; [|intros; by apply Hag]. apply table_frame in Ht as [[_ ?] ?]; auto. }
  assert (Htab : ∀ t, is_table (Vm m fr) pml4 t ↔ is_table s pml4 t).
  { intros t. split; intros (q & r' & Hq & Hwq); exists q, r'; (split; [done|]); simpl in *;
      by rewrite Hwalk in *. }
  split; [|done]. split; [done| | |]; cbn [vm_mem vm_frames].
  - intros w e r Hu Tw. rewrite Hsame in Tw. destruct (so_data _ _ Hok w e r Hu Tw) as (H1 & H2 & H3 & H4).
    split_and!; [lia..|done| |by rewrite Htab]. apply Hus; [apply H2|done].
  - intros v1 v2 e1 e2 r1 r2 Hu1 Hu2. rewrite !Hsame. by apply (so_inj _ _ Hok).
  - intros w t r Hu. assert (Hp2 : path_ok [pml4_index w; pdpt_index w])
      by (apply (path_ok_app _ [pd_index w]); apply page_path).
    rewrite Hwalk by done. intros Hw. rewrite Hag; [by apply (so_small _ _ Hok w t r)| |apply index_range].
    by exists [pml4_index w; pdpt_index w], r.
Qed.

(** A data frame of no other page is mapped. *)
Lemma mapped_ok s s' pml4 va v : space_ok s pml4 → user va → mapped s s' pml4 va v →
  0 ≤ v < 2 ^ 52 → frame (phys_of_entry v) → fa_used (vm_frames s) (phys_of_entry v) →
  ¬ is_table s pml4 (phys_of_entry v) →
  (∀ w e r, user w → page_of w ≠ page_of va → translate (vm_mem s) pml4 w = Some (e, r) →
     phys_of_entry e ≠ phys_of_entry v) →
  space_ok s' pml4.
Proof.
  intros Hok Hu [Hwf' Hoth Hpg Hg] Hv Hf Hused Hnt Hfree.
  assert (Hcase : ∀ w e r, user w → translate (vm_mem s') pml4 w = Some (e, r) →
    (page_of w = page_of va ∧ e = v) ∨ translate (vm_mem s) pml4 w = Some (e, r)).
  { intros w e r Huw Tw. destruct (decide (page_of w = page_of va)) as [Heq|Hne].
    - rewrite (translate_page _ _ w va Heq) in Tw. rewrite (translate_page _ _ w va Heq).
      destruct Hpg as [[r' Hpg]|[_ Hpg]]; rewrite Hpg in Tw; [|by right].
      destruct (flag v PAGE_PRESENT); [|done]. injection Tw as <- _. by left.
    - right. by rewrite <- Hoth. }
  assert (Hnew : ∀ w e r, user w → translate (vm_mem s) pml4 w = Some (e, r) →
    phys_of_entry e = phys_of_entry v → page_of w = page_of va).
  { intros w e r Huw Tw He. destruct (decide (page_of w = page_of va)) as [|Hne]; [done|].
    by destruct (Hfree w e r Huw Hne Tw). }
  split; [done| | |].
  - intros w e r Huw Tw. destruct (Hcase w e r Huw Tw) as [[_ ->]|Told].
    + split_and!; [lia..|exact Hf|apply (gr_used _ _ _ Hg); [apply Hf|done]|].
      by intros [?|?]%(gr_table _ _ _ Hg).
    + destruct (so_data _ _ Hok w e r Huw Told) as (H1 & H2 & H3 & H4).
      split_and!; [lia..|exact H2|apply (gr_used _ _ _ Hg); [apply H2|done]|].
      by intros [?|?]%(gr_table _ _ _ Hg).
  - intros v1 v2 e1 e2 r1 r2 Hu1 Hu2 T1 T2 Heq.
    destruct (Hcase _ _ _ Hu1 T1) as [[-> ->]|O1], (Hcase _ _ _ Hu2 T2) as [[-> ->]|O2].
    + done.
    + symmetry. by eapply Hnew.
    + by eapply Hnew.
    + by eapply (so_inj _ _ Hok v1 v2).
  - intros w t r Huw Hw HP. destruct (flag (entry (vm_mem s') t (pd_index w)) PAGE_HUGE) eqn:HH; [|done].
    assert (Hp2 : path_ok [pml4_index w; pdpt_index w])
      by (apply (path_ok_app _ [pd_index w]); apply page_path).
    destruct (gr_huge _ _ _ Hg _ _ _ (pd_index w) Hp2 eq_refl (index_range _) Hw HP HH) as (r0 & Hw0 & E0).
    rewrite <- E0 in HP, HH. by rewrite (so_small _ _ Hok w t r0 Huw Hw0 HP) in HH.
Qed.

(** ** Changes of a set of pages *)

(** What a program sees of a page: its entry and the words of its frame. *)
Definition same_page s (s' : vm (A := A)) pml4 w : Prop :=
  translate (vm_mem s') pml4 w = translate (vm_mem s) pml4 w ∧
  ∀ e r j, translate (vm_mem s) pml4 w = Some (e, r) → 0 ≤ j < 512 →
    entry (vm_mem s') (phys_of_entry e) j = entry (vm_mem s) (phys_of_entry e) j.

(** [s'] is an address space in which at most the pages of the addresses [vas] differ. *)
Record changes s (s' : vm (A := A)) pml4 (vas : list Z) : Prop := {
  ch_ok : space_ok s' pml4;
  ch_others w : user w → page_of w ∉ page_of <$> vas → same_page s s' pml4 w
}.

Lemma changes_refl s pml4 vas : space_ok s pml4 → changes s s pml4 vas.
Proof. done. Qed.

Lemma changes_trans s1 s2 s3 pml4 vas :
  changes s1 s2 pml4 vas → changes s2 s3 pml4 vas → changes s1 s3 pml4 vas.
Proof.
  intros [O1 C1] [O2 C2]. split; [done|]. intros w Hu Hn.
  destruct (C1 w Hu Hn) as [E1 D1], (C2 w Hu Hn) as [E2 D2]. split; [congruence|].
  intros e r j T Hj. rewrite D2 with (r := r), D1 with (r := r); [done|done|done|congruence|done].
Qed.

Lemma changes_mono s s' pml4 vas vas' : vas ⊆ vas' → changes s s' pml4 vas → changes s s' pml4 vas'.
Proof. intros Hs [O C]. split; [done|]. intros w Hu Hn. apply C; [done|].
  intros (v & E & Hv)%list_elem_of_fmap. apply Hn. rewrite E. apply list_elem_of_fmap_2, Hs, Hv.
Qed.

(** The page of [w] is mapped with [flags] to the frame [phys], whose words are [c]. *)
Definition shows s pml4 flags w phys (c : Z → Z) : Prop :=
  (∃ r, translate (vm_mem s) pml4 w = Some (phys .| flags, r)) ∧
  phys_of_entry (phys .| flags) = phys ∧ ∀ j, 0 ≤ j < 512 → entry (vm_mem s) phys j = c j.

Definition zero_page s pml4 flags w : Prop := ∃ phys, shows s pml4 flags w phys (λ _, 0).

Lemma shows_changes s s' pml4 vas flags w phys c : user w → page_of w ∉ page_of <$> vas →
  changes s s' pml4 vas → shows s pml4 flags w phys c → shows s' pml4 flags w phys c.
Proof.
  intros Hu Hn [_ C] ([r T] & E & Z). destruct (C w Hu Hn) as [CT CD].
  split_and!; [exists r; congruence|done|]. intros j Hj.
  rewrite <- E, (CD _ r) by done. rewrite E. auto.
Qed.

Lemma drop_changes s pml4 va : space_ok s pml4 → user va →
  changes s (drop_page pml4 va s) pml4 [va] ∧ translate (vm_mem (drop_page pml4 va s)) pml4 va = None.
Proof.
  intros Hok Hu. destruct (drop_page_ok s pml4 va Hok Hu) as [D1 D2 D3 D4 D5]. split; [|done].
  split; [done|]. intros w Hw Hn. split; [apply D3; intros E; apply Hn; rewrite E; by left|].
  intros e r j T Hj. destruct (so_data _ _ Hok w e r Hw T) as (_ & H2 & _ & H4). by apply D5.
Qed.

Lemma release_pages_ok s pml4 vas : space_ok s pml4 → Forall user vas →
  let s' := foldl (λ s va, drop_page pml4 va s) s vas in
  changes s s' pml4 vas ∧ ∀ va, va ∈ vas → translate (vm_mem s') pml4 va = None.
Proof.
  revert s. induction vas as [|va vas IH]; intros s Hok.
  { intros _. split; [done|]. by intros va ?%not_elem_of_nil. }
  intros [Hu Hus]%Forall_cons. simpl.
  destruct (drop_changes s pml4 va Hok Hu) as [C1 N1]. destruct (IH _ (ch_ok _ _ _ _ C1) Hus) as [C2 N2].
  split.
  - eapply changes_trans; eapply changes_mono; [|exact C1| |exact C2]; intros w; rewrite ?elem_of_cons;
      [intros [->|[]%not_elem_of_nil]; by left|by right].
  - intros w [->|Hw]%elem_of_cons; [|by apply N2].
    destruct (decide (page_of va ∈ page_of <$> vas)) as [Hin|Hn].
    + apply list_elem_of_fmap in Hin as (w & Heq & Hw). rewrite (translate_page _ _ va w Heq). by apply N2.
    + by rewrite (proj1 (ch_others _ _ _ _ C2 va Hu Hn)).
Qed.

(** A fresh frame, filled by the kernel, is mapped at a user address: only that page
    changes, and it shows the contents, unless no frame was left for a page table. *)
Lemma place_page s pml4 va phys flags m fr : space_ok s pml4 → user va →
  alloc_block (vm_frames s) = (Some phys, fr) →
  (∀ t j, frame t → t ≠ phys → 0 ≤ j < 512 → entry m t j = entry (vm_mem s) t j) →
  0 ≤ flags < 4096 → flag flags PAGE_PRESENT = true →
  let s' := vmm_map_page pml4 va phys flags (Vm m fr) in
  changes s s' pml4 [va] ∧
  (shows s' pml4 flags va phys (entry m phys) ∨
   exhausted s' ∧ translate (vm_mem s') pml4 va = translate (vm_mem s) pml4 va).
Proof.
  intros Hok Hu Hal Hm Hfl HP s'. pose proof (so_wf _ _ Hok) as Hwf.
  destruct (fa_alloc_some _ _ _ (sw_alloc _ _ Hwf) Hal) as (Hfw & Hf & Hnu & Hus & _).
  assert (Hne : ∀ t, frame t → fa_used (vm_frames s) t → t ≠ phys) by (by intros t _ Ht ->).
  destruct (space_ok_agree s m fr pml4 Hok Hfw) as (Hok0 & Hsame & Htab).
  { intros b Hb Hbu. apply Hus; auto. }
  { intros t j Ht Hj. apply table_frame in Ht as [??]; [|done]. apply Hm; auto. }
  pose proof (vmm_map_page_mapped (Vm m fr) pml4 va phys flags (so_wf _ _ Hok0)) as HM.
  fold s' in HM. assert (Hpe : phys_of_entry (phys .| flags) = phys)
    by (destruct Hf; apply phys_of; [lia|done|done]).
  assert (Hpu : fa_used fr phys) by (apply Hus; [apply Hf|by left]).
  assert (Hpt : ¬ is_table (Vm m fr) pml4 phys).
  { intros [_ Ht]%Htab%table_frame; done. }
  assert (Hdat : ∀ w e r, user w → translate (vm_mem s) pml4 w = Some (e, r) →
    frame (phys_of_entry e) ∧ phys_of_entry e ≠ phys ∧ fa_used fr (phys_of_entry e) ∧
    ¬ is_table (Vm m fr) pml4 (phys_of_entry e)).
  { intros w e r Huw T. destruct (so_data _ _ Hok w e r Huw T) as (_ & H2 & H3 & H4).
    split_and!; [done|auto|apply Hus; [apply H2|by right]|by rewrite Htab]. }
  pose proof (mp_grows _ _ _ _ _ HM) as Hg.
  split; [split|].
  - eapply (mapped_ok (Vm m fr)); [done|done|exact HM| | | | |].
    + destruct Hf. apply lor_small; lia.
    + by rewrite Hpe.
    + by rewrite Hpe.
    + by rewrite Hpe.
    + intros w e r Huw _ T. rewrite Hpe. cbn [vm_mem] in T. rewrite Hsame in T. by apply (Hdat w e r).
  - intros w Huw Hn. split.
    + rewrite (mp_others _ _ _ _ _ HM); [apply Hsame|]. intros E; apply Hn; rewrite E; by left.
    + intros e r j T Hj. destruct (Hdat w e r Huw T) as (H1 & H2 & H3 & H4).
      rewrite (gr_data _ _ _ Hg) by done. by apply Hm.
  - destruct (mp_page _ _ _ _ _ HM) as [[r T]|[He HT]].
    + left. rewrite flag_low, HP in T; [|apply Hf|done]. split_and!; [by eexists|done|].
      intros j Hj. by apply (gr_data _ _ _ Hg).
    + right. split; [done|]. by rewrite HT, <- Hsame.
Qed.

Lemma zero_frame_others t u j m : (4096 | t) → (4096 | u) → u ≠ t → 0 ≤ j < 512 →
  entry (zero_frame t m) u j = entry m u j.
Proof.
  intros Ht Hu Hne Hj. apply (zero_frame_spec t m). intros k Hk E.
  by apply slot_inj in E as [? _].
Qed.

Lemma exhausted_again s : exhausted s → (alloc_block (vm_frames s)).1 = None.
Proof. intros [fr H]. by apply fa_none_again in H. Qed.

End space.

(** ** Ranges of pages *)

Lemma pages_app base end_ pre va rest :
  pages base end_ = pre ++ va :: rest → pages base va = pre.
Proof.
  unfold pages. intros E.
  assert (Hva : va = base + 4096 * Z.of_nat (length pre)).
  { apply (f_equal (.!! length pre)) in E. rewrite list_lookup_middle in E by done.
    rewrite list_lookup_fmap in E. apply fmap_Some in E as (i & Hi & ->).
    apply lookup_seqZ in Hi as [-> _]. lia. }
  assert (Hn : (va - base + 4095) / 4096 = Z.of_nat (length pre)).
  { rewrite Hva. div_lia. }
  rewrite Hn.
  assert (Hlen : (length pre + length (va :: rest))%nat = Z.to_nat ((end_ - base + 4095) / 4096)).
  { apply (f_equal length) in E. by rewrite length_fmap, length_seqZ, length_app in E. }
  transitivity (take (length pre) (pre ++ va :: rest)); [|by rewrite take_app_length].
  rewrite <- E, <- fmap_take. f_equal. simpl in Hlen.
  rewrite <- (Z2Nat.id ((end_ - base + 4095) / 4096)) by lia. rewrite <- Hlen.
  rewrite Nat2Z.inj_add, seqZ_app by lia. rewrite take_app_length'; [done|]. rewrite length_seqZ. lia.
Qed.

Lemma elem_of_pages base end_ va : va ∈ pages base end_ ↔
  ∃ i, 0 ≤ i ∧ va = base + 4096 * i ∧ va < end_.
Proof.
  unfold pages. rewrite list_elem_of_fmap. setoid_rewrite elem_of_seqZ. split.
  - intros (i & -> & Hi). exists i. div_lia.
  - intros (i & Hi & -> & Hlt). exists i. div_lia.
Qed.

Lemma page_number v : 0 ≤ v < 2 ^ 48 →
  v / 4096 = pt_index v + 512 * pd_index v + 512 * 512 * pdpt_index v + 512 * 512 * 512 * pml4_index v.
Proof.
  intros Hv. unfold pt_index, pd_index, pdpt_index, pml4_index. change 0x1FF with (Z.ones 9).
  rewrite !Z.land_ones, !Z.shiftr_div_pow2 by lia. div_lia.
Qed.

Lemma page_of_inj v w : 0 ≤ v < 2 ^ 48 → 0 ≤ w < 2 ^ 48 → page_of v = page_of w → v / 4096 = w / 4096.
Proof.
  intros Hv Hw. unfold page_of. intros [= E1 E2 E3 E4]. rewrite !page_number by done. lia.
Qed.

Lemma user_range v : user v → 0 ≤ v < 2 ^ 48.
Proof. unfold user, AOS_USER_SPACE_START, USER_SPACE_END. lia. Qed.

Lemma pages_user base end_ : AOS_USER_SPACE_START ≤ base → end_ ≤ USER_SPACE_END → Forall user (pages base end_).
Proof.
  intros Hb He. apply Forall_forall. intros va (i & Hi & -> & Hlt)%elem_of_pages. unfold user. lia.
Qed.

Lemma pages_nodup base end_ : AOS_USER_SPACE_START ≤ base → end_ ≤ USER_SPACE_END →
  NoDup (page_of <$> pages base end_).
Proof.
  intros Hb He. pose proof (pages_user base end_ Hb He) as Hu. rewrite Forall_forall in Hu.
  apply NoDup_fmap_2_strong.
  - intros v w Hv Hw E. apply page_of_inj in E; [|by apply user_range, Hu..].
    apply elem_of_pages in Hv as (i & Hi & -> & _), Hw as (k & Hk & -> & _). div_lia.
  - unfold pages. apply NoDup_fmap_2; [intros x y; lia|apply NoDup_seqZ].
Qed.

(** The pages of a user address outside a page-aligned range. *)
Lemma outside_pages base end_ w : (4096 | base) → (4096 | end_) →
  AOS_USER_SPACE_START ≤ base → end_ ≤ USER_SPACE_END → user w → ¬ base ≤ w < end_ →
  page_of w ∉ page_of <$> pages base end_.
Proof.
  intros [b ->] [e ->] Hb He Hw Hout (v & E & Hv)%list_elem_of_fmap.
  apply elem_of_pages in Hv as (i & Hi & -> & Hlt).
  apply page_of_inj in E; [|by apply user_range|unfold AOS_USER_SPACE_START, USER_SPACE_END in *; lia]. div_lia.
Qed.
