(* ===== verification/MemoryLoops.v ===== *)
(** * The page loops of the memory system calls

    What releasing a range, mapping zeroed pages ([brk], [mprotect]) and the page loop of
    [mmap] do to an address space, on every way out. *)

From S2P Require Import Prelude CString VfsNode Pmm Frames Vmm VmmSpec VmmProps ProcessData Process Lifecycle.
From S2P Require Import Fd FdKernel FdSyscalls Memory MemorySpec.

Section loops.
  Context {A : Type} `{!FrameAllocator A, !FrameAllocatorSpec A}.
  Implicit Types (s : vm (A := A)).

(** [unmapped s s' vas]: the pages of [vas] are gone, all others are as before. *)
Definition unmapped s (s' : vm (A := A)) pml4 vas : Prop :=
  changes s s' pml4 vas ∧ ∀ va, va ∈ vas → translate (vm_mem s') pml4 va = None.

Lemma release_ok s pml4 start end_ : space_ok s pml4 → Forall user (pages start end_) →
  unmapped s (release_user_pages pml4 start end_ s) pml4 (pages start end_).
Proof. apply release_pages_ok. Qed.

(** An allocation that fails, and a frame given back, leave the address space alone. *)
Lemma alloc_none_changes s pml4 fr : space_ok s pml4 → alloc_block (vm_frames s) = (None, fr) →
  changes s (Vm (vm_mem s) fr) pml4 [].
Proof.
  intros Hok Hal. destruct (fa_alloc_none _ _ (sw_alloc _ _ (so_wf _ _ Hok)) Hal) as (Hf & Hu & _).
  destruct (space_ok_agree s (vm_mem s) fr pml4 Hok Hf) as (Hok' & _); [|done|done].
  intros b _. by rewrite Hu.
Qed.

Lemma alloc_free_changes s pml4 phys fr m : space_ok s pml4 → alloc_block (vm_frames s) = (Some phys, fr) →
  (∀ t j, frame t → t ≠ phys → 0 ≤ j < 512 → entry m t j = entry (vm_mem s) t j) →
  changes s (free_frame phys (Vm m fr)) pml4 [].
Proof.
  intros Hok Hal Hm. pose proof (so_wf _ _ Hok) as Hwf.
  destruct (fa_alloc_some _ _ _ (sw_alloc _ _ Hwf) Hal) as (Hf & Hfr & Hn & Hu & _).
  destruct (fa_free fr phys Hf) as (Hf' & Hu' & _); [destruct Hfr; lia|apply Hfr|].
  assert (Hne : ∀ t, fa_used (vm_frames s) t → t ≠ phys) by (by intros t Ht ->).
  destruct (space_ok_agree s m (free_block phys fr) pml4 Hok Hf') as (Hok' & Hsame & _).
  - intros b Hb Hbu. apply Hu'; [done|]. split; [apply Hu; auto|]. intros [-> _]. done.
  - intros t j Ht Hj. apply table_frame in Ht as [??]; [|done]. by apply Hm; [|apply Hne|].
  - split; [done|]. intros w Huw _. split; [apply Hsame|]. intros e r j T Hj.
    destruct (so_data _ _ Hok w e r Huw T) as (_ & H2 & H3 & _). by apply Hm; [|apply Hne|].
Qed.

Lemma changes_nil s s1 s2 pml4 vas : changes s s1 pml4 [] → changes s1 s2 pml4 vas → changes s s2 pml4 vas.
Proof.
  intros C1 C2. eapply changes_trans; [|exact C2]. eapply changes_mono; [|exact C1].
  intros w []%not_elem_of_nil.
Qed.

Lemma changes_unmapped s s1 s2 pml4 vas : changes s s1 pml4 vas → unmapped s1 s2 pml4 vas → unmapped s s2 pml4 vas.
Proof. intros C [D N]. split; [by eapply changes_trans|done]. Qed.

Lemma changes_weaken s s1 s2 pml4 vas vas' ws : vas ⊆ ws → vas' ⊆ ws →
  changes s s1 pml4 vas → changes s1 s2 pml4 vas' → changes s s2 pml4 ws.
Proof. intros H1 H2 C1 C2. eapply changes_trans; eapply changes_mono; [| exact C1| |exact C2]; done. Qed.

(** ** The loop of [mmap] *)

Section mmap.
  Variable vfs_read_node : vfs_node → Z → Z → Z → arr → bool * arr.
  (** [vfs_read_node] writes at most [length] bytes at its buffer: nothing outside the frame. *)
  Hypothesis read_in_frame : ∀ node offset phys length m, frame phys → 0 ≤ length ≤ 4096 →
    ∀ t j, frame t → t ≠ phys → 0 ≤ j < 512 →
    entry (vfs_read_node node offset phys length m).2 t j = entry m t j.
  Variables (pml4 base offset flags : Z) (fixed : bool) (file : option vfs_node).
  Hypothesis flags_ok : 0 ≤ flags < 4096 ∧ flag flags PAGE_PRESENT = true.

Notation read := (read_file_page vfs_read_node file offset base).
Notation loop := (mmap_loop vfs_read_node pml4 base offset flags fixed file).

(** The page of [va] holds what the file has there, and zeros behind it. *)
Definition filled s va : Prop :=
  ∃ phys m, (read va phys (zero_frame phys m)).1 = true ∧
    shows s pml4 flags va phys (entry (read va phys (zero_frame phys m)).2 phys).

Lemma filled_changes s s' vas va : user va → page_of va ∉ page_of <$> vas →
  changes s s' pml4 vas → filled s va → filled s' va.
Proof. intros Hu Hn C (phys & m & E & Sh). exists phys, m. split; [done|]. by eapply shows_changes. Qed.

Lemma read_frame va phys m t j : frame phys → frame t → t ≠ phys → 0 ≤ j < 512 →
  entry (read va phys (zero_frame phys m)).2 t j = entry m t j.
Proof.
  intros Hp Ht Hne Hj.
  assert (Hz : entry (zero_frame phys m) t j = entry m t j) by (apply zero_frame_others; [apply Hp|apply Ht|done..]).
  unfold read_file_page. destruct file as [node|]; [|done].
  destruct (Z.ltb_spec (u64 (offset + (va - base))) (node_size node)); [|done].
  rewrite read_in_frame; [done|done|lia|done..].
Qed.

(** The pages an error has released: those before [va], and [va] when it was to be replaced. *)
Definition released (pre : list Z) (va : Z) : list Z := pre ++ (if fixed then [va] else []).

(** The address space in which the loop asks for the frame of [va], after the pages [pre]. *)
Definition at_va (pre : list Z) (va : Z) s : vm :=
  let s := (loop pre s).2 in if fixed then drop_page pml4 va s else s.

(** Why the loop stops at [va]: there is no frame, or the file cannot be read. *)
Definition stopped (e : Z) (pre : list Z) (va : Z) s : Prop :=
  let s0 := at_va pre va s in
  (e = - LINUX_ENOMEM ∧ (alloc_block (vm_frames s0)).1 = None) ∨
  (e = - LINUX_EIO ∧ ∃ phys, (alloc_block (vm_frames s0)).1 = Some phys ∧
     (read va phys (zero_frame phys (vm_mem s0))).1 = false).

(** The page [va] has not been mapped although the loop went on: the allocation of a page
    table has failed at [va].  The page is then unmapped if it was to be replaced, and
    otherwise as it was, and the last one of the range. *)
Definition missing (pre : list Z) (va : Z) (rest : list Z) s (s' : vm (A := A)) : Prop :=
  exhausted (loop (pre ++ [va]) s).2 ∧
  translate (vm_mem s') pml4 va = (if fixed then None else translate (vm_mem s) pml4 va) ∧
  (fixed = false → rest = []).

(** Where the loop is: [pre] has been mapped. *)
Definition at_page (pre vas : list Z) : Prop :=
  Forall user (pre ++ vas) ∧ NoDup (page_of <$> pre ++ vas) ∧
  ∀ pre' va rest, pre ++ vas = pre' ++ va :: rest → pages base va = pre'.

Lemma at_page_next pre va vas : at_page pre (va :: vas) → at_page (pre ++ [va]) vas.
Proof. unfold at_page. by rewrite <- app_assoc. Qed.

Lemma first_drop s va : space_ok s pml4 → user va →
  let s' := if fixed then drop_page pml4 va s else s in
  changes s s' pml4 (released [] va) ∧ (fixed = true → translate (vm_mem s') pml4 va = None).
Proof. intros Hok Hu. unfold released. destruct fixed; [|done]. destruct (drop_changes s pml4 va Hok Hu); auto. Qed.

(** An error at [va] releases the pages mapped before it. *)
Lemma fail_releases s s1 pre va vas : at_page pre (va :: vas) →
  changes s s1 pml4 (released pre va) → (fixed = true → translate (vm_mem s1) pml4 va = None) →
  unmapped s (release_user_pages pml4 base va s1) pml4 (released pre va).
Proof.
  intros (Hu & Hnd & Hpg) C1 Hnone. specialize (Hpg pre va vas eq_refl).
  apply Forall_app in Hu as [Hupre [Huva _]%Forall_cons].
  rewrite fmap_app, fmap_cons in Hnd. apply NoDup_app in Hnd as (_ & Hdis & _).
  destruct (release_ok s1 pml4 base va (ch_ok _ _ _ _ C1)) as [C2 N2]; [by rewrite Hpg|].
  rewrite Hpg in C2, N2. split.
  - eapply changes_trans; [done|]. eapply changes_mono; [|exact C2]. unfold released. intros w Hw.
    apply elem_of_app. by left.
  - unfold released. intros w [Hw|Hw]%elem_of_app; [by apply N2|]. destruct fixed; [|by apply not_elem_of_nil in Hw].
    apply list_elem_of_singleton in Hw as ->. destruct (ch_others _ _ _ _ C2 va Huva) as [-> _]; [|by apply Hnone].
    intros Hin. by apply (Hdis _ Hin); left.
Qed.

Lemma loop_exhausted vas s : fixed = false → exhausted s → (loop vas s).1 = None → vas = [].
Proof.
  intros -> He. destruct vas as [|va vas]; [done|]. simpl. pose proof (exhausted_again _ He) as Hn.
  destruct (alloc_block (vm_frames s)) as [[phys|] fr]; done.
Qed.

Lemma mmap_loop_cons va vas s :
  loop (va :: vas) s = match loop [va] s with (None, s1) => loop vas s1 | r => r end.
Proof.
  cbn [mmap_loop]. destruct (alloc_block _) as [[phys|] fr]; [|done]. by destruct (read va _ _) as [[] m].
Qed.

Lemma mmap_loop_app vas1 vas2 s s1 : loop vas1 s = (None, s1) → loop (vas1 ++ vas2) s = loop vas2 s1.
Proof.
  revert s. induction vas1 as [|va vas1 IH]; intros s; [by intros [= <-]|].
  cbn [app]. rewrite mmap_loop_cons, (mmap_loop_cons va (vas1 ++ vas2)). destruct (loop [va] s) as [[e|] s2]; [done|apply IH].
Qed.

(** One page of the loop. *)
Lemma mmap_step s va : space_ok s pml4 → user va →
  match loop [va] s with
  | (None, s1) => changes s s1 pml4 [va] ∧ (filled s1 va ∨
      exhausted s1 ∧ translate (vm_mem s1) pml4 va = if fixed then None else translate (vm_mem s) pml4 va)
  | (Some e, s1) => stopped e [] va s ∧ ∃ s2, s1 = release_user_pages pml4 base va s2 ∧
      changes s s2 pml4 (released [] va) ∧ (fixed = true → translate (vm_mem s2) pml4 va = None)
  end.
Proof.
  intros Hok Hu. unfold stopped, at_va. cbn [mmap_loop snd]. destruct (first_drop s va Hok Hu) as [C0 N0].
  assert (T0 : translate (vm_mem (if fixed then drop_page pml4 va s else s)) pml4 va =
    if fixed then None else translate (vm_mem s) pml4 va) by (destruct fixed; auto).
  cbv zeta in *. set (s0 := if fixed then drop_page pml4 va s else s) in *. pose proof (ch_ok _ _ _ _ C0) as Hok0.
  destruct (alloc_block (vm_frames s0)) as [[phys|] fr] eqn:Hal.
  - destruct (fa_alloc_some _ _ _ (sw_alloc _ _ (so_wf _ _ Hok0)) Hal) as (_ & Hfp & _).
    destruct (read va phys (zero_frame phys (vm_mem s0))) as [ok m] eqn:Hrd.
    assert (Hm : ∀ t j, frame t → t ≠ phys → 0 ≤ j < 512 → entry m t j = entry (vm_mem s0) t j).
    { intros t j Ht Hne Hj. pose proof (read_frame va phys (vm_mem s0) t j Hfp Ht Hne Hj) as H. by rewrite Hrd in H. }
    destruct ok; cbn [negb].
    + destruct (place_page s0 pml4 va phys flags m fr) as [C1 P1]; [done..|apply flags_ok|apply flags_ok|].
      split.
      * eapply changes_weaken; [| |exact C0|exact C1]; [|done]. unfold released. destruct fixed; done || set_solver.
      * destruct P1 as [Sh|[He HT]]; [left; exists phys, (vm_mem s0); by rewrite Hrd|right; by rewrite HT].
    + split; [right; split; [done|]; exists phys; by rewrite Hrd|].
      pose proof (alloc_free_changes s0 pml4 phys fr m Hok0 Hal Hm) as Cf. eexists. split_and!; [done| |].
      * eapply changes_weaken; [| |exact C0|exact Cf]; [done|intros ? []%not_elem_of_nil].
      * intros Hfx. destruct (ch_others _ _ _ _ Cf va Hu) as [-> _]; [by intros ?%not_elem_of_nil|auto].
  - split; [by left|]. eexists. split_and!; [done| |done].
    eapply changes_weaken; [| |exact C0|by apply (alloc_none_changes s0)]; [done|intros ? []%not_elem_of_nil].
Qed.

Lemma stopped_app e pre va v s : loop pre v = (None, s) → stopped e [] va s → stopped e pre va v.
Proof. intros E. unfold stopped, at_va. by rewrite E. Qed.

(** The loop over [vas], in an address space [v] in which it has mapped [pre]. *)
Lemma mmap_loop_ok v vas : ∀ pre s, at_page pre vas → loop pre v = (None, s) → changes v s pml4 pre →
  match loop vas s with
  | (None, s') => changes s s' pml4 vas ∧
      ∀ mid va rest, vas = mid ++ va :: rest → filled s' va ∨ missing (pre ++ mid) va rest v s'
  | (Some e, s') => ∃ mid va rest, vas = mid ++ va :: rest ∧
      stopped e (pre ++ mid) va v ∧ unmapped v s' pml4 (released (pre ++ mid) va)
  end.
Proof.
  induction vas as [|va vas IH]; intros pre s Hat Hpre Cpre.
  { split; [apply changes_refl, Cpre|by intros [] ???]. }
  pose proof Hat as (Hu & Hnd & _). apply Forall_app in Hu as [_ [Hu _]%Forall_cons].
  rewrite fmap_app, fmap_cons in Hnd. apply NoDup_app in Hnd as (_ & Hdis & [Hn _]%NoDup_cons).
  assert (Tva : translate (vm_mem s) pml4 va = translate (vm_mem v) pml4 va).
  { apply (ch_others _ _ _ _ Cpre va Hu). intros Hin. by apply (Hdis _ Hin); left. }
  rewrite mmap_loop_cons. pose proof (mmap_step s va (ch_ok _ _ _ _ Cpre) Hu) as S1.
  destruct (loop [va] s) as [[e|] s1] eqn:E1.
  - destruct S1 as (Hst & s2 & -> & C2 & N2). exists [], va, vas. rewrite app_nil_r. split_and!; [done| |].
    { by eapply stopped_app. }
    apply (fail_releases v s2 pre va vas Hat); [|done].
    eapply changes_weaken; [| |exact Cpre|exact C2]; unfold released; intros x Hx; apply elem_of_app; [by left|by right].
  - destruct S1 as [C1 F1]. assert (Hpre1 : loop (pre ++ [va]) v = (None, s1)) by (by rewrite (mmap_loop_app pre [va] v s)).
    specialize (IH (pre ++ [va]) s1 (at_page_next _ _ _ Hat) Hpre1).
    pose proof (loop_exhausted vas s1) as Hlast.
    assert (Hmid : ∀ mid, (pre ++ [va]) ++ mid = pre ++ va :: mid) by (intros mid; by rewrite <- app_assoc).
    destruct (loop vas s1) as [[e|] s'] eqn:El.
    + destruct IH as (mid & w & rest & -> & Hst & U).
      { eapply changes_weaken; [| |exact Cpre|exact C1]; intros x Hx; apply elem_of_app; [by left|by right]. }
      exists (va :: mid), w, rest. by rewrite Hmid in Hst, U.
    + destruct IH as [C' F'].
      { eapply changes_weaken; [| |exact Cpre|exact C1]; intros x Hx; apply elem_of_app; [by left|by right]. }
      split; [eapply changes_weaken; [| |exact C1|exact C'];
        [intros x ->%list_elem_of_singleton; by left|intros x; by right]|].
      intros [|w mid] va' rest [= <- Hvas].
      * subst rest. rewrite app_nil_r. destruct F1 as [F|[He HT]]; [left; by eapply filled_changes|right].
        split_and!; [by rewrite Hpre1|by rewrite (proj1 (ch_others _ _ _ _ C' va Hu Hn)), HT, Tva|auto].
      * rewrite <- Hmid. by apply F'.
Qed.

End mmap.

(** ** Zeroed pages *)

Lemma zero_page_changes s s' pml4 vas flags w : user w → page_of w ∉ page_of <$> vas →
  changes s s' pml4 vas → zero_page s pml4 flags w → zero_page s' pml4 flags w.
Proof. intros Hu Hn C [phys Sh]. exists phys. by eapply shows_changes. Qed.

Lemma map_zeroed_page_ok s pml4 flags va : space_ok s pml4 → user va →
  0 ≤ flags < 4096 → flag flags PAGE_PRESENT = true →
  match map_zeroed_page pml4 flags va s with
  | (true, s') => changes s s' pml4 [va] ∧ (zero_page s' pml4 flags va ∨
      exhausted s' ∧ translate (vm_mem s') pml4 va = translate (vm_mem s) pml4 va)
  | (false, s') => changes s s' pml4 [] ∧ exhausted s'
  end.
Proof.
  intros Hok Hu Hfl HP. unfold map_zeroed_page.
  destruct (alloc_block (vm_frames s)) as [[phys|] fr] eqn:Hal;
    [|split; [by apply alloc_none_changes|by exists (vm_frames s)]].
  destruct (fa_alloc_some _ _ _ (sw_alloc _ _ (so_wf _ _ Hok)) Hal) as (_ & [_ Hf] & _).
  destruct (place_page s pml4 va phys flags (zero_frame phys (vm_mem s)) fr) as [C [(T & E & D)|T]]; try done.
  { intros t j [_ Ht] Hne Hj. by apply zero_frame_others. }
  - split; [done|]. left. exists phys. split_and!; [done|done|]. intros j Hj. rewrite D by done. by apply zero_frame_spec.
  - split; [done|]. by right.
Qed.

(** A loop over pages that stops when no frame is left: it has done the pages [dn]. *)
Definition progress (vas dn rest : list Z) (ok : bool) pml4 s (s' : vm (A := A)) : Prop :=
  vas = dn ++ rest ∧ (if ok then rest = [] else rest ≠ [] ∧ exhausted s') ∧
  changes s s' pml4 dn ∧ ∀ va, va ∈ rest → same_page s s' pml4 va.

Lemma progress_stop vas va pml4 s s' : Forall user (va :: vas) → changes s s' pml4 [] → exhausted s' →
  progress (va :: vas) [] (va :: vas) false pml4 s s'.
Proof.
  intros Hu C He. split_and!; [done..|]. intros w Hw. apply (ch_others _ _ _ _ C); [|by intros ?%not_elem_of_nil].
  rewrite Forall_forall in Hu. auto.
Qed.

Lemma same_page_before s s1 s' pml4 va vas : user va → page_of va ∉ page_of <$> vas →
  changes s s1 pml4 vas → same_page s1 s' pml4 va → same_page s s' pml4 va.
Proof.
  intros Hu Hn C [ST SD]. destruct (ch_others _ _ _ _ C va Hu Hn) as [CT CD]. split; [congruence|].
  intros e r j T Hj. rewrite (SD e r), (CD e r) by (done || congruence). done.
Qed.

Lemma progress_step vas dn rest ok va pml4 s s1 s' : Forall user vas → page_of va ∉ page_of <$> vas →
  changes s s1 pml4 [va] → progress vas dn rest ok pml4 s1 s' → progress (va :: vas) (va :: dn) rest ok pml4 s s'.
Proof.
  intros Hu Hn C1 (-> & Hok & C & K). split_and!; [done|done| |].
  - eapply changes_weaken; [| |exact C1|exact C]; [|by right]. intros x ->%list_elem_of_singleton. by left.
  - intros w Hw. rewrite Forall_forall in Hu.
    eapply (same_page_before s s1); [apply Hu, elem_of_app; by right| |exact C1|by apply K].
    intros E%list_elem_of_singleton. apply Hn. rewrite <- E. apply list_elem_of_fmap_2, elem_of_app. by right.
Qed.

Lemma zeroed_exhausted pml4 flags vas s : space_ok s pml4 → Forall user vas → exhausted s →
  let (ok, s') := for_break vas (map_zeroed_page pml4 flags) s in progress vas [] vas ok pml4 s s' ∧ exhausted s'.
Proof.
  intros Hok Hu He. destruct vas as [|va vas].
  { split; [|done]. split_and!; [done..|]. by intros w ?%not_elem_of_nil. }
  simpl. unfold map_zeroed_page at 1. pose proof (exhausted_again _ He) as Hag.
  destruct (alloc_block (vm_frames s)) as [[?|] fr] eqn:Hal; [done|].
  assert (He' : exhausted (Vm (vm_mem s) fr)) by (by exists (vm_frames s)).
  split; [|done]. apply progress_stop; [done|by apply alloc_none_changes|done].
Qed.

Lemma map_zeroed_ok pml4 flags vas : 0 ≤ flags < 4096 → flag flags PAGE_PRESENT = true →
  ∀ s, space_ok s pml4 → Forall user vas → NoDup (page_of <$> vas) →
  let (ok, s') := for_break vas (map_zeroed_page pml4 flags) s in
  ∃ dn rest, progress vas dn rest ok pml4 s s' ∧
  ∀ va, va ∈ dn → zero_page s' pml4 flags va ∨ last dn = Some va ∧ exhausted s'.
Proof.
  intros Hfl HP. induction vas as [|va vas IH]; intros s Hok Hu Hnd.
  { exists [], []. split; [|by intros va ?%not_elem_of_nil]. split_and!; [done..|]. by intros va ?%not_elem_of_nil. }
  pose proof Hu as Hall. apply Forall_cons in Hu as [Hu Hus]. rewrite fmap_cons in Hnd. apply NoDup_cons in Hnd as [Hn Hnd].
  cbn [for_break]. pose proof (map_zeroed_page_ok s pml4 flags va Hok Hu Hfl HP) as H1.
  destruct (map_zeroed_page pml4 flags va s) as [[] s1].
  - destruct H1 as [C1 P1]. specialize (IH s1 (ch_ok _ _ _ _ C1) Hus Hnd).
    destruct P1 as [P1|[He _]].
    + destruct (for_break vas (map_zeroed_page pml4 flags) s1) as [ok s']. destruct IH as (dn & rest & P2 & Z2).
      exists (va :: dn), rest. split; [by eapply progress_step|]. destruct P2 as (Hvas & _ & C2 & _).
      intros w [->|Hw]%elem_of_cons.
      * left. eapply zero_page_changes; [done| |exact C2|done].
        intros Hin. apply Hn. rewrite Hvas, fmap_app. apply elem_of_app. by left.
      * destruct (Z2 w Hw) as [P|[P He]]; [by left|right]. by rewrite last_cons, P.
    + pose proof (zeroed_exhausted pml4 flags vas s1 (ch_ok _ _ _ _ C1) Hus He) as Hstop.
      destruct (for_break vas (map_zeroed_page pml4 flags) s1) as [ok s']. destruct Hstop as [P2 He'].
      exists [va], vas. split; [by eapply progress_step|]. intros w ->%list_elem_of_singleton. by right.
  - destruct H1 as [C1 He]. exists [], (va :: vas). split; [by apply progress_stop|]. by intros w ?%not_elem_of_nil.
Qed.

(** ** Changing the rights of a page *)

(** A data frame that no page maps any more is given back. *)
Lemma free_data_ok s pml4 phys : space_ok s pml4 → frame phys → ¬ is_table s pml4 phys →
  (∀ w e r, user w → translate (vm_mem s) pml4 w = Some (e, r) → phys_of_entry e ≠ phys) →
  space_ok (free_frame phys s) pml4.
Proof.
  intros Hok [Hf Hfa] Hnt Hno. pose proof (so_wf _ _ Hok) as Hwf.
  destruct (fa_free (vm_frames s) phys (sw_alloc _ _ Hwf)) as (Hfw & Hfu & _); [lia|done|].
  assert (Hstay : ∀ b, (4096 | b) → b ≠ phys → fa_used (vm_frames s) b → fa_used (free_block phys (vm_frames s)) b).
  { intros b Hb Hne Hu. apply Hfu; [done|]. split; [done|]. by intros [-> _]. }
  destruct (space_wf_agree s (vm_mem s) (free_block phys (vm_frames s)) pml4 Hwf Hfw) as (Hwf2 & _ & _).
  { intros t Ht. pose proof (table_frame _ _ _ Hwf Ht) as [[_ Hta] Htu]. split; [|done].
    apply Hstay; [done| |done]. by intros ->. }
  split; [exact Hwf2| |exact (so_inj _ _ Hok)|exact (so_small _ _ Hok)].
  intros w e r Huw T. destruct (so_data _ _ Hok w e r Huw T) as (H1 & H2 & H3 & H4).
  split_and!; [lia..|done| |done]. apply Hstay; [apply H2|by eapply Hno|done].
Qed.

(** The leaf entry of a page is replaced by one that maps a frame of no other page. *)
Lemma set_leaf s pml4 va pt r v : space_ok s pml4 → user va →
  walk (vm_mem s) pml4 RIGHTS [pml4_index va; pdpt_index va; pd_index va] = Some (pt, r) →
  flag v PAGE_PRESENT = true → 0 ≤ v < 2 ^ 52 →
  frame (phys_of_entry v) → fa_used (vm_frames s) (phys_of_entry v) → ¬ is_table s pml4 (phys_of_entry v) →
  (∀ w e r, user w → page_of w ≠ page_of va → translate (vm_mem s) pml4 w = Some (e, r) →
     phys_of_entry e ≠ phys_of_entry v) →
  let s' := store (slot pt (pt_index va)) v s in
  changes s s' pml4 [va] ∧ translate (vm_mem s') pml4 va = Some (v, r .& v) ∧ grows s s' pml4.
Proof.
  intros Hok Hu Hw HP Hv Hf Hused Hnt Hno s'. pose proof (so_wf _ _ Hok) as Hwf.
  pose proof (mapped_leaf s s pml4 va pt r v ltac:(by intros ?) Hwf (grows_refl _ _) Hw) as HM. fold s' in HM.
  split_and!; [split| |].
  - by eapply (mapped_ok s).
  - intros w Huw Hn. split; [apply (mp_others _ _ _ _ _ HM); intros E; apply Hn; rewrite E; by left|].
    intros e r' j T Hj. destruct (so_data _ _ Hok w e r' Huw T) as (_ & H2 & H3 & H4).
    by apply (gr_data _ _ _ (mp_grows _ _ _ _ _ HM)).
  - rewrite translate_trans. replace (Some (v, r .& v)) with (if flag v PAGE_PRESENT then Some (v, r .& v) else None)
      by (by rewrite HP).
    eapply (leaf_translate s); [exact Hwf|apply page_of_range|].
    apply leaf_change_store; [done|apply page_path|done].
  - apply HM.
Qed.

Lemma store_free a v phys s : store a v (free_frame phys s) = free_frame phys (store a v s).
Proof. done. Qed.

Section protect.
  Variables (PAGE_COW pml4 flags : Z).
  Hypothesis cow_range : 0 ≤ PAGE_COW < 4096.
  Hypothesis flags_ok : 0 ≤ flags < 4096 ∧ flag flags PAGE_PRESENT = true.

(** The page keeps its contents and is mapped with [flags]; a page that may not be written
    can stay copy-on-write. *)
Definition reprotected s (s' : vm (A := A)) va : Prop :=
  ∀ e r, translate (vm_mem s) pml4 va = Some (e, r) →
  ∃ phys x r', translate (vm_mem s') pml4 va = Some (phys .| flags .| x, r') ∧
    phys_of_entry (phys .| flags .| x) = phys ∧
    (x = 0 ∨ x = PAGE_COW ∧ flag flags PAGE_WRITABLE = false) ∧
    ∀ j, 0 ≤ j < 512 → entry (vm_mem s') phys j = entry (vm_mem s) (phys_of_entry e) j.

Lemma protect_entry phys x : frame phys → 0 ≤ x < 4096 →
  let v := phys .| flags .| x in
  flag v PAGE_PRESENT = true ∧ 0 ≤ v < 2 ^ 52 ∧ phys_of_entry v = phys.
Proof.
  intros [Hf Ha] Hx. simpl. destruct flags_ok as [Hfl HP].
  assert (Hlow : 0 ≤ flags .| x < 4096) by (apply (lor_small _ _ 12); lia).
  rewrite <- Z.lor_assoc. split_and!.
  - rewrite flag_low by done. unfold flag in *. rewrite Z.land_lor_distr_l.
    apply negb_true_iff, Z.eqb_neq. apply negb_true_iff, Z.eqb_neq in HP. intros E.
    by apply Z.lor_eq_0_iff in E as [? _].
  - apply (lor_small _ _ 52); lia.
  - apply (lor_small _ _ 52); lia.
  - by apply phys_of; [lia|..].
Qed.

(** The page keeps its frame. *)
Lemma protect_in_place s va pt r e x : space_ok s pml4 → user va →
  walk (vm_mem s) pml4 RIGHTS [pml4_index va; pdpt_index va; pd_index va] = Some (pt, r) →
  translate (vm_mem s) pml4 va = Some (e, r .& e) → 0 ≤ x < 4096 →
  (x = 0 ∨ x = PAGE_COW ∧ flag flags PAGE_WRITABLE = false) →
  let s' := store (slot pt (pt_index va)) (phys_of_entry e .| flags .| x) s in
  changes s s' pml4 [va] ∧ reprotected s s' va.
Proof.
  intros Hok Hu Hw T Hx Hxc. destruct (so_data _ _ Hok va e _ Hu T) as (_ & Hf & Hused & Hnt).
  destruct (protect_entry (phys_of_entry e) x Hf Hx) as (P1 & P2 & P3).
  destruct (set_leaf s pml4 va pt r (phys_of_entry e .| flags .| x)) as (C & T' & Hg); try done.
  { by rewrite P3. } { by rewrite P3. } { by rewrite P3. }
  { intros w e' r' Huw Hne Tw. rewrite P3. intros E. apply Hne. by eapply (so_inj _ _ Hok w va). }
  split; [done|]. intros e0 r0 T0. rewrite T in T0. injection T0 as <- <-.
  exists (phys_of_entry e), x. eexists. split_and!; [exact T'|done|done|].
  intros j Hj. by apply (gr_data _ _ _ Hg).
Qed.

(** The page gets a private copy of its frame. *)
Lemma protect_copy s va pt r e n fr m : space_ok s pml4 → user va →
  walk (vm_mem s) pml4 RIGHTS [pml4_index va; pdpt_index va; pd_index va] = Some (pt, r) →
  translate (vm_mem s) pml4 va = Some (e, r .& e) →
  alloc_block (vm_frames s) = (Some n, fr) →
  (∀ i, 0 ≤ i < 512 → entry m n i = entry (vm_mem s) (phys_of_entry e) i) →
  (∀ a, (∀ j, 0 ≤ j < 512 → a ≠ slot n j) → arr_get m a = arr_get (vm_mem s) a) →
  let s' := free_frame (phys_of_entry e) (store (slot pt (pt_index va)) (n .| flags .| 0) (Vm m fr)) in
  changes s s' pml4 [va] ∧ reprotected s s' va.
Proof.
  intros Hok Hu Hw T Hal Hcopy Hrest s'. destruct (so_data _ _ Hok va e _ Hu T) as (_ & Hf & Hused & Hnt).
  pose proof (so_wf _ _ Hok) as Hwf. set (phys := phys_of_entry e) in *.
  destruct (fa_alloc_some _ _ _ (sw_alloc _ _ Hwf) Hal) as (Hfw & Hn & Hnu & Hus & _).
  assert (Hnp : n ≠ phys) by (intros ->; done).
  set (s2 := store (slot pt (pt_index va)) (n .| flags .| 0) (Vm m fr)) in *.
  assert (Hm : ∀ t j, frame t → t ≠ n → 0 ≤ j < 512 → entry m t j = entry (vm_mem s) t j).
  { intros t j Ht Hne Hj. apply Hrest. intros k Hk E. apply slot_inj in E as [? _]; [done|apply Ht|apply Hn|done|done]. }
  assert (Htm : ∀ t j, is_table s pml4 t → 0 ≤ j < 512 → entry m t j = entry (vm_mem s) t j).
  { intros t j Ht Hj. pose proof (table_frame _ _ _ Hwf Ht) as [? ?]. apply Hm; [done|by intros ->|done]. }
  destruct (space_ok_agree s m fr pml4 Hok Hfw) as (Hok0 & Hsame & Htab); [|done|].
  { intros b Hb Hbu. apply Hus; auto. }
  destruct (space_wf_agree s m fr pml4 Hwf Hfw) as (_ & Hwalk & _).
  { intros t Ht. split; [|auto]. pose proof (table_frame _ _ _ Hwf Ht) as [[_ ?] ?]. apply Hus; auto. }
  destruct (protect_entry n 0 Hn) as (P1 & P2 & P3); [lia|].
  assert (Hother : ∀ w e' r', user w → translate (vm_mem s) pml4 w = Some (e', r') → phys_of_entry e' ≠ n).
  { intros w e' r' Huw Tw. destruct (so_data _ _ Hok w e' r' Huw Tw) as (_ & _ & H3 & _). by intros <-. }
  destruct (set_leaf (Vm m fr) pml4 va pt r (n .| flags .| 0)) as (C & T' & Hg); rewrite ?P3; [done|done| |done|done|done| | | |].
  { cbn [vm_mem]. rewrite Hwalk; [done|apply page_path]. }
  { apply Hus; [apply Hn|by left]. }
  { rewrite Htab. by intros [_ ?]%table_frame. }
  { intros w e' r' Huw _ Tw. cbn [vm_mem] in Tw. rewrite Hsame in Tw. by eapply Hother. }
  fold s2 in C, T', Hg. subst s'. clearbody s2.
  assert (Hold : ∀ w e' r', user w → translate (vm_mem s2) pml4 w = Some (e', r') → phys_of_entry e' ≠ phys).
  { intros w e' r' Huw Tw. destruct (decide (page_of w = page_of va)) as [E|Hne].
    - rewrite (translate_page _ _ w va E), T' in Tw. injection Tw as <- _. by rewrite P3.
    - destruct (ch_others _ _ _ _ C w Huw) as [Ts _]; [by intros ?%list_elem_of_singleton|].
      rewrite Ts in Tw. cbn [vm_mem] in Tw. rewrite Hsame in Tw. intros E. apply Hne.
      by eapply (so_inj _ _ Hok w va). }
  split; [split|].
  - apply free_data_ok; [apply C|done| |done]. intros [Ht|Ht]%(gr_table _ _ _ Hg); [by apply Hnt, Htab|].
    apply Ht, Hus; [apply Hf|by right].
  - intros w Huw Hn'. destruct (ch_others _ _ _ _ C w Huw Hn') as [Ts Ds]. cbn [vm_mem] in Ts, Ds.
    split; [cbn; by rewrite Ts|]. intros e' r' j Tw Hj. destruct (so_data _ _ Hok w e' r' Huw Tw) as (_ & H2 & _ & _).
    transitivity (entry m (phys_of_entry e') j); [|by apply Hm; [|by eapply Hother|]].
    apply (Ds e' r'); [by rewrite Hsame|done].
  - intros e0 r0 T0. rewrite T in T0. injection T0 as <- <-. exists n, 0, (r .& (n .| flags .| 0)).
    split_and!; [exact T'|done|by left|]. intros j Hj. fold phys. rewrite <- Hcopy by done.
    apply (gr_data _ _ _ Hg); [done| | |done]; [apply Hus; [apply Hn|by left]|].
    rewrite Htab. by intros [_ ?]%table_frame.
Qed.

(** [vmm_protect_page] at a mapped page. *)
Lemma vmm_protect_page_ok s va pt r e : space_ok s pml4 → user va →
  walk (vm_mem s) pml4 RIGHTS [pml4_index va; pdpt_index va; pd_index va] = Some (pt, r) →
  entry (vm_mem s) pt (pt_index va) = e → flag e PAGE_PRESENT = true →
  let (ok, s') := vmm_protect_page PAGE_COW pml4 va flags s in
  if ok then changes s s' pml4 [va] ∧ reprotected s s' va else changes s s' pml4 [] ∧ exhausted s'.
Proof.
  intros Hok Hu Hw He HP. pose proof (so_wf _ _ Hok) as Hwf.
  pose proof (translate_leaf s pml4 va Hok Hu) as T. rewrite Hw in T. cbv zeta in T. rewrite He, HP in T.
  unfold vmm_protect_page. rewrite find_page_entry_walk, Hw by (done || by apply (root_nonzero s)).
  change (arr_get (vm_mem s) (slot pt (pt_index va))) with (entry (vm_mem s) pt (pt_index va)).
  rewrite He, HP. cbn [negb]. cbv zeta. change (e .& PTE_PHYS_MASK) with (phys_of_entry e).
  destruct (flag flags PAGE_WRITABLE) eqn:HW.
  - destruct (_ || _).
    + destruct (alloc_block (vm_frames s)) as [[n|] fr] eqn:Hal;
        [|split; [by apply alloc_none_changes|by exists (vm_frames s)]].
      destruct (so_data _ _ Hok va e _ Hu T) as (_ & Hf & Hused & _).
      destruct (fa_alloc_some _ _ _ (sw_alloc _ _ Hwf) Hal) as (_ & Hn & Hnu & _).
      destruct (copy_frame_spec n (phys_of_entry e) (vm_mem s)) as [Hc Hr]; [apply Hn|apply Hf|by intros ->|].
      rewrite store_free. exact (protect_copy s va pt r e n fr _ Hok Hu Hw T Hal Hc Hr).
    + apply (protect_in_place s va pt r e 0); auto. lia.
  - apply (protect_in_place s va pt r e); [done|done|done|done| |]; destruct (flag e PAGE_COW); auto; lia.
Qed.

Notation loop := (λ vas s, for_break vas (protect_one PAGE_COW pml4 flags) s).

(** The page [va] of [mprotect], which comes after the pages [pre]: a mapped page keeps its
    contents; a page that was not mapped reads as zeros, or stays unmapped because there was
    no frame for a page table when its turn came. *)
Definition mprotected (pre : list Z) (va : Z) s (s' : vm (A := A)) : Prop :=
  if decide (translate (vm_mem s) pml4 va = None)
  then zero_page s' pml4 flags va ∨
    translate (vm_mem s') pml4 va = None ∧ exhausted (for_break (pre ++ [va]) (protect_one PAGE_COW pml4 flags) s).2
  else reprotected s s' va.

Lemma protect_one_ok s va : space_ok s pml4 → user va →
  let (ok, s') := protect_one PAGE_COW pml4 flags va s in
  if ok then changes s s' pml4 [va] ∧
    (if decide (translate (vm_mem s) pml4 va = None)
     then zero_page s' pml4 flags va ∨ translate (vm_mem s') pml4 va = None ∧ exhausted s'
     else reprotected s s' va)
  else changes s s' pml4 [] ∧ exhausted s'.
Proof.
  intros Hok Hu. pose proof (so_wf _ _ Hok) as Hwf. unfold protect_one, vmm_page_present.
  rewrite find_page_entry_walk by (done || by apply (root_nonzero s)).
  pose proof (translate_leaf s pml4 va Hok Hu) as T.
  assert (Hzero : translate (vm_mem s) pml4 va = None →
    let (ok, s') := map_zeroed_page pml4 flags va s in
    if ok then changes s s' pml4 [va] ∧
      (zero_page s' pml4 flags va ∨ translate (vm_mem s') pml4 va = None ∧ exhausted s')
    else changes s s' pml4 [] ∧ exhausted s').
  { intros HT. pose proof (map_zeroed_page_ok s pml4 flags va Hok Hu (proj1 flags_ok) (proj2 flags_ok)) as M.
    destruct (map_zeroed_page pml4 flags va s) as [[] s1]; [|done]. destruct M as [C [M|[? M]]]; [by auto|].
    split; [done|]. right. split; [congruence|done]. }
  destruct (walk _ _ _ [pml4_index va; pdpt_index va; pd_index va]) as [[pt r]|] eqn:Hw.
  - cbv zeta in T. change (arr_get (vm_mem s) (slot pt (pt_index va))) with (entry (vm_mem s) pt (pt_index va)).
    destruct (flag (entry (vm_mem s) pt (pt_index va)) PAGE_PRESENT) eqn:HP; cbn [negb].
    + pose proof (vmm_protect_page_ok s va pt r _ Hok Hu Hw eq_refl HP) as H.
      destruct (decide _) as [HT|_]; [congruence|exact H].
    + destruct (decide _); [exact (Hzero T)|done].
  - cbn [negb]. destruct (decide _); [exact (Hzero T)|done].
Qed.

(** A page that has been protected in [s1], with no change of it before or after. *)
Lemma mprotected_between v s s1 s' pre va vas vas' : user va →
  page_of va ∉ page_of <$> vas → page_of va ∉ page_of <$> vas' → changes v s pml4 vas → changes s1 s' pml4 vas' →
  loop (pre ++ [va]) v = (true, s1) →
  (if decide (translate (vm_mem s) pml4 va = None)
   then zero_page s1 pml4 flags va ∨ translate (vm_mem s1) pml4 va = None ∧ exhausted s1
   else reprotected s s1 va) → mprotected pre va v s'.
Proof.
  intros Hu Hn Hn' C C' E. destruct (ch_others _ _ _ _ C va Hu Hn) as [CT CD], (ch_others _ _ _ _ C' va Hu Hn') as [CT' CD'].
  unfold mprotected. rewrite E, CT. case_decide as HT.
  - intros [Z|[Z ?]]; [left; by eapply zero_page_changes|right; split; [congruence|done]].
  - intros R e r T. destruct (R e r) as (phys & x & r' & R1 & R2 & R3 & R4); [congruence|].
    exists phys, x, r'. split_and!; [congruence|done|done|]. intros j Hj.
    rewrite <- (CD e r), <- R4 by done. rewrite <- R2. by eapply CD'.
Qed.

Lemma for_break_app {T} vas1 vas2 (body : Z → T → bool * T) x y :
  for_break vas1 body x = (true, y) → for_break (vas1 ++ vas2) body x = for_break vas2 body y.
Proof.
  revert x. induction vas1 as [|va vas1 IH]; intros x; [by intros [= <-]|]. simpl.
  destruct (body va x) as [[] x1]; [apply IH|done].
Qed.

Lemma protect_loop_ok v vas : ∀ pre s, Forall user vas → NoDup (page_of <$> pre ++ vas) →
  loop pre v = (true, s) → changes v s pml4 pre →
  let (ok, s') := loop vas s in
  ∃ dn rest, progress vas dn rest ok pml4 s s' ∧
  ∀ mid va post, dn = mid ++ va :: post → mprotected (pre ++ mid) va v s'.
Proof.
  induction vas as [|va vas IH]; intros pre s Hu Hnd Hpre Cpre.
  { exists [], []. split; [|by intros [] ???]. split_and!; [done..|apply changes_refl, Cpre|by intros va ?%not_elem_of_nil]. }
  pose proof Hu as Hall. apply Forall_cons in Hu as [Hu Hus]. pose proof Hnd as Hnd0.
  rewrite fmap_app, fmap_cons in Hnd. apply NoDup_app in Hnd as (_ & Hdis & [Hn _]%NoDup_cons).
  cbn [for_break]. pose proof (protect_one_ok s va (ch_ok _ _ _ _ Cpre) Hu) as H1.
  destruct (protect_one PAGE_COW pml4 flags va s) as [[] s1] eqn:E1.
  - destruct H1 as [C1 P1]. assert (Hpre1 : loop (pre ++ [va]) v = (true, s1)).
    { rewrite (for_break_app pre [va] _ v s Hpre). simpl. by rewrite E1. }
    assert (Hmid : ∀ mid, (pre ++ [va]) ++ mid = pre ++ va :: mid) by (intros mid; by rewrite <- app_assoc).
    specialize (IH (pre ++ [va]) s1 Hus). rewrite Hmid in IH. specialize (IH Hnd0 Hpre1).
    destruct (for_break vas (protect_one PAGE_COW pml4 flags) s1) as [ok s'].
    destruct IH as (dn & rest & P2 & M2).
    { eapply changes_weaken; [| |exact Cpre|exact C1]; intros x Hx; apply elem_of_app; [by left|by right]. }
    exists (va :: dn), rest. split; [by eapply progress_step|]. destruct P2 as (Hvas & _ & C2 & _).
    intros [|w mid] va' post [= <- Hdn].
    + rewrite app_nil_r. eapply (mprotected_between v s s1 s' pre va pre dn); try done.
      * intros Hin. by apply (Hdis _ Hin); left.
      * intros Hin. apply Hn. rewrite Hvas, fmap_app. apply elem_of_app. by left.
    + rewrite <- Hmid. by eapply M2.
  - destruct H1 as [C1 He]. exists [], (va :: vas). split; [by apply progress_stop|by intros [] ???].
Qed.
End protect.
End loops.
