(* ===== verification/MemoryProps.v ===== *)
(** * What the memory system calls do

    The calls of [kernel/syscall/memory.c] on a well-formed address space: where a mapping
    is placed and what its pages hold, what is unmapped, what keeps its contents, on every
    way out. *)

From S2P Require Import Prelude CString VfsNode Pmm Frames Vmm VmmSpec VmmProps ProcessData Process Lifecycle.
From S2P Require Import Fd FdKernel FdSyscalls Memory MemorySpec MemoryLoops.

(** Registers hold 64-bit values. *)
Definition args_ok (r : syscall_regs) : Prop :=
  0 ≤ rdi r < 2 ^ 64 ∧ 0 ≤ rsi r < 2 ^ 64 ∧ 0 ≤ rdx r < 2 ^ 64.

(** ** Rounding *)

Lemma align_up_range v : 0 ≤ align_up_page v < 2 ^ 64 ∧ (4096 | align_up_page v).
Proof.
  unfold align_up_page. pose proof (Z.mod_pos_bound (v + 0xFFF) (2 ^ 64) ltac:(lia)) as H. fold (u64 (v + 0xFFF)) in H.
  rewrite land_page_mask by done. split; [|apply Z.divide_factor_r].
  generalize dependent (u64 (v + 0xFFF)). intros x Hx. div_lia.
Qed.

Lemma align_up_small v : 0 ≤ v ≤ 2 ^ 64 - 4096 → v ≤ align_up_page v < v + 4096.
Proof.
  intros Hv. unfold align_up_page, u64. rewrite Z.mod_small by lia. rewrite land_page_mask by lia. div_lia.
Qed.

Lemma align_up_big v : 2 ^ 64 - 4096 < v < 2 ^ 64 → align_up_page v = 0.
Proof.
  intros Hv. unfold align_up_page, u64. rewrite <- (Z_mod_plus_full _ (-1)).
  rewrite Z.mod_small by lia. rewrite land_page_mask by lia. div_lia.
Qed.

Lemma page_flag_aligned a : 0 ≤ a < 2 ^ 64 → flag a 0xFFF = false → (4096 | a).
Proof.
  intros Ha. unfold flag. rewrite negb_false_iff, Z.eqb_eq. change 0xFFF with (Z.ones 12).
  rewrite Z.land_ones by lia. apply Z.mod_divide. lia.
Qed.

Lemma page_mask_aligned a : 0 ≤ a < 2 ^ 64 → 0 ≤ a .& PAGE_MASK ≤ a ∧ (4096 | a .& PAGE_MASK).
Proof.
  intros Ha. rewrite land_page_mask by done. split; [div_lia|apply Z.divide_factor_r].
Qed.

Lemma prot_flags_ok prot : 0 ≤ prot_page_flags prot < 4096 ∧ flag (prot_page_flags prot) PAGE_PRESENT = true.
Proof. unfold prot_page_flags. by destruct (flag prot LINUX_PROT_WRITE). Qed.

(** The range of a mapping. *)
Record user_range_ok (base len : Z) : Prop := {
  ur_base : (4096 | base) ∧ AOS_USER_SPACE_START ≤ base;
  ur_len : (4096 | len) ∧ 0 < len;
  ur_end : base + len ≤ USER_MAP_END;
  ur_stack : base + len ≤ USER_STACK_BASE ∨ USER_STACK_BASE + USER_STACK_SIZE ≤ base
}.

Lemma mmap_range_ok base len : 0 ≤ base < 2 ^ 64 → (4096 | base) → 0 ≤ len < 2 ^ 64 → (4096 | len) → len ≠ 0 →
  mmap_range_bad base (u64 (base + len)) = false → user_range_ok base len ∧ u64 (base + len) = base + len.
Proof.
  intros Hb Hba Hl Hla Hl0. unfold mmap_range_bad. rewrite !orb_false_iff, andb_false_iff, !Z.ltb_ge.
  intros [[[H1 H2] H3] H4].
  assert (Hu : u64 (base + len) = base + len).
  { unfold u64 in *. destruct (decide (base + len < 2 ^ 64)) as [|Hge]; [by rewrite Z.mod_small by lia|].
    rewrite <- (Z_mod_plus_full _ (-1)), Z.mod_small in H2 by lia. lia. }
  rewrite Hu in *. split; [|done]. split; [done|split; [done|lia]|lia|lia].
Qed.

Lemma user_map_end : USER_MAP_END ≤ USER_SPACE_END.
Proof. done. Qed.

Lemma range_pages base len : user_range_ok base len →
  Forall user (pages base (base + len)) ∧ NoDup (page_of <$> pages base (base + len)).
Proof.
  intros [[_ Hb] _ He _]. pose proof user_map_end. split; [apply pages_user; lia|apply pages_nodup; lia].
Qed.

Section calls.
  Context {A X : Type} `{!FrameAllocator A, !FrameAllocatorSpec A}.
  Implicit Types s : kernel (sys (vm (A := A)) X).

(** ** [mmap] *)

Section mmap_call.
  Variable vfs_read_node : vfs_node → Z → Z → Z → arr → bool * arr.

(** What [mmap] has done to the pages of [[base, base + len)], by its result: the pages
    hold the file's contents or zeros, except for a page for which no page table could be
    allocated; the range is reserved; or an error (no frame at some page, or the file could
    not be read there), after which the pages that had been touched are unmapped. *)
Inductive mmap_result (fixed : bool) (file : option vfs_node) (p4 prot offset base len : Z)
    (v v' : vm (A := A)) : Z → Prop :=
  | mmap_filled :
      prot ≠ 0 → changes v v' p4 (pages base (base + len)) →
      (∀ pre va rest, pages base (base + len) = pre ++ va :: rest →
        filled vfs_read_node p4 base offset (prot_page_flags prot) file v' va ∨
        missing vfs_read_node p4 base offset (prot_page_flags prot) fixed file pre va rest v v') →
      mmap_result fixed file p4 prot offset base len v v' base
  | mmap_reserved :
      prot = 0 → (if fixed then unmapped v v' p4 (pages base (base + len)) else v' = v) →
      mmap_result fixed file p4 prot offset base len v v' base
  | mmap_failed e pre va rest :
      pages base (base + len) = pre ++ va :: rest →
      stopped vfs_read_node p4 base offset (prot_page_flags prot) fixed file e pre va v →
      unmapped v v' p4 (released fixed pre va) →
      mmap_result fixed file p4 prot offset base len v v' e.

Lemma mmap_base_ok fixed addr p s base : 0 ≤ addr < 2 ^ 64 → mmap_base fixed addr p s = Some base →
  0 ≤ base < 2 ^ 64 ∧ (4096 | base) ∧ if fixed then base = addr else shared_mmap_cursor p s ≤ base.
Proof.
  intros Ha. unfold mmap_base. destruct fixed.
  - destruct (flag addr 0xFFF) eqn:Hf; [done|]. intros [= <-]. split_and!; [lia..|by apply page_flag_aligned|done].
  - pose proof (page_mask_aligned addr Ha) as [Hr Hd].
    pose proof (align_up_range (foldl (λ cursor p0, if in_space_of p p0 && (cursor <? mmap_next (p_heap p0))
      then mmap_next (p_heap p0) else cursor) USER_MMAP_BASE (process_list s))) as [Cr Cd].
    change (align_up_page _) with (shared_mmap_cursor p s) in Cr, Cd.
    intros [= <-]. destruct (negb (addr =? 0) && _) eqn:E; [|split_and!; [lia..|done|lia]].
    apply andb_true_iff in E as [_ E%Z.leb_le]. split_and!; [lia..|done|done].
Qed.

Lemma mmap_file_error anonymous fd offset s e : mmap_file anonymous fd offset s = inl e →
  e ∈ [- LINUX_EINVAL; - LINUX_ENOSYS; - LINUX_EBADF].
Proof.
  unfold mmap_file. intros H.
  repeat (case_match; simplify_eq); first [by left|by right; right; left].
Qed.

Lemma at_first base end_ : Forall user (pages base end_) → NoDup (page_of <$> pages base end_) →
  at_page base [] (pages base end_).
Proof. intros Hu Hn. split_and!; [done|done|]. intros pre va rest. apply pages_app. Qed.

End mmap_call.

(** ** [munmap] and [mprotect] *)

(** The pages of a page-aligned range of user addresses, and the others. *)
Lemma unmapped_range v v' p4 start end_ w : (4096 | start) → (4096 | end_) →
  AOS_USER_SPACE_START ≤ start → end_ ≤ USER_SPACE_END → user w →
  unmapped v v' p4 (pages start end_) →
  if decide (start ≤ w < end_) then translate (vm_mem v') p4 w = None else same_page v v' p4 w.
Proof.
  intros Hs He Hb Hu Hw [C N]. case_decide as Hin.
  - destruct Hs as [k ->]. rewrite (translate_page _ _ w (k * 4096 + 4096 * ((w - k * 4096) / 4096))).
    + apply N, elem_of_pages. exists ((w - k * 4096) / 4096). split_and!; [div_lia|done|div_lia].
    + pose proof (user_range _ Hw). transitivity (page_of (w .& PAGE_MASK)); [symmetry; eapply (page_of_mask 512 9); lia|f_equal].
      rewrite land_page_mask by lia. div_lia.
  - by apply (ch_others _ _ _ _ C w Hw), outside_pages.
Qed.

(** C37 (functional): [munmap] of a range of user addresses returns 0, removes every page that
    meets the range and leaves all other user pages, mapping and contents, as they were;
    nothing but the address space changes. *)
Theorem munmap_spec r s p :
  get_current_process s = Some p → args_ok r → space_ok (the_vm s) (p4_table p) →
  AOS_USER_SPACE_START ≤ rdi r → 0 < rsi r → rdi r + rsi r ≤ USER_SPACE_END →
  ∃ v', sys_munmap r s = (0, set_vm v' s) ∧ space_ok v' (p4_table p) ∧
  ∀ w, user w →
    if decide (rdi r .& PAGE_MASK ≤ w < align_up_page (rdi r + rsi r))
    then translate (vm_mem v') (p4_table p) w = None
    else same_page (the_vm s) v' (p4_table p) w.
Proof.
  intros Hcur (Ha & Hl & _) Hok H1 H2 H3. unfold sys_munmap. rewrite Hcur.
  rewrite (proj2 (Z.eqb_neq _ _) (root_nonzero _ _ (so_wf _ _ Hok))).
  unfold USER_SPACE_END in H3. assert (Hu : u64 (rdi r + rsi r) = rdi r + rsi r) by (apply Z.mod_small; lia).
  rewrite Hu. destruct (page_mask_aligned (rdi r) Ha) as [Sr Sd].
  destruct (align_up_range (rdi r + rsi r)) as [Er Ed]. pose proof (align_up_small (rdi r + rsi r) ltac:(lia)) as Es.
  assert (Hs : AOS_USER_SPACE_START ≤ rdi r .& PAGE_MASK).
  { rewrite land_page_mask by done. unfold AOS_USER_SPACE_START in *. div_lia. }
  assert (He : align_up_page (rdi r + rsi r) ≤ USER_SPACE_END).
  { unfold align_up_page, USER_SPACE_END. unfold u64 in *. rewrite Z.mod_small by lia.
    rewrite land_page_mask by lia. div_lia. }
  rewrite (proj2 (Z.eqb_neq (rsi r) 0)), (proj2 (Z.ltb_ge (align_up_page _) _)) by lia. cbn [orb].
  pose proof (pages_user _ _ Hs He) as Hus. pose proof (release_ok _ _ _ _ Hok Hus) as U.
  eexists. split; [done|]. split; [apply U|]. intros w Hw. by apply unmapped_range.
Qed.

Section mprotect_call.
  Variable PAGE_COW : Z.

(** C38 (functional): [mprotect] of a range of user addresses, with rights.  It succeeds or
    runs out of memory.  The pages [dn] of the range, all of them on success, have the new
    rights, with their contents unchanged where they were mapped and zeros where they were
    not, except that a missing page stays unmapped when the allocation of a page table has
    failed at that very page; on failure, which is an allocation that failed, the remaining
    pages are as before; no other user page changes. *)
Theorem mprotect_spec r s p :
  0 ≤ PAGE_COW < 4096 →
  get_current_process s = Some p → args_ok r → space_ok (the_vm s) (p4_table p) →
  (4096 | rdi r) → AOS_USER_SPACE_START ≤ rdi r → 0 < rsi r → rdi r + rsi r ≤ USER_MAP_END →
  prot_bad (rdx r) = false → rdx r ≠ 0 →
  let end_ := align_up_page (rdi r + rsi r) in
  ∃ (ok : bool) v', sys_mprotect PAGE_COW r s = (if ok then 0 else - LINUX_ENOMEM, set_vm v' s) ∧
  space_ok v' (p4_table p) ∧
  (∀ w, user w → ¬ rdi r ≤ w < end_ → same_page (the_vm s) v' (p4_table p) w) ∧
  ∃ dn rest, pages (rdi r) end_ = dn ++ rest ∧ (if ok then rest = [] else rest ≠ [] ∧ exhausted v') ∧
  (∀ pre va post, dn = pre ++ va :: post →
    mprotected PAGE_COW (p4_table p) (prot_page_flags (rdx r)) pre va (the_vm s) v') ∧
  (∀ va, va ∈ rest → same_page (the_vm s) v' (p4_table p) va).
Proof.
  intros Hcow Hcur (Ha & Hl & _) Hok Hal H1 H2 H3 Hp Hp0 end_. unfold sys_mprotect. rewrite Hcur.
  rewrite (proj2 (Z.eqb_neq _ _) (root_nonzero _ _ (so_wf _ _ Hok))), (aligned_flag _ Hal), Hp.
  unfold USER_MAP_END in H3. assert (Hu : u64 (rdi r + rsi r) = rdi r + rsi r) by (apply Z.mod_small; lia).
  rewrite Hu. fold end_. destruct (align_up_range (rdi r + rsi r)) as [Er Ed].
  pose proof (align_up_small (rdi r + rsi r) ltac:(lia)) as Es. fold end_ in Er, Ed, Es.
  assert (He : end_ ≤ USER_MAP_END).
  { unfold end_, align_up_page, USER_MAP_END. unfold u64 in *. rewrite Z.mod_small by lia.
    rewrite land_page_mask by lia. div_lia. }
  pose proof user_map_end as Hme.
  rewrite (proj2 (Z.eqb_neq (rsi r) 0)), (proj2 (Z.eqb_neq (rdx r) 0)), (proj2 (Z.ltb_ge end_ (rdi r))),
    (proj2 (Z.ltb_ge (rdi r) _) H1), (proj2 (Z.ltb_ge USER_MAP_END end_)) by lia. cbn [orb].
  pose proof (pages_user (rdi r) end_ H1 ltac:(lia)) as Hus.
  pose proof (pages_nodup (rdi r) end_ H1 ltac:(lia)) as Hnd.
  pose proof (protect_loop_ok PAGE_COW (p4_table p) (prot_page_flags (rdx r)) Hcow (prot_flags_ok _) (the_vm s)
    _ [] (the_vm s) Hus Hnd eq_refl (changes_refl _ _ _ Hok)) as L. cbv beta in L.
  destruct (for_break _ _ _) as [ok v'] eqn:El. destruct L as (dn & rest & (Hpg & Hrest & Cd & K) & P).
  assert (C : changes (the_vm s) v' (p4_table p) (pages (rdi r) end_)).
  { eapply changes_mono; [|exact Cd]. rewrite Hpg. intros x Hx. apply elem_of_app. by left. }
  exists ok, v'. split_and!; [done|apply C| |by exists dn, rest].
  intros w Hw Hout. apply (ch_others _ _ _ _ C w Hw). apply outside_pages; [done|done|done|lia|done|done].
Qed.
End mprotect_call.
End calls.

(** ** Examples *)

#[local] Strategy 100 [demo_root demo_frames3 demo_space sys_mmap sys_munmap sys_mprotect pages].

(** An empty user page has no leaf. *)
Lemma demo_space_empty va : translate (vm_mem demo_space) demo_root va = None.
Proof. unfold translate. cbn [walk]. unfold entry, demo_space. cbn [vm_mem]. by rewrite arr_get_fill. Qed.

Lemma demo_space_ok : space_ok demo_space demo_root.
Proof.
  split; [exact demo_space_wf| | |].
  - intros va e r _ H. by rewrite demo_space_empty in H.
  - intros v1 v2 e1 e2 r1 r2 _ _ H. by rewrite demo_space_empty in H.
  - intros va t r _. cbn [walk]. unfold entry, demo_space. cbn [vm_mem]. by rewrite arr_get_fill.
Qed.

(** A process that runs in that address space, with a heap of three pages. *)
Definition demo_process : process_t :=
  let z := zero_process in
  let base := AOS_USER_SPACE_START + 0x100000 in
  Process (p_ids z) RUNNING 0 demo_root (regs z) None [] 0 0 (fd_table z) 0
    (Heap base (base + 0x2004) (base + 0x3000) USER_MMAP_BASE) 0 0 0 (0, 0, 0) (p_cred z) [] (p_thermal z) 0 0 false.

Definition demo_memory : kernel (sys (vm (A := pmm)) unit) :=
  Kernel [demo_process] (Some 0%nat) 1 false (Sys demo_space (no_objects ())).

Definition demo_args (a0 a1 a2 a3 a4 a5 : Z) : syscall_regs :=
  Regs 0 a2 a1 a0 a3 a4 a5 0 0 0 0 0 0 0 0 0.

Definition demo_read (_ : vfs_node) (_ _ _ : Z) (m : arr) : bool * arr := (true, m).

(** An anonymous private mapping of 5000 bytes. *)
Definition demo_mmap (addr flags : Z) : syscall_regs := demo_args addr 5000 3 (0x22 .| flags) 0xFFFFFFFF 0.


Lemma munmap_spec_witness :
  ∃ v', sys_munmap (demo_args (AOS_USER_SPACE_START + 5) 4096 0 0 0 0) demo_memory = (0, set_vm v' demo_memory) ∧
    translate (vm_mem v') demo_root (AOS_USER_SPACE_START + 0x1000) = None.
Proof.
  assert (Hargs : args_ok (demo_args (AOS_USER_SPACE_START + 5) 4096 0 0 0 0)) by (split_and!; vm_compute; congruence).
  destruct (munmap_spec (demo_args (AOS_USER_SPACE_START + 5) 4096 0 0 0 0) demo_memory demo_process eq_refl Hargs demo_space_ok)
    as (v' & E & _ & H).
  1-3: vm_compute; congruence.
  exists v'. split; [exact E|]. specialize (H (AOS_USER_SPACE_START + 0x1000) ltac:(split; vm_compute; congruence)).
  rewrite decide_True in H; [exact H|]. split; vm_compute; congruence.
Defined.

Lemma mprotect_spec_witness :
  ∃ (ok : bool) v', sys_mprotect 512 (demo_args demo_virt 4096 3 0 0 0) demo_memory =
      (if ok then 0 else - LINUX_ENOMEM, set_vm v' demo_memory) ∧ space_ok v' demo_root.
Proof.
  assert (Hargs : args_ok (demo_args demo_virt 4096 3 0 0 0)) by (split_and!; vm_compute; congruence).
  destruct (mprotect_spec 512 (demo_args demo_virt 4096 3 0 0 0) demo_memory demo_process
    ltac:(lia) eq_refl Hargs demo_space_ok) as (ok & v' & E & H & _).
  - exists (AOS_USER_SPACE_START / 4096 + 3). vm_compute. reflexivity.
  - vm_compute. congruence.
  - vm_compute. reflexivity.
  - vm_compute. congruence.
  - vm_compute. reflexivity.
  - vm_compute. congruence.
  - exists ok, v'. split; [exact E|exact H].
Defined.
