(* ===== verification/MemoryHeap.v ===== *)
(** * The heap and the mapping cursor of an address space

    Processes that share an address space share its heap and the cursor from which [mmap]
    places mappings ([kernel/syscall/memory.c]): what [brk] does, and that the ranges [mmap]
    hands out to them never overlap. *)

From S2P Require Import Prelude CString VfsNode Pmm Frames Vmm VmmSpec VmmProps ProcessData Process Lifecycle ProcessInv.
From S2P Require Import Fd FdKernel FdSyscalls Memory MemorySpec MemoryLoops MemoryProps.

Section heap.
  Context {A X : Type} `{!FrameAllocator A, !FrameAllocatorSpec A}.
  Implicit Types s : kernel (sys (vm (A := A)) X).

(** ** The shared heap *)

Definition same_brk (a b : heap) : Prop :=
  brk_base a = brk_base b ∧ brk_current a = brk_current b ∧ brk_mapped_end a = brk_mapped_end b.

(** The heap [brk] works with: that of the sharer that is furthest. *)
Definition shared_heap (i : nat) s : heap := p_heap (proc i (synchronize_shared_brk i s)).

(** What [brk] has done to the heap [h], by its result and the heap afterwards. *)
Inductive brk_result (p4 requested : Z) (h : heap) (v v' : vm (A := A)) : Z → heap → Prop :=
  | brk_query :
      requested = 0 ∨ requested < brk_base h → v' = v →
      brk_result p4 requested h v v' (brk_current h) h
  | brk_grown :
      let new := pages (brk_mapped_end h) (align_up_page requested) in
      changes v v' p4 new →
      (∀ va, va ∈ new → zero_page v' p4 TABLE_FLAGS va ∨ last new = Some va ∧ exhausted v') →
      brk_mapped_end h < align_up_page requested →
      brk_result p4 requested h v v' requested
        (Heap (brk_base h) requested (align_up_page requested) (mmap_next h))
  | brk_full dn rest :
      brk_mapped_end h < align_up_page requested →
      progress (pages (brk_mapped_end h) (align_up_page requested)) dn rest false p4 v v' →
      (∀ va, va ∈ dn → zero_page v' p4 TABLE_FLAGS va ∨ last dn = Some va) →
      brk_result p4 requested h v v' (brk_current h) h
  | brk_shrunk :
      align_up_page requested ≤ brk_mapped_end h →
      unmapped v v' p4 (pages (align_up_page requested) (brk_mapped_end h)) →
      brk_result p4 requested h v v' requested
        (Heap (brk_base h) requested (align_up_page requested) (mmap_next h)).

(** Every process of the address space of process [i] has the heap [h]. *)
Definition heap_shared (i : nat) s (h : heap) : Prop :=
  ∀ j q, process_list s !! j = Some q → in_space_of (proc i s) q = true → same_brk (p_heap q) h.

Lemma proc_map i (f : process_t → process_t) s : (i < length (process_list s))%nat →
  proc i (set_list (f <$> process_list s) s) = f (proc i s).
Proof. intros Hi. apply proc_lookup. simpl. by rewrite list_lookup_fmap, (lookup_proc _ _ Hi). Qed.

Lemma in_space_heap owner p h : in_space_of owner (set_heap h p) = in_space_of owner p.
Proof. done. Qed.

(** The end of a successful [brk]. *)
Lemma finish_brk i s requested h : (i < length (process_list s))%nat →
  in_space_of (proc i s) (proc i s) = true → p_heap (proc i s) = h →
  let s' := publish_shared_brk i (upd i (on_heap (set_brk_current requested)) s) in
  let h' := set_brk_current requested h in
  p_heap (proc i s') = h' ∧ heap_shared i s' h' ∧ the_vm s' = the_vm s.
Proof.
  intros Hi Hsp Hh s' h'. set (s1 := upd i (on_heap (set_brk_current requested)) s) in *.
  assert (Hi1 : (i < length (process_list s1))%nat) by (unfold s1; by rewrite upd_length).
  assert (E1 : proc i s1 = on_heap (set_brk_current requested) (proc i s)) by (by apply proc_upd_eq).
  assert (Eh : p_heap (proc i s1) = h') by (rewrite E1; simpl; by rewrite Hh).
  assert (Es : proc i s' = set_heap (brk_fields h' (p_heap (proc i s1))) (proc i s1)).
  { unfold s', publish_shared_brk. rewrite proc_map by done. rewrite Eh.
    replace (in_space_of (proc i s1) (proc i s1)) with true; [done|]. rewrite E1. by symmetry. }
  split_and!; [by rewrite Es, Eh| |done].
  intros j q Hq Hin. rewrite Es in Hin. unfold s', publish_shared_brk in Hq. simpl in Hq.
  rewrite list_lookup_fmap in Hq. apply fmap_Some in Hq as (q0 & Hq0 & ->).
  change (in_space_of (proc i s1)
    (if in_space_of (proc i s1) q0 then set_heap (brk_fields (p_heap (proc i s1)) (p_heap q0)) q0 else q0) = true) in Hin.
  destruct (in_space_of (proc i s1) q0) eqn:E; [|congruence]. by rewrite Eh.
Qed.

(** A process [i] that runs in the address space [p4] with the heap [h]. *)
Record runs_in (i : nat) s (p4 : Z) (h : heap) : Prop := {
  ri_index : (i < length (process_list s))%nat;
  ri_space : in_space_of (proc i s) (proc i s) = true;
  ri_p4 : p4_table (proc i s) = p4;
  ri_heap : p_heap (proc i s) = h
}.

(** [brk] works with the shared heap. *)
Lemma brk_start i r s : current_process s = Some i → (i < length (process_list s))%nat →
  status (proc i s) ≠ DEAD → p4_table (proc i s) ≠ 0 → brk_base (shared_heap i s) ≠ 0 →
  let s1 := synchronize_shared_brk i s in
  sys_brk r s = move_brk i (rdi r) s1 ∧ the_vm s1 = the_vm s ∧
  runs_in i s1 (p4_table (proc i s)) (shared_heap i s).
Proof.
  intros Hcur Hi Hst Hp4 Hb s1.
  assert (∃ g, proc i s1 = set_heap g (proc i s)) as [g E1].
  { eexists. unfold s1, synchronize_shared_brk. by rewrite proc_upd_eq by done. }
  split_and!; [|done|split].
  - unfold sys_brk. rewrite Hcur. rewrite (proj2 (Z.eqb_neq _ _) Hp4). cbv zeta.
    unfold shared_heap in Hb. by rewrite (proj2 (Z.eqb_neq _ _) Hb).
  - unfold s1, synchronize_shared_brk. by rewrite upd_length.
  - rewrite E1. unfold in_space_of, is_status. simpl. rewrite bool_decide_eq_false_2 by done.
    by rewrite (proj2 (Z.eqb_neq _ _) Hp4), Z.eqb_refl.
  - by rewrite E1.
  - done.
Qed.

(** The end of a [brk] that has moved the end of the heap to [t]. *)
Lemma finish_moved i s p4 h requested t v : runs_in i s p4 h →
  let s2 := upd i (on_heap (set_brk_mapped_end t)) (set_vm v s) in
  let s3 := publish_shared_brk i (upd i (on_heap (set_brk_current requested)) s2) in
  let h' := Heap (brk_base h) requested t (mmap_next h) in
  brk_current (p_heap (proc i s3)) = requested ∧ p_heap (proc i s3) = h' ∧ heap_shared i s3 h' ∧ the_vm s3 = v.
Proof.
  intros [Hi Hsp _ Hh] s2 s3 h'.
  assert (E2 : proc i s2 = on_heap (set_brk_mapped_end t) (proc i s))
    by (unfold s2; by rewrite proc_upd_eq by done).
  destruct (finish_brk i s2 requested (set_brk_mapped_end t h)) as (F1 & F2 & F3).
  - unfold s2. by rewrite upd_length.
  - by rewrite E2.
  - rewrite E2. simpl. by rewrite Hh.
  - fold s3 in F1, F2, F3. split_and!; [by rewrite F1|done|done|done].
Qed.

Lemma pages_empty start end_ : end_ ≤ start → pages start end_ = [].
Proof. intros H. unfold pages. rewrite seqZ_nil; [done|]. div_lia. Qed.


(** ** A break that wraps *)

Lemma drop_page_low v p4 va : va < AOS_USER_SPACE_START → drop_page p4 va v = v.
Proof.
  intros H. unfold drop_page, vmm_unmap_page. by rewrite (proj2 (Z.ltb_lt _ _) H), orb_true_r.
Qed.

Lemma release_low p4 vas (v : vm (A := A)) :
  foldl (λ v va, drop_page p4 va v) v vas =
  foldl (λ v va, drop_page p4 va v) v (filter (λ va, AOS_USER_SPACE_START ≤ va) vas).
Proof.
  revert v. induction vas as [|va vas IH]; intros v; [done|]. rewrite filter_cons. simpl.
  case_decide as H; [by rewrite IH|]. rewrite drop_page_low by lia. apply IH.
Qed.

(** C40 (bounds): [brk] does not guard its rounding.  A break within a page of the top of the
    64-bit range is rounded up to 0: the call succeeds, and every user page below the heap's
    end, the program's code and data among them, is unmapped. *)
Theorem brk_wraps i r s :
  current_process s = Some i → (i < length (process_list s))%nat → status (proc i s) ≠ DEAD →
  let p4 := p4_table (proc i s) in
  let h := shared_heap i s in
  space_ok (the_vm s) p4 → 0 < brk_base h → 0 < brk_mapped_end h ≤ USER_MAP_END →
  brk_base h ≤ rdi r → 2 ^ 64 - 4096 < rdi r < 2 ^ 64 →
  let '(res, s') := sys_brk r s in
  res = rdi r ∧ brk_mapped_end (p_heap (proc i s')) = 0 ∧
  ∀ w, user w → w < brk_mapped_end h → translate (vm_mem (the_vm s')) p4 w = None.
Proof.
  intros Hcur Hi Hst p4 h Hok Hb He Hrb Hr. pose proof user_map_end as Hme.
  destruct (brk_start i r s Hcur Hi Hst (root_nonzero _ _ (so_wf _ _ Hok))) as (-> & Hv1 & Hrun); [fold h; lia|].
  fold p4 h in Hrun. clearbody p4 h. generalize dependent (synchronize_shared_brk i s). intros s1 Hv1 Hrun.
  pose proof Hrun as [Hi1 Hsp1 Hp1 Hh1]. unfold move_brk. rewrite Hp1, Hh1. cbv zeta.
  rewrite (proj2 (Z.eqb_neq (rdi r) 0)), (proj2 (Z.ltb_ge (rdi r) _)), (align_up_big (rdi r)) by lia.
  rewrite (proj2 (Z.ltb_ge _ 0)), (proj2 (Z.ltb_lt 0 _)) by lia.
  destruct (finish_moved i s1 p4 h (rdi r) 0 (release_user_pages p4 0 (brk_mapped_end h) (the_vm s1)) Hrun)
    as (F0 & F1 & F2 & F3).
  split_and!; [done|by rewrite F1|]. intros w Hw Hlt. rewrite F3, Hv1. unfold release_user_pages. rewrite release_low.
  pose proof (user_range _ Hw) as Hwr.
  rewrite (translate_page _ _ w (w .& PAGE_MASK)) by (symmetry; eapply (page_of_mask 512 9); lia).
  apply release_pages_ok; [done| |].
  - apply Forall_forall. intros va [Hva (k & _ & -> & Hk)%elem_of_pages]%list_elem_of_filter. split; lia.
  - rewrite land_page_mask by lia. apply list_elem_of_filter. destruct Hw as [Hw _]. split.
    + unfold AOS_USER_SPACE_START in *. div_lia.
    + apply elem_of_pages. exists (w / 4096). split_and!; div_lia.
Qed.

(** ** The cursor of [mmap] *)

(** Memory calls keep address spaces and life of processes, and only move cursors up. *)
Definition moved (p q : process_t) : Prop :=
  p4_table q = p4_table p ∧ status q = status p ∧ mmap_next (p_heap p) ≤ mmap_next (p_heap q) ∧
  (mmap_next (p_heap p) ≤ USER_MAP_END → mmap_next (p_heap q) ≤ USER_MAP_END).

Definition advances s s' : Prop := Forall2 moved (process_list s) (process_list s').

#[export] Instance moved_preorder : PreOrder moved.
Proof.
  split; [done|]. intros p q u (A1 & A2 & A3 & A4) (B1 & B2 & B3 & B4).
  split_and!; [congruence|congruence|lia|auto].
Qed.

Lemma advances_refl s s' : process_list s' = process_list s → advances s s'.
Proof. intros E. unfold advances. rewrite E. done. Qed.

Lemma advances_trans s1 s2 s3 : advances s1 s2 → advances s2 s3 → advances s1 s3.
Proof. unfold advances. intros H1 H2. by etrans. Qed.

Lemma advances_map s (f : process_t → process_t) : (∀ p, moved p (f p)) →
  advances s (set_list (f <$> process_list s) s).
Proof. intros H. unfold advances. simpl. apply Forall2_fmap_r, Forall_Forall2_diag, Forall_true. auto. Qed.

Lemma advances_upd s i (f : process_t → process_t) : (∀ p, moved p (f p)) → advances s (upd i f s).
Proof.
  intros H. apply Forall2_same_length_lookup_2; [by rewrite upd_length|].
  intros j p q Hp Hq. rewrite upd_lookup, Hp in Hq. case_decide; injection Hq as <-; [auto|done].
Qed.

Lemma moved_brk p h : moved p (set_heap (brk_fields h (p_heap p)) p).
Proof. split_and!; simpl; [done|done|lia|auto]. Qed.

Lemma sync_advances i s : advances s (synchronize_shared_brk i s).
Proof. apply advances_upd. intros p. apply moved_brk. Qed.

Lemma publish_advances i s : advances s (publish_shared_brk i s).
Proof. apply advances_map. intros p. destruct (in_space_of _ p); [apply moved_brk|done]. Qed.

Lemma cursor_advances p cursor s : cursor ≤ USER_MAP_END → advances s (publish_mmap_cursor p cursor s).
Proof.
  intros Hc. apply advances_map. intros q. destruct (_ && _) eqn:E; [|done].
  apply andb_true_iff in E as [_ E%Z.ltb_lt]. split_and!; simpl; [done|done|lia|auto].
Qed.

(** The cursor is at or above the place of every mapping of the address space. *)
Definition raw_cursor (owner : process_t) (l : list process_t) (c : Z) : Z :=
  foldl (λ cursor p, if in_space_of owner p && (cursor <? mmap_next (p_heap p)) then mmap_next (p_heap p) else cursor) c l.

Lemma raw_cursor_bounds owner l c : c ≤ USER_MAP_END → Forall (λ p, mmap_next (p_heap p) ≤ USER_MAP_END) l →
  c ≤ raw_cursor owner l c ≤ USER_MAP_END ∧
  Forall (λ p, in_space_of owner p = true → mmap_next (p_heap p) ≤ raw_cursor owner l c) l.
Proof.
  revert c. induction l as [|p l IH]; intros c Hc HF; [by split|]. apply Forall_cons in HF as [Hp HF].
  simpl. set (c' := if in_space_of owner p && (c <? mmap_next (p_heap p)) then mmap_next (p_heap p) else c).
  assert (Hc' : c ≤ c' ≤ USER_MAP_END ∧ (in_space_of owner p = true → mmap_next (p_heap p) ≤ c')).
  { unfold c'. destruct (in_space_of owner p); simpl; [|by split; [lia|]].
    destruct (Z.ltb_spec c (mmap_next (p_heap p))); split; lia. }
  destruct (IH c' ltac:(lia) HF) as [Hb HF']. split; [lia|]. apply Forall_cons. split; [|done].
  intros Hin. destruct Hc' as [_ Hc']. specialize (Hc' Hin). unfold raw_cursor in *. lia.
Qed.

Definition cursors_ok s : Prop := Forall (λ p, mmap_next (p_heap p) ≤ USER_MAP_END) (process_list s).

Lemma cursor_above s owner p : cursors_ok s → p ∈ process_list s → in_space_of owner p = true →
  mmap_next (p_heap p) ≤ shared_mmap_cursor owner s.
Proof.
  intros Hok Hp Hin. destruct (raw_cursor_bounds owner (process_list s) USER_MMAP_BASE) as [Hb HF]; [done|done|].
  rewrite Forall_forall in HF. specialize (HF p Hp Hin).
  change (shared_mmap_cursor owner s) with (align_up_page (raw_cursor owner (process_list s) USER_MMAP_BASE)).
  pose proof (align_up_small (raw_cursor owner (process_list s) USER_MMAP_BASE)) as Ha.
  unfold USER_MAP_END, USER_MMAP_BASE in *. lia.
Qed.

Lemma cursors_ok_advances s s' : advances s s' → cursors_ok s → cursors_ok s'.
Proof.
  unfold advances, cursors_ok. induction 1 as [|p q l k Hm Hf IH]; [done|].
  rewrite !Forall_cons. intros [H1 H2]. split; [by apply Hm|auto].
Qed.

Section calls.
  Variable PAGE_COW : Z.
  Variable vfs_read_node : vfs_node → Z → Z → Z → arr → bool * arr.

Lemma mmap_loop_error p4 base offset flags fixed file vas v e v' :
  mmap_loop vfs_read_node p4 base offset flags fixed file vas v = (Some e, v') → e < 0.
Proof.
  revert v. induction vas as [|va vas IH]; intros v; [done|]. cbn [mmap_loop].
  destruct (alloc_block _) as [[phys|] fr]; [|by intros [= <- _]].
  destruct (read_file_page _ _ _ _ _ _ _) as [[] m]; cbn [negb]; [apply IH|by intros [= <- _]].
Qed.

(** The process table after [mmap], and the range it has handed out. *)
Lemma mmap_list r s res s' : args_ok r → sys_mmap vfs_read_node r s = (res, s') →
  (process_list s' = process_list s ∧ (res < 0 ∨ flag (r10 r) LINUX_MAP_FIXED = true)) ∨
  ∃ p base len, get_current_process s = Some p ∧ flag (r10 r) LINUX_MAP_FIXED = false ∧
    mmap_base false (rdi r) p s = Some base ∧ user_range_ok base len ∧ rsi r ≤ len ∧ (res = base ∨ res < 0) ∧
    process_list s' = process_list (publish_mmap_cursor p (base + len) s).
Proof.
  intros (Ha & Hl & _) H. unfold sys_mmap in H. destruct (get_current_process s) as [p|] eqn:Hcur;
    [|injection H as <- <-; left; split; [done|by left]].
  destruct (_ || _) eqn:E1 in H; [injection H as <- <-; left; split; [done|by left]|].
  destruct (mmap_args_bad _ _ _); [injection H as <- <-; left; split; [done|by left]|].
  destruct (flag _ LINUX_MAP_FIXED_NOREPLACE); [injection H as <- <-; left; split; [done|by left]|].
  destruct (mmap_file _ _ _ s) as [e|file] eqn:Hfile.
  { injection H as <- <-. left. split; [done|]. left. apply mmap_file_error in Hfile.
    repeat (apply elem_of_cons in Hfile as [->|Hfile]; [done|]). by apply not_elem_of_nil in Hfile. }
  destruct (align_up_range (rsi r)) as [Lr Ld].
  destruct (Z.eqb_spec (align_up_page (rsi r)) 0) as [|L0]; [injection H as <- <-; left; split; [done|by left]|].
  destruct (mmap_base _ (rdi r) p s) as [base|] eqn:Hb; [|injection H as <- <-; left; split; [done|by left]].
  destruct (mmap_base_ok _ _ _ _ _ Ha Hb) as (Br & Bd & Bp).
  destruct (mmap_range_bad base _) eqn:Hr; [injection H as <- <-; left; split; [done|by left]|].
  destruct (mmap_range_ok _ _ Br Bd Lr Ld L0 Hr) as [Hrange Hend]. rewrite Hend in H.
  destruct (flag (r10 r) LINUX_MAP_FIXED) eqn:Hfx.
  { left. destruct (rdx r =? 0); [by injection H as <- <-; auto|].
    destruct (mmap_loop _ _ _ _ _ _ _ _ _). injection H as <- <-. auto. }
  right. exists p, base, (align_up_page (rsi r)). split_and!; [done|done|done|done| | |].
  - apply align_up_small. destruct (decide (rsi r ≤ 2 ^ 64 - 4096)); [lia|]. by rewrite align_up_big in L0 by lia.
  - destruct (rdx r =? 0); [injection H as <- <-; by left|].
    destruct (mmap_loop _ _ _ _ _ _ _ _ _) as [[e|] v] eqn:El; injection H as <- <-; [right|by left].
    by eapply mmap_loop_error.
  - destruct (rdx r =? 0); [by injection H as <- <-|].
    destruct (mmap_loop _ _ _ _ _ _ _ _ _). by injection H as <- <-.
Qed.

(** ** Sequences of memory calls *)

(** The memory calls of the running process, and a switch to another process. *)
Inductive mem_call :=
  | Brk (r : syscall_regs)
  | Mmap (r : syscall_regs)
  | Mprotect (r : syscall_regs)
  | Munmap (r : syscall_regs)
  | Madvise (r : syscall_regs)
  | SetTidAddress (r : syscall_regs)
  | SwitchTo (i : nat).

Definition mem_args (c : mem_call) : Prop :=
  match c with
  | Brk r | Mmap r | Mprotect r | Munmap r | Madvise r | SetTidAddress r => args_ok r
  | SwitchTo _ => True
  end.

Definition mem_exec (c : mem_call) s : kernel (sys (vm (A := A)) X) :=
  match c with
  | Brk r => (sys_brk r s).2
  | Mmap r => (sys_mmap vfs_read_node r s).2
  | Mprotect r => (sys_mprotect PAGE_COW r s).2
  | Munmap r => (sys_munmap r s).2
  | Madvise r => (sys_madvise r s).2
  | SetTidAddress r => (sys_set_tid_address r s).2
  | SwitchTo i => set_current i s
  end.

Lemma brk_heap_advances i s (f : heap → heap) : (∀ h, mmap_next (f h) = mmap_next h) →
  advances s (upd i (on_heap f) s).
Proof. intros Hf. apply advances_upd. intros p. split_and!; simpl; rewrite ?Hf; [done|done|lia|auto]. Qed.

Lemma finish_advances i requested s :
  advances s (publish_shared_brk i (upd i (on_heap (set_brk_current requested)) s)).
Proof.
  eapply advances_trans; [|apply publish_advances]. by apply (brk_heap_advances i s (set_brk_current requested)).
Qed.

Lemma brk_advances r s : advances s (sys_brk r s).2.
Proof.
  unfold sys_brk. destruct (current_process s) as [i|]; [|by apply advances_refl].
  case_match; [by apply advances_refl|]. cbv zeta.
  set (s1 := if brk_base _ =? 0 then _ else _). assert (A1 : advances s s1).
  { unfold s1. destruct (brk_base _ =? 0); [|apply sync_advances].
    eapply advances_trans; [apply sync_advances|]. eapply advances_trans; [|apply publish_advances].
    apply (brk_heap_advances i _ (λ h, Heap _ _ _ (mmap_next h))). done. }
  clearbody s1. unfold move_brk. cbv zeta. case_match; [done|]. case_match; [done|].
  assert (Hend : ∀ t s2, process_list s2 = process_list s1 → advances s
    (publish_shared_brk i (upd i (on_heap (set_brk_current (rdi r))) (upd i (on_heap (set_brk_mapped_end t)) s2)))).
  { intros t s2 E. eapply advances_trans; [|apply finish_advances].
    eapply advances_trans; [|by apply (brk_heap_advances i s2 (set_brk_mapped_end t))].
    eapply advances_trans; [done|by apply advances_refl]. }
  case_match.
  - destruct (map_zeroed_user_pages _ _ _ _ _) as [[] v]; [by apply Hend|].
    eapply advances_trans; [done|by apply advances_refl].
  - case_match; [by apply Hend|]. eapply advances_trans; [done|apply finish_advances].
Qed.

Lemma mem_advances c s : mem_args c → advances s (mem_exec c s).
Proof.
  destruct c as [r|r|r|r|r|r|i]; intros Hargs; simpl.
  - apply brk_advances.
  - destruct (sys_mmap vfs_read_node r s) as [res s'] eqn:E.
    destruct (mmap_list r s res s' Hargs E) as [[H _]|(p & base & len & _ & _ & _ & Hr & _ & _ & H)].
    + by apply advances_refl.
    + unfold advances. simpl. rewrite H. apply cursor_advances, Hr.
  - apply advances_refl. unfold sys_mprotect. by repeat case_match.
  - apply advances_refl. unfold sys_munmap. by repeat case_match.
  - by apply advances_refl.
  - unfold sys_set_tid_address. case_match; [|by apply advances_refl]. simpl. unfold upd_current.
    case_match; [|by apply advances_refl]. apply advances_upd. intros q. split_and!; simpl; [done|done|lia|auto].
  - by apply advances_refl.
Qed.

Lemma mem_run_advances cs s : Forall mem_args cs → advances s (foldl (flip mem_exec) s cs).
Proof.
  revert s. induction cs as [|c cs IH]; intros s; [by intros _; apply advances_refl|].
  intros [Hc Hcs]%Forall_cons. simpl. eapply advances_trans; [by apply mem_advances|by apply IH].
Qed.

(** A cursor that has passed an address stays above it. *)
Lemma cursor_passed s s' i p end_ owner : advances s s' → cursors_ok s →
  process_list s !! i = Some p → in_space_of p p = true → end_ ≤ mmap_next (p_heap p) →
  p4_table owner = p4_table p → end_ ≤ shared_mmap_cursor owner s'.
Proof.
  intros Hadv Hok Hp Hin Hend Hown. pose proof (cursors_ok_advances s s' Hadv Hok) as Hok'.
  destruct (Forall2_lookup_l _ _ _ _ _ Hadv Hp) as (q & Hq & M1 & M2 & M3 & _).
  transitivity (mmap_next (p_heap q)); [lia|]. apply cursor_above; [done|by eapply list_elem_of_lookup_2|].
  unfold in_space_of, is_status in *. by rewrite M1, M2, Hown.
Qed.

(** C9 (safety): mappings that [mmap] places do not overlap.  Once a process has got a range
    without [MAP_FIXED], whatever memory calls it and the processes of its address space
    make in between, in whatever order they run, the next range handed out to any of them
    without [MAP_FIXED] lies above the first. *)
Theorem mmap_ranges_disjoint i p r1 r2 s base1 s1 cs p2 base2 s3 :
  cursors_ok s → current_process s = Some i → process_list s !! i = Some p →
  status p ≠ DEAD → p4_table p ≠ 0 →
  args_ok r1 → flag (r10 r1) LINUX_MAP_FIXED = false →
  sys_mmap vfs_read_node r1 s = (base1, s1) → 0 ≤ base1 →
  Forall mem_args cs →
  let s2 := foldl (flip mem_exec) s1 cs in
  get_current_process s2 = Some p2 → p4_table p2 = p4_table p →
  args_ok r2 → flag (r10 r2) LINUX_MAP_FIXED = false →
  sys_mmap vfs_read_node r2 s2 = (base2, s3) → 0 ≤ base2 →
  base1 + rsi r1 ≤ base2.
Proof.
  intros Hok Hcur Hp Hst Hp4 Ha1 Hf1 H1 Hb1 Hcs s2 Hcur2 Hsh Ha2 Hf2 H2 Hb2.
  assert (Hadv1 : advances s s1) by (pose proof (mem_advances (Mmap r1) s Ha1) as H; simpl in H; by rewrite H1 in H).
  destruct (mmap_list _ _ _ _ Ha1 H1) as [[_ [?|?]]|(p' & b1 & l1 & Hc1 & _ & _ & Hr1 & Hl1 & Hres1 & L1)];
    [lia|congruence|].
  destruct (mmap_list _ _ _ _ Ha2 H2) as [[_ [?|?]]|(p2' & b2 & l2 & Hc2 & _ & Hb2' & _ & _ & Hres2 & _)];
    [lia|congruence|]. apply mmap_base_ok in Hb2' as (_ & _ & Hb2'); [|apply Ha2].
  unfold get_current_process in Hc1. rewrite Hcur in Hc1. simpl in Hc1. rewrite Hp in Hc1. injection Hc1 as <-.
  rewrite Hcur2 in Hc2. injection Hc2 as <-.
  assert (Hin : in_space_of p p = true).
  { unfold in_space_of, is_status. by rewrite bool_decide_eq_false_2, (proj2 (Z.eqb_neq _ _) Hp4), Z.eqb_refl by done. }
  assert (∃ q, process_list s1 !! i = Some q ∧ p4_table q = p4_table p ∧ in_space_of q q = true ∧
    b1 + l1 ≤ mmap_next (p_heap q)) as (q & Hq & Eq & Hqin & Hqn).
  { rewrite L1. simpl. rewrite list_lookup_fmap, Hp. simpl. rewrite Hin.
    cbn [andb]. destruct (Z.ltb_spec (mmap_next (p_heap p)) (b1 + l1)).
    - eexists. split_and!; [done|done|done|simpl; lia].
    - by exists p. }
  pose proof (cursor_passed s1 s2 i q (b1 + l1) p2 (mem_run_advances cs s1 Hcs) (cursors_ok_advances s s1 Hadv1 Hok)
    Hq Hqin Hqn ltac:(congruence)) as Hc.
  destruct Hres1, Hres2; lia.
Qed.

Lemma mmap_current r s : current_process (sys_mmap vfs_read_node r s).2 = current_process s.
Proof.
  unfold sys_mmap, publish_mmap_cursor. cbv zeta. destruct (flag (r10 r) LINUX_MAP_FIXED); repeat case_match; done.
Qed.

(** [MAP_FIXED] ranges are not recorded.  When a mapping is made with
    [MAP_FIXED] at the cursor of the address space, the next [mmap] without [MAP_FIXED] and
    without a hint returns the very same address. *)
Theorem mmap_fixed_is_overwritten p r1 r2 s base1 s1 base2 s2 :
  get_current_process s = Some p → args_ok r1 → args_ok r2 →
  flag (r10 r1) LINUX_MAP_FIXED = true → rdi r1 = shared_mmap_cursor p s →
  sys_mmap vfs_read_node r1 s = (base1, s1) → 0 ≤ base1 →
  flag (r10 r2) LINUX_MAP_FIXED = false → rdi r2 = 0 →
  sys_mmap vfs_read_node r2 s1 = (base2, s2) → 0 ≤ base2 →
  base2 = rdi r1.
Proof.
  intros Hcur Ha1 Ha2 Hf1 Hr1 H1 Hb1 Hf2 Hr2 H2 Hb2.
  destruct (mmap_list _ _ _ _ Ha1 H1) as [[L1 _]|(? & ? & ? & _ & ? & _)]; [|congruence].
  destruct (mmap_list _ _ _ _ Ha2 H2) as [[_ [?|?]]|(p2 & b2 & l2 & Hc2 & _ & Hb2' & _ & _ & Hres2 & _)];
    [lia|congruence|].
  assert (E : get_current_process s1 = get_current_process s).
  { unfold get_current_process. rewrite L1. pose proof (mmap_current r1 s) as E. rewrite H1 in E. simpl in E. by rewrite E. }
  rewrite E, Hcur in Hc2. injection Hc2 as <-. unfold mmap_base in Hb2'. rewrite Hr2 in Hb2'. simpl in Hb2'.
  injection Hb2' as <-. assert (shared_mmap_cursor p s1 = shared_mmap_cursor p s) by (unfold shared_mmap_cursor; by rewrite L1).
  destruct Hres2; lia.
Qed.
End calls.
End heap.

(** ** Examples *)

#[local] Strategy 100 [demo_root demo_frames3 demo_space sys_mmap sys_munmap sys_mprotect sys_brk pages].


Lemma brk_wraps_witness :
  let '(res, s') := sys_brk (demo_args (2 ^ 64 - 1) 0 0 0 0 0) demo_memory in
  res = 2 ^ 64 - 1 ∧ translate (vm_mem (the_vm s')) demo_root demo_virt = None.
Proof.
  pose proof (brk_wraps 0 (demo_args (2 ^ 64 - 1) 0 0 0 0 0) demo_memory eq_refl
    ltac:(simpl; lia) ltac:(discriminate) demo_space_ok) as H.
  destruct (sys_brk _ demo_memory) as [res s']. destruct H as (H1 & _ & H2).
  1-4: try split; vm_compute; congruence.
  split; [exact H1|]. apply H2; [split; vm_compute; congruence|vm_compute; reflexivity].
Defined.

(** A mapping, an unmapping of it, and a second mapping. *)
Lemma mmap_ranges_disjoint_witness :
  let s1 := (sys_mmap demo_read (demo_mmap 0 0) demo_memory).2 in
  let s2 := foldl (flip (mem_exec 512 demo_read)) s1 [Munmap (demo_args USER_MMAP_BASE 5000 0 0 0 0); SwitchTo 0] in
  USER_MMAP_BASE + 5000 ≤ (sys_mmap demo_read (demo_mmap 0 0) s2).1.
Proof.
  assert (Hargs : args_ok (demo_mmap 0 0)) by (split_and!; vm_compute; congruence).
  cbv zeta. set (s1 := (sys_mmap demo_read (demo_mmap 0 0) demo_memory).2).
  set (cs := [Munmap (demo_args USER_MMAP_BASE 5000 0 0 0 0); SwitchTo 0]).
  set (s2 := foldl (flip (mem_exec 512 demo_read)) s1 cs).
  assert (E1 : sys_mmap demo_read (demo_mmap 0 0) demo_memory = (USER_MMAP_BASE, s1)).
  { assert (Eb : (sys_mmap demo_read (demo_mmap 0 0) demo_memory).1 = USER_MMAP_BASE) by (vm_compute; reflexivity).
    rewrite <- Eb. apply surjective_pairing. }
  apply (mmap_ranges_disjoint 512 demo_read 0 demo_process (demo_mmap 0 0) (demo_mmap 0 0) demo_memory USER_MMAP_BASE s1 cs
    (proc 0 s2) _ (sys_mmap demo_read (demo_mmap 0 0) s2).2).
  - repeat constructor. vm_compute. congruence.
  - reflexivity.
  - reflexivity.
  - discriminate.
  - vm_compute. congruence.
  - exact Hargs.
  - reflexivity.
  - exact E1.
  - vm_compute. congruence.
  - repeat constructor; vm_compute; congruence.
  - vm_compute. reflexivity.
  - vm_compute. reflexivity.
  - exact Hargs.
  - reflexivity.
  - apply surjective_pairing.
  - vm_compute. congruence.
Defined.

Lemma mmap_fixed_is_overwritten_witness :
  let s1 := (sys_mmap demo_read (demo_mmap USER_MMAP_BASE 0x10) demo_memory).2 in
  (sys_mmap demo_read (demo_mmap 0 0) s1).1 = USER_MMAP_BASE.
Proof.
  cbv zeta. set (s1 := (sys_mmap demo_read (demo_mmap USER_MMAP_BASE 0x10) demo_memory).2).
  apply (mmap_fixed_is_overwritten demo_read demo_process (demo_mmap USER_MMAP_BASE 0x10) (demo_mmap 0 0) demo_memory
    (sys_mmap demo_read (demo_mmap USER_MMAP_BASE 0x10) demo_memory).1 s1 _ (sys_mmap demo_read (demo_mmap 0 0) s1).2).
  - reflexivity.
  - split_and!; vm_compute; congruence.
  - split_and!; vm_compute; congruence.
  - reflexivity.
  - vm_compute. reflexivity.
  - apply surjective_pairing.
  - vm_compute. congruence.
  - reflexivity.
  - reflexivity.
  - apply surjective_pairing.
  - vm_compute. congruence.
Defined.
