(* ===== verification/Initrd.v ===== *)
(** * The initial RAM disk ([kernel/initrd.c])

    A "newc" cpio archive that the boot loader left in memory.  The three walks over
    its headers are modelled on a byte memory, and shown to be inverse to writing an
    archive: the first file of a name is found with its bytes, and entries are
    listed in order. *)

From S2P Require Import Prelude CString.

(** ** Memory *)

(** [l] is stored from address [a] on. *)
Fixpoint holds (mem : Z → Z) (a : Z) (l : list Z) : Prop :=
  match l with
  | [] => True
  | b :: l' => mem a = b ∧ holds mem (a + 1) l'
  end.

(** Characters as bytes. *)
Definition codes (s : cstr) : list Z := (λ c, Z.of_N (N_of_ascii c)) <$> s.

(** ** Header fields *)

(** [struct cpio_new_header] ([include/cpio.h]): the offsets of the fields that are read. *)
Definition SIZEOF_HEADER : Z := 110.
Definition c_magic (header : Z) : Z := header.
Definition c_filesize (header : Z) : Z := header + 54.
Definition c_namesize (header : Z) : Z := header + 94.

Definition TRAILER : cstr := lit "TRAILER!!!".

Fixpoint parse_hex (mem : Z → Z) (s : Z) (n : nat) (res : Z) : Z :=
  match n with
  | O => res
  | S n' =>
      let res := u32 (res .<< 4) in
      let c := mem s in
      let res := if (48 <=? c) && (c <=? 57) then u32 (res + (c - 48))
                 else if (97 <=? c) && (c <=? 102) then u32 (res + (c - 97 + 10))
                 else if (65 <=? c) && (c <=? 70) then u32 (res + (c - 65 + 10))
                 else res in
      parse_hex mem (s + 1) n' res
  end.

(** [strcmp(p, s) == 0] for a string in memory. *)
Fixpoint strcmp_eq (mem : Z → Z) (p : Z) (s : list Z) : bool :=
  match s with
  | [] => mem p =? 0
  | c :: s' => if mem p =? c then strcmp_eq mem (p + 1) s' else false
  end.

(** [copy_name(dst, dst_size, src)]: the characters stored before the terminator. *)
Fixpoint copy_name (mem : Z → Z) (dst_size : nat) (src : Z) : list Z :=
  match dst_size with
  | S (S _ as size') => if mem src =? 0 then [] else mem src :: copy_name mem size' (src + 1)
  | _ => []
  end.

(** [(x + 3) & ~3ULL] *)
Definition align4 (x : Z) : Z := u64 (x + 3) .& 0xFFFFFFFFFFFFFFFC.

Definition name_of (header : Z) : Z := header + SIZEOF_HEADER.

Definition namesize (mem : Z → Z) (header : Z) : Z := parse_hex mem (c_namesize header) 8 0.
Definition filesize (mem : Z → Z) (header : Z) : Z := parse_hex mem (c_filesize header) 8 0.

(** The address of the file's data, and of the next header. *)
Definition file_data (mem : Z → Z) (header : Z) : Z :=
  align4 (u64 (header + SIZEOF_HEADER + namesize mem header)).
Definition next_header (mem : Z → Z) (header : Z) : Z :=
  align4 (u64 (file_data mem header + filesize mem header)).

(** The loop condition [header < g_initrd_end && c_magic[0] == '0' && c_magic[1] == '7']. *)
Definition at_header (mem : Z → Z) (end_ header : Z) : bool :=
  (header <? end_) && (mem (c_magic header) =? 48) && (mem (c_magic header + 1) =? 55).

(** ** The walks

    [None] is lack of fuel.  A header takes at least 110 bytes, so
    [(end - start) / 110 + 2] rounds are enough ([walk_total]). *)

Record initrd := Initrd { g_initrd_start : Z; g_initrd_end : Z }.

Definition walk_fuel (st : initrd) : nat :=
  Z.to_nat ((g_initrd_end st - g_initrd_start st) / SIZEOF_HEADER + 2).

Definition initrd_absent (st : initrd) : bool :=
  (g_initrd_start st =? 0) || (g_initrd_end st =? 0) || (g_initrd_end st <=? g_initrd_start st).

(** The result is [data] and [size]; [None] inside is the error code -1. *)
Fixpoint get_file_loop (fuel : nat) (mem : Z → Z) (end_ : Z) (filename : list Z) (header : Z)
    : option (option (Z * Z)) :=
  match fuel with
  | O => None
  | S fuel' =>
      if at_header mem end_ header then
        if strcmp_eq mem (name_of header) (codes TRAILER) then Some None
        else if strcmp_eq mem (name_of header) filename
        then Some (Some (file_data mem header, filesize mem header))
        else get_file_loop fuel' mem end_ filename (next_header mem header)
      else Some None
  end.

Definition initrd_get_file (filename : option cstr) (data size : outptr) (mem : Z → Z) (st : initrd)
    : option (option (Z * Z)) :=
  match filename with
  | None => Some None
  | Some filename =>
      if is_null data || is_null size then Some None
      else if initrd_absent st then Some None
      else get_file_loop (walk_fuel st) mem (g_initrd_end st) (codes filename) (g_initrd_start st)
  end.

Fixpoint get_entry_loop (fuel : nat) (mem : Z → Z) (end_ : Z) (index : Z) (name_buf_size : nat)
    (current header : Z) : option (option (list Z * Z)) :=
  match fuel with
  | O => None
  | S fuel' =>
      if at_header mem end_ header then
        if strcmp_eq mem (name_of header) (codes TRAILER) then Some None
        else if current =? index
        then Some (Some (copy_name mem name_buf_size (name_of header), filesize mem header))
        else get_entry_loop fuel' mem end_ index name_buf_size (u64 (current + 1))
               (next_header mem header)
      else Some None
  end.

Definition initrd_get_entry (index : Z) (name_buf : outptr) (name_buf_size : nat) (size : outptr)
    (mem : Z → Z) (st : initrd) : option (option (list Z * Z)) :=
  if is_null name_buf || (name_buf_size =? 0)%nat || is_null size then Some None
  else if initrd_absent st then Some None
  else get_entry_loop (walk_fuel st) mem (g_initrd_end st) index name_buf_size 0 (g_initrd_start st).

(** The walk of [init_initrd] only reports what it meets. *)
Fixpoint init_loop (fuel : nat) (mem : Z → Z) (end_ header : Z) : option unit :=
  match fuel with
  | O => None
  | S fuel' =>
      if at_header mem end_ header then
        if strcmp_eq mem (name_of header) (codes TRAILER) then Some tt
        else init_loop fuel' mem end_ (next_header mem header)
      else Some tt
  end.

(** The return code and the new bounds. *)
Definition init_initrd (mod_start mod_end : Z) (mem : Z → Z) (st : initrd) : option (Z * initrd) :=
  if mod_end <=? mod_start then Some (-1, st) else
  let st := Initrd mod_start mod_end in
  if negb (at_header mem mod_end mod_start) then Some (-1, st) else
  match init_loop (walk_fuel st) mem mod_end mod_start with
  | Some _ => Some (0, st)
  | None => None
  end.

(** ** Writing an archive *)

Definition hex_digit (v : Z) : Z := if v <? 10 then 48 + v else 65 + (v - 10).

(** The [n] low hexadecimal digits of a number. *)
Fixpoint hex (n : nat) (v : Z) : list Z :=
  match n with
  | O => []
  | S n' => hex_digit (v / 16 ^ Z.of_nat n' mod 16) :: hex n' v
  end.

(** An archive member; [ce_front], [ce_middle] and [ce_check] are the header fields the
    kernel does not read. *)
Record member := Member {
  ce_name : cstr; ce_data : list Z;
  ce_front : list Z; ce_middle : list Z; ce_check : Z
}.

Definition fields (l : list Z) : list Z := concat (hex 8 <$> l).

Definition data_len (m : member) : Z := Z.of_nat (length (ce_data m)).
Definition name_len (m : member) : Z := Z.of_nat (length (ce_name m)) + 1.

Definition header_bytes (m : member) : list Z :=
  codes (lit "070701") ++ fields (ce_front m) ++ hex 8 (data_len m) ++ fields (ce_middle m)
  ++ hex 8 (name_len m) ++ hex 8 (ce_check m).

(** Zeroes up to a multiple of four. *)
Definition pad4 (n : Z) : list Z := replicate (Z.to_nat (- n mod 4)) 0.

Definition member_bytes (m : member) : list Z :=
  header_bytes m ++ codes (ce_name m) ++ [0] ++ pad4 (SIZEOF_HEADER + name_len m)
  ++ ce_data m ++ pad4 (data_len m).

Definition trailer : member := Member TRAILER [] (replicate 6 0) (replicate 4 0) 0.

Definition cpio (ms : list member) : list Z := concat (member_bytes <$> ms) ++ member_bytes trailer.

(** Twelve unread fields around the two sizes, and a name that ends where it says. *)
Record member_ok (m : member) : Prop := {
  mo_front : length (ce_front m) = 6%nat;
  mo_middle : length (ce_middle m) = 4%nat;
  mo_name : nonul (ce_name m);
  mo_fit : Z.of_nat (length (member_bytes m)) < 2 ^ 32
}.

(** ** Reading back *)

Lemma holds_app mem a l k :
  holds mem a (l ++ k) ↔ holds mem a l ∧ holds mem (a + Z.of_nat (length l)) k.
Proof.
  revert a. induction l as [|b l IH]; intros a; simpl.
  - rewrite Z.add_0_r. tauto.
  - rewrite IH. replace (a + 1 + Z.of_nat (length l)) with (a + Z.of_nat (S (length l))) by lia. tauto.
Qed.

Lemma length_hex n v : length (hex n v) = n.
Proof. induction n; simpl; by f_equal. Qed.

Lemma length_fields l : length (fields l) = (8 * length l)%nat.
Proof. 
  induction l as [|v l IH]; [done|]. change (fields (v :: l)) with (hex 8 v ++ fields l).
  rewrite length_app, length_hex, IH. simpl. lia.
Qed.

Lemma length_codes s : length (codes s) = length s.
Proof. apply length_fmap. Qed.

Lemma parse_digit mem s n v res :
  0 ≤ v < 16 → mem s = hex_digit v → 
  parse_hex mem s (S n) res = parse_hex mem (s + 1) n (u32 (res * 16 + v)).
Proof.
  intros Hv Hm. cbn [parse_hex]. cbv zeta. rewrite Hm, Z.shiftl_mul_pow2 by lia. f_equal.
  change (2 ^ 4) with 16. unfold hex_digit, u32. destruct (Z.ltb_spec v 10).
  - rewrite !(proj2 (Z.leb_le _ _)) by lia. simpl. rewrite Zplus_mod_idemp_l. f_equal. lia.
  - rewrite (proj2 (Z.leb_le 48 _)), (proj2 (Z.leb_gt _ 57)) by lia.
    rewrite (proj2 (Z.leb_gt 97 _)) by lia. simpl.
    rewrite !(proj2 (Z.leb_le _ _)) by lia. simpl. rewrite Zplus_mod_idemp_l. f_equal. lia.
Qed.

Lemma parse_hex_hex mem s n v res :
  0 ≤ v → holds mem s (hex n v) →
  u32 (parse_hex mem s n res) = u32 (res * 16 ^ Z.of_nat n + v mod 16 ^ Z.of_nat n).
Proof.
  intros Hv. revert s res. induction n as [|n IH]; intros s res Hh.
  { simpl. rewrite Z.mod_1_r. f_equal. lia. }
  cbn [hex] in Hh. destruct Hh as [Hd Hh].
  rewrite (parse_digit mem s n (v / 16 ^ Z.of_nat n mod 16)) by (done || apply Z.mod_pos_bound; lia).
  rewrite IH by done. unfold u32.
  rewrite Zplus_mod, Zmult_mod_idemp_l, <- Zplus_mod. f_equal.
  rewrite Nat2Z.inj_succ, Z.pow_succ_r by lia. set (P := 16 ^ Z.of_nat n).
  assert (0 < P) by (apply Z.pow_pos_nonneg; lia).
  rewrite (Z.mul_comm 16 P), (Z.rem_mul_r v P 16) by lia. lia.
Qed.

Lemma parse_hex_range mem s n res : 0 ≤ res < 2 ^ 32 → 0 ≤ parse_hex mem s n res < 2 ^ 32.
Proof.
  revert s res. induction n as [|n IH]; intros s res H; [done|]. cbn [parse_hex]. cbv zeta.
  apply IH. case_ifs; apply u32_range.
Qed.

Lemma parse_hex_field mem s v :
  0 ≤ v < 2 ^ 32 → holds mem s (hex 8 v) → parse_hex mem s 8 0 = v.
Proof.
  intros Hv Hh. pose proof (parse_hex_range mem s 8 0 ltac:(lia)).
  apply (parse_hex_hex mem s 8 v 0) in Hh; [|lia].
  rewrite !u32_small in Hh; [|change (16 ^ Z.of_nat 8) with (2 ^ 32); rewrite Z.mod_small; lia|done].
  rewrite Hh. change (16 ^ Z.of_nat 8) with (2 ^ 32). rewrite Z.mod_small; lia.
Qed.

Lemma code_inj c c' : Z.of_N (N_of_ascii c) = Z.of_N (N_of_ascii c') → c = c'.
Proof. intros H. rewrite <- (ascii_N_embedding c), <- (ascii_N_embedding c'). f_equal. lia. Qed.

Lemma code_nonzero c : c ≠ NUL → Z.of_N (N_of_ascii c) ≠ 0.
Proof. intros H Hc. by apply H, code_inj. Qed.

Lemma codes_nil : codes [] = [].
Proof. done. Qed.

Lemma codes_cons c s : codes (c :: s) = Z.of_N (N_of_ascii c) :: codes s.
Proof. done. Qed.

Lemma strcmp_eq_spec mem p s t :
  nonul s → nonul t → holds mem p (codes t ++ [0]) → strcmp_eq mem p (codes s) = bool_decide (t = s).
Proof.
  revert p t. induction s as [|c s IH]; intros p [|d t] Hs Ht Hh;
    rewrite ?codes_nil, ?codes_cons in *; cbn [app holds strcmp_eq] in *.
  - by rewrite (proj1 Hh).
  - apply nonul_cons in Ht as [Hd _]. rewrite (proj1 Hh), bool_decide_false by done.
    by apply Z.eqb_neq, code_nonzero.
  - apply nonul_cons in Hs as [Hc _]. rewrite (proj1 Hh), bool_decide_false by done.
    apply code_nonzero in Hc. by destruct (Z.eqb_spec 0 (Z.of_N (N_of_ascii c))).
  - apply nonul_cons in Hs as [Hc Hs], Ht as [Hd Ht]. destruct Hh as [-> Hh].
    destruct (Z.eqb_spec (Z.of_N (N_of_ascii d)) (Z.of_N (N_of_ascii c))) as [E|E].
    + apply code_inj in E as ->. rewrite (IH (p + 1) t) by done. apply bool_decide_ext. naive_solver.
    + rewrite bool_decide_false; [done|]. intros [= -> ->]. done.
Qed.

Lemma copy_name_spec mem n p t :
  nonul t → holds mem p (codes t ++ [0]) → copy_name mem n p = take (pred n) (codes t).
Proof.
  revert n p. induction t as [|d t IH]; intros n p Ht Hh;
    rewrite ?codes_nil, ?codes_cons in *; cbn [app holds] in *;
    (destruct n as [|[|n]]; [done..|]);
    change (copy_name mem (S (S n)) p)
      with (if mem p =? 0 then [] else mem p :: copy_name mem (S n) (p + 1)).
  - by rewrite (proj1 Hh).
  - apply nonul_cons in Ht as [Hd Ht]. destruct Hh as [-> Hh].
    rewrite (proj2 (Z.eqb_neq _ _)) by by apply code_nonzero.
    cbn [pred take]. f_equal. by rewrite (IH (S n)).
Qed.

Lemma align4_spec x : 0 ≤ x < 2 ^ 63 → align4 x = x + (- x) mod 4.
Proof.
  intros Hx. unfold align4. rewrite u64_small by lia.
  change 0xFFFFFFFFFFFFFFFC with (Z.ones (64 - 2) .<< 2). rewrite land_high_mask by lia.
  change (2 ^ 2) with 4. pose proof (Z.div_mod (x + 3) 4). pose proof (Z.mod_pos_bound (x + 3) 4).
  pose proof (Z.div_mod (- x) 4). pose proof (Z.mod_pos_bound (- x) 4). lia.
Qed.

Lemma length_header m : member_ok m → length (header_bytes m) = 110%nat.
Proof.
  intros [Hf Hm _ _]. unfold header_bytes.
  rewrite !length_app, length_codes, !length_fields, !length_hex, Hf, Hm. done.
Qed.

Lemma length_pad4 n : Z.of_nat (length (pad4 n)) = - n mod 4.
Proof. unfold pad4. rewrite length_replicate. pose proof (Z.mod_pos_bound (- n) 4). lia. Qed.

Lemma length_member m :
  member_ok m →
  Z.of_nat (length (member_bytes m))
  = SIZEOF_HEADER + name_len m + (- (SIZEOF_HEADER + name_len m)) mod 4
    + data_len m + (- data_len m) mod 4.
Proof.
  intros Hok. unfold member_bytes. rewrite !length_app, !Nat2Z.inj_add, !length_pad4, length_header,
    length_codes by done. unfold SIZEOF_HEADER, name_len, data_len. simpl. lia.
Qed.

(** What the kernel reads at the header of a member. *)
Record reads (mem : Z → Z) (a : Z) (m : member) : Prop := {
  rd_magic : mem a = 48 ∧ mem (a + 1) = 55;
  rd_name : holds mem (name_of a) (codes (ce_name m) ++ [0]);
  rd_filesize : filesize mem a = data_len m;
  rd_data : holds mem (file_data mem a) (ce_data m);
  rd_next : next_header mem a = a + Z.of_nat (length (member_bytes m))
}.

Lemma member_reads mem a m :
  member_ok m → holds mem a (member_bytes m) → 0 ≤ a < 2 ^ 32 → (4 | a) → reads mem a m.
Proof.
  intros Hok Hh Ha [q Hq]. assert (Hsz : SIZEOF_HEADER = 110) by done.
  pose proof (length_member m Hok) as Hlen. pose proof (mo_fit m Hok) as Hfit.
  pose proof (Z.mod_pos_bound (- (SIZEOF_HEADER + name_len m)) 4 ltac:(lia)) as Hp1.
  pose proof (Z.mod_pos_bound (- data_len m) 4 ltac:(lia)) as Hp2.
  assert (0 ≤ data_len m ∧ 1 ≤ name_len m) as [Hd0 Hn0] by (unfold data_len, name_len; lia).
  unfold member_bytes in Hh. rewrite !holds_app in Hh. destruct Hh as (Hhd & Hname & Hnul & _ & Hdata & _).
  rewrite length_header in Hname, Hnul, Hdata by done. rewrite length_codes in Hnul, Hdata.
  rewrite length_pad4 in Hdata.
  pose proof (mo_front m Hok) as Hfr. pose proof (mo_middle m Hok) as Hmi.
  unfold header_bytes in Hhd. rewrite !holds_app, !length_fields, !length_hex, Hfr, Hmi in Hhd.
  destruct Hhd as (Hmag & _ & Hfs & _ & Hns & _).
  assert (Efs : filesize mem a = data_len m).
  { apply parse_hex_field; [lia|]. unfold c_filesize.
    replace (a + 54) with (a + Z.of_nat (length (codes (lit "070701"))) + Z.of_nat (8 * 6)); [done|].
    change (length (codes (lit "070701"))) with 6%nat. lia. }
  assert (Ens : namesize mem a = name_len m).
  { apply parse_hex_field; [lia|]. unfold c_namesize. change (length (codes (lit "070701"))) with 6%nat in Hns.
    by replace (a + 94) with (a + Z.of_nat 6 + Z.of_nat (8 * 6) + Z.of_nat 8 + Z.of_nat (8 * 4)) by lia. }
  assert (Hmod : ∀ x k, (- (x + k * 4)) mod 4 = (- x) mod 4).
  { intros x k. replace (- (x + k * 4)) with (- x + - k * 4) by lia. by rewrite Z.mod_add by lia. }
  assert (Efd : file_data mem a
            = a + SIZEOF_HEADER + name_len m + (- (SIZEOF_HEADER + name_len m)) mod 4).
  { unfold file_data. rewrite Ens, u64_small by lia. rewrite align4_spec by lia. f_equal.
    rewrite <- (Hmod (SIZEOF_HEADER + name_len m) q). f_equal. lia. }
  split; [| |done| |].
  - by destruct Hmag as (? & ? & _).
  - unfold name_of. apply holds_app. by rewrite length_codes.
  - rewrite Efd. revert Hdata. unfold name_len. rewrite Hsz. simpl length.
    match goal with |- holds _ ?x _ → holds _ ?y _ => replace x with y by lia end. done.
  - unfold next_header. rewrite Efs, Efd, u64_small, align4_spec by lia.
    assert (Hdiv : (SIZEOF_HEADER + name_len m + (- (SIZEOF_HEADER + name_len m)) mod 4) mod 4 = 0).
    { rewrite Zplus_mod_idemp_r. by replace (_ + - _) with 0 by lia. }
    apply Z.mod_divide in Hdiv as [r Hr]; [|lia].
    rewrite Hlen. rewrite <- (Hmod (data_len m) (q + r)).
    replace (data_len m + (q + r) * 4)
      with (a + SIZEOF_HEADER + name_len m + - (SIZEOF_HEADER + name_len m) mod 4 + data_len m) by lia.
    lia.
Qed.

(** The next header is aligned again. *)
Lemma member_aligned m : member_ok m → (4 | Z.of_nat (length (member_bytes m))).
Proof.
  intros Hok. rewrite length_member by done.
  assert (H : ∀ x, (4 | x + (- x) mod 4)).
  { intros x. apply Z.mod_divide; [lia|]. rewrite Zplus_mod_idemp_r. by replace (x + - x) with 0 by lia. }
  replace (_ + _ + _ + _ + _) with
    ((SIZEOF_HEADER + name_len m + - (SIZEOF_HEADER + name_len m) mod 4)
     + (data_len m + - data_len m mod 4)) by lia.
  by apply Z.divide_add_r.
Qed.

Lemma member_long m : member_ok m → SIZEOF_HEADER ≤ Z.of_nat (length (member_bytes m)).
Proof.
  intros Hok. unfold member_bytes. rewrite length_app, length_header by done. unfold SIZEOF_HEADER. lia.
Qed.

Lemma trailer_ok : member_ok trailer.
Proof. split; [done..| |vm_compute; done]. apply (bool_decide_unpack _). vm_compute. exact I. Qed.

(** ** The walks over an archive *)

Definition archive_ok (ms : list member) : Prop :=
  Forall (λ m, member_ok m ∧ ce_name m ≠ TRAILER) ms.

(** An archive at an aligned address, inside the module. *)
Definition archive_at (mem : Z → Z) (end_ a : Z) (ms : list member) : Prop :=
  holds mem a (cpio ms) ∧ 0 ≤ a ∧ (4 | a) ∧ a + Z.of_nat (length (cpio ms)) ≤ end_ ∧ end_ < 2 ^ 32.

Lemma cpio_cons m ms : cpio (m :: ms) = member_bytes m ++ cpio ms.
Proof. unfold cpio. rewrite fmap_cons. cbn [concat]. by rewrite <- app_assoc. Qed.

Lemma nonul_trailer : nonul TRAILER.
Proof. apply (mo_name _ trailer_ok). Qed.

(** The first member of an archive as the kernel sees it. *)
Lemma archive_first mem end_ a m ms :
  member_ok m → archive_at mem end_ a (m :: ms) →
  reads mem a m ∧ at_header mem end_ a = true ∧ archive_at mem end_ (next_header mem a) ms.
Proof.
  intros Hok (Hh & Ha & Hal & Hlen & Hend). rewrite cpio_cons in Hh, Hlen.
  apply holds_app in Hh as [Hh Hrest]. rewrite length_app in Hlen.
  pose proof (member_long m Hok). unfold SIZEOF_HEADER in *.
  pose proof (member_reads mem a m Hok Hh ltac:(lia) Hal) as Hr. split_and!; [done| |].
  - unfold at_header, c_magic. destruct (rd_magic _ _ _ Hr) as [-> ->].
    rewrite (proj2 (Z.ltb_lt a end_)) by lia. done.
  - unfold archive_at. rewrite (rd_next _ _ _ Hr). split_and!; [done|lia| |lia..].
    apply Z.divide_add_r; [done|by apply member_aligned].
Qed.

(** At the end of an archive the walks stop. *)
Lemma archive_last mem end_ a :
  archive_at mem end_ a [] →
  at_header mem end_ a = true ∧ strcmp_eq mem (name_of a) (codes TRAILER) = true.
Proof.
  intros (Hh & Ha & Hal & Hlen & Hend). change (cpio []) with (member_bytes trailer) in *.
  pose proof (member_long trailer trailer_ok). unfold SIZEOF_HEADER in *.
  pose proof (member_reads mem a trailer trailer_ok Hh ltac:(lia) Hal) as Hr. split.
  - unfold at_header, c_magic. destruct (rd_magic _ _ _ Hr) as [-> ->].
    rewrite (proj2 (Z.ltb_lt a end_)) by lia. done.
  - rewrite (strcmp_eq_spec _ _ TRAILER TRAILER nonul_trailer nonul_trailer).
    + by rewrite bool_decide_true.
    + exact (rd_name _ _ _ Hr).
Qed.

Lemma reads_name mem a m f :
  member_ok m → reads mem a m → nonul f →
  strcmp_eq mem (name_of a) (codes f) = bool_decide (ce_name m = f).
Proof. intros Hok Hr Hf. apply strcmp_eq_spec; [done|apply Hok|apply Hr]. Qed.

Lemma get_file_loop_spec mem end_ f fuel a ms :
  nonul f → archive_ok ms → archive_at mem end_ a ms → (length ms < fuel)%nat →
  match List.find (λ m, bool_decide (ce_name m = f)) ms with
  | None => get_file_loop fuel mem end_ (codes f) a = Some None
  | Some m => ∃ addr, get_file_loop fuel mem end_ (codes f) a = Some (Some (addr, data_len m))
                      ∧ holds mem addr (ce_data m)
  end.
Proof.
  intros Hf. revert a ms. induction fuel as [|fuel IH]; [lia|]. intros a [|m ms] Hok Hat Hfuel; cbn [get_file_loop].
  - destruct (archive_last _ _ _ Hat) as [-> ->]. done.
  - apply Forall_cons in Hok as [[Hm Hname] Hok].
    destruct (archive_first _ _ _ _ _ Hm Hat) as (Hr & -> & Hnext).
    rewrite (reads_name mem a m TRAILER Hm Hr nonul_trailer), bool_decide_false by done.
    rewrite (reads_name mem a m f Hm Hr Hf). cbn [List.find]. case_bool_decide.
    + exists (file_data mem a). rewrite (rd_filesize _ _ _ Hr). split; [done|apply Hr].
    + apply IH; [done..|]. simpl in Hfuel. lia.
Qed.

Lemma get_entry_loop_spec mem end_ k n fuel cur a ms :
  archive_ok ms → archive_at mem end_ a ms → (length ms < fuel)%nat →
  0 ≤ cur → cur + Z.of_nat (length ms) < 2 ^ 64 →
  get_entry_loop fuel mem end_ (cur + Z.of_nat k) n cur a
  = Some ((λ m, (take (pred n) (codes (ce_name m)), data_len m)) <$> ms !! k).
Proof.
  revert k cur a ms. induction fuel as [|fuel IH]; [lia|].
  intros k cur a [|m ms] Hok Hat Hfuel Hcur Hbig; cbn [get_entry_loop].
  - by destruct (archive_last _ _ _ Hat) as [-> ->].
  - apply Forall_cons in Hok as [[Hm Hname] Hok].
    destruct (archive_first _ _ _ _ _ Hm Hat) as (Hr & -> & Hnext).
    rewrite (reads_name mem a m TRAILER Hm Hr nonul_trailer), bool_decide_false by done.
    cbn [length] in *. destruct k as [|k]; cbn [lookup list_lookup fmap option_fmap option_map].
    + rewrite Z.add_0_r, Z.eqb_refl. rewrite (rd_filesize _ _ _ Hr).
      rewrite (copy_name_spec _ _ _ (ce_name m)); [done|apply Hm|apply Hr].
    + rewrite (proj2 (Z.eqb_neq _ _)) by lia. rewrite u64_small by lia.
      replace (cur + Z.of_nat (S k)) with (cur + 1 + Z.of_nat k) by lia.
      apply IH; [done..|lia|lia|lia].
Qed.

(** ** Termination *)

(** Whatever the bytes are, the next header is at least 110 bytes further. *)
Lemma next_header_ge mem h : 0 ≤ h < 2 ^ 32 → h + SIZEOF_HEADER ≤ next_header mem h.
Proof.
  intros Hh. unfold next_header, file_data, SIZEOF_HEADER.
  pose proof (parse_hex_range mem (c_namesize h) 8 0 ltac:(lia)) as Hn. fold (namesize mem h) in Hn.
  pose proof (parse_hex_range mem (c_filesize h) 8 0 ltac:(lia)) as Hf. fold (filesize mem h) in Hf.
  rewrite (u64_small (h + 110 + namesize mem h)) by lia. rewrite (align4_spec (h + 110 + _)) by lia.
  pose proof (Z.mod_pos_bound (- (h + 110 + namesize mem h)) 4 ltac:(lia)).
  rewrite u64_small by lia. rewrite align4_spec by lia.
  match goal with |- context [?x mod 4] => pose proof (Z.mod_pos_bound x 4 ltac:(lia)) end.
  match goal with |- _ ≤ _ + ?x mod 4 => pose proof (Z.mod_pos_bound x 4 ltac:(lia)) end. lia.
Qed.

(** A walk that stops at the end and otherwise stops or moves on to the next header does
    not run out of fuel; [b] is what else the loop carries. *)
Lemma walk_total {A B} (loop : nat → B → Z → option A) mem end_ :
  (∀ fuel b h, at_header mem end_ h = false → is_Some (loop (S fuel) b h)) →
  (∀ fuel b h, is_Some (loop (S fuel) b h) ∨ ∃ b', loop (S fuel) b h = loop fuel b' (next_header mem h)) →
  end_ < 2 ^ 32 →
  ∀ fuel b h, (1 ≤ fuel)%nat → 0 ≤ h → end_ - h ≤ SIZEOF_HEADER * (Z.of_nat fuel - 1) →
  is_Some (loop fuel b h).
Proof.
  intros Hstop Hmove Hend. assert (Hsz : SIZEOF_HEADER = 110) by done.
  induction fuel as [|fuel IH]; intros b h Hf Hh Hle; [lia|].
  destruct (at_header mem end_ h) eqn:Hat; [|by apply Hstop].
  destruct (Hmove fuel b h) as [|[b' ->]]; [done|].
  unfold at_header in Hat. bool_to_prop. pose proof (next_header_ge mem h ltac:(lia)).
  apply IH; lia.
Qed.

Lemma init_loop_total mem end_ fuel h :
  end_ < 2 ^ 32 → (1 ≤ fuel)%nat → 0 ≤ h → end_ - h ≤ SIZEOF_HEADER * (Z.of_nat fuel - 1) →
  is_Some (init_loop fuel mem end_ h).
Proof.
  intros Hend. apply (walk_total (λ fuel (_ : unit) h, init_loop fuel mem end_ h) mem) with (b := tt).
  - intros fuel' _ h' Hat. cbn [init_loop]. by rewrite Hat.
  - intros fuel' _ h'. cbn [init_loop]. repeat case_match; first [by left|right; by eexists].
  - done.
Qed.

Lemma walk_fuel_enough st :
  0 ≤ g_initrd_start st < g_initrd_end st →
  (1 ≤ walk_fuel st)%nat ∧
  g_initrd_end st - g_initrd_start st ≤ SIZEOF_HEADER * (Z.of_nat (walk_fuel st) - 1).
Proof.
  intros Hb. unfold walk_fuel, SIZEOF_HEADER.
  pose proof (Z.div_mod (g_initrd_end st - g_initrd_start st) 110 ltac:(lia)).
  pose proof (Z.mod_pos_bound (g_initrd_end st - g_initrd_start st) 110 ltac:(lia)).
  pose proof (Z.div_pos (g_initrd_end st - g_initrd_start st) 110 ltac:(lia) ltac:(lia)). lia.
Qed.

(** Whatever bytes the boot loader left in the module, all three walks
    over its headers end: each header moves them at least 110 bytes on. *)
Theorem initrd_walks_terminate mem mod_start mod_end st f k n :
  0 ≤ mod_start < 2 ^ 32 → 0 ≤ mod_end < 2 ^ 32 →
  is_Some (init_initrd mod_start mod_end mem st) ∧
  is_Some (initrd_get_file (Some f) PtrValid PtrValid mem (Initrd mod_start mod_end)) ∧
  is_Some (initrd_get_entry k PtrValid n PtrValid mem (Initrd mod_start mod_end)).
Proof.
  intros Hs He. unfold init_initrd, initrd_get_file, initrd_get_entry. simpl is_null. cbv iota.
  rewrite !orb_false_r, !orb_false_l. unfold initrd_absent. simpl g_initrd_start. simpl g_initrd_end.
  destruct (Z.leb_spec mod_end mod_start) as [Hle|Hlt].
  { rewrite !orb_true_r. split_and!; [done..|]. case_match; done. }
  rewrite !orb_false_r. destruct (walk_fuel_enough (Initrd mod_start mod_end)) as [Hf1 Hf2]; [simpl; lia|].
  simpl g_initrd_start in Hf2. simpl g_initrd_end in Hf2. revert Hf1 Hf2.
  generalize (walk_fuel (Initrd mod_start mod_end)) as fuel. intros fuel Hf1 Hf2. split_and!.
  - case_match; [done|].
    destruct (init_loop_total mem mod_end fuel mod_start) as [x ->]; [lia..|done].
  - case_match; [done|].
    apply (walk_total (λ fuel (_ : unit) h, get_file_loop fuel mem mod_end (codes f) h) mem mod_end)
      with (b := tt); try done; try lia.
    + intros fuel' _ h Hat. cbn [get_file_loop]. by rewrite Hat.
    + intros fuel' _ h. cbn [get_file_loop]. repeat case_match; first [by left|right; by eexists].
  - case_match; [done|]. case_match; [done|].
    apply (walk_total (λ fuel cur h, get_entry_loop fuel mem mod_end k n cur h) mem mod_end);
      try done; try lia.
    + intros fuel' cur h Hat. cbn [get_entry_loop]. by rewrite Hat.
    + intros fuel' cur h. cbn [get_entry_loop]. repeat case_match; first [by left|right; by eexists].
Qed.

(** ** Round trip *)

Lemma cpio_long ms : archive_ok ms →
  SIZEOF_HEADER * Z.of_nat (S (length ms)) ≤ Z.of_nat (length (cpio ms)).
Proof.
  induction 1 as [|m ms [Hm _] _ IH].
  - change (cpio []) with (member_bytes trailer). pose proof (member_long trailer trailer_ok).
    unfold SIZEOF_HEADER in *. simpl. lia.
  - rewrite cpio_cons, length_app. pose proof (member_long m Hm). unfold SIZEOF_HEADER in *.
    cbn [length] in *. lia.
Qed.

(** C16 (roundtrip): For a cpio archive in memory, at an aligned address inside the module,
    initialisation succeeds; looking a file up by name gives the size of the first member
    of that name and an address where exactly its bytes are stored, and fails when there
    is none; and the member with a given index is returned with its name, cut to the
    caller's buffer, and its size, in archive order, until the list ends. *)
Theorem initrd_roundtrip mem mod_start mod_end ms st :
  archive_ok ms → archive_at mem mod_end mod_start ms → 0 < mod_start →
  init_initrd mod_start mod_end mem st = Some (0, Initrd mod_start mod_end) ∧
  (∀ f, nonul f →
    match List.find (λ m, bool_decide (ce_name m = f)) ms with
    | None => initrd_get_file (Some f) PtrValid PtrValid mem (Initrd mod_start mod_end) = Some None
    | Some m => ∃ addr,
        initrd_get_file (Some f) PtrValid PtrValid mem (Initrd mod_start mod_end)
          = Some (Some (addr, data_len m)) ∧ holds mem addr (ce_data m)
    end) ∧
  ∀ (k n : nat), (0 < n)%nat →
    initrd_get_entry (Z.of_nat k) PtrValid n PtrValid mem (Initrd mod_start mod_end)
    = Some ((λ m, (take (pred n) (codes (ce_name m)), data_len m)) <$> ms !! k).
Proof.
  intros Hok Hat Hpos. pose proof (cpio_long ms Hok) as Hlong.
  pose proof Hat as (_ & _ & _ & Hlen & Hend). unfold SIZEOF_HEADER in Hlong.
  set (st' := Initrd mod_start mod_end).
  destruct (walk_fuel_enough st') as [_ Hfuel]; [simpl; lia|]. simpl in Hfuel. unfold SIZEOF_HEADER in Hfuel.
  assert (Habs : initrd_absent st' = false).
  { unfold initrd_absent. simpl. rewrite !(proj2 (Z.eqb_neq _ _)), (proj2 (Z.leb_gt _ _)) by lia. done. }
  split_and!.
  - unfold init_initrd. rewrite (proj2 (Z.leb_gt _ _)) by lia. fold st'.
    assert (at_header mem mod_end mod_start = true) as ->.
    { destruct ms as [|m ms]; [by apply archive_last|].
      apply Forall_cons in Hok as [[Hm _] _]. by apply (archive_first mem mod_end mod_start m ms). }
    destruct (init_loop_total mem mod_end (walk_fuel st') mod_start) as [x ->]; [|lia..| |done].
    + lia.
    + unfold SIZEOF_HEADER. lia.
  - intros f Hf. unfold initrd_get_file. simpl is_null. cbv iota. rewrite Habs. simpl orb. cbv iota.
    apply get_file_loop_spec; [done..|lia].
  - intros k n Hn. unfold initrd_get_entry. simpl is_null. rewrite (proj2 (Nat.eqb_neq n 0)) by lia.
    simpl orb. cbv iota. rewrite Habs.
    apply (get_entry_loop_spec mem mod_end k n (walk_fuel st') 0); [done..|lia|lia|lia].
Qed.

(** ** A small archive at address 4096 *)

(** Memory with [l] stored at [a]. *)
Definition image (a : Z) (l : list Z) (p : Z) : Z := if p <? a then 0 else default 0 (l !! Z.to_nat (p - a)).

Lemma image_holds a l : holds (image a l) a l.
Proof.
  assert (H : ∀ k pre, l = pre ++ k → holds (image a l) (a + Z.of_nat (length pre)) k).
  { induction k as [|b k IH]; intros pre Hl; simpl; [done|]. split.
    - unfold image. rewrite (proj2 (Z.ltb_ge _ _)) by lia.
      replace (Z.to_nat _) with (length pre) by lia. by rewrite Hl, list_lookup_middle.
    - specialize (IH (pre ++ [b])). rewrite length_app in IH. simpl in IH.
      replace (a + Z.of_nat (length pre) + 1) with (a + Z.of_nat (length pre + 1)) by lia.
      apply IH. by rewrite <- app_assoc. }
  specialize (H l [] eq_refl). simpl in H. by rewrite Z.add_0_r in H.
Qed.

Definition demo_member (nm : string) (bytes : list Z) : member :=
  Member (lit nm) bytes [1; 33188; 0; 0; 1; 0] [0; 0; 0; 0] 0.

Definition demo_archive : list member :=
  [demo_member "init.elf" [127; 69; 76]; demo_member "etc/motd" [104; 105]; demo_member "init.elf" [0]].

Definition demo_mem : Z → Z := image 4096 (cpio demo_archive).

Lemma demo_archive_ok : archive_ok demo_archive.
Proof.
  unfold archive_ok, demo_archive.
  repeat (apply Forall_cons; split;
    [split; [split; [done..|apply (bool_decide_unpack _); vm_compute; exact I|vm_compute; done]|by apply (bool_decide_unpack _); vm_compute]|]).
  by apply Forall_nil.
Qed.

Lemma demo_archive_at : archive_at demo_mem 8192 4096 demo_archive.
Proof.
  split; [apply image_holds|]. split_and!; [lia|by exists 1024|vm_compute; discriminate|lia].
Qed.

Example demo_walk :
  initrd_get_file (Some (lit "etc/motd")) PtrValid PtrValid demo_mem (Initrd 4096 8192)
    = Some (Some (4340, 2))
  ∧ initrd_get_entry 2 PtrValid 5 PtrValid demo_mem (Initrd 4096 8192)
    = Some (Some (codes (lit "init"), 1)).
Proof. split; vm_compute; reflexivity. Qed.

Lemma initrd_walks_terminate_witness :
  is_Some (init_initrd 4096 8192 demo_mem (Initrd 0 0)) ∧
  is_Some (initrd_get_file (Some (lit "x")) PtrValid PtrValid demo_mem (Initrd 4096 8192)) ∧
  is_Some (initrd_get_entry 7 PtrValid 16 PtrValid demo_mem (Initrd 4096 8192)).
Proof. apply (initrd_walks_terminate demo_mem 4096 8192 (Initrd 0 0) (lit "x") 7 16); lia. Defined.

Lemma initrd_roundtrip_witness :
  init_initrd 4096 8192 demo_mem (Initrd 0 0) = Some (0, Initrd 4096 8192).
Proof.
  apply (initrd_roundtrip demo_mem 4096 8192 demo_archive (Initrd 0 0)).
  - exact demo_archive_ok.
  - exact demo_archive_at.
  - lia.
Defined.
