(* ===== verification/Blkdev.v ===== *)
(** * Block devices ([kernel/blkdev.c])

    The table of block devices.  A device is a piece of physical memory or a driver
    with [read_blocks] and [write_blocks] callbacks; [blkdev_read] and [blkdev_write]
    give byte access to both, over a driver by reading, changing and writing whole
    sectors.  Byte access is shown to be access to a flat array of bytes. *)

From S2P Require Import Prelude CString.

Definition BLKDEV_MAX : nat := 16.
Definition BLKDEV_NAME_MAX : nat := 16.
Definition BLKDEV_INVALID_ID : Z := 0xFFFFFFFF.
(** [sizeof(sector)] *)
Definition SECTOR_BUFFER : Z := 512.

(** ** Byte arrays seen as functions *)

(** The [n] bytes of [c] from [off] on. *)
Definition slice (c : Z → Z) (off n : Z) : list Z := c <$> seqZ off n.

(** [c] with the bytes [l] stored from [off] on. *)
Definition overlay (c : Z → Z) (off : Z) (l : list Z) (p : Z) : Z :=
  if (off <=? p) && (p <? off + Z.of_nat (length l)) then l !!! Z.to_nat (p - off) else c p.

(** [local_memcpy(sector + off, in, n)] for [in] of [n] bytes. *)
Definition patch (sector : list Z) (off : Z) (bytes : list Z) : list Z :=
  take (Z.to_nat off) sector ++ bytes ++ drop (Z.to_nat off + length bytes) sector.

(** ** The table *)

Section blkdev.
  (** The state of the hardware behind the drivers. *)
  Context {D : Type}.

(** [read_blocks(ctx, lba, count, buffer)]: the return code and the bytes stored in
    [buffer]; [write_blocks] takes the bytes of [buffer]. *)
Definition drv_read : Type := Z → Z → Z → D → Z * list Z * D.
Definition drv_write : Type := Z → Z → Z → list Z → D → Z * D.

Record blkdev := Blkdev {
  in_use : bool; read_only : bool; has_ops : bool;
  id : Z; block_size : Z; size : Z;
  data : Z; ctx : Z;
  read_blocks : option drv_read;
  write_blocks : option drv_write;
  name : cstr
}.

Definition zero_blkdev : blkdev := Blkdev false false false 0 0 0 0 0 None None [].

(** The table, physical memory (a byte per cell) and the hardware. *)
Record world := World { g_blkdevs : list blkdev; ram : arr; hw : D }.

Definition set_ram (m : arr) (w : world) : world := World (g_blkdevs w) m (hw w).
Definition set_hw (d : D) (w : world) : world := World (g_blkdevs w) (ram w) d.

Definition blkdev_init (w : world) : world :=
  World (replicate BLKDEV_MAX zero_blkdev) (ram w) (hw w).

(** The loop of both registrations: the first free entry is filled in. *)
Definition register_in_free (make : nat → blkdev) (w : world) : Z * world :=
  match find_idx (λ d, negb (in_use d)) (g_blkdevs w) with
  | None => (BLKDEV_INVALID_ID, w)
  | Some i => (Z.of_nat i, World (<[i := make i]> (g_blkdevs w)) (ram w) (hw w))
  end.

Definition blkdev_register_memory (nm : option cstr) (start end_ bsize ro : Z) (w : world)
    : Z * world :=
  if end_ <=? start then (BLKDEV_INVALID_ID, w) else
  let bsize := if bsize =? 0 then 512 else bsize in
  register_in_free (λ i, Blkdev true (negb (ro =? 0)) false (Z.of_nat i) bsize (end_ - start) start 0
                           None None (copy_string BLKDEV_NAME_MAX (default [] nm))) w.

Definition blkdev_register_ops (nm : option cstr) (sz bsize ro c : Z) (rd : option drv_read)
    (wr : option drv_write) (w : world) : Z * world :=
  match rd with
  | None => (BLKDEV_INVALID_ID, w)
  | Some _ =>
      if sz =? 0 then (BLKDEV_INVALID_ID, w) else
      let bsize := if bsize =? 0 then 512 else bsize in
      register_in_free (λ i, Blkdev true (negb (ro =? 0)) true (Z.of_nat i) bsize sz 0 c
                               rd wr (copy_string BLKDEV_NAME_MAX (default [] nm))) w
  end.

Definition blkdev_get (i : Z) (w : world) : option blkdev :=
  if Z.of_nat BLKDEV_MAX <=? i then None else
  match g_blkdevs w !! Z.to_nat i with
  | Some d => if in_use d then Some d else None
  | None => None
  end.

Definition blkdev_get_index (index : nat) (w : world) : option blkdev :=
  filter (λ d, in_use d = true) (g_blkdevs w) !! index.

Definition blkdev_find (nm : option cstr) (w : world) : option blkdev :=
  match nm with
  | None => None
  | Some nm => i ← find_idx (λ d, in_use d && path_equals (name d) nm) (g_blkdevs w);
               g_blkdevs w !! i
  end.

(** ** Byte access

    [None] stands for a run the code does not define: a call through a [NULL]
    callback, or a [NULL] buffer handed to a driver. *)

(** A round's block, offset in it, and number of bytes. *)
Definition round (dev : blkdev) (offset len : Z) : Z * Z * Z :=
  let lba := offset / block_size dev in
  let sector_offset := u32 (offset mod block_size dev) in
  let chunk := u32 (block_size dev - sector_offset) in
  (lba, sector_offset, if len <? chunk then len else chunk).

(** The sector loop of [blkdev_read]: the return code, the bytes stored in the caller's
    buffer, and the hardware; [None] is lack of fuel.  A round makes progress, so
    [len + 1] rounds are enough ([read_loop_spec] in [BlkdevSpec]). *)
Fixpoint read_loop (fuel : nat) (dev : blkdev) (rd : drv_read) (offset len : Z) (d : D)
    : option (Z * list Z * D) :=
  match fuel with
  | O => None
  | S fuel' =>
      if 0 <? len then
        let '(lba, sector_offset, chunk) := round dev offset len in
        if SECTOR_BUFFER <? block_size dev then Some (-1, [], d) else
        let '(rc, sector, d) := rd (ctx dev) lba 1 d in
        if negb (rc =? 0) then Some (-1, [], d) else
        let got := take (Z.to_nat chunk) (drop (Z.to_nat sector_offset) sector) in
        match read_loop fuel' dev rd (u64 (offset + chunk)) (len - chunk) d with
        | Some (rc, out, d) => Some (rc, got ++ out, d)
        | None => None
        end
      else Some (0, [], d)
  end.

(** The range check [offset > size || len > size - offset]. *)
Definition out_of_range (dev : blkdev) (offset len : Z) : bool :=
  (size dev <? offset) || (size dev - offset <? len).

(** The buffer is a valid one or [NULL]; the bytes stored in it are part of the result. *)
Definition blkdev_read (i offset : Z) (buffer : outptr) (len : Z) (w : world)
    : option (Z * list Z * world) :=
  match blkdev_get i w with
  | None => Some (-1, [], w)
  | Some dev =>
      if is_null buffer then Some (-1, [], w)
      else if out_of_range dev offset len then Some (-1, [], w)
      else if has_ops dev then
        match read_blocks dev with
        | None => None
        | Some rd =>
            match read_loop (S (Z.to_nat len)) dev rd offset len (hw w) with
            | Some (rc, out, d) => Some (rc, out, set_hw d w)
            | None => None
            end
        end
      else Some (0, slice (arr_get (ram w)) (data dev + offset) len, w)
  end.

Fixpoint write_loop (fuel : nat) (dev : blkdev) (rd : drv_read) (wr : drv_write) (offset : Z)
    (bytes : list Z) (d : D) : option (Z * D) :=
  let len := Z.of_nat (length bytes) in
  match fuel with
  | O => None
  | S fuel' =>
      if 0 <? len then
        let '(lba, sector_offset, chunk) := round dev offset len in
        if SECTOR_BUFFER <? block_size dev then Some (-1, d) else
        let '(rc, sector, d) := rd (ctx dev) lba 1 d in
        if negb (rc =? 0) then Some (-1, d) else
        let sector := patch sector sector_offset (take (Z.to_nat chunk) bytes) in
        let '(rc, d) := wr (ctx dev) lba 1 sector d in
        if negb (rc =? 0) then Some (-1, d) else
        write_loop fuel' dev rd wr (u64 (offset + chunk)) (drop (Z.to_nat chunk) bytes) d
      else Some (0, d)
  end.

(** [local_memcpy(dst, bytes, len)] into physical memory. *)
Fixpoint store_bytes (dst : Z) (bytes : list Z) (m : arr) : arr :=
  match bytes with
  | [] => m
  | b :: bytes' => store_bytes (dst + 1) bytes' (arr_set m dst b)
  end.

(** [buffer] is the [len] bytes it points to. *)
Definition blkdev_write (i offset : Z) (buffer : option (list Z)) (w : world)
    : option (Z * world) :=
  match blkdev_get i w, buffer with
  | Some dev, Some bytes =>
      let len := Z.of_nat (length bytes) in
      if read_only dev then Some (-1, w)
      else if out_of_range dev offset len then Some (-1, w)
      else if has_ops dev then
        match write_blocks dev, read_blocks dev with
        | None, _ => Some (-1, w)
        | Some wr, Some rd =>
            match write_loop (S (length bytes)) dev rd wr offset bytes (hw w) with
            | Some (rc, d) => Some (rc, set_hw d w)
            | None => None
            end
        | Some _, None => None
        end
      else Some (0, set_ram (store_bytes (data dev + offset) bytes (ram w)) w)
  | _, _ => Some (-1, w)
  end.

(** ** Block access *)

(** [lba > size / block_size || block_count > size / block_size - lba] *)
Definition blocks_out_of_range (dev : blkdev) (lba count : Z) : bool :=
  (size dev / block_size dev <? lba) || (size dev / block_size dev - lba <? count).

Definition blkdev_read_blocks (i lba count : Z) (buffer : outptr) (w : world)
    : option (Z * list Z * world) :=
  match blkdev_get i w with
  | None => Some (-1, [], w)
  | Some dev =>
      if has_ops dev then
        if blocks_out_of_range dev lba count then Some (-1, [], w) else
        match read_blocks dev, buffer with
        | Some rd, PtrValid =>
            let '(rc, out, d) := rd (ctx dev) lba count (hw w) in Some (rc, out, set_hw d w)
        | _, _ => None
        end
      else blkdev_read i (u64 (lba * block_size dev)) buffer (u64 (count * block_size dev)) w
  end.

(** [buffer] is the [block_count * block_size] bytes it points to. *)
Definition blkdev_write_blocks (i lba count : Z) (buffer : option (list Z)) (w : world)
    : option (Z * world) :=
  match blkdev_get i w with
  | None => Some (-1, w)
  | Some dev =>
      if has_ops dev then
        match write_blocks dev with
        | None => Some (-1, w)
        | Some wr =>
            if read_only dev then Some (-1, w)
            else if blocks_out_of_range dev lba count then Some (-1, w)
            else match buffer with
                 | Some bytes =>
                     let (rc, d) := wr (ctx dev) lba count bytes (hw w) in Some (rc, set_hw d w)
                 | None => None
                 end
        end
      else blkdev_write i (u64 (lba * block_size dev)) buffer w
  end.

End blkdev.
