(* ===== verification/BlkdevSpec.v ===== *)
(** * Block devices: properties

    What the block layer promises: a table whose entries are well formed, and byte
    access to each device as to a flat array of bytes, over any driver that keeps the
    contract [driver_ok]. *)

From S2P Require Import Prelude CString Blkdev.

(** ** Byte arrays *)

Lemma length_slice c off n : length (slice c off n) = Z.to_nat n.
Proof. unfold slice. by rewrite length_fmap, length_seqZ. Qed.

Lemma slice_lookup c off n k : 0 ≤ k < n → slice c off n !! Z.to_nat k = Some (c (off + k)).
Proof.
  intros Hk. unfold slice. rewrite list_lookup_fmap.
  replace (seqZ off n !! Z.to_nat k) with (Some (off + k)); [done|].
  symmetry. rewrite lookup_seqZ_lt by lia. f_equal. lia.
Qed.

Lemma slice_ext c c' off n :
  (∀ p, off ≤ p < off + n → c p = c' p) → slice c off n = slice c' off n.
Proof. intros H. apply list_fmap_ext. intros i p Hp%list_elem_of_lookup_2%elem_of_seqZ. by apply H. Qed.

Lemma slice_nil c off n : n ≤ 0 → slice c off n = [].
Proof. intros. apply nil_length_inv. rewrite length_slice. lia. Qed.

Lemma slice_app c off k n : 0 ≤ k ≤ n → slice c off n = slice c off k ++ slice c (off + k) (n - k).
Proof.
  intros Hk. unfold slice. rewrite <- fmap_app. f_equal.
  replace n with (k + (n - k)) at 1 by lia. rewrite seqZ_app by lia. done.
Qed.

(** Part of a slice. *)
Lemma slice_sub c off n a k :
  0 ≤ a → 0 ≤ k → a + k ≤ n →
  take (Z.to_nat k) (drop (Z.to_nat a) (slice c off n)) = slice c (off + a) k.
Proof.
  intros. rewrite (slice_app c off a n) by lia.
  rewrite drop_app_length' by (by rewrite length_slice).
  rewrite (slice_app c (off + a) k) by lia. by rewrite take_app_length' by (by rewrite length_slice).
Qed.

Lemma overlay_in c off l p :
  off ≤ p < off + Z.of_nat (length l) → overlay c off l p = l !!! Z.to_nat (p - off).
Proof. intros H. unfold overlay. case_ifs; [done|]. apply andb_false_iff in Heqb as [?|?]; bool_to_prop; lia. Qed.

Lemma overlay_out c off l p :
  p < off ∨ off + Z.of_nat (length l) ≤ p → overlay c off l p = c p.
Proof. intros H. unfold overlay. case_ifs; [|done]. bool_to_prop. lia. Qed.

Lemma overlay_nil c off p : overlay c off [] p = c p.
Proof. apply overlay_out. simpl. lia. Qed.

Lemma overlay_ext c c' off l p : c p = c' p → overlay c off l p = overlay c' off l p.
Proof. intros H. unfold overlay. by case_ifs. Qed.

Lemma overlay_app c off l1 l2 p :
  overlay (overlay c off l1) (off + Z.of_nat (length l1)) l2 p = overlay c off (l1 ++ l2) p.
Proof.
  destruct (decide (off + Z.of_nat (length l1) ≤ p < off + Z.of_nat (length l1) + Z.of_nat (length l2))).
  - rewrite overlay_in by lia. rewrite overlay_in by (rewrite length_app; lia).
    rewrite lookup_total_app_r by lia. f_equal. lia.
  - rewrite overlay_out by lia.
    destruct (decide (off ≤ p < off + Z.of_nat (length l1))).
    + rewrite !overlay_in by (rewrite ?length_app; lia). by rewrite lookup_total_app_l by lia.
    + by rewrite !overlay_out by (rewrite ?length_app; lia).
Qed.

(** Reading what was stored. *)
Lemma slice_overlay c off l : slice (overlay c off l) off (Z.of_nat (length l)) = l.
Proof.
  apply list_eq_same_length with (length l); [done|by rewrite length_slice, Nat2Z.id|].
  intros i x y Hi Hx Hy.
  replace i with (Z.to_nat (Z.of_nat i)) in Hx by lia.
  rewrite slice_lookup in Hx by lia. injection Hx as <-.
  rewrite overlay_in by lia. apply list_lookup_total_correct. by replace (Z.to_nat _) with i by lia.
Qed.

(** Writing back a patched copy of a part is storing the patch. *)
Lemma overlay_patch c base n a l p :
  0 ≤ a → a + Z.of_nat (length l) ≤ n →
  overlay c base (patch (slice c base n) a l) p = overlay c (base + a) l p.
Proof.
  intros Ha Hn. unfold patch.
  rewrite (slice_app c base a n) at 1 by lia.
  rewrite take_app_length' by (by rewrite length_slice).
  replace (drop _ (slice c base n)) with (slice c (base + a + Z.of_nat (length l)) (n - a - Z.of_nat (length l))).
  2:{ rewrite (slice_app c base (a + Z.of_nat (length l)) n) by lia.
      rewrite drop_app_length' by (rewrite length_slice; lia). f_equal; lia. }
  rewrite <- !overlay_app, length_slice.
  replace (base + Z.of_nat (Z.to_nat a)) with (base + a) by lia.
  assert (Hs : ∀ c' b m q, (∀ x, b ≤ x < b + m → c x = c' x) →
            overlay c' b (slice c b m) q = c' q).
  { clear. intros c' b m q Hc. destruct (decide (b ≤ q < b + m)).
    - rewrite overlay_in by (rewrite length_slice; lia). rewrite <- Hc by lia.
      apply list_lookup_total_correct. rewrite slice_lookup by lia. f_equal. f_equal. lia.
    - apply overlay_out. rewrite length_slice. lia. }
  rewrite Hs.
  - apply overlay_ext. by apply Hs.
  - intros x Hx. rewrite overlay_out by lia. symmetry. by apply Hs.
Qed.

(** [local_memcpy] into memory stores the bytes. *)
Lemma store_bytes_overlay l m dst p :
  arr_get (store_bytes dst l m) p = overlay (arr_get m) dst l p.
Proof.
  revert m dst. induction l as [|b l IH]; intros m dst; simpl; [by rewrite overlay_nil|].
  rewrite IH. change (b :: l) with ([b] ++ l). rewrite <- overlay_app. simpl.
  apply overlay_ext. rewrite arr_get_set. case_decide as Hd.
  - subst. rewrite overlay_in by (simpl; lia). by replace (Z.to_nat (p - p)) with 0%nat by lia.
  - rewrite overlay_out; [done|simpl; lia].
Qed.

Section spec.
  Context {D : Type}.
  Implicit Types (dev : @blkdev D) (w : @world D).

(** ** What a driver promises

    [disk d c p] is byte [p] of the medium of context [c]; a block for which [good] is
    false cannot be read.  Transfers stay inside the device. *)

Definition all_good (good : Z → bool) (lba n : Z) : Prop := ∀ b, lba ≤ b < lba + n → good b = true.

Record driver_ok (disk : D → Z → Z → Z) (good : Z → bool) dev (rd : drv_read) : Prop := {
  drv_aligned : (block_size dev | size dev);
  drv_read_good d lba n :
    0 ≤ lba → 0 ≤ n → lba + n ≤ size dev / block_size dev → all_good good lba n →
    ∃ d', rd (ctx dev) lba n d
            = (0, slice (disk d (ctx dev)) (lba * block_size dev) (n * block_size dev), d')
          ∧ ∀ c p, disk d' c p = disk d c p;
  drv_read_bad d lba n :
    0 ≤ lba → 0 ≤ n → lba + n ≤ size dev / block_size dev → ¬ all_good good lba n →
    ∃ rc buf d', rd (ctx dev) lba n d = (rc, buf, d') ∧ rc ≠ 0 ∧ ∀ c p, disk d' c p = disk d c p
}.

Definition writer_ok (disk : D → Z → Z → Z) (good : Z → bool) dev (wr : drv_write) : Prop :=
  ∀ d lba n bytes,
    0 ≤ lba → 0 ≤ n → lba + n ≤ size dev / block_size dev → all_good good lba n →
    Z.of_nat (length bytes) = n * block_size dev →
    ∃ d', wr (ctx dev) lba n bytes d = (0, d')
          ∧ (∀ p, disk d' (ctx dev) p = overlay (disk d (ctx dev)) (lba * block_size dev) bytes p)
          ∧ ∀ c p, c ≠ ctx dev → disk d' c p = disk d c p.

(** ** The sector loops *)

(** A device [blkdev_read] can serve through its sector buffer. *)
Definition sectored dev : Prop :=
  1 ≤ block_size dev ≤ SECTOR_BUFFER ∧ 0 ≤ size dev < 2 ^ 64.

(** The blocks of a byte range. *)
Definition range_good (good : Z → bool) dev (offset len : Z) : Prop :=
  ∀ p, offset ≤ p < offset + len → good (p / block_size dev) = true.

Lemma round_spec dev offset len :
  sectored dev → 0 ≤ offset → 0 < len → offset + len ≤ size dev →
  (block_size dev | size dev) →
  ∃ lba so chunk, round dev offset len = (lba, so, chunk)
    ∧ 0 ≤ lba ∧ lba + 1 ≤ size dev / block_size dev
    ∧ offset = lba * block_size dev + so ∧ 0 ≤ so ∧ 0 < chunk ≤ len ∧ so + chunk ≤ block_size dev
    ∧ u64 (offset + chunk) = offset + chunk
    ∧ ∀ p, offset ≤ p < offset + chunk → p / block_size dev = lba.
Proof.
  intros [Hb Hs] Ho Hl Hr [k Hk]. unfold SECTOR_BUFFER in Hb. set (b := block_size dev) in *.
  pose proof (Z.div_mod offset b ltac:(lia)) as Hdm.
  pose proof (Z.mod_pos_bound offset b ltac:(lia)) as Hm.
  assert (Hlba : 0 ≤ offset / b) by (apply Z.div_pos; lia).
  assert (Hmax : offset / b + 1 ≤ size dev / b).
  { rewrite Hk, Z.div_mul by lia. assert (offset / b < k); [|lia].
    apply Z.div_lt_upper_bound; [lia|]. rewrite Z.mul_comm. lia. }
  unfold round. fold b. rewrite (u32_small (offset mod b)), (u32_small (b - offset mod b)) by lia.
  set (chunk := if len <? b - offset mod b then len else b - offset mod b).
  assert (0 < chunk ≤ len ∧ offset mod b + chunk ≤ b).
  { unfold chunk. destruct (Z.ltb_spec len (b - offset mod b)); lia. }
  exists (offset / b), (offset mod b), chunk. split_and!; try done; try lia.
  - rewrite u64_small; lia.
  - intros p Hp. symmetry. apply Z.div_unique with (p - offset / b * b); lia.
Qed.

(** The bytes up to the first bad block arrive; all of them when there is none. *)
Lemma read_loop_spec disk good dev rd fuel offset len d :
  driver_ok disk good dev rd → sectored dev → 0 ≤ offset → 0 ≤ len → offset + len ≤ size dev →
  (Z.to_nat len < fuel)%nat →
  ∃ rc k d', read_loop fuel dev rd offset len d = Some (rc, slice (disk d (ctx dev)) offset k, d')
    ∧ 0 ≤ k ≤ len ∧ (∀ c p, disk d' c p = disk d c p)
    ∧ ((rc = 0 ∧ k = len ∧ range_good good dev offset len)
       ∨ (rc = -1 ∧ ¬ range_good good dev offset len)).
Proof.
  intros Hdrv Hsec. revert offset len d. induction fuel as [|fuel IH]; [lia|].
  intros offset len d Ho Hl Hr Hf. cbn [read_loop]. destruct (Z.ltb_spec 0 len) as [Hpos|Hz].
  2:{ exists 0, 0, d. rewrite slice_nil by lia. split_and!; [done|lia..|done|].
      left. split_and!; [done|lia|]. intros p Hp. lia. }
  destruct (round_spec dev offset len Hsec Ho Hpos Hr (drv_aligned _ _ _ _ Hdrv))
    as (lba & so & chunk & -> & Hlba & Hmax & Hoff & Hso & Hch & Hfit & Hu & Hblk).
  rewrite (proj2 (Z.ltb_ge SECTOR_BUFFER (block_size dev))) by apply Hsec.
  assert (Hone : all_good good lba 1 ↔ good lba = true).
  { split; [intros H; apply H; lia|]. intros H b Hb. by replace b with lba by lia. }
  destruct (good lba) eqn:Hg.
  - destruct (drv_read_good _ _ _ _ Hdrv d lba 1) as (d1 & -> & Hd1); [lia..|by apply Hone|].
    cbn [negb Z.eqb]. cbv beta iota zeta. rewrite Z.mul_1_l, slice_sub by lia. rewrite <- Hoff, Hu.
    destruct (IH (offset + chunk) (len - chunk) d1) as (rc & k & d2 & -> & Hk & Hd2 & Hcase); [lia..|].
    exists rc, (chunk + k), d2. split_and!; [|lia..| |].
    + rewrite (slice_app _ offset chunk (chunk + k)) by lia.
      replace (chunk + k - chunk) with k by lia. do 3 f_equal. f_equal.
      apply slice_ext. intros p _. apply Hd1.
    + intros c p. by rewrite Hd2, Hd1.
    + destruct Hcase as [(-> & -> & Hall)|(-> & Hbad)]; [left|right].
      * split_and!; [done|lia|]. intros p Hp.
        destruct (decide (p < offset + chunk)); [rewrite Hblk by lia; done|apply Hall; lia].
      * split; [done|]. intros Hall. apply Hbad. intros p Hp. apply Hall. lia.
  - destruct (drv_read_bad _ _ _ _ Hdrv d lba 1) as (rc & buf & d1 & -> & Hrc & Hd1);
      [lia..|by rewrite Hone|].
    rewrite (proj2 (Z.eqb_neq rc 0) Hrc). simpl. exists (-1), 0, d1. rewrite slice_nil by lia.
    split_and!; [done|lia..|done|]. right. split; [done|]. intros Hall.
    specialize (Hall offset ltac:(lia)). rewrite Hblk in Hall by lia. congruence.
Qed.

(** The bytes up to the first bad block are stored; nothing else changes. *)
Lemma write_loop_spec disk good dev rd wr fuel offset bytes d :
  driver_ok disk good dev rd → writer_ok disk good dev wr → sectored dev → 0 ≤ offset →
  offset + Z.of_nat (length bytes) ≤ size dev → (length bytes < fuel)%nat →
  ∃ rc k d', write_loop fuel dev rd wr offset bytes d = Some (rc, d')
    ∧ (k ≤ length bytes)%nat
    ∧ (∀ p, disk d' (ctx dev) p = overlay (disk d (ctx dev)) offset (take k bytes) p)
    ∧ (∀ c p, c ≠ ctx dev → disk d' c p = disk d c p)
    ∧ ((rc = 0 ∧ k = length bytes ∧ range_good good dev offset (Z.of_nat (length bytes)))
       ∨ (rc = -1 ∧ ¬ range_good good dev offset (Z.of_nat (length bytes)))).
Proof.
  intros Hdrv Hwr Hsec. revert offset bytes d. induction fuel as [|fuel IH]; [lia|].
  intros offset bytes d Ho Hr Hf. cbn [write_loop]. set (len := Z.of_nat (length bytes)) in *.
  destruct (Z.ltb_spec 0 len) as [Hpos|Hz].
  2:{ exists 0, 0%nat, d. split_and!; [done|lia| |done|].
      - intros p. by rewrite take_0, overlay_nil.
      - left. split_and!; [done|lia|]. intros p Hp. lia. }
  destruct (round_spec dev offset len Hsec Ho Hpos Hr (drv_aligned _ _ _ _ Hdrv))
    as (lba & so & chunk & -> & Hlba & Hmax & Hoff & Hso & Hch & Hfit & Hu & Hblk).
  rewrite (proj2 (Z.ltb_ge SECTOR_BUFFER (block_size dev))) by apply Hsec.
  assert (Hone : all_good good lba 1 ↔ good lba = true).
  { split; [intros H; apply H; lia|]. intros H b Hb. by replace b with lba by lia. }
  destruct (good lba) eqn:Hg.
  - destruct (drv_read_good _ _ _ _ Hdrv d lba 1) as (d1 & -> & Hd1); [lia..|by apply Hone|].
    cbn [negb Z.eqb]. cbv beta iota zeta. rewrite Z.mul_1_l.
    assert (Hlen : Z.of_nat (length (take (Z.to_nat chunk) bytes)) = chunk)
      by (rewrite length_take; lia).
    destruct (Hwr d1 lba 1 (patch (slice (disk d (ctx dev)) (lba * block_size dev) (block_size dev))
                              so (take (Z.to_nat chunk) bytes))) as (d2 & -> & Hd2 & Hd2'); [lia..| | |].
    { by apply Hone. }
    { unfold patch. rewrite !length_app, length_take, length_drop, length_slice. lia. }
    simpl. rewrite Hu.
    destruct (IH (offset + chunk) (drop (Z.to_nat chunk) bytes) d2)
      as (rc & k & d3 & -> & Hk & Hd3 & Hd3' & Hcase); [lia|rewrite length_drop; lia..|].
    rewrite length_drop in Hk, Hcase.
    exists rc, (Z.to_nat chunk + k)%nat, d3. split_and!; [done|lia| | |].
    + intros p. rewrite Hd3.
      rewrite (overlay_ext _ (overlay (disk d (ctx dev)) offset (take (Z.to_nat chunk) bytes))).
      2:{ rewrite Hd2. rewrite (overlay_ext _ (disk d (ctx dev))) by apply Hd1.
          rewrite overlay_patch by lia. f_equal. lia. }
      replace (offset + chunk) with (offset + Z.of_nat (length (take (Z.to_nat chunk) bytes))) by lia.
      rewrite overlay_app. f_equal. by rewrite take_take_drop.
    + intros c p Hc. by rewrite Hd3', Hd2', Hd1.
    + replace (Z.of_nat (length bytes - Z.to_nat chunk)) with (len - chunk) in Hcase by lia.
      destruct Hcase as [(-> & -> & Hall)|(-> & Hbad)]; [left|right].
      * split_and!; [done|lia|]. intros p Hp.
        destruct (decide (p < offset + chunk)); [rewrite Hblk by lia; done|apply Hall; lia].
      * split; [done|]. intros Hall. apply Hbad. intros p Hp. apply Hall. lia.
  - destruct (drv_read_bad _ _ _ _ Hdrv d lba 1) as (rc & buf & d1 & -> & Hrc & Hd1);
      [lia..|by rewrite Hone|].
    rewrite (proj2 (Z.eqb_neq rc 0) Hrc). simpl. exists (-1), 0%nat, d1.
    split_and!; [done|lia| |by intros|].
    + intros p. by rewrite take_0, overlay_nil.
    + right. split; [done|]. intros Hall.
      specialize (Hall offset ltac:(lia)). rewrite Hblk in Hall by lia. congruence.
Qed.

(** ** Requests against a flat array of bytes *)

Context (disk : D → Z → Z → Z).

(** Byte [p] of a device. *)
Definition content dev w (p : Z) : Z :=
  if has_ops dev then disk (hw w) (ctx dev) p else arr_get (ram w) (data dev + p).

(** A device registered in memory, or one over a driver that keeps its promise. *)
Definition device_ok (good : Z → bool) dev : Prop :=
  0 ≤ size dev < 2 ^ 64 ∧
  (has_ops dev = true →
   sectored dev ∧ (∃ rd, read_blocks dev = Some rd ∧ driver_ok disk good dev rd)
   ∧ ∃ wr, write_blocks dev = Some wr ∧ writer_ok disk good dev wr).

(** Every block of the range can be read; memory always can. *)
Definition media_ok (good : Z → bool) dev (offset len : Z) : Prop :=
  has_ops dev = true → range_good good dev offset len.

(** Devices that share no storage. *)
Definition independent dev dev' : Prop :=
  match has_ops dev, has_ops dev' with
  | true, true => ctx dev ≠ ctx dev'
  | false, false => data dev + size dev ≤ data dev' ∨ data dev' + size dev' ≤ data dev
  | _, _ => True
  end.

Inductive request := Read (offset len : Z) | Write (offset : Z) (bytes : list Z).

Definition u64_request (r : request) : Prop :=
  match r with
  | Read off len => 0 ≤ off < 2 ^ 64 ∧ 0 ≤ len < 2 ^ 64
  | Write off bytes => 0 ≤ off < 2 ^ 64 ∧ Z.of_nat (length bytes) < 2 ^ 64
  end.

Definition serve (i : Z) (r : request) w : option (Z * list Z * world) :=
  match r with
  | Read off len => blkdev_read i off PtrValid len w
  | Write off bytes =>
      match blkdev_write i off (Some bytes) w with
      | Some (rc, w) => Some (rc, [], w)
      | None => None
      end
  end.

Fixpoint serve_all (i : Z) (rs : list request) w : option (list (Z * list Z) * world) :=
  match rs with
  | [] => Some ([], w)
  | r :: rs =>
      match serve i r w with
      | Some (rc, out, w) =>
          match serve_all i rs w with
          | Some (ys, w) => Some ((rc, out) :: ys, w)
          | None => None
          end
      | None => None
      end
  end.

(** A request to an array [c] of [sz] bytes, its return code and data, and the array
    after it.  A request that meets a bad block stops there with an error. *)
Inductive flat_step (sz : Z) (ro : bool) (ok : Z → Z → Prop) (c : Z → Z)
  : request → Z * list Z → (Z → Z) → Prop :=
| FlatRead off len :
    off + len ≤ sz → ok off len → flat_step sz ro ok c (Read off len) (0, slice c off len) c
| FlatReadBad off len k :
    off + len ≤ sz → ¬ ok off len → 0 ≤ k ≤ len →
    flat_step sz ro ok c (Read off len) (-1, slice c off k) c
| FlatReadRange off len :
    sz < off + len → flat_step sz ro ok c (Read off len) (-1, []) c
| FlatWrite off bytes :
    ro = false → off + Z.of_nat (length bytes) ≤ sz → ok off (Z.of_nat (length bytes)) →
    flat_step sz ro ok c (Write off bytes) (0, []) (overlay c off bytes)
| FlatWriteBad off bytes k :
    ro = false → off + Z.of_nat (length bytes) ≤ sz → ¬ ok off (Z.of_nat (length bytes)) →
    flat_step sz ro ok c (Write off bytes) (-1, []) (overlay c off (take k bytes))
| FlatWriteReject off bytes :
    ro = true ∨ sz < off + Z.of_nat (length bytes) →
    flat_step sz ro ok c (Write off bytes) (-1, []) c.

Inductive flat_run (sz : Z) (ro : bool) (ok : Z → Z → Prop)
  : (Z → Z) → list request → list (Z * list Z) → (Z → Z) → Prop :=
| FlatNil c : flat_run sz ro ok c [] [] c
| FlatCons c r y c' rs ys c'' :
    flat_step sz ro ok c r y c' → flat_run sz ro ok c' rs ys c'' →
    flat_run sz ro ok c (r :: rs) (y :: ys) c''.

Lemma out_of_range_spec dev offset len :
  0 ≤ offset → 0 ≤ len → out_of_range dev offset len = (size dev <? offset + len).
Proof.
  intros. unfold out_of_range. destruct (Z.ltb_spec (size dev) (offset + len)).
  - destruct (Z.ltb_spec (size dev) offset); simpl; [done|]. apply Z.ltb_lt. lia.
  - rewrite (proj2 (Z.ltb_ge _ _)) by lia. simpl. apply Z.ltb_ge. lia.
Qed.

(** What a request leaves alone. *)
Definition others_kept dev w w' : Prop :=
  g_blkdevs w' = g_blkdevs w ∧
  ∀ dev' p, independent dev dev' → 0 ≤ p < size dev' → content dev' w' p = content dev' w p.

Lemma others_kept_refl dev w : others_kept dev w w.
Proof. by split. Qed.

Lemma others_kept_trans dev w1 w2 w3 :
  others_kept dev w1 w2 → others_kept dev w2 w3 → others_kept dev w1 w3.
Proof. intros [H1 H2] [H3 H4]. split; [congruence|]. intros. rewrite H4, H2; done. Qed.

Lemma blkdev_read_spec good i dev off len w c :
  blkdev_get i w = Some dev → device_ok good dev →
  0 ≤ off < 2 ^ 64 → 0 ≤ len < 2 ^ 64 → (∀ p, content dev w p = c p) →
  ∃ y w', blkdev_read i off PtrValid len w = Some (y, w')
    ∧ flat_step (size dev) (read_only dev) (media_ok good dev) c (Read off len) y c
    ∧ (∀ p, content dev w' p = c p) ∧ others_kept dev w w'.
Proof.
  intros Hget [Hsz Hops] Ho Hl Hc. unfold blkdev_read. rewrite Hget. simpl is_null. cbv iota.
  rewrite out_of_range_spec by lia. destruct (Z.ltb_spec (size dev) (off + len)) as [Hr|Hr].
  { exists (-1, []), w. split_and!; [done|by constructor|done|apply others_kept_refl]. }
  destruct (has_ops dev) eqn:Hh.
  - destruct (Hops eq_refl) as (Hsec & (rd & Hrd & Hdrv) & _). rewrite Hrd.
    destruct (read_loop_spec disk good dev rd (S (Z.to_nat len)) off len (hw w) Hdrv Hsec)
      as (rc & k & d' & -> & Hk & Hd & Hcase); [lia..|].
    assert (Hsl : slice (disk (hw w) (ctx dev)) off k = slice c off k).
    { apply slice_ext. intros p _. rewrite <- Hc. unfold content. by rewrite Hh. }
    assert (Hcont : ∀ dv p, content dv (set_hw d' w) p = content dv w p).
    { intros dv p. unfold content. simpl. by rewrite Hd. }
    exists (rc, slice c off k), (set_hw d' w). rewrite Hsl. split_and!; [done| | |].
    + destruct Hcase as [(-> & -> & Hg)|(-> & Hb)]; [apply FlatRead; [lia|intros _; exact Hg]|].
      apply FlatReadBad; [lia| |lia]. intros Hm. by apply Hb, Hm.
    + intros p. rewrite Hcont. apply Hc.
    + split; [done|]. intros. apply Hcont.
  - exists (0, slice c off len), w. split_and!; [|apply FlatRead; [lia|]|done|apply others_kept_refl].
    + do 2 f_equal. f_equal. unfold slice. rewrite Z.add_comm.
      apply list_eq. intros n. rewrite !list_lookup_fmap.
      destruct (decide (n < Z.to_nat len)%nat) as [Hn|Hn].
      * rewrite !lookup_seqZ_lt by lia. simpl. f_equal. rewrite <- Hc. unfold content. rewrite Hh.
        f_equal. lia.
      * by rewrite !lookup_seqZ_ge by lia.
    + intros Hm. congruence.
Qed.

Lemma blkdev_write_spec good i dev off bytes w c :
  blkdev_get i w = Some dev → device_ok good dev →
  0 ≤ off < 2 ^ 64 → (∀ p, content dev w p = c p) →
  ∃ rc w' c', blkdev_write i off (Some bytes) w = Some (rc, w')
    ∧ flat_step (size dev) (read_only dev) (media_ok good dev) c (Write off bytes) (rc, []) c'
    ∧ (∀ p, content dev w' p = c' p) ∧ others_kept dev w w'.
Proof.
  intros Hget [Hsz Hops] Ho Hc. unfold blkdev_write. rewrite Hget.
  assert (Hrej : (read_only dev = true ∨ size dev < off + Z.of_nat (length bytes)) → ∃ rc w' c', Some (-1, w) = Some (rc, w')
    ∧ flat_step (size dev) (read_only dev) (media_ok good dev) c (Write off bytes) (rc, []) c'
    ∧ (∀ p, content dev w' p = c' p) ∧ others_kept dev w w').
  { intros Hrr. exists (-1), w, c. split_and!; [done|by constructor|done|apply others_kept_refl]. }
  destruct (read_only dev) eqn:Hro; [apply Hrej; by left|].
  rewrite out_of_range_spec by lia.
  destruct (Z.ltb_spec (size dev) (off + Z.of_nat (length bytes))) as [Hr|Hr]; [apply Hrej; by right|].
  clear Hrej. destruct (has_ops dev) eqn:Hh.
  - destruct (Hops eq_refl) as (Hsec & (rd & Hrd & Hdrv) & (wr & Hwr & Hwok)). rewrite Hrd, Hwr.
    destruct (write_loop_spec disk good dev rd wr (S (length bytes)) off bytes (hw w) Hdrv Hwok Hsec)
      as (rc & k & d' & -> & Hk & Hd & Hd' & Hcase); [lia..|].
    exists rc, (set_hw d' w), (overlay c off (take k bytes)). split_and!; [done| | |].
    + destruct Hcase as [(-> & -> & Hg)|(-> & Hb)].
      * rewrite firstn_all. apply FlatWrite; [done|lia|intros _; exact Hg].
      * apply FlatWriteBad; [done|lia|]. intros Hm. by apply Hb, Hm.
    + intros p. unfold content. rewrite Hh. simpl. rewrite Hd. apply overlay_ext.
      rewrite <- Hc. unfold content. by rewrite Hh.
    + split; [done|]. intros dev' p Hi Hp. unfold content, independent in *. rewrite Hh in Hi.
      destruct (has_ops dev'); [|done]. by apply Hd'.
  - exists 0, (set_ram (store_bytes (data dev + off) bytes (ram w)) w), (overlay c off bytes).
    split_and!; [done|apply FlatWrite; [done|lia|]| |].
    + intros Hm. congruence.
    + intros p. unfold content. rewrite Hh. simpl. rewrite store_bytes_overlay.
      destruct (decide (off ≤ p < off + Z.of_nat (length bytes))).
      * rewrite !overlay_in by lia. f_equal. lia.
      * rewrite !overlay_out by lia. rewrite <- Hc. unfold content. by rewrite Hh.
    + split; [done|]. intros dev' p Hi Hp. unfold content, independent in *. rewrite Hh in Hi.
      destruct (has_ops dev'); [done|]. simpl. rewrite store_bytes_overlay. apply overlay_out. lia.
Qed.

Lemma blkdev_get_kept i w w' : g_blkdevs w' = g_blkdevs w → blkdev_get i w' = blkdev_get i w.
Proof. intros H. unfold blkdev_get. by rewrite H. Qed.

(** C15 (refinement): Any sequence of reads and writes on a registered device runs to its
    end and is a run of a flat array of [size] bytes: a read returns the bytes last
    stored there, a write stores all its bytes, a request beyond the end or a write to
    a read-only device is refused without effect, and a request that meets a bad block
    fails after a prefix.  The device table and every device with other storage keep
    their contents.  Over a driver this is the read, change and write of whole
    sectors; what the driver promises is [driver_ok] and [writer_ok]. *)
Theorem blkdev_refines_flat good i dev rs w c :
  blkdev_get i w = Some dev → device_ok good dev → Forall u64_request rs →
  (∀ p, content dev w p = c p) →
  ∃ ys w' c', serve_all i rs w = Some (ys, w')
    ∧ flat_run (size dev) (read_only dev) (media_ok good dev) c rs ys c'
    ∧ (∀ p, content dev w' p = c' p) ∧ others_kept dev w w'.
Proof.
  intros Hget Hok Hrs. revert w c Hget. induction Hrs as [|r rs Hr _ IH]; intros w c Hget Hc.
  { exists [], w, c. split_and!; [done|constructor|done|apply others_kept_refl]. }
  assert (Hstep : ∃ y w1 c1, serve i r w = Some (y, w1)
    ∧ flat_step (size dev) (read_only dev) (media_ok good dev) c r y c1
    ∧ (∀ p, content dev w1 p = c1 p) ∧ others_kept dev w w1).
  { destruct r as [off len|off bytes]; destruct Hr as [Ho Hl]; simpl.
    - destruct (blkdev_read_spec good i dev off len w c Hget Hok Ho Hl Hc) as (y & w1 & H).
      by exists y, w1, c.
    - destruct (blkdev_write_spec good i dev off bytes w c Hget Hok Ho Hc)
        as (rc & w1 & c1 & -> & H). by exists (rc, []), w1, c1. }
  destruct Hstep as ([rc out] & w1 & c1 & Hs & Hflat & Hc1 & Hk1).
  destruct (IH w1 c1) as (ys & w2 & c2 & Hrun & Hflat2 & Hc2 & Hk2); [|done|].
  { rewrite (blkdev_get_kept i w w1); [done|apply Hk1]. }
  exists ((rc, out) :: ys), w2, c2. simpl. rewrite Hs, Hrun.
  split_and!; [done|by econstructor|done|by eapply others_kept_trans].
Qed.

(** ** Block access *)

(** On a memory device the byte offset [lba * block_size] is computed modulo
    2^64 before the range check: a block number beyond the device is accepted when the
    product wraps to an offset inside it, and the read returns bytes of another block.
    The driver path compares block numbers and refuses the same request. *)
Theorem blkdev_read_blocks_wraps i dev lba count w :
  blkdev_get i w = Some dev → 1 ≤ block_size dev → 0 ≤ size dev < 2 ^ 64 →
  0 ≤ count → size dev / block_size dev < lba →
  if has_ops dev then blkdev_read_blocks i lba count PtrValid w = Some (-1, [], w)
  else u64 (lba * block_size dev) + count * block_size dev ≤ size dev →
       blkdev_read_blocks i lba count PtrValid w
         = Some (0, slice (arr_get (ram w)) (data dev + u64 (lba * block_size dev))
                      (count * block_size dev), w).
Proof.
  intros Hget Hb Hs Hc Hlba. unfold blkdev_read_blocks. rewrite Hget. destruct (has_ops dev) eqn:Hh.
  - unfold blocks_out_of_range. by rewrite (proj2 (Z.ltb_lt _ _) Hlba).
  - intros Hin. pose proof (u64_range (lba * block_size dev)).
    rewrite (u64_small (count * block_size dev)) by nia.
    unfold blkdev_read. rewrite Hget. simpl is_null. cbv iota.
    rewrite out_of_range_spec by nia. rewrite (proj2 (Z.ltb_ge _ _)) by lia. by rewrite Hh.
Qed.

(** Block access through a driver is byte access to the same place. *)
Lemma blkdev_read_blocks_bytes good i dev rd lba count w :
  blkdev_get i w = Some dev → has_ops dev = true → read_blocks dev = Some rd →
  driver_ok disk good dev rd → sectored dev →
  0 ≤ lba → 0 ≤ count → lba + count ≤ size dev / block_size dev → all_good good lba count →
  ∃ w1 w2,
    blkdev_read_blocks i lba count PtrValid w
      = Some (0, slice (content dev w) (lba * block_size dev) (count * block_size dev), w1)
    ∧ blkdev_read i (lba * block_size dev) PtrValid (count * block_size dev) w
      = Some (0, slice (content dev w) (lba * block_size dev) (count * block_size dev), w2)
    ∧ (∀ p, content dev w1 p = content dev w p) ∧ ∀ p, content dev w2 p = content dev w p.
Proof.
  intros Hget Hh Hrd Hdrv Hsec Hlba Hcnt Hmax Hall.
  assert (Hsz : (lba + count) * block_size dev ≤ size dev).
  { pose proof (drv_aligned _ _ _ _ Hdrv) as [k Hk]. destruct Hsec as [Hb _].
    rewrite Hk, Z.div_mul in Hmax by lia. rewrite Hk. nia. }
  assert (Hcont : ∀ p, content dev w p = disk (hw w) (ctx dev) p) by (unfold content; by rewrite Hh).
  destruct (drv_read_good _ _ _ _ Hdrv (hw w) lba count) as (d1 & Hrun & Hd1); [done..|].
  destruct (read_loop_spec disk good dev rd (S (Z.to_nat (count * block_size dev)))
    (lba * block_size dev) (count * block_size dev) (hw w) Hdrv Hsec)
    as (rc & k & d2 & Hloop & Hk & Hd2 & Hcase); [destruct Hsec; nia..|lia|].
  assert (Hgood : range_good good dev (lba * block_size dev) (count * block_size dev)).
  { intros p Hp. apply Hall. destruct Hsec as [Hb _]. split.
    - apply Z.div_le_lower_bound; lia.
    - apply Z.div_lt_upper_bound; lia. }
  destruct Hcase as [(-> & -> & _)|(_ & Hbad)]; [|done].
  exists (set_hw d1 w), (set_hw d2 w). split_and!.
  - unfold blkdev_read_blocks. rewrite Hget, Hh, Hrd. unfold blocks_out_of_range.
    rewrite !(proj2 (Z.ltb_ge _ _)) by lia. simpl. rewrite Hrun. do 3 f_equal. by apply slice_ext.
  - unfold blkdev_read. rewrite Hget. simpl is_null. cbv iota.
    rewrite out_of_range_spec by (destruct Hsec; nia). rewrite (proj2 (Z.ltb_ge _ _)) by lia.
    rewrite Hh, Hrd, Hloop. do 3 f_equal. by apply slice_ext.
  - intros p. unfold content. rewrite Hh. simpl. apply Hd1.
  - intros p. unfold content. rewrite Hh. simpl. apply Hd2.
Qed.

End spec.

(** ** The table *)

Section table.
  Context {D : Type}.
  Implicit Types (dev : @blkdev D) (w : @world D).

(** Entry [i] of the table. *)
Definition entry_wf (i : nat) dev : Prop :=
  in_use dev = true →
  id dev = Z.of_nat i ∧ 1 ≤ block_size dev < 2 ^ 32 ∧ 1 ≤ size dev < 2 ^ 64
  ∧ (length (name dev) < BLKDEV_NAME_MAX)%nat
  ∧ if has_ops dev then is_Some (read_blocks dev)
    else 0 ≤ data dev ∧ data dev + size dev < 2 ^ 32.

Definition table_wf w : Prop :=
  length (g_blkdevs w) = BLKDEV_MAX ∧ ∀ i dev, g_blkdevs w !! i = Some dev → entry_wf i dev.

Inductive table_op :=
| RegisterMemory (nm : option cstr) (start end_ bsize ro : Z)
| RegisterOps (nm : option cstr) (sz bsize ro c : Z) (rd : option (@drv_read D))
    (wr : option (@drv_write D)).

Definition op_args_ok (op : table_op) : Prop :=
  match op with
  | RegisterMemory _ start end_ bsize _ =>
      0 ≤ start < 2 ^ 32 ∧ 0 ≤ end_ < 2 ^ 32 ∧ 0 ≤ bsize < 2 ^ 32
  | RegisterOps _ sz bsize _ _ _ _ => 0 ≤ sz < 2 ^ 64 ∧ 0 ≤ bsize < 2 ^ 32
  end.

Definition register (op : table_op) w : Z * world :=
  match op with
  | RegisterMemory nm start end_ bsize ro => blkdev_register_memory nm start end_ bsize ro w
  | RegisterOps nm sz bsize ro c rd wr => blkdev_register_ops nm sz bsize ro c rd wr w
  end.

(** The arguments a registration refuses. *)
Definition refused (op : table_op) : bool :=
  match op with
  | RegisterMemory _ start end_ _ _ => end_ <=? start
  | RegisterOps _ sz _ _ _ rd _ => (sz =? 0) || match rd with None => true | Some _ => false end
  end.

(** The entry a registration makes. *)
Definition made (op : table_op) (i : nat) : @blkdev D :=
  match op with
  | RegisterMemory nm start end_ bsize ro =>
      Blkdev true (negb (ro =? 0)) false (Z.of_nat i) (if bsize =? 0 then 512 else bsize)
        (end_ - start) start 0 None None (take 15 (default [] nm))
  | RegisterOps nm sz bsize ro c rd wr =>
      Blkdev true (negb (ro =? 0)) true (Z.of_nat i) (if bsize =? 0 then 512 else bsize)
        sz 0 c rd wr (take 15 (default [] nm))
  end.

Lemma register_unfold op w :
  register op w = if refused op then (BLKDEV_INVALID_ID, w) else register_in_free (made op) w.
Proof.
  destruct op as [nm start end_ bsize ro|nm sz bsize ro c rd wr]; simpl;
    unfold blkdev_register_memory, blkdev_register_ops; rewrite copy_string_take.
  - done.
  - destruct rd; [|by rewrite orb_true_r]. by rewrite orb_false_r.
Qed.

Lemma made_wf op i : op_args_ok op → refused op = false → entry_wf i (made op i).
Proof.
  intros Hok Href _.
  assert (Hname : ∀ l : cstr, (length (take 15 l) < BLKDEV_NAME_MAX)%nat)
    by (intros; rewrite length_take; unfold BLKDEV_NAME_MAX; lia).
  destruct op as [nm start end_ bsize ro|nm sz bsize ro c rd wr]; simpl in *.
  - bool_to_prop. destruct (Z.eqb_spec bsize 0); split_and!; try done; lia.
  - apply orb_false_iff in Href as [Hs Hrd]. bool_to_prop.
    destruct rd; [|done]. destruct (Z.eqb_spec bsize 0); split_and!; try done; lia.
Qed.

(** C35 (type): The device table stays well formed from [blkdev_init] on: every entry in
    use has its own index as identifier, a positive block size and length, a terminated
    name, and either a read callback or a memory range below 4 GiB.  A registration
    that is not refused takes the first free entry and [blkdev_get] then returns
    exactly what was registered; with all 16 entries in use or bad arguments the
    result is the invalid identifier and the table is unchanged.  No other entry is
    touched. *)
Theorem blkdev_table_invariant ops w op :
  Forall op_args_ok ops → op_args_ok op →
  let w := foldl (λ w op, (register op w).2) (blkdev_init w) ops in
  let full := existsb (λ d, negb (in_use d)) (g_blkdevs w) = false in
  table_wf w ∧
  (refused op = true ∨ full → register op w = (BLKDEV_INVALID_ID, w)) ∧
  (refused op = false → ¬ full →
   ∃ i : nat, (i < BLKDEV_MAX)%nat ∧ (register op w).1 = Z.of_nat i
     ∧ blkdev_get (Z.of_nat i) w = None ∧ (∀ j, 0 ≤ j < Z.of_nat i → blkdev_get j w ≠ None)
     ∧ blkdev_get (Z.of_nat i) (register op w).2 = Some (made op i)
     ∧ ∀ j, j ≠ Z.of_nat i → 0 ≤ j → blkdev_get j (register op w).2 = blkdev_get j w).
Proof.
  intros Hops Hop. set (w0 := blkdev_init w). cbv zeta.
  assert (Hwf0 : table_wf w0).
  { split; [done|]. intros i dev [-> _]%lookup_replicate. done. }
  clearbody w0. clear w.
  assert (Hwf : table_wf (foldl (λ w op, (register op w).2) w0 ops)).
  { revert w0 Hwf0. induction Hops as [|o ops Ho _ IH]; intros w [Hlen Hent]; [done|]. apply IH.
    rewrite register_unfold. destruct (refused o) eqn:Hr; [by split|].
    unfold register_in_free. destruct (find_idx _ _) as [i|]; simpl; [|by split].
    split; [simpl; by rewrite length_insert|]. simpl. intros j dev Hj.
    apply list_lookup_insert_Some in Hj as [(-> & <- & _)|[_ Hj]]; [by apply made_wf|by apply Hent]. }
  revert Hwf. generalize (foldl (λ w op, (register op w).2) w0 ops) as w. clear -Hop.
  intros w [Hlen Hent]. split; [done|]. rewrite register_unfold. split.
  - intros [->|Hfull]; [done|]. destruct (refused op); [done|]. unfold register_in_free.
    destruct (find_idx _ _) as [i|] eqn:Hf; [|done].
    apply find_idx_Some in Hf as (x & Hx & Hfree & _).
    by rewrite (proj1 (existsb_false _ _) Hfull i x Hx) in Hfree.
  - intros -> Hfull. unfold register_in_free. destruct (find_idx _ _) as [i|] eqn:Hf.
    + pose proof (find_idx_lt _ _ _ Hf) as Hi. apply find_idx_Some in Hf as (x & Hx & Hfree & Hfirst).
      rewrite Hlen in Hi. exists i. unfold blkdev_get. simpl. unfold BLKDEV_MAX in *.
      rewrite (proj2 (Z.leb_gt _ _)) by lia. rewrite Nat2Z.id, Hx.
      rewrite list_lookup_insert_eq by lia. split_and!; try done.
      * by destruct (in_use x).
      * intros j Hj. rewrite (proj2 (Z.leb_gt _ _)) by lia.
        destruct (lookup_lt_is_Some_2 (g_blkdevs w) (Z.to_nat j)) as [y Hy]; [lia|]. rewrite Hy.
        specialize (Hfirst (Z.to_nat j) y ltac:(lia) Hy). by destruct (in_use y).
      * by destruct op.
      * intros j Hj Hj0. case_match; [done|]. by rewrite list_lookup_insert_ne by lia.
    + destruct Hfull. by apply existsb_false, find_idx_None.
Qed.

End table.

(** ** A small disk: four blocks of eight bytes, the last one bad *)

Definition demo_good (b : Z) : bool := negb (b =? 3).

Definition demo_read : @drv_read (Z → Z → Z) := λ c lba n d,
  if forallb demo_good (seqZ lba n) then (0, slice (d c) (lba * 8) (n * 8), d) else (5, [], d).

Definition demo_write : @drv_write (Z → Z → Z) := λ c lba n bytes d,
  if forallb demo_good (seqZ lba n)
  then (0, λ c' p, if c' =? c then overlay (d c) (lba * 8) bytes p else d c' p)
  else (5, d).

Definition demo_world : @world (Z → Z → Z) :=
  foldl (λ w op, (register op w).2) (blkdev_init (World [] (arr_fill 0) (λ _ p, 100 + p)))
    [RegisterOps (Some (lit "disk")) 32 8 0 7 (Some demo_read) (Some demo_write);
     RegisterMemory (Some (lit "ram")) 4096 8192 512 0].

Definition demo_dev : @blkdev (Z → Z → Z) :=
  Blkdev true false true 0 8 32 0 7 (Some demo_read) (Some demo_write) (lit "disk").

Definition demo_requests : list request :=
  [Write 5 [1; 2; 3; 4; 5]; Read 4 8; Read 20 8; Read 30 8; Write 0 [9]].

Lemma demo_all_good lba n : forallb demo_good (seqZ lba n) = true ↔ all_good demo_good lba n.
Proof.
  rewrite forallb_forall. setoid_rewrite <- list_elem_of_In. setoid_rewrite elem_of_seqZ. done.
Qed.

Lemma demo_device_ok : device_ok (λ d c p, d c p) demo_good demo_dev.
Proof.
  split; [simpl; lia|]. intros _. split_and!.
  - split; unfold SECTOR_BUFFER; simpl; lia.
  - exists demo_read. split; [done|]. split.
    + exists 4. done.
    + intros d lba n _ _ _ Hg%demo_all_good. simpl. unfold demo_read. rewrite Hg. by exists d.
    + intros d lba n _ _ _ Hg. simpl. unfold demo_read.
      destruct (forallb _ _) eqn:E; [by apply demo_all_good in E|]. by exists 5, [], d.
  - exists demo_write. split; [done|]. intros d lba n bytes _ _ _ Hg%demo_all_good _. simpl.
    unfold demo_write. rewrite Hg. eexists. split_and!; [done|..]; simpl.
    + done.
    + intros c p Hc. by rewrite (proj2 (Z.eqb_neq c 7) Hc).
Qed.

Example demo_replies :
  fst <$> serve_all 0 demo_requests demo_world
  = Some [(0, []); (0, [104; 1; 2; 3; 4; 5; 110; 111]); (-1, [120; 121; 122; 123]); (-1, []); (0, [])].
Proof. vm_compute. reflexivity. Qed.

Lemma blkdev_refines_flat_witness :
  ∃ ys w' c', serve_all 0 demo_requests demo_world = Some (ys, w')
    ∧ flat_run 32 false (media_ok demo_good demo_dev) (λ p, 100 + p) demo_requests ys c'
    ∧ (∀ p, content (λ d c p, d c p) demo_dev w' p = c' p)
    ∧ others_kept (λ d c p, d c p) demo_dev demo_world w'.
Proof.
  apply (blkdev_refines_flat (λ d c p, d c p) demo_good 0 demo_dev demo_requests demo_world).
  - reflexivity.
  - exact demo_device_ok.
  - unfold demo_requests. repeat (apply Forall_cons; split; [simpl; lia|]). by apply Forall_nil.
  - reflexivity.
Defined.

Lemma blkdev_read_blocks_wraps_witness :
  8 < 2 ^ 55 + 3 ∧
  blkdev_read_blocks 1 (2 ^ 55 + 3) 1 PtrValid demo_world
    = Some (0, slice (arr_get (ram demo_world)) (4096 + u64 ((2 ^ 55 + 3) * 512)) (1 * 512), demo_world).
Proof.
  split; [lia|].
  apply (blkdev_read_blocks_wraps 1
    (Blkdev true false false 1 512 4096 4096 0 None None (lit "ram")) (2 ^ 55 + 3) 1 demo_world);
    try reflexivity; vm_compute; intuition discriminate.
Defined.

Lemma blkdev_table_invariant_witness :
  (register (RegisterMemory (Some (lit "a long device name")) 0 1024 0 1)
     (foldl (λ w op, (register op w).2) (blkdev_init demo_world)
        [RegisterMemory None 5 5 1 0; RegisterMemory None 4096 8192 512 0])).1 = 1
  ∧ table_wf (foldl (λ w op, (register op w).2) (blkdev_init demo_world)
      [RegisterMemory None 5 5 1 0; RegisterMemory None 4096 8192 512 0]).
Proof.
  split; [vm_compute; reflexivity|].
  apply (blkdev_table_invariant [RegisterMemory None 5 5 1 0; RegisterMemory None 4096 8192 512 0]
    demo_world (RegisterMemory (Some (lit "a long device name")) 0 1024 0 1)).
  - repeat (apply Forall_cons; split; [simpl; lia|]). by apply Forall_nil.
  - simpl. lia.
Defined.
