(* ===== verification/Fips180.v ===== *)
(** * SHA-256 as FIPS 180-4 defines it

    The specification against which the hash of [kernel/credentials.c] is proved: the
    functions on words by their bits, the constants from the roots of primes, the message
    schedule, the compression function and the padding. *)

From S2P Require Import Prelude.

Module Fips.

(** ** Words *)

(** The number with the bits [f 0], [f 1], ... *)
Fixpoint of_bits (n : nat) (f : Z → bool) : Z :=
  match n with
  | O => 0
  | S n' => 2 * of_bits n' (λ i, f (i + 1)) + Z.b2z (f 0)
  end.

Definition word (x : Z) : Prop := 0 ≤ x < 2 ^ 32.
Definition add (x y : Z) : Z := (x + y) mod 2 ^ 32.

Definition rotr (n x : Z) : Z := of_bits 32 (λ i, Z.testbit x ((i + n) mod 32)).
Definition shr (n x : Z) : Z := x / 2 ^ n.
Definition xor3 (x y z : Z) : Z :=
  of_bits 32 (λ i, xorb (xorb (Z.testbit x i) (Z.testbit y i)) (Z.testbit z i)).
(** 4.1.2 *)
Definition ch (x y z : Z) : Z := of_bits 32 (λ i, if Z.testbit x i then Z.testbit y i else Z.testbit z i).
Definition maj (x y z : Z) : Z :=
  of_bits 32 (λ i, (Z.testbit x i && Z.testbit y i) || (Z.testbit x i && Z.testbit z i)
                   || (Z.testbit y i && Z.testbit z i)).
Definition Sigma0 (x : Z) : Z := xor3 (rotr 2 x) (rotr 13 x) (rotr 22 x).
Definition Sigma1 (x : Z) : Z := xor3 (rotr 6 x) (rotr 11 x) (rotr 25 x).
Definition sigma0 (x : Z) : Z := xor3 (rotr 7 x) (rotr 18 x) (shr 3 x).
Definition sigma1 (x : Z) : Z := xor3 (rotr 17 x) (rotr 19 x) (shr 10 x).

(** ** Constants *)

(** The [e]-th root of [n], rounded down, from bit [k - 1] of the result downwards. *)
Fixpoint root_from (k : nat) (e n r : Z) : Z :=
  match k with
  | O => r
  | S k' => let r' := r + 2 ^ Z.of_nat k' in root_from k' e n (if r' ^ e <=? n then r' else r)
  end.

(** The first 32 bits of the fractional part of the [e]-th root of [p]. *)
Definition root_bits (e p : Z) : Z := root_from 40 e (p * 2 ^ (32 * e)) 0 mod 2 ^ 32.

Definition is_prime (n : Z) : bool := forallb (λ d, negb (n mod d =? 0)) (seqZ 2 (n - 2)).
Definition primes : list Z := filter (λ n, is_prime n = true) (seqZ 2 310).

(** 4.2.2 and 5.3.3: cube roots of the first 64 primes, square roots of the first eight. *)
Definition K : list Z := root_bits 3 <$> primes.
Definition H0 : list Z := root_bits 2 <$> take 8 primes.

(** ** The hash *)

(** Big-endian numbers. *)
Definition be_value (l : list Z) : Z := foldl (λ v b, v * 256 + b) 0 l.
Definition be_bytes (n : nat) (v : Z) : list Z :=
  (λ i, (v / 256 ^ Z.of_nat i) mod 256) <$> reverse (seq 0 n).

(** 5.1.1, for a message of whole bytes: a one bit, zeros, and the length in bits. *)
Definition pad (m : list Z) : list Z :=
  let n := Z.of_nat (length m) in
  m ++ 128 :: replicate (Z.to_nat ((55 - n) mod 64)) 0 ++ be_bytes 8 (8 * n).

Definition groups (k n : nat) (l : list Z) : list (list Z) := reshape (replicate n k) l.

(** 6.2.2: the message schedule, the newest word first. *)
Fixpoint extend (n : nat) (w : list Z) : list Z :=
  match n with
  | O => w
  | S n' => extend n' (add (add (sigma1 (nth 1 w 0)) (nth 6 w 0)) (add (sigma0 (nth 14 w 0)) (nth 15 w 0)) :: w)
  end.

Definition schedule (block : list Z) : list Z :=
  reverse (extend 48 (reverse (be_value <$> groups 4 16 block))).

Definition compression_step (v : list Z) (kw : Z * Z) : list Z :=
  match v with
  | [a; b; c; d; e; f; g; h] =>
      let t1 := add (add (add h (Sigma1 e)) (add (ch e f g) kw.1)) kw.2 in
      let t2 := add (Sigma0 a) (maj a b c) in
      [add t1 t2; a; b; c; add d t1; e; f; g]
  | _ => v
  end.

Definition compress (h block : list Z) : list Z :=
  zip_with add h (foldl compression_step h (zip K (schedule block))).

Definition sha256 (m : list Z) : list Z :=
  mjoin (be_bytes 4 <$> foldl compress H0 (groups 64 (length (pad m) / 64) (pad m))).

(** ** Facts *)

Lemma of_bits_testbit n f i : Z.testbit (of_bits n f) i = if decide (0 ≤ i < Z.of_nat n) then f i else false.
Proof.
  revert f i. induction n as [|n IH]; intros f i; cbn [of_bits].
  { rewrite Z.bits_0. case_decide; [lia|done]. }
  destruct (decide (i < 0)) as [Hneg|Hpos]; [rewrite Z.testbit_neg_r by done; case_decide; [lia|done]|].
  destruct (decide (i = 0)) as [->|Hne].
  - rewrite Z.testbit_0_r. case_decide; [done|lia].
  - replace i with (Z.succ (i - 1)) at 1 by lia. rewrite Z.testbit_succ_r, IH by lia.
    replace (i - 1 + 1) with i by lia. repeat case_decide; done || lia.
Qed.

Lemma of_bits_range n f : 0 ≤ of_bits n f < 2 ^ Z.of_nat n.
Proof.
  revert f. induction n as [|n IH]; intros f; cbn [of_bits]; [done|].
  specialize (IH (λ i, f (i + 1))). rewrite Nat2Z.inj_succ, Z.pow_succ_r by lia.
  assert (0 ≤ Z.b2z (f 0) ≤ 1) by (destruct (f 0); simpl; lia). lia.
Qed.

(** A word is determined by its bits. *)
Lemma of_bits_eq x f : word x → (∀ i, 0 ≤ i < 32 → Z.testbit x i = f i) → x = of_bits 32 f.
Proof.
  intros Hx Hf. apply Z.bits_inj. intros i. rewrite of_bits_testbit. case_decide as Hi; [by apply Hf|].
  destruct (decide (i < 0)); [by apply Z.testbit_neg_r|].
  rewrite <- (Z.mod_small x (2 ^ 32)) by done. apply Z.mod_pow2_bits_high. lia.
Qed.

(** [root_from] is the integer root. *)
Lemma root_from_spec k e n r : r ^ e ≤ n < (r + 2 ^ Z.of_nat k) ^ e →
  let q := root_from k e n r in q ^ e ≤ n < (q + 1) ^ e.
Proof.
  revert r. induction k as [|k IH]; intros r Hr; cbn [root_from]; [done|]. cbv zeta. apply IH.
  destruct (Z.leb_spec ((r + 2 ^ Z.of_nat k) ^ e) n) as [Hle|Hlt]; [|lia]. split; [done|].
  rewrite Nat2Z.inj_succ, Z.pow_succ_r in Hr by lia.
  replace (r + 2 ^ Z.of_nat k + 2 ^ Z.of_nat k) with (r + 2 * 2 ^ Z.of_nat k) by lia. apply Hr.
Qed.

(** The list of primes, and what the constants are. *)
Lemma constants_ok : length primes = 64%nat ∧ Forall word K ∧ Forall word H0 ∧
  Forall (λ p, ∀ e, e = 2 ∨ e = 3 → ∃ i, let q := i * 2 ^ 32 + root_bits e p in
    q ^ e ≤ p * 2 ^ (32 * e) < (q + 1) ^ e) primes.
Proof.
  split_and!; [vm_compute; reflexivity|apply Forall_fmap, Forall_true; intros p; by apply Z.mod_pos_bound..|].
  apply Forall_forall. intros p Hp e He.
  assert (Hr : 2 ≤ p < 312) by (apply list_elem_of_filter in Hp as [_ Hp]; apply elem_of_seqZ in Hp; lia).
  set (q := root_from 40 e (p * 2 ^ (32 * e)) 0). exists (q / 2 ^ 32). unfold root_bits. fold q. cbv zeta.
  replace (q / 2 ^ 32 * 2 ^ 32 + q mod 2 ^ 32) with q by (rewrite Z.mul_comm; apply Z.div_mod; lia).
  apply root_from_spec. destruct He as [-> | ->]; lia.
Qed.
End Fips.
