(* ===== verification/Credentials.v ===== *)
(** * Password credentials ([kernel/credentials.c])

    SHA-256, HMAC, PBKDF2, and the textual password hash.  Bytes are integers from 0
    to 255; a C string is the list of its characters without the terminator, and
    reading the terminator gives 0.  Wiping buffers has no effect on the results and
    is left out; the time-stamp counter, the timer and [rdrand] are arguments of
    [credentials_generate_salt]. *)

From S2P Require Import Prelude.

Definition AOS_PASSWORD_SALT_SIZE : nat := 16.
Definition AOS_PASSWORD_HASH_SIZE : nat := 32.

Definition text_of (s : string) : list Z :=
  (λ c, Z.of_N (N_of_ascii c)) <$> String.list_ascii_of_string s.

(** [p[i]], 0 at the terminator *)
Definition at_ (p : list Z) (i : nat) : Z := default 0 (p !! i).

(** ** SHA-256 *)

(** The table [sha256_k] of the source, in decimal; [Sha256Props.k_fips] checks it against the
    definition of the constants. *)
Definition sha256_k : list Z := [
  1116352408; 1899447441; 3049323471; 3921009573;
  961987163; 1508970993; 2453635748; 2870763221;
  3624381080; 310598401; 607225278; 1426881987;
  1925078388; 2162078206; 2614888103; 3248222580;
  3835390401; 4022224774; 264347078; 604807628;
  770255983; 1249150122; 1555081692; 1996064986;
  2554220882; 2821834349; 2952996808; 3210313671;
  3336571891; 3584528711; 113926993; 338241895;
  666307205; 773529912; 1294757372; 1396182291;
  1695183700; 1986661051; 2177026350; 2456956037;
  2730485921; 2820302411; 3259730800; 3345764771;
  3516065817; 3600352804; 4094571909; 275423344;
  430227734; 506948616; 659060556; 883997877;
  958139571; 1322822218; 1537002063; 1747873779;
  1955562222; 2024104815; 2227730452; 2361852424;
  2428436474; 2756734187; 3204031479; 3329325298].

Definition sha256_initial : list Z := [
  0x6a09e667; 0xbb67ae85; 0x3c6ef372; 0xa54ff53a; 0x510e527f; 0x9b05688c; 0x1f83d9ab; 0x5be0cd19].

Definition load_be32 (p : list Z) (i : nat) : Z :=
  u32 (at_ p i .<< 24) .| (at_ p (i + 1) .<< 16) .| (at_ p (i + 2) .<< 8) .| at_ p (i + 3).

Definition store_be32 (value : Z) : list Z :=
  [u8 (value .>> 24); u8 (value .>> 16); u8 (value .>> 8); u8 value].

Definition rotate_right (value count : Z) : Z :=
  (value .>> count) .| u32 (value .<< (32 - count)).

(** The message schedule: [n] more words after those in [words]. *)
Fixpoint extend_words (n : nat) (words : list Z) : list Z :=
  match n with
  | O => words
  | S n' =>
      let i := length words in
      let w15 := at_ words (i - 15) in
      let w2 := at_ words (i - 2) in
      let s0 := rotate_right w15 7 .^ rotate_right w15 18 .^ (w15 .>> 3) in
      let s1 := rotate_right w2 17 .^ rotate_right w2 19 .^ (w2 .>> 10) in
      extend_words n' (words ++ [u32 (at_ words (i - 16) + s0 + at_ words (i - 7) + s1)])
  end.

Definition schedule (block : list Z) : list Z :=
  extend_words 48 ((λ i, load_be32 block (i * 4)) <$> seq 0 16).

(** The working variables [a] to [h]. *)
Record work := Work { wa : Z; wb : Z; wc : Z; wd : Z; we : Z; wf : Z; wg : Z; wh : Z }.

Definition sha256_round (v : work) (kw : Z * Z) : work :=
  let '(Work a b c d e f g h) := v in
  let sum1 := rotate_right e 6 .^ rotate_right e 11 .^ rotate_right e 25 in
  let choose := (e .& f) .^ ((0xFFFFFFFF .^ e) .& g) in
  let temp1 := u32 (h + sum1 + choose + kw.1 + kw.2) in
  let sum0 := rotate_right a 2 .^ rotate_right a 13 .^ rotate_right a 22 in
  let majority := (a .& b) .^ (a .& c) .^ (b .& c) in
  let temp2 := u32 (sum0 + majority) in
  Work (u32 (temp1 + temp2)) a b c (u32 (d + temp1)) e f g.

Definition sha256_transform (state block : list Z) : list Z :=
  let v := foldl sha256_round
    (Work (at_ state 0) (at_ state 1) (at_ state 2) (at_ state 3)
          (at_ state 4) (at_ state 5) (at_ state 6) (at_ state 7))
    (zip sha256_k (schedule block)) in
  [u32 (at_ state 0 + wa v); u32 (at_ state 1 + wb v); u32 (at_ state 2 + wc v);
   u32 (at_ state 3 + wd v); u32 (at_ state 4 + we v); u32 (at_ state 5 + wf v);
   u32 (at_ state 6 + wg v); u32 (at_ state 7 + wh v)].

(** [block] holds the first [block_len] bytes of the buffer; the rest of the buffer is
    never read before it is written. *)
Record sha256_ctx := Sha256Ctx { ctx_state : list Z; total_len : Z; ctx_block : list Z }.

Definition sha256_init : sha256_ctx := Sha256Ctx sha256_initial 0 [].

Definition sha256_update_byte (ctx : sha256_ctx) (b : Z) : sha256_ctx :=
  let block := ctx_block ctx ++ [b] in
  if (length block =? 64)%nat
  then Sha256Ctx (sha256_transform (ctx_state ctx) block) (total_len ctx) []
  else Sha256Ctx (ctx_state ctx) (total_len ctx) block.

Definition sha256_update (ctx : sha256_ctx) (input : list Z) : sha256_ctx :=
  foldl sha256_update_byte
    (Sha256Ctx (ctx_state ctx) (u64 (total_len ctx + Z.of_nat (length input))) (ctx_block ctx))
    input.

Definition pad_to (n : nat) (block : list Z) : list Z := block ++ replicate (n - length block) 0.

(** [(uint8_t)(bit_len >> (56 - i * 8))] for [i] from 0 to 7 *)
Definition store_be64 (v : Z) : list Z :=
  (λ i, u8 (v .>> (56 - Z.of_nat i * 8))) <$> seq 0 8.

Definition sha256_final (ctx : sha256_ctx) : list Z :=
  let bit_len := u64 (total_len ctx * 8) in
  let block := ctx_block ctx ++ [0x80] in
  let '(state, block) :=
    if (56 <? length block)%nat
    then (sha256_transform (ctx_state ctx) (pad_to 64 block), [])
    else (ctx_state ctx, block) in
  let state := sha256_transform state (pad_to 56 block ++ store_be64 bit_len) in
  mjoin ((λ i, store_be32 (at_ state i)) <$> seq 0 8).

(** ** HMAC and PBKDF2 *)

(** [key_block]: the key, or its hash when longer than a block, padded with zeros. *)
Definition hmac_key_block (key : list Z) : list Z :=
  pad_to 64 (if (64 <? length key)%nat then sha256_final (sha256_update sha256_init key) else key).

(** [second] is [None] for a [NULL] argument. *)
Definition hmac_sha256 (key first : list Z) (second : option (list Z)) : list Z :=
  let key_block := hmac_key_block key in
  let ctx := sha256_update sha256_init ((λ b, b .^ 0x36) <$> key_block) in
  let ctx := sha256_update ctx first in
  let ctx := match second with
             | Some s => if (length s =? 0)%nat then ctx else sha256_update ctx s
             | None => ctx
             end in
  let inner := sha256_final ctx in
  let ctx := sha256_update sha256_init ((λ b, b .^ 0x5c) <$> key_block) in
  sha256_final (sha256_update ctx inner).

Definition xor_bytes (a b : list Z) : list Z := zip_with Z.lxor a b.

(** The rounds after the first; [out] accumulates, [value] is the last HMAC. *)
Fixpoint pbkdf2_rounds (n : nat) (password out value : list Z) : list Z :=
  match n with
  | O => out
  | S n' =>
      let value := hmac_sha256 password value None in
      pbkdf2_rounds n' password (xor_bytes out value) value
  end.

Definition pbkdf2_sha256 (password salt : list Z) (iterations : Z) : list Z :=
  let value := hmac_sha256 password salt (Some [0; 0; 0; 1]) in
  pbkdf2_rounds (Z.to_nat (iterations - 1)) password value value.

(** ** Hexadecimal and decimal text *)

Definition hex_digit (value : Z) : Z := if value <? 10 then 48 + value else 97 + value - 10.

Definition parse_hex_digit (c : Z) : option Z :=
  if (48 <=? c) && (c <=? 57) then Some (c - 48)
  else if (97 <=? c) && (c <=? 102) then Some (c - 97 + 10)
  else if (65 <=? c) && (c <=? 70) then Some (c - 65 + 10)
  else None.

Definition bytes_to_hex (bytes : list Z) : list Z :=
  mjoin ((λ b, [hex_digit (b .>> 4); hex_digit (b .& 0x0f)]) <$> bytes).

(** [chars / 2] bytes from the text; [None] is -1. *)
Fixpoint hex_pairs (n : nat) (p : list Z) : option (list Z) :=
  match n with
  | O => Some []
  | S n' =>
      match parse_hex_digit (at_ p 0), parse_hex_digit (at_ p 1) with
      | Some high, Some low =>
          match hex_pairs n' (drop 2 p) with
          | Some bytes => Some (u8 ((high .<< 4) .| low) :: bytes)
          | None => None
          end
      | _, _ => None
      end
  end.

Definition hex_to_bytes (p : list Z) (chars : nat) : option (list Z) :=
  if negb (chars mod 2 =? 0)%nat then None else hex_pairs (chars / 2) p.

(** [append_text]: [out] is the text so far; [None] is -1. *)
Definition append_text (out : list Z) (out_size : nat) (txt : list Z) : option (list Z) :=
  if (out_size <? length out + length txt + 1)%nat then None else Some (out ++ txt).

(** The digits of [value], at most ten of them, most significant first. *)
Fixpoint decimal_digits (n : nat) (value : Z) (acc : list Z) : list Z :=
  match n with
  | O => acc
  | S n' =>
      let acc := 48 + value mod 10 :: acc in
      let value := value / 10 in
      if value =? 0 then acc else decimal_digits n' value acc
  end.

Definition append_decimal (out : list Z) (out_size : nat) (value : Z) : option (list Z) :=
  append_text out out_size (decimal_digits 10 value []).

Definition PBKDF2_PREFIX : list Z := text_of "$aos-pbkdf2-sha256$".
Definition LEGACY_PREFIX : list Z := text_of "$aos$".
Definition DOLLAR : Z := 36.

Definition credentials_format_password_hash (password salt : option (list Z)) (iterations : Z)
    (out : outptr) (out_size : nat) : option (list Z) :=
  match password, salt with
  | Some password, Some salt =>
      if is_null out || (iterations =? 0) || (out_size =? 0)%nat then None else
      let digest := pbkdf2_sha256 password salt iterations in
      t ← append_text [] out_size PBKDF2_PREFIX;
      t ← append_decimal t out_size iterations;
      t ← append_text t out_size [DOLLAR];
      t ← append_text t out_size (bytes_to_hex salt);
      t ← append_text t out_size [DOLLAR];
      append_text t out_size (bytes_to_hex digest)
  | _, _ => None
  end.

(** ** Verification *)

Fixpoint text_starts_with (value prefix : list Z) : bool :=
  match prefix with
  | [] => true
  | p :: prefix' =>
      if negb (at_ value 0 =? p) then false else text_starts_with (drop 1 value) prefix'
  end.

(** Over [length left] bytes. *)
Definition constant_time_equal (left right : list Z) : bool :=
  foldl (λ d i, d .| (at_ left i .^ at_ right i)) 0 (seq 0 (length left)) =? 0.

Definition is_digit (c : Z) : bool := (48 <=? c) && (c <=? 57).

(** The iteration count; [None] is [return 0] inside the loop. *)
Fixpoint parse_iterations (cursor : list Z) (iterations : Z) : option (Z * list Z) :=
  match cursor with
  | c :: rest =>
      if is_digit c then
        if 1000000 <? iterations then None
        else parse_iterations rest (u32 (iterations * 10 + (c - 48)))
      else Some (iterations, cursor)
  | [] => Some (iterations, cursor)
  end.

Definition verify_pbkdf2 (password encoded : list Z) : bool :=
  let cursor := drop (length PBKDF2_PREFIX) encoded in
  if negb (text_starts_with encoded PBKDF2_PREFIX) then false
  else if (at_ cursor 0 <? 49) || (57 <? at_ cursor 0) then false
  else match parse_iterations cursor 0 with
       | None => false
       | Some (iterations, cursor) =>
           if negb (at_ cursor 0 =? DOLLAR) || (iterations =? 0) || (1000000 <? iterations)
           then false else
           let cursor := drop 1 cursor in
           match hex_to_bytes cursor (AOS_PASSWORD_SALT_SIZE * 2) with
           | None => false
           | Some salt =>
               let cursor := drop (AOS_PASSWORD_SALT_SIZE * 2) cursor in
               if negb (at_ cursor 0 =? DOLLAR) then false else
               let cursor := drop 1 cursor in
               match hex_to_bytes cursor (AOS_PASSWORD_HASH_SIZE * 2) with
               | None => false
               | Some expected =>
                   if negb (at_ cursor (AOS_PASSWORD_HASH_SIZE * 2) =? 0) then false
                   else constant_time_equal expected (pbkdf2_sha256 password salt iterations)
               end
           end
       end.

(** One field of the legacy hash, terminator included. *)
Definition fnv_byte (hash b : Z) : Z := u64 ((hash .^ b) * 1099511628211).
Definition fnv_field (hash : Z) (field : list Z) : Z := fnv_byte (foldl fnv_byte hash field) 0xff.

Definition legacy_hash (username password : list Z) : Z :=
  fnv_field (fnv_field 1469598103934665603 username) password.

(** [expected[15]] down to [expected[0]], four bits each *)
Definition hash_to_hex (hash : Z) : list Z :=
  (λ i, hex_digit (u8 ((hash .>> (4 * (15 - Z.of_nat i))) .& 0x0f))) <$> seq 0 16.

Definition verify_legacy (username password encoded : list Z) : bool :=
  if negb (text_starts_with encoded LEGACY_PREFIX) || negb (length encoded =? 21)%nat then false
  else constant_time_equal (hash_to_hex (legacy_hash username password))
         (drop (length LEGACY_PREFIX) encoded).

Definition credentials_verify_password (username password encoded : option (list Z)) : bool :=
  match username, password, encoded with
  | Some username, Some password, Some encoded =>
      if at_ encoded 0 =? 0 then false
      else if text_starts_with encoded PBKDF2_PREFIX then verify_pbkdf2 password encoded
      else if text_starts_with encoded LEGACY_PREFIX then verify_legacy username password encoded
      else false
  | _, _, _ => false
  end.

(** ** Salt generation *)

(** A 64-bit word as it lies in memory. *)
Definition store_le64 (v : Z) : list Z := (λ i, u8 (v .>> (Z.of_nat i * 8))) <$> seq 0 8.

(** What the hardware and the call give: two time stamps, the tick count, the address
    of a stack variable, and the number of [rdrand] when there is one. *)
Record entropy_source := Entropy {
  tsc1 : Z; tsc2 : Z; ticks : Z; stack_address : Z; rdrand : option Z }.

(** [salt_counter] is the static counter, returned incremented. *)
Definition credentials_generate_salt (src : entropy_source) (context : option (list Z))
    (salt_counter : Z) : list Z * Z :=
  let salt_counter := u64 (salt_counter + 1) in
  let entropy4 := match rdrand src with
                  | Some v => v
                  | None => tsc2 src .^ u64 (salt_counter * 0x9e3779b97f4a7c15)
                  end in
  let entropy := mjoin (store_le64 <$>
                   [tsc1 src; ticks src; salt_counter; stack_address src; entropy4]) in
  let ctx := sha256_update sha256_init entropy in
  let ctx := match context with
             | Some c => if (length c =? 0)%nat then ctx else sha256_update ctx c
             | None => ctx
             end in
  (take AOS_PASSWORD_SALT_SIZE (sha256_final ctx), salt_counter).

(** ** Published test vectors *)

Example sha256_abc :
  bytes_to_hex (sha256_final (sha256_update sha256_init (text_of "abc"))) =
  text_of "ba7816bf8f01cfea414140de5dae2223b00361a396177a9cb410ff61f20015ad".
Proof. vm_compute. reflexivity. Qed.

Example hmac_vector :
  bytes_to_hex (hmac_sha256 (text_of "Jefe") (text_of "what do ya want ") (Some (text_of "for nothing?"))) =
  text_of "5bdcc146bf60754e6a042426089575c75a003f089d2739839dec58b964ec3843".
Proof. vm_compute. reflexivity. Qed.

Example pbkdf2_vector :
  bytes_to_hex (pbkdf2_sha256 (text_of "password") (text_of "salt") 2) =
  text_of "ae4d0c95af6b46d32d0adff928f06dd02a303f8ef3c251dfd6e2d85a95474c43".
Proof. vm_compute. reflexivity. Qed.

(** ** The hash of a message in one piece *)

(** Padding for a message of [n] bytes. *)
Definition padding (n : Z) : list Z :=
  0x80 :: replicate (Z.to_nat ((55 - n) mod 64)) 0 ++ store_be64 (u64 (n * 8)).

(** The 64-byte blocks of a message whose length is a multiple of 64. *)
Definition blocks (l : list Z) : list (list Z) := reshape (replicate (length l / 64) 64%nat) l.

Definition digest_bytes (state : list Z) : list Z :=
  mjoin ((λ i, store_be32 (at_ state i)) <$> seq 0 8).

Definition hash_message (m : list Z) : list Z :=
  digest_bytes (foldl sha256_transform sha256_initial
    (blocks (m ++ padding (Z.of_nat (length m))))).

Lemma length_join_64 (bs : list (list Z)) :
  Forall (λ b, length b = 64%nat) bs → length (mjoin bs) = (64 * length bs)%nat.
Proof.
  induction bs as [|b bs IH]; intros Hb; [done|]. apply Forall_cons in Hb as [H1 H2].
  simpl. rewrite length_app, H1, IH by done. lia.
Qed.

Lemma blocks_join (bs : list (list Z)) : Forall (λ b, length b = 64%nat) bs → blocks (mjoin bs) = bs.
Proof.
  intros Hb. unfold blocks. rewrite length_join_64, Nat.mul_comm, Nat.div_mul by done.
  induction bs as [|b bs IH]; [done|]. apply Forall_cons in Hb as [H1 H2]. simpl.
  rewrite take_app_length', drop_app_length' by done. by rewrite IH.
Qed.

(** The context after [m] has been absorbed. *)
Record absorbed (ctx : sha256_ctx) (m : list Z) : Prop := {
  ab_blocks : ∃ bs, Forall (λ b, length b = 64%nat) bs ∧ m = mjoin bs ++ ctx_block ctx ∧
    ctx_state ctx = foldl sha256_transform sha256_initial bs;
  ab_room : (length (ctx_block ctx) < 64)%nat
}.

Lemma update_byte_absorbed ctx m b :
  absorbed ctx m → absorbed (sha256_update_byte ctx b) (m ++ [b]) ∧
  total_len (sha256_update_byte ctx b) = total_len ctx.
Proof.
  intros [(bs & Hb & -> & Hs) Hr]. unfold sha256_update_byte.
  destruct (Nat.eqb_spec (length (ctx_block ctx ++ [b])) 64) as [E|E]; (split; [|done]); split; simpl.
  - exists (bs ++ [ctx_block ctx ++ [b]]). split_and!.
    + apply Forall_app. split; [done|]. by apply Forall_singleton.
    + rewrite join_app. simpl. by rewrite !app_nil_r, app_assoc.
    + by rewrite foldl_app, <- Hs.
  - lia.
  - exists bs. split_and!; [done|by rewrite app_assoc|done].
  - rewrite length_app in *. simpl in *. lia.
Qed.

Lemma update_absorbed ctx m l :
  absorbed ctx m → absorbed (sha256_update ctx l) (m ++ l) ∧
  total_len (sha256_update ctx l) = u64 (total_len ctx + Z.of_nat (length l)).
Proof.
  intros Hab. unfold sha256_update. set (c0 := Sha256Ctx _ _ _).
  assert (H0 : absorbed c0 m) by (destruct Hab; by split).
  change (u64 (total_len ctx + Z.of_nat (length l))) with (total_len c0).
  clearbody c0. clear Hab. revert m c0 H0.
  induction l as [|b l IH]; intros m c0 H0; simpl; [by rewrite app_nil_r|].
  destruct (update_byte_absorbed c0 m b H0) as [H1 H2].
  destruct (IH _ _ H1) as [H3 H4]. rewrite H4, H2. split; [|done].
  by rewrite <- app_assoc in H3.
Qed.

Lemma updates_absorbed parts ctx m :
  absorbed ctx m → total_len ctx = u64 (Z.of_nat (length m)) →
  absorbed (foldl sha256_update ctx parts) (m ++ mjoin parts) ∧
  total_len (foldl sha256_update ctx parts) = u64 (Z.of_nat (length (m ++ mjoin parts))).
Proof.
  revert ctx m. induction parts as [|p parts IH]; intros ctx m Hab Ht; simpl.
  { by rewrite app_nil_r. }
  destruct (update_absorbed ctx m p Hab) as [H1 H2].
  rewrite (app_assoc m p). apply IH; [done|]. rewrite H2, Ht, length_app.
  unfold u64. rewrite Zplus_mod_idemp_l. f_equal. lia.
Qed.

Lemma final_absorbed ctx m :
  absorbed ctx m → total_len ctx = u64 (Z.of_nat (length m)) → sha256_final ctx = hash_message m.
Proof.
  intros [(bs & Hb & Hm & Hs) Hr] Ht. unfold sha256_final, hash_message, digest_bytes, padding.
  rewrite Ht.
  assert (Hu : u64 (u64 (Z.of_nat (length m)) * 8) = u64 (Z.of_nat (length m) * 8)).
  { unfold u64. by rewrite Zmult_mod_idemp_l. }
  rewrite Hu. set (tail8 := store_be64 _).
  assert (H8 : length tail8 = 8%nat) by done. clearbody tail8.
  set (blk := ctx_block ctx) in *. set (b := length blk) in *.
  assert (Hn : (55 - Z.of_nat (length m)) mod 64 =
    if decide (b ≤ 55)%nat then 55 - Z.of_nat b else 119 - Z.of_nat b).
  { rewrite Hm, length_app, length_join_64 by done. fold blk. fold b.
    symmetry. case_decide; [apply (Z.mod_unique _ _ (- Z.of_nat (length bs)))|
      apply (Z.mod_unique _ _ (- Z.of_nat (length bs) - 1))]; lia. }
  rewrite Hn. clear Hn. fold blk.
  destruct (Nat.ltb_spec 56 (length (blk ++ [128]))) as [Hc|Hc]; rewrite length_app in Hc;
    cbn [length] in Hc; fold b in Hc; case_decide; try lia.
  - set (blk1 := pad_to 64 (blk ++ [128])). set (blk2 := pad_to 56 [] ++ tail8).
    assert (H1 : length blk1 = 64%nat) by (unfold blk1, pad_to; rewrite !length_app, length_replicate; simpl; lia).
    assert (H2 : length blk2 = 64%nat) by (unfold blk2, pad_to; rewrite !length_app, length_replicate; simpl; lia).
    assert (Hcat : m ++ 128 :: replicate (Z.to_nat (119 - Z.of_nat b)) 0 ++ tail8 =
      mjoin (bs ++ [blk1; blk2])).
    { rewrite join_app, Hm, <- app_assoc. f_equal.
      change (mjoin [blk1; blk2]) with (blk1 ++ blk2 ++ []). rewrite app_nil_r.
      unfold blk1, blk2, pad_to. rewrite <- !app_assoc. cbn [app length]. f_equal. f_equal.
      rewrite app_assoc, <- replicate_add. do 2 f_equal. rewrite length_app. cbn [length]. fold b. lia. }
    rewrite Hcat, blocks_join.
    + by rewrite foldl_app, Hs.
    + rewrite Forall_app, !Forall_cons. done.
  - set (blk1 := pad_to 56 (blk ++ [128]) ++ tail8).
    assert (H1 : length blk1 = 64%nat) by (unfold blk1, pad_to; rewrite !length_app, length_replicate; simpl; lia).
    assert (Hcat : m ++ 128 :: replicate (Z.to_nat (55 - Z.of_nat b)) 0 ++ tail8 = mjoin (bs ++ [blk1])).
    { rewrite join_app, Hm, <- app_assoc. f_equal.
      change (mjoin [blk1]) with (blk1 ++ []). rewrite app_nil_r.
      unfold blk1, pad_to. rewrite <- !app_assoc. cbn [app]. f_equal. f_equal.
      do 2 f_equal. rewrite length_app. cbn [length]. fold b. lia. }
    rewrite Hcat, blocks_join.
    + by rewrite foldl_app, Hs.
    + rewrite Forall_app, !Forall_cons. done.
Qed.

Lemma sha256_updates parts :
  sha256_final (foldl sha256_update sha256_init parts) = hash_message (mjoin parts).
Proof.
  assert (Hi : absorbed sha256_init []).
  { split; [|simpl; lia]. exists []. by split_and!. }
  destruct (updates_absorbed parts sha256_init [] Hi eq_refl) as [H1 H2].
  by apply final_absorbed.
Qed.

(** ** Text conversions *)

Definition byte (b : Z) : Prop := 0 ≤ b < 256.

(** A property of all bytes, checked by computation. *)
Lemma all_bytes (P : Z → bool) : forallb P (seqZ 0 256) = true → ∀ b, byte b → P b = true.
Proof.
  intros H b Hb. rewrite forallb_forall in H. apply H, list_elem_of_In, elem_of_seqZ.
  unfold byte in Hb. lia.
Qed.

Definition hex_ok (b : Z) : bool :=
  match parse_hex_digit (hex_digit (b .>> 4)), parse_hex_digit (hex_digit (b .& 0x0f)) with
  | Some high, Some low => u8 ((high .<< 4) .| low) =? b
  | _, _ => false
  end.

Lemma hex_pairs_join bytes rest :
  Forall byte bytes → hex_pairs (length bytes) (bytes_to_hex bytes ++ rest) = Some bytes.
Proof.
  induction bytes as [|b bytes IH]; intros Hb; [done|]. apply Forall_cons in Hb as [H1 H2].
  pose proof (all_bytes hex_ok ltac:(vm_compute; reflexivity) b H1) as Hok. unfold hex_ok in Hok.
  change (bytes_to_hex (b :: bytes) ++ rest) with
    (hex_digit (b .>> 4) :: hex_digit (b .& 0x0f) :: (bytes_to_hex bytes ++ rest)).
  cbn [length hex_pairs]. change (drop 2 (_ :: _ :: ?l)) with l.
  change (at_ (?x :: _) 0) with x. change (at_ (_ :: ?x :: _) 1) with x.
  rewrite IH by done.
  destruct (parse_hex_digit (hex_digit (b .>> 4))) as [high|]; [|done].
  destruct (parse_hex_digit (hex_digit (b .& 0x0f))) as [low|]; [|done].
  apply Z.eqb_eq in Hok. by rewrite Hok.
Qed.

Lemma length_bytes_to_hex bytes : length (bytes_to_hex bytes) = (2 * length bytes)%nat.
Proof.
  induction bytes as [|b bytes IH]; [done|].
  change (length (bytes_to_hex (b :: bytes))) with (S (S (length (bytes_to_hex bytes)))).
  rewrite IH. simpl. lia.
Qed.

Definition digits_value (acc : Z) (ds : list Z) : Z := foldl (λ a c, a * 10 + (c - 48)) acc ds.

Lemma digits_value_ge acc ds :
  0 ≤ acc → Forall (λ c, is_digit c = true) ds → acc ≤ digits_value acc ds.
Proof.
  revert acc. induction ds as [|c ds IH]; intros acc Ha Hd; simpl; [lia|].
  apply Forall_cons in Hd as [Hc Hd]. unfold is_digit in Hc. bool_to_prop.
  etrans; [|apply IH; [lia|done]]. lia.
Qed.

(** Parsing the digits gives their value, unless it is too large. *)
Lemma parse_iterations_digits ds c rest acc :
  0 ≤ acc → Forall (λ c, is_digit c = true) ds → is_digit c = false →
  match parse_iterations (ds ++ c :: rest) acc with
  | Some (v, cursor) => v = digits_value acc ds ∧ cursor = c :: rest
  | None => 1000000 < digits_value acc ds
  end.
Proof.
  revert acc. induction ds as [|d ds IH]; intros acc Ha Hd Hc.
  { cbn [app parse_iterations]. by rewrite Hc. }
  apply Forall_cons in Hd as [Hd1 Hd]. cbn [app parse_iterations digits_value foldl].
  rewrite Hd1. unfold is_digit in Hd1. bool_to_prop.
  destruct (1000000 <? acc) eqn:E; bool_to_prop.
  - pose proof (digits_value_ge (acc * 10 + (d - 48)) ds ltac:(lia) Hd). unfold digits_value in *. lia.
  - rewrite u32_small by lia. apply IH; [lia|done|done].
Qed.

(** What [append_decimal] appends. *)
Lemma decimal_digits_spec n v acc :
  0 < v < 10 ^ Z.of_nat n →
  ∃ ds, decimal_digits n v acc = ds ++ acc ∧ Forall (λ c, is_digit c = true) ds ∧
    digits_value 0 ds = v ∧ (length ds ≤ n)%nat ∧ ∃ d ds', ds = d :: ds' ∧ 49 ≤ d ≤ 57.
Proof.
  revert v acc. induction n as [|n IH]; intros v acc Hv; [simpl in Hv; lia|].
  cbn [decimal_digits]. pose proof (Z.mod_pos_bound v 10 ltac:(lia)). pose proof (Z.div_mod v 10 ltac:(lia)).
  assert (Hdig : is_digit (48 + v mod 10) = true) by (unfold is_digit; apply andb_true_iff; split; apply Z.leb_le; lia).
  destruct (Z.eqb_spec (v / 10) 0) as [E|E].
  - exists [48 + v mod 10]. split_and!; [done|by apply Forall_singleton|unfold digits_value; simpl; lia|simpl; lia|].
    exists (48 + v mod 10), []. split; [done|lia].
  - assert (0 ≤ v / 10) by (apply Z.div_pos; lia).
    rewrite Nat2Z.inj_succ, Z.pow_succ_r in Hv by lia.
    destruct (IH (v / 10) (48 + v mod 10 :: acc)) as (ds & Hds & Hall & Hval & Hlen & d & ds' & -> & Hd).
    { split; [lia|]. apply Z.div_lt_upper_bound; lia. }
    exists ((d :: ds') ++ [48 + v mod 10]). split_and!.
    + by rewrite Hds, <- app_assoc.
    + apply Forall_app. split; [done|by apply Forall_singleton].
    + unfold digits_value in *. rewrite foldl_app, Hval. simpl. lia.
    + rewrite length_app. simpl in *. lia.
    + exists d, (ds' ++ [48 + v mod 10]). done.
Qed.

(** ** Digests are 32 bytes *)

Lemma u8_byte z : byte (u8 z).
Proof. unfold byte, u8. apply Z.mod_pos_bound. lia. Qed.

Lemma digest_bytes_ok st : length (digest_bytes st) = 32%nat ∧ Forall byte (digest_bytes st).
Proof.
  split; [done|]. unfold digest_bytes, store_be32. simpl.
  repeat (apply Forall_cons; split; [apply u8_byte|]). constructor.
Qed.

Lemma hmac_ok key first second :
  length (hmac_sha256 key first second) = 32%nat ∧ Forall byte (hmac_sha256 key first second).
Proof. unfold hmac_sha256, sha256_final. case_match. apply digest_bytes_ok. Qed.

Lemma lxor_byte a b : byte a → byte b → byte (a .^ b).
Proof.
  unfold byte. intros Ha Hb. change 256 with (2 ^ 8) in *.
  assert (0 ≤ a .^ b) by (apply Z.lxor_nonneg; lia). split; [done|].
  destruct (decide (a .^ b = 0)) as [->|]; [lia|]. apply Z.log2_lt_pow2; [lia|].
  eapply Z.le_lt_trans; [apply Z.log2_lxor; lia|].
  apply Z.max_lub_lt.
  - destruct (decide (a = 0)) as [->|]; [simpl; lia|]. apply Z.log2_lt_pow2; lia.
  - destruct (decide (b = 0)) as [->|]; [simpl; lia|]. apply Z.log2_lt_pow2; lia.
Qed.

Lemma xor_bytes_ok a b :
  length a = 32%nat → Forall byte a → length b = 32%nat → Forall byte b →
  length (xor_bytes a b) = 32%nat ∧ Forall byte (xor_bytes a b).
Proof.
  intros Ha1 Ha2 Hb1 Hb2. unfold xor_bytes. split; [rewrite length_zip_with; lia|].
  clear Ha1 Hb1. revert b Hb2. induction Ha2 as [|x a Hx Ha IH]; intros [|y b] Hb; simpl; try by constructor.
  apply Forall_cons in Hb as [Hy Hb]. constructor; [by apply lxor_byte|by apply IH].
Qed.

Lemma pbkdf2_ok password salt iterations :
  length (pbkdf2_sha256 password salt iterations) = 32%nat ∧
  Forall byte (pbkdf2_sha256 password salt iterations).
Proof.
  unfold pbkdf2_sha256. destruct (hmac_ok password salt (Some [0; 0; 0; 1])) as [H1 H2].
  generalize (hmac_sha256 password salt (Some [0; 0; 0; 1])) at 2 4 as value.
  revert H1 H2. generalize (hmac_sha256 password salt (Some [0; 0; 0; 1])) as out.
  induction (Z.to_nat (iterations - 1)) as [|n IH]; intros out H1 H2 value; [done|]. simpl.
  destruct (hmac_ok password value None). apply IH; by apply xor_bytes_ok.
Qed.

(** ** Comparison *)

Lemma foldl_lor_zero (f : nat → Z) l d :
  0 ≤ d → (∀ i, i ∈ l → 0 ≤ f i) →
  foldl (λ d i, d .| f i) d l = 0 ↔ d = 0 ∧ ∀ i, i ∈ l → f i = 0.
Proof.
  revert d. induction l as [|i l IH]; intros d Hd Hf; simpl; [set_solver|].
  rewrite IH; [|by apply Z.lor_nonneg; split; [|apply Hf; set_solver]|set_solver].
  rewrite Z.lor_eq_0_iff. set_solver.
Qed.

Lemma constant_time_equal_spec a b :
  Forall byte a → Forall byte b → length a = length b →
  constant_time_equal a b = bool_decide (a = b).
Proof.
  intros Ha Hb Hlen. unfold constant_time_equal.
  assert (Hat : ∀ l i, Forall byte l → 0 ≤ at_ l i).
  { intros l i Hl. unfold at_. destruct (l !! i) eqn:E; simpl; [|lia].
    pose proof (Forall_lookup_1 _ _ _ _ Hl E) as H. unfold byte in H. lia. }
  apply Bool.eq_true_iff_eq. rewrite Z.eqb_eq, bool_decide_eq_true, foldl_lor_zero; [|lia|].
  2: { intros i _. apply Z.lxor_nonneg. split; intros; by apply Hat. }
  split.
  - intros [_ H]. apply list_eq_same_length with (length a); [done|done|].
    intros i x y Hi Hx Hy. specialize (H i ltac:(apply elem_of_seq; lia)).
    apply Z.lxor_eq in H. unfold at_ in H. rewrite Hx, Hy in H. done.
  - intros ->. split; [done|]. intros i _. apply Z.lxor_nilpotent.
Qed.

Lemma starts_with_app prefix rest : text_starts_with (prefix ++ rest) prefix = true.
Proof.
  induction prefix as [|p prefix IH]; [done|]. simpl. unfold at_. simpl.
  rewrite Z.eqb_refl. simpl. by rewrite drop_0.
Qed.

(** The encoded form: prefix, decimal count, salt and digest in hexadecimal. *)
Definition encoded_hash (ds salt digest : list Z) : list Z :=
  PBKDF2_PREFIX ++ ds ++ DOLLAR :: bytes_to_hex salt ++ DOLLAR :: bytes_to_hex digest.

Lemma append_text_ok out out_size txt :
  (length out + length txt < out_size)%nat → append_text out out_size txt = Some (out ++ txt).
Proof. intros H. unfold append_text. by rewrite (proj2 (Nat.ltb_ge _ _)) by lia. Qed.

Lemma format_encoded password salt iterations out_size :
  length salt = AOS_PASSWORD_SALT_SIZE → 0 < iterations < 2 ^ 32 → (128 ≤ out_size)%nat →
  ∃ ds, Forall (λ c, is_digit c = true) ds ∧ digits_value 0 ds = iterations ∧
    (∃ d ds', ds = d :: ds' ∧ 49 ≤ d ≤ 57) ∧
    credentials_format_password_hash (Some password) (Some salt) iterations PtrValid out_size =
      Some (encoded_hash ds salt (pbkdf2_sha256 password salt iterations)).
Proof.
  intros Hs Hi Ho. destruct (decimal_digits_spec 10 iterations []) as (ds & Hds & Hall & Hval & Hlen & Hhd);
    [change (Z.of_nat 10) with 10; lia|]. rewrite app_nil_r in Hds.
  exists ds. split_and!; [done|done|done|]. unfold credentials_format_password_hash.
  rewrite (proj2 (Z.eqb_neq _ 0)), (proj2 (Nat.eqb_neq out_size 0)) by lia. cbn [is_null orb].
  destruct (pbkdf2_ok password salt iterations) as [Hd _].
  set (digest := pbkdf2_sha256 _ _ _) in *. clearbody digest.
  assert (HP : length PBKDF2_PREFIX = 19%nat) by done. unfold AOS_PASSWORD_SALT_SIZE in Hs.
  unfold append_decimal. rewrite Hds.
  repeat (rewrite append_text_ok by
    (repeat (rewrite length_app || rewrite length_bytes_to_hex); simpl; lia); cbn [mbind option_bind]).
  unfold encoded_hash. cbn [app]. by rewrite <- !app_assoc.
Qed.

Lemma drop_prefix_app (p l : list Z) : drop (length p) (p ++ l) = l.
Proof. by rewrite drop_app_length. Qed.

(** Verification of an encoded hash. *)
Lemma verify_encoded password ds salt digest :
  length salt = AOS_PASSWORD_SALT_SIZE → Forall byte salt →
  length digest = AOS_PASSWORD_HASH_SIZE → Forall byte digest →
  Forall (λ c, is_digit c = true) ds → (∃ d ds', ds = d :: ds' ∧ 49 ≤ d ≤ 57) →
  verify_pbkdf2 password (encoded_hash ds salt digest) =
    (digits_value 0 ds <=? 1000000) &&
    bool_decide (digest = pbkdf2_sha256 password salt (digits_value 0 ds)).
Proof.
  intros Hs1 Hs2 Hd1 Hd2 Hall (d & ds' & Hds & Hd). unfold verify_pbkdf2, encoded_hash.
  rewrite starts_with_app, drop_prefix_app. cbn [negb].
  assert (Hfirst : at_ (ds ++ DOLLAR :: bytes_to_hex salt ++ DOLLAR :: bytes_to_hex digest) 0 = d)
    by (by rewrite Hds).
  rewrite Hfirst, (proj2 (Z.ltb_ge d 49)), (proj2 (Z.ltb_ge 57 d)) by lia. cbn [orb].
  pose proof (parse_iterations_digits ds DOLLAR
    (bytes_to_hex salt ++ DOLLAR :: bytes_to_hex digest) 0 ltac:(lia) Hall eq_refl) as Hp.
  destruct (parse_iterations _ 0) as [[it cursor]|]; cycle 1.
  { by rewrite (proj2 (Z.leb_gt _ _)) by lia. }
  destruct Hp as [-> ->]. set (it := digits_value 0 ds) in *.
  change (at_ (DOLLAR :: _) 0) with DOLLAR. rewrite Z.eqb_refl. cbn [negb orb].
  assert (Hit : 0 < it).
  { unfold it. rewrite Hds. rewrite Hds in Hall. apply Forall_cons in Hall as [_ Hall].
    pose proof (digits_value_ge (0 * 10 + (d - 48)) ds' ltac:(lia) Hall).
    unfold digits_value in *. simpl in *. lia. }
  rewrite (proj2 (Z.eqb_neq it 0)) by lia. cbn [orb].
  destruct (Z.ltb_spec 1000000 it) as [Hbig|Hbig]; [by rewrite (proj2 (Z.leb_gt _ _)) by lia|].
  rewrite (proj2 (Z.leb_le _ _) Hbig). cbn [andb]. change (drop 1 (_ :: ?l)) with l.
  assert (Hhex : ∀ bytes rest k, length bytes = k → Forall byte bytes →
    hex_to_bytes (bytes_to_hex bytes ++ rest) (k * 2) = Some bytes).
  { intros bytes rest k <- Hb. unfold hex_to_bytes. rewrite Nat.Div0.mod_mul, Nat.div_mul by lia.
    cbn [Nat.eqb negb]. by apply hex_pairs_join. }
  rewrite Hhex by done.
  replace (AOS_PASSWORD_SALT_SIZE * 2)%nat with (length (bytes_to_hex salt))
    by (rewrite length_bytes_to_hex, Hs1; done).
  rewrite drop_prefix_app. change (at_ (DOLLAR :: _) 0) with DOLLAR. rewrite Z.eqb_refl.
  cbn [negb]. change (drop 1 (_ :: ?l)) with l.
  rewrite <- (app_nil_r (bytes_to_hex digest)). rewrite Hhex by done. rewrite app_nil_r.
  assert (Hend : at_ (bytes_to_hex digest) (AOS_PASSWORD_HASH_SIZE * 2) = 0).
  { unfold at_. rewrite lookup_ge_None_2; [done|]. rewrite length_bytes_to_hex, Hd1.
    unfold AOS_PASSWORD_HASH_SIZE. lia. }
  rewrite Hend. cbn [Z.eqb negb]. destruct (pbkdf2_ok password salt it) as [L1 L2].
  apply constant_time_equal_spec; [done|done|]. by rewrite L1.
Qed.

Lemma sha256_one a : sha256_final (sha256_update sha256_init a) = hash_message a.
Proof. rewrite (sha256_updates [a] : sha256_final (sha256_update sha256_init a) = _). simpl. by rewrite app_nil_r. Qed.

Lemma sha256_two a b :
  sha256_final (sha256_update (sha256_update sha256_init a) b) = hash_message (a ++ b).
Proof.
  rewrite (sha256_updates [a; b] : sha256_final (sha256_update (sha256_update sha256_init a) b) = _).
  simpl. by rewrite app_nil_r.
Qed.

Lemma sha256_three a b c :
  sha256_final (sha256_update (sha256_update (sha256_update sha256_init a) b) c) = hash_message (a ++ b ++ c).
Proof.
  rewrite (sha256_updates [a; b; c] :
    sha256_final (sha256_update (sha256_update (sha256_update sha256_init a) b) c) = _).
  simpl. by rewrite app_nil_r.
Qed.

Lemma hmac_key_block_eq key :
  hmac_key_block key = pad_to 64 (if (64 <? length key)%nat then hash_message key else key).
Proof. unfold hmac_key_block. by rewrite sha256_one. Qed.

(** ** Properties *)

(** [hmac_sha256] is the HMAC of RFC 2104 over the concatenation of
    its two message parts, with keys longer than a block hashed first; [Sha256Props] shows
    that [hash_message] is SHA-256. *)
Theorem hmac_sha256_rfc2104 key first second :
  let k0 := pad_to 64 (if (64 <? length key)%nat then hash_message key else key) in
  hmac_sha256 key first second =
  hash_message (((λ b, b .^ 0x5c) <$> k0) ++
          hash_message (((λ b, b .^ 0x36) <$> k0) ++ first ++ default [] second)).
Proof.
  intros k0. unfold hmac_sha256. rewrite hmac_key_block_eq. fold k0. clearbody k0.
  destruct second as [[|b s]|]; cbn [length Nat.eqb default].
  - by rewrite !sha256_two, app_nil_r.
  - by rewrite sha256_three, sha256_two.
  - by rewrite !sha256_two, app_nil_r.
Qed.

(** C27 (round trip): the text that [credentials_format_password_hash] writes for a
    password verifies with another password exactly when both derive the same key from
    the stored salt and count, and the count is at most 1,000,000.  A hash formatted with
    a larger count is accepted by the formatter but never verifies. *)
Theorem credentials_verify_format username password attempt salt iterations out_size :
  length salt = AOS_PASSWORD_SALT_SIZE → Forall byte salt →
  0 < iterations < 2 ^ 32 → (128 ≤ out_size)%nat →
  ∃ encoded,
    credentials_format_password_hash (Some password) (Some salt) iterations PtrValid out_size =
      Some encoded ∧
    credentials_verify_password (Some username) (Some attempt) (Some encoded) =
      (iterations <=? 1000000) &&
      bool_decide (pbkdf2_sha256 password salt iterations = pbkdf2_sha256 attempt salt iterations).
Proof.
  intros Hs Hsb Hi Ho.
  destruct (format_encoded password salt iterations out_size Hs Hi Ho) as (ds & Hall & Hval & Hhd & Hf).
  eexists. split; [exact Hf|]. unfold credentials_verify_password.
  assert (H0 : (at_ (encoded_hash ds salt (pbkdf2_sha256 password salt iterations)) 0 =? 0) = false) by done.
  rewrite H0. unfold encoded_hash at 1. rewrite starts_with_app.
  destruct (pbkdf2_ok password salt iterations) as [L1 L2].
  rewrite verify_encoded by done. by rewrite Hval.
Qed.

Lemma credentials_verify_format_witness :
  let salt := seqZ 0 16 in
  ∃ encoded,
    credentials_format_password_hash (Some (text_of "secret")) (Some salt) 2 PtrValid 160 = Some encoded ∧
    credentials_verify_password (Some (text_of "root")) (Some (text_of "secret")) (Some encoded) = true.
Proof.
  intros salt.
  assert (Hb : Forall byte salt).
  { apply Forall_forall. intros x Hx%elem_of_seqZ. unfold byte. lia. }
  destruct (credentials_verify_format (text_of "root") (text_of "secret") (text_of "secret") salt 2 160
    eq_refl Hb ltac:(lia) ltac:(lia)) as (encoded & H1 & H2).
  exists encoded. split; [exact H1|]. rewrite H2.
  change (2 <=? 1000000) with true. cbn [andb]. apply bool_decide_eq_true_2. reflexivity.
Defined.
