(* ===== verification/Sha256Props.v ===== *)
(** * The hash of the kernel is SHA-256

    [sha256_transform] of [kernel/credentials.c] is the compression function of FIPS 180-4,
    and the hash of a message, given in any pieces, is the one of the standard. *)

From S2P Require Import Prelude Fips180 Credentials.

(** ** Functions on words *)

Lemma word_bit x i : Fips.word x → 32 ≤ i → Z.testbit x i = false.
Proof.
  intros Hx Hi. rewrite <- (Z.mod_small x (2 ^ 32)) by done. apply Z.mod_pow2_bits_high. lia.
Qed.

(** Bits from 32 on are zero: a word. *)
Lemma word_bits x : 0 ≤ x → (∀ i, 32 ≤ i → Z.testbit x i = false) → Fips.word x.
Proof.
  intros Hx Hb. replace x with (x mod 2 ^ 32); [by apply Z.mod_pos_bound|]. apply Z.bits_inj. intros i.
  destruct (decide (i < 32)) as [Hi|Hi]; [by apply Z.mod_pow2_bits_low|].
  rewrite Z.mod_pow2_bits_high, Hb by lia. done.
Qed.

Lemma of_bits_word f : Fips.word (Fips.of_bits 32 f).
Proof. apply Fips.of_bits_range. Qed.
Lemma add_word x y : Fips.word (Fips.add x y).
Proof. by apply Z.mod_pos_bound. Qed.
#[local] Hint Resolve of_bits_word add_word : core.

Lemma rotate_fips x n : Fips.word x → 0 < n < 32 → rotate_right x n = Fips.rotr n x.
Proof.
  intros Hx Hn. unfold rotate_right, Fips.rotr.
  assert (Hbit : ∀ i, 0 ≤ i → Z.testbit ((x .>> n) .| u32 (x .<< (32 - n))) i =
    if decide (i < 32) then Z.testbit x ((i + n) mod 32) else false).
  { intros i Hi. rewrite Z.lor_spec, Z.shiftr_spec by done. unfold u32. case_decide as H32.
    - rewrite Z.mod_pow2_bits_low, Z.shiftl_spec by lia. destruct (decide (i + n < 32)).
      + rewrite (Z.testbit_neg_r x (i - (32 - n))), orb_false_r, Z.mod_small by lia. done.
      + rewrite (word_bit x (i + n)), orb_false_l by (done || lia). f_equal.
        apply (Z.mod_unique _ _ 1); lia.
    - rewrite Z.mod_pow2_bits_high, (word_bit x (i + n)) by (done || lia). done. }
  apply Fips.of_bits_eq.
  - apply word_bits.
    + apply Z.lor_nonneg. split; [apply Z.shiftr_nonneg, Hx|by apply Z.mod_pos_bound].
    + intros i Hi. rewrite Hbit, decide_False by lia. done.
  - intros i Hi. by rewrite Hbit, decide_True by lia.
Qed.

Lemma xor3_fips x y z : Fips.word x → Fips.word y → Fips.word z → x .^ y .^ z = Fips.xor3 x y z.
Proof.
  intros Hx Hy Hz. apply Fips.of_bits_eq; [|intros i _; by rewrite !Z.lxor_spec]. apply word_bits.
  - apply Z.lxor_nonneg. rewrite Z.lxor_nonneg. destruct Hx, Hy, Hz. tauto.
  - intros i Hi. by rewrite !Z.lxor_spec, !word_bit.
Qed.

Lemma ch_fips x y z : Fips.word x → Fips.word y → Fips.word z →
  (x .& y) .^ ((0xFFFFFFFF .^ x) .& z) = Fips.ch x y z.
Proof.
  intros Hx Hy Hz. assert (Hbit : ∀ i, 0 ≤ i → Z.testbit ((x .& y) .^ ((0xFFFFFFFF .^ x) .& z)) i =
    if Z.testbit x i then Z.testbit y i else Z.testbit z i).
  { intros i Hi. rewrite Z.lxor_spec, !Z.land_spec, Z.lxor_spec. destruct (decide (i < 32)).
    - change 0xFFFFFFFF with (Z.ones 32). rewrite Z.ones_spec_low by lia.
      by destruct (Z.testbit x i), (Z.testbit y i), (Z.testbit z i).
    - rewrite !(word_bit x i), !(word_bit y i), !(word_bit z i) by (done || lia). by rewrite !andb_false_r. }
  apply Fips.of_bits_eq; [|intros i Hi; apply Hbit; lia]. apply word_bits.
  - apply Z.lxor_nonneg. destruct Hx as [Hx _], Hy as [Hy _], Hz as [Hz _].
    assert (0 ≤ x .& y) by (apply Z.land_nonneg; by left).
    assert (0 ≤ (0xFFFFFFFF .^ x) .& z) by (apply Z.land_nonneg; by right). tauto.
  - intros i Hi. rewrite Hbit, (word_bit y i), (word_bit z i) by (done || lia). by destruct (Z.testbit x i).
Qed.

Lemma maj_fips x y z : Fips.word x → Fips.word y → Fips.word z →
  (x .& y) .^ (x .& z) .^ (y .& z) = Fips.maj x y z.
Proof.
  intros Hx Hy Hz. assert (Hnn : ∀ a b, 0 ≤ a → 0 ≤ a .& b) by (intros a b Ha; apply Z.land_nonneg; by left).
  apply Fips.of_bits_eq.
  - apply word_bits.
    + apply Z.lxor_nonneg. rewrite Z.lxor_nonneg. destruct Hx, Hy. split; intros _; [by auto|].
      split; auto.
    + intros i Hi. by rewrite !Z.lxor_spec, !Z.land_spec, !(word_bit x i), !(word_bit y i) by done.
  - intros i _. rewrite !Z.lxor_spec, !Z.land_spec. by destruct (Z.testbit x i), (Z.testbit y i), (Z.testbit z i).
Qed.

Lemma shr_fips x n : 0 ≤ n → x .>> n = Fips.shr n x.
Proof. intros Hn. by apply Z.shiftr_div_pow2. Qed.

Lemma shr_word x n : Fips.word x → 0 ≤ n → Fips.word (Fips.shr n x).
Proof.
  intros [Hx1 Hx2] Hn. unfold Fips.shr. split; [apply Z.div_pos; lia|].
  apply Z.div_lt_upper_bound; [lia|]. pose proof (Z.pow_pos_nonneg 2 n ltac:(lia) Hn). nia.
Qed.

(** The sums of rotations, as the code and as the standard write them. *)
Lemma sums_fips x : Fips.word x →
  rotate_right x 2 .^ rotate_right x 13 .^ rotate_right x 22 = Fips.Sigma0 x ∧
  rotate_right x 6 .^ rotate_right x 11 .^ rotate_right x 25 = Fips.Sigma1 x ∧
  rotate_right x 7 .^ rotate_right x 18 .^ (x .>> 3) = Fips.sigma0 x ∧
  rotate_right x 17 .^ rotate_right x 19 .^ (x .>> 10) = Fips.sigma1 x.
Proof.
  intros Hx. rewrite !rotate_fips, !shr_fips by (done || lia).
  assert (Hr : ∀ n, Fips.word (Fips.rotr n x)) by (intros; apply of_bits_word).
  split_and!; apply xor3_fips; (done || by apply shr_word).
Qed.

(** Sums modulo [2 ^ 32] in any order. *)
Lemma add_mod_l x y : (x mod 2 ^ 32 + y) mod 2 ^ 32 = (x + y) mod 2 ^ 32.
Proof. apply Zplus_mod_idemp_l. Qed.

Lemma temp1_fips h s c k w : u32 (h + s + c + k + w) = Fips.add (Fips.add (Fips.add h s) (Fips.add c k)) w.
Proof.
  unfold Fips.add, u32. rewrite add_mod_l, <- (Z.add_assoc ((h + s) mod 2 ^ 32)), add_mod_l.
  rewrite (Z.add_comm (h + s) (_ mod _ + w)), <- (Z.add_assoc ((c + k) mod 2 ^ 32)), add_mod_l. f_equal. lia.
Qed.

Lemma schedule_word_fips a b c d : u32 (a + b + c + d) = Fips.add (Fips.add d c) (Fips.add b a).
Proof. unfold Fips.add, u32. rewrite add_mod_l, (Z.add_comm (d + c) (_ mod _)), add_mod_l. f_equal. lia. Qed.

(** ** The compression function *)

Definition to_work (v : list Z) : work :=
  Work (at_ v 0) (at_ v 1) (at_ v 2) (at_ v 3) (at_ v 4) (at_ v 5) (at_ v 6) (at_ v 7).

Definition state_ok (v : list Z) : Prop := length v = 8%nat ∧ Forall Fips.word v.

Lemma round_fips v kw : state_ok v → state_ok (Fips.compression_step v kw) ∧
  sha256_round (to_work v) kw = to_work (Fips.compression_step v kw).
Proof.
  intros [Hlen Hw]. destruct v as [|a [|b [|c [|d [|e [|f [|g [|h [|]]]]]]]]]; try done.
  rewrite !Forall_cons in Hw. destruct Hw as (Ha & Hb & Hc & Hd & He & Hf & Hg & Hh & _).
  cbn [Fips.compression_step]. cbv zeta. split.
  - split; [done|]. rewrite !Forall_cons. split_and!; auto.
  - unfold to_work, at_. cbn [lookup list_lookup default from_option id]. unfold sha256_round.
    destruct (sums_fips e He) as (_ & -> & _). destruct (sums_fips a Ha) as (-> & _).
    rewrite ch_fips, maj_fips, temp1_fips by assumption. unfold u32, Fips.add. reflexivity.
Qed.

Lemma rounds_fips kws v : state_ok v → state_ok (foldl Fips.compression_step v kws) ∧
  foldl sha256_round (to_work v) kws = to_work (foldl Fips.compression_step v kws).
Proof.
  revert v. induction kws as [|kw kws IH]; intros v Hv; [done|]. cbn [foldl].
  destruct (round_fips v kw Hv) as [Hv' ->]. by apply IH.
Qed.

(** ** The message schedule *)

Lemma nth_reverse (w : list Z) k : (k < length w)%nat → nth k (reverse w) 0 = at_ w (length w - S k).
Proof.
  intros Hk. unfold at_. by rewrite nth_lookup, reverse_lookup.
Qed.

Lemma extend_fips n w : (16 ≤ length w)%nat → Forall Fips.word w →
  extend_words n w = reverse (Fips.extend n (reverse w)).
Proof.
  revert w. induction n as [|n IH]; intros w Hlen Hw; cbn [extend_words Fips.extend]; [by rewrite reverse_involutive|].
  cbv zeta. rewrite !nth_reverse by lia.
  assert (Hat : ∀ k, Fips.word (at_ w k)).
  { intros k. unfold at_. destruct (w !! k) as [x|] eqn:E; [|done]. by eapply Forall_lookup_1 in E. }
  destruct (sums_fips _ (Hat (length w - 15)%nat)) as (_ & _ & -> & _).
  destruct (sums_fips _ (Hat (length w - 2)%nat)) as (_ & _ & _ & ->).
  rewrite <- schedule_word_fips. set (x := u32 _).
  replace (x :: reverse w) with (reverse (w ++ [x])) by (by rewrite reverse_snoc).
  apply IH; [rewrite length_app; lia|]. apply Forall_app. split; [done|]. apply Forall_singleton.
  by apply Z.mod_pos_bound.
Qed.

Lemma lor_shift x y k : 0 ≤ k → 0 ≤ y < 2 ^ k → (x .<< k) .| y = x * 2 ^ k + y.
Proof.
  intros Hk Hy. rewrite <- Z.shiftl_mul_pow2, <- Z.add_lor_land by done.
  replace ((x .<< k) .& y) with 0; [lia|]. symmetry. apply Z.bits_inj_0. intros i. rewrite Z.land_spec.
  destruct (decide (i < k)) as [Hi|Hi].
  - destruct (decide (i < 0)); [by rewrite !Z.testbit_neg_r|]. by rewrite Z.shiftl_spec_low.
  - rewrite <- (Z.mod_small y (2 ^ k)), Z.mod_pow2_bits_high by lia. apply andb_false_r.
Qed.

Lemma lor_byte x y : byte y → (x * 256) .| y = x * 256 + y.
Proof.
  intros Hy. pose proof (lor_shift x y 8 ltac:(lia) Hy) as H.
  rewrite Z.shiftl_mul_pow2 in H by lia. change (2 ^ 8) with 256 in H. exact H.
Qed.

Lemma load_fips a b c d l : byte a → byte b → byte c → byte d →
  load_be32 (a :: b :: c :: d :: l) 0 = Fips.be_value [a; b; c; d].
Proof.
  intros Ha Hb Hc Hd. unfold load_be32, at_, Fips.be_value.
  cbn [Nat.add lookup list_lookup default from_option id foldl].
  assert (E1 : u32 (a .<< 24) = (a * 256) .<< 16).
  { unfold byte in Ha. unfold u32. rewrite !Z.shiftl_mul_pow2, Z.mod_small by lia. lia. }
  rewrite E1, <- Z.shiftl_lor, lor_byte by done.
  assert (E2 : (a * 256 + b) .<< 16 = ((a * 256 + b) * 256) .<< 8) by (rewrite !Z.shiftl_mul_pow2 by lia; lia).
  rewrite E2, <- Z.shiftl_lor, lor_byte by done.
  rewrite lor_shift by (done || lia). lia.
Qed.

Lemma words_fips n l : length l = (4 * n)%nat → Forall byte l →
  (λ i, load_be32 l (i * 4)) <$> seq 0 n = Fips.be_value <$> Fips.groups 4 n l ∧
  Forall Fips.word (Fips.be_value <$> Fips.groups 4 n l).
Proof.
  revert l. induction n as [|n IH]; intros l Hlen Hl; [done|].
  destruct l as [|a [|b [|c [|d l]]]]; try (simpl in Hlen; lia).
  rewrite !Forall_cons in Hl. destruct Hl as (Ha & Hb & Hc & Hd & Hl).
  destruct (IH l) as [E W]; [simpl in Hlen; lia|done|].
  change (Fips.groups 4 (S n) (a :: b :: c :: d :: l)) with ([a; b; c; d] :: Fips.groups 4 n l).
  cbn [fmap list_fmap]. rewrite <- cons_seq, fmap_cons, <- fmap_S_seq, <- list_fmap_compose. split.
  - f_equal; [by apply load_fips|]. unfold fmap in E |- *. rewrite <- E. by apply list_fmap_ext.
  - apply Forall_cons. split; [|done]. unfold byte, Fips.word, Fips.be_value in *. cbn [foldl]. lia.
Qed.

(** ** The hash *)

Lemma k_fips : sha256_k = Fips.K.
Proof. vm_compute. reflexivity. Qed.

Lemma initial_fips : sha256_initial = Fips.H0.
Proof. vm_compute. reflexivity. Qed.

Lemma schedule_fips block : length block = 64%nat → Forall byte block → schedule block = Fips.schedule block.
Proof.
  intros Hlen Hb. destruct (words_fips 16 block) as [E W]; [lia|done|].
  unfold schedule, Fips.schedule. rewrite E. apply extend_fips; [|done]. by rewrite <- E.
Qed.

Lemma transform_fips h block : state_ok h → length block = 64%nat → Forall byte block →
  sha256_transform h block = Fips.compress h block ∧ state_ok (Fips.compress h block).
Proof.
  intros Hh Hlen Hb. unfold sha256_transform, Fips.compress. rewrite k_fips, (schedule_fips block Hlen Hb).
  fold (to_work h). destruct (rounds_fips (zip Fips.K (Fips.schedule block)) h Hh) as [Hv ->].
  set (v := foldl Fips.compression_step h _) in *. clearbody v. destruct Hh as [Hh _], Hv as [Hv _].
  destruct h as [|a [|b [|c [|d [|e [|f [|g [|h [|]]]]]]]]]; try done.
  destruct v as [|a' [|b' [|c' [|d' [|e' [|f' [|g' [|h' [|]]]]]]]]]; try done.
  split; [done|]. split; [done|]. cbn [zip_with]. repeat (apply Forall_cons; split; [apply add_word|]). by apply Forall_nil.
Qed.

Lemma blocks_fips bs h : state_ok h → Forall (λ b, length b = 64%nat ∧ Forall byte b) bs →
  foldl sha256_transform h bs = foldl Fips.compress h bs ∧ state_ok (foldl Fips.compress h bs).
Proof.
  revert h. induction bs as [|b bs IH]; intros h Hh Hbs; [done|]. apply Forall_cons in Hbs as [[Hlen Hb] Hbs]. simpl.
  destruct (transform_fips h b Hh Hlen Hb) as [-> Hh']. by apply IH.
Qed.

Lemma be64_fips v : store_be64 (u64 v) = Fips.be_bytes 8 v.
Proof.
  unfold store_be64, Fips.be_bytes.
  assert (H : ∀ k, 0 ≤ k ≤ 7 → u8 (u64 v .>> (8 * k)) = (v / 256 ^ k) mod 256).
  { intros k Hk. unfold u8, u64. rewrite Z.shiftr_div_pow2 by lia. change 256 with (2 ^ 8). rewrite <- Z.pow_mul_r by lia.
    apply Z.bits_inj. intros i. destruct (decide (i < 0)); [by rewrite !Z.testbit_neg_r|].
    destruct (decide (i < 8)); [|by rewrite !Z.mod_pow2_bits_high by lia].
    rewrite !Z.mod_pow2_bits_low, !Z.div_pow2_bits, Z.mod_pow2_bits_low by lia. done. }
  change (reverse (seq 0 8)) with ((λ i, 7 - i)%nat <$> seq 0 8). rewrite <- list_fmap_compose.
  apply list_fmap_ext. intros i x [-> Hx]%lookup_seq. simpl Nat.add. unfold compose.
  replace (56 - Z.of_nat i * 8) with (8 * (7 - Z.of_nat i)) by lia. rewrite H by lia. do 3 f_equal. lia.
Qed.

Lemma be32_fips w : store_be32 w = Fips.be_bytes 4 w.
Proof.
  unfold store_be32, Fips.be_bytes, u8. change (reverse (seq 0 4)) with [3; 2; 1; 0]%nat. cbn [fmap list_fmap].
  rewrite !Z.shiftr_div_pow2 by lia. change (256 ^ Z.of_nat 0) with 1. by rewrite Z.div_1_r.
Qed.

Lemma pad_fips m : m ++ padding (Z.of_nat (length m)) = Fips.pad m.
Proof. unfold padding, Fips.pad. cbv zeta. by rewrite be64_fips, Z.mul_comm. Qed.

Lemma pad_bytes m : Forall byte m → Forall byte (Fips.pad m).
Proof.
  intros Hm. unfold Fips.pad. cbv zeta. apply Forall_app. split; [done|]. apply Forall_cons. split; [by split|].
  apply Forall_app. split; [by apply Forall_replicate|]. unfold Fips.be_bytes. apply Forall_fmap, Forall_true.
  intros i. by apply Z.mod_pos_bound.
Qed.

Lemma groups_ok n l : length l = (64 * n)%nat → Forall byte l →
  Forall (λ b, length b = 64%nat ∧ Forall byte b) (Fips.groups 64 n l).
Proof.
  revert l. induction n as [|n IH]; intros l Hlen Hl; [constructor|]. apply Forall_cons. split.
  - split; [rewrite length_take; lia|by apply Forall_take].
  - apply IH; [rewrite length_drop; lia|by apply Forall_drop].
Qed.

Lemma pad_length m : length (Fips.pad m) = (64 * (length (Fips.pad m) / 64))%nat.
Proof.
  enough (∃ k, length (Fips.pad m) = (k * 64)%nat) as [k ->] by (rewrite Nat.div_mul; lia).
  unfold Fips.pad. cbv zeta. rewrite !length_app. cbn [length]. rewrite length_app, length_replicate.
  change (length (Fips.be_bytes 8 _)) with 8%nat.
  pose proof (Z.mod_pos_bound (55 - Z.of_nat (length m)) 64 ltac:(lia)) as Hb.
  pose proof (Z.div_mod (55 - Z.of_nat (length m)) 64 ltac:(lia)) as Hd.
  exists (Z.to_nat (1 - (55 - Z.of_nat (length m)) / 64)). lia.
Qed.

Lemma hash_fips m : Forall byte m → hash_message m = Fips.sha256 m.
Proof.
  intros Hm. unfold hash_message, Fips.sha256. rewrite pad_fips, initial_fips. unfold blocks.
  change (reshape (replicate (length (Fips.pad m) / 64) 64%nat) (Fips.pad m))
    with (Fips.groups 64 (length (Fips.pad m) / 64) (Fips.pad m)).
  assert (H0 : state_ok Fips.H0) by (split; [done|apply Fips.constants_ok]).
  destruct (blocks_fips (Fips.groups 64 (length (Fips.pad m) / 64) (Fips.pad m)) Fips.H0 H0) as [-> [Hlen _]].
  { apply groups_ok; [apply pad_length|by apply pad_bytes]. }
  set (v := foldl Fips.compress _ _) in *. clearbody v. unfold digest_bytes.
  destruct v as [|a [|b [|c [|d [|e [|f [|g [|h [|]]]]]]]]]; try done.
  unfold at_. cbn [seq fmap list_fmap lookup list_lookup default from_option id]. by rewrite !be32_fips.
Qed.

(** ** Properties *)

(** C18 (equivalence): the hash is SHA-256.  Feeding a message of bytes to [sha256_update] in any
    pieces and calling [sha256_final] gives the hash that FIPS 180-4 defines for the whole
    message: its padding, message schedule, compression function and constants, written
    down independently of the code in [Fips180]. *)
Theorem sha256_streaming parts : Forall byte (mjoin parts) →
  sha256_final (foldl sha256_update sha256_init parts) = Fips.sha256 (mjoin parts).
Proof. intros Hb. rewrite sha256_updates. by apply hash_fips. Qed.

Lemma sha256_streaming_witness :
  sha256_final (foldl sha256_update sha256_init [text_of "a"; []; text_of "bc"]) = Fips.sha256 (text_of "abc").
Proof.
  apply (sha256_streaming [text_of "a"; []; text_of "bc"]).
  apply (bool_decide_unpack _). vm_compute. exact I.
Defined.
